(* ===== verification/_CoqProject ===== *)
-Q . S2P
Prelude.v
Scalar.v
Eigen.v
Ros.v
Derive.v
Rigid.v
Solver.v
Capture.v
Store.v
Persist.v
Calib.v
Terminal.v
Session.v
Events.v
Steps.v
Main.v
Scene.v
