(* ===== verification/Prelude.v ===== *)
(** * Verification of handeye_calib_camodocal

    The program ([src/src/handeye_calibration.cpp]) is a ROS node that
    calibrates the fixed transform between a robot end effector and a camera
    mounted on it.  It collects pairs of absolute poses (base -> end effector
    from the robot, fiducial tag -> camera from the vision system), turns
    every pair but the first into a motion relative to the first pair
    (axis-angle vector and translation), hands the four vectors of relative
    motions to camodocal's [estimateHandEyeScrew], and reports and stores the
    4x4 result.  It runs in one of two modes: an interactive loop driven by
    single key presses ([s] capture, [d] delete, [q] calibrate and quit), and
    a batch mode that loads a recorded file of pose pairs.

    ** Parts of the program and the files that model them

    The files are listed in the order they depend on each other.

    - [Prelude] (this file): what every component shares.  The [outcome]
      type with its monad: a computation returns a value ([Ok]), or it
      leaves the defined fragment of C++ or of a library or is ended by an
      exception that nothing catches ([Undef], with the reason);
      [std::vector] as a list with [push_back] and [pop_back] ([pop_back]
      of an empty vector is undefined behaviour); the C++ [int]
      and [unsigned int] conversions with their wrap-around, [++i] and [+]
      on [int] with their overflow; the characters the program prints that
      a string literal cannot hold; [rtc_preserves] and [eventually] for
      the invariants and the progress of a transition system; the hint
      database [calib] and the tactics [outcome_inv] and [calib_simpl].
    - [Scalar]: the arithmetic the program performs on [double], as the
      class [ScalarOps]; the square root, the printing of a [double] and
      its rounding to an [int] ([cvRound]) as the classes [Sqrt],
      [StreamOut] and [Round]; the exact rational instance used to run the
      models and the IEEE binary64 instance; the class [ExactField] of the
      laws that hold in exact arithmetic (and do not hold on IEEE
      doubles), and [OrderedField] for its order.
    - [Eigen]: [Eigen::Vector3d], [Matrix3d], [Matrix4d], [Affine3d] and the
      operations the source calls on them ([inverse], [operator*],
      [translation], [linear], [matrix], [norm], [operator<<]); the class
      [RotationLib] of the library conversions the source only calls
      ([rotation()] by polar decomposition, [AngleAxisd], [Quaterniond],
      [eulerAngles]); [eigenRotToEigenVector3dAngleAxis] (source lines
      29-34).
    - [Ros]: what the program prints, one [Msg] per statement ([ROS_INFO],
      [ROS_WARN], [std::cerr], [std::cout]); the parameter server and the
      eight [nh.param] calls of [main] ([read_params], lines 406-416); the
      answer of one tf lookup ([Lookup]: a transform, a timeout, or an
      exception) and [tf::transformTFToEigen].
    - [Derive]: the loop of [estimateHandEye] (lines 176-226) that derives
      the relative motions of a recorded sequence, with its local variables
      as the record [Locals], its [int] loop counter and what it prints;
      the specification [deriveAll].
    - [Rigid]: the algebra of [Affine3d] over an [ExactField], and what it
      gives for the derived motions.
    - [Solver]: the translation solve of the estimator (section 4.3 of the
      specification, step 2), modelled from the specification since the
      estimator is not part of the repository: one linear equation per
      relative motion, solved through the normal equations; the sum of
      squared residuals [residual_cost] that the solve is to minimise.
    - [Capture]: the global variables (lines 20-27) as the record
      [Globals]; [addFrame] (lines 297-394), with [addFrame_tf] for the
      lookups that may throw; the body of the [d] key of
      [main] (lines 455-463) as [deleteLastFrame]; the transition system
      [capture_step] of both; the invariant [coherent] that ties the cached
      relative motions to the stored pose pairs.
    - [Store]: the pose pair store of section 4.1 of the specification as
      the contract [store_step] ([append], [removeLast]) on the sequence
      [stored] that the globals hold, and what is well formed about the
      globals ([wf_globals]).
    - [Persist]: [cv::FileStorage] as a finite map from keys to nodes and
      the file system as a finite map from names to storages;
      [writeTransformPairsToFile] (lines 37-74) and
      [readTransformPairsFromFile] (lines 77-122), with the conversion of a
      node to an [int] as OpenCV makes it ([read_int]: a missing node is 0,
      a real is rounded, anything else is [INT_MAX]); the files the reader
      can load ([well_formed_pairs]) and the poses it takes from them
      ([poses_from]); the schema of section 6 of the specification in
      closed form ([pair_storage]).
    - [Calib]: the solver as the interface [HandEyeSolver] and the fields
      of [ceres::Solver::Summary] the program reads; [reportCalibration]
      (lines 124-169), [estimateHandEye] (lines 171-236) and
      [writeCalibration] (lines 238-279).
    - [Terminal]: [getch] (lines 283-295) over standard input as the
      record [Stdin] (terminal or not, its [termios] settings, the
      characters to come), with the two [static] structures of the function
      as state.
    - [Session]: the two modes of [main] (lines 396-496): [main_batch]
      for batch mode (lines 422-429), [loop_body] and [main_loop] for the
      interactive loop (lines 444-492) over the keys that were read, with
      the key, the answers of tf and the success of opening a file as
      inputs (one [Tick] per iteration).
    - [Events]: the command surface of section 6 of the specification as
      a machine that knows nothing of the globals or of the loops of the
      program.  Its state [SessionState] is the sequence of stored pairs,
      the files and whether the session is finalized; [event_step] gives
      [capture] (append the acquired pair, none after a timeout, and persist
      the pair file), [undo] (remove the last pair) and [finalize] (persist
      the solver's answer on the motions of the store); [events_run] runs
      the events up to the one that finalizes.  [event_of] reads an
      iteration of the loop as an event, [session_of] the globals as a
      state, and [tick_valid], [run_valid] and [batch_valid] say, on the
      state of the machine, where the program is free of undefined
      behaviour; [enabled] is what section 6 requires of [finalize], which
      the program does not check.
    - [Steps]: the same loop as the transition system [session_step] on
      the points [Config] of a session.
    - [Main]: [main] itself, on a standard input.  [iteration] and
      [interactive_loop] are the loop as the code has it, every iteration
      starting with a call of [getch] on the [Console] (the statics of
      [getch] and the standard input); [main] reads the parameters, picks
      the mode and returns the exit code, the files, what was printed and
      the standard input as the program leaves it.  [ticks_of] gives the
      ticks that a console and the answers of the environment amount to.
    - [Scene]: the frames behind the two lookups of [addFrame] (lines
      303-305 and 313-314).  The listener is a map from the name of a frame
      to its pose in the frame at the root of its tree; [lookupTransform]
      gives the pose of the source frame in the target frame, or times out
      on a frame it does not know; [answers_at] makes the two lookups with
      the frame names in the order the source passes them.  [mounted] is
      the scene of a calibration: the camera at [X] in the frame of the end
      effector, the tag at [W] in the base frame.

    The components interact through three interfaces, each a class whose
    instances the theorems quantify over: [ScalarOps] (with [Sqrt],
    [StreamOut] and [Round]) between the program and its arithmetic, [RotationLib]
    (with [Ros.TfLib]) between the program and the conversions of Eigen and
    tf, and [Calib.HandEyeSolver] between the program and camodocal.

    ** What the theorems show

    - [Derive]: the loop returns exactly on sequences within the bounds,
      and then implements [deriveAll]: [N-1] relative motions for [N]
      pairs, the first one being pair 1 relative to pair 0; it never reads
      its uninitialised locals; a second sequence shorter than the first,
      and a counter past [INT_MAX], are undefined behaviour; the bottom
      row of a pose matrix is never read, so what is handed to the solver
      depends on the top three rows only.
    - [Rigid]: in exact arithmetic [inverse] and [operator*] obey the laws
      of a group up to [≡]; the derived motions satisfy [A X ≡ X B] when
      the poses are those of a rigidly mounted camera, which is the pair of
      equations [R_A R_X = R_X R_B], [(R_A - I) t_X = R_X t_B - t_A] of
      section 4.3; their translations do not depend on the frames the poses
      are given in, and vanish when nothing moved.
    - [Solver]: in exact arithmetic the translation solve, given the
      rotation of the mounting, returns its translation on synthetic data
      [A = X B X^-1] and on what the loop of [estimateHandEye] derives from
      the poses of a rigidly mounted camera, whenever the normal matrix is
      invertible; the rotation of the mounting carries the axis of every
      camera motion to the axis of the arm motion.  On poses that fit no
      mounting, and for any estimate of the rotation, the translation
      solve returns the one minimiser of [residual_cost]
      ([deriveMotions_translation_least_squares]): the normal equations
      solve the least-squares problem of the specification.
    - [Capture]: [coherent] is an invariant of every run free of undefined
      behaviour: the cached vectors [rvecsArm], [tvecsArm], [rvecsFiducial],
      [tvecsFiducial] are what [estimateHandEye] derives from the stored
      pairs, so the [q] key and the batch mode call the solver with the same
      arguments.  A failed tf lookup leaves the store unchanged and is
      reported.  Deleting after a capture restores the store; deleting with
      fewer than two stored pairs is undefined behaviour.
    - [Store]: every reachable state of the globals is well formed, and
      every defined command is an [append] or a [removeLast] on the stored
      sequence (or leaves it alone) after which the cached vectors are
      [deriveAll] of it: the globals refine the store of the
      specification.
    - [Persist]: reading back what [writeTransformPairsToFile] wrote gives
      the pose pairs that were written; where writing is defined; the
      reader on every file: it is defined exactly on the files that are
      missing or well formed (a 4x4 matrix under [T1_i] and [T2_i] for
      every [i] below what [frameCount] converts to), and what it returns
      on each; a file that announces more pairs than it holds cannot be
      loaded; within the bounds the writer writes [pair_storage] of the two
      vectors, whose keys are [frameCount] and [T1_i], [T2_i] for every
      [i] below the count, and nothing else; when the second vector is the
      longer one the file holds the pairs up to the length of the first,
      with that length under [frameCount]
      ([writeTransformPairsToFile_schema]).
    - [Calib]: [estimateHandEye] hands the solver the motions of
      [deriveAll] and returns its answer untouched; the result file holds
      the nine entries of the schema, with [change_cost] the difference and
      [num_iteration] the sum; a result file that cannot be opened goes
      unreported.
    - [Terminal]: [getch] clears the [ICANON] bit, and only that bit, for
      the time of one read and restores the settings; a sequence of calls
      returns the characters typed, then [EOF] for ever.
    - [Session]: every run of the loop is a path of [capture_step] and
      ends coherent; what each key needs for its iteration to be free of
      undefined behaviour, and that a session of captures and stray keys
      returns when no lookup throws; the globals a run ends with depend on
      the keys and on the answers of tf only, not on what the files held or
      on which of them could be opened
      ([globals_independent_of_files]); the record file is current after a capture for as
      long as no [d] key is pressed, and stale after one; [q] ends the loop
      with the solver's answer for the stored pairs on file, and any other
      key is ignored; batch mode on every file: where it is defined, and
      that the result file then holds the solver's answer for the motions
      of the pairs in the file ([main_batch_spec]); batch mode on the record
      file of a session computes what the [q] key computes; it calls the
      solver even when there is no file, and never warns; [q] below five
      motions warns and calibrates all the same.
    - [Events]: the loop implements the machine exactly
      ([main_loop_refines_events]): from a coherent state a run returns if
      and only if every iteration up to the first [q] is valid, and then
      the pairs stored and the files left are those the machine reaches by
      the events of the run, so a valid run returns ([run_valid_returns]);
      batch mode is [finalize] on the pairs of the file to load; an event
      changes no file but the one it persists, and the store only by the
      steps of section 4.1, and the store the machine reaches does not
      depend on which files can be written.
    - [Steps]: the steps are deterministic, and a point of a session is
      finished, steps, or faces undefined behaviour; a session whose next
      key is [q]
      reaches the point where the result file holds the solver's answer
      for the stored pairs; an exception of [lookupTransform] leaves the
      session stuck without a calibration; the steps simulate the machine
      of [Events]: the points a session reaches are, through
      [abstraction], the states the events of the consumed ticks lead to
      ([session_steps_simulate]).
    - [Main]: the loop on the terminal is the loop over the ticks
      [ticks_of] gives, and it takes from the terminal one key per
      iteration it makes, up to and including the first [q]
      ([interactive_loop_reads_terminal]); [main] leaves the terminal with
      the settings it found and the characters after the first [q] unread;
      a session typed as any keys but [q], then [q], returns 0 with the
      calibration on file; a second run of [main], in batch mode on the
      file the first run recorded, reproduces the calibration the first run
      wrote; at the end of the input every iteration reports the key -1
      and the loop runs until [ros::ok()] is false; [main] as a whole
      implements the machine of [Events] ([main_implements_events]): it
      returns exactly on the valid runs, in either mode, and leaves the
      files of the machine.
    - [Scene]: in the scene of a calibration the two lookups yield poses
      [E], [C] with [E X ≡ W C]; every pair a session stores is such a
      pair, whatever keys are pressed ([consistent] is an invariant of the
      loop), and every [s] key stores one; a session of captures and stray
      keys ended by [q] returns 0 with the result file holding the solver's
      answer on one motion per capture after the first, each of transforms
      [A], [B] with [A X ≡ X B] ([mounted_session_calibrates]): from the
      frame names to the result file, the unknown of the equation the
      program sets up is the pose of the camera in the frame of the end
      effector.  With deletions among the keys the same holds of the
      result whenever [main] returns ([mounted_session_result]).

    The theorems about the program that have hypotheses are followed, at
    the end of their file, by a lemma that applies them to sample poses
    with rational entries.

    ** Bounds and fuel

    No definition takes fuel: every loop of the source is a counted loop over
    a vector or up to [frameCount], or runs once per key, and is modelled by
    structural recursion on the list, on the count, or on the list of
    ticks.  The interactive loop does not end by itself: it ends at the [q]
    key or when [ros::ok()] turns false.  The list of answers of the
    environment that [Main.interactive_loop] recurses on is as long as the
    number of times [ros::ok()] is true, so a finite list is a session
    that is shut down at some point, and the progress theorems
    ([Steps.quit_eventually_calibrates], [Main.typed_session_calibrates])
    assume that [q] is pressed before that and show that the calibration
    is then reached.  Loop counters declared [int] are kept as [Z] with the
    overflow at [INT_MAX] made explicit, so the theorems that need a loop
    to be defined state [length l <= INT_MAX].

    ** Not modelled

    The hand-eye solver ([camodocal::HandEyeCalibration], a library
    outside the repository) and the numerical conversions of Eigen and tf
    (polar decomposition, axis-angle, quaternion, Euler angles) are
    interfaces: the theorems about the program hold for every
    implementation of them.  Of the solver only the translation solve is
    modelled, from the specification ([Solver]); its rotation solve and its
    nonlinear refinement need a singular value decomposition, trigonometry
    and an optimiser, which have no exact model here, and the step counts
    and costs of the summary are whatever the solver reports.  The models
    run on IEEE binary64 through the instance [Scalar.float_ops], but no
    theorem bounds a rounding error: the algebraic laws are assumed only
    where a theorem names [ExactField], which the rationals satisfy and
    the doubles do not.  How a [double] is printed is the interface [StreamOut];
    the YAML text OpenCV writes is not modelled, a storage being a map from
    keys to nodes.  Of tf only the geometry is modelled ([Scene]): the
    frames at the time of a capture, not the time stamps, the buffer, the
    interpolation between stamps or the 10 s of [waitForTransform]; a
    [lookupTransform] that throws is an answer of [Ros.Lookup] that no tree
    of frames gives.  Of the terminal only what [getch] touches is modelled
    (the four flag words of [termios], not the control characters or the
    line speeds, and not the blocking of [getchar]: the comment of line
    291 of the source calls the read non-blocking, but with [ICANON]
    cleared and nothing else changed [getchar] waits for a key, and the
    model gives each iteration the next character typed).  An exception
    that nothing catches is an [Undef] outcome like undefined behaviour:
    the model says that the run ends there, and the transition system of
    [Steps] where it stood, not what [std::terminate] does.  Process
    start-up and shutdown ([ros::init], [ros::shutdown]) and timing
    ([ros::Rate], the 10 s lookup timeout, the initial sleep) are left
    out.

    ** Simplifications to keep in mind

    - An [Undef] outcome carries nothing: the lines printed and the files
      written before the point of undefined behaviour or of the exception
      are not kept.  [addFrame_tf] examines the answers of the two lookups
      together, so the warning that the first lookup prints before the
      second one throws is not in the model; no theorem speaks of the
      output of a run that does not return.
    - [HandEyeSolver] is a total function of the four vectors: calls with
      equal arguments give equal answers, the uninitialised [Matrix4d] that
      [estimateHandEye] passes by reference is taken to be overwritten, and
      an exception raised inside camodocal is not an answer of the
      interface.
    - A file is open for reading exactly when its name is a key of the map
      of files, and a storage is already a map from keys to nodes: a file
      that exists but is not YAML that OpenCV parses has no counterpart.
      [well_formed_pairs] is stated with the conversion [read_int] of the
      model, and an integer node [NInt] holds an unbounded [Z], the range
      of what OpenCV stores not being fixed by the source.
    - The zero rotation of section 8 of the specification is a case of
      [Eigen::AngleAxisd], which the program calls without a test (line
      33): [RotationLib] leaves the answer open, and no theorem is stated
      of it.
    - The comparison [i < t1.size()] of line 184, between an [int] and a
      [size_t], is modelled as the end of the vector: from the counter 0
      that [estimateHandEye] starts with, the two agree up to [INT_MAX]. *)

From Stdlib Require Import ZArith List Lia.
From stdpp Require Import base tactics option list strings relations.

(** ** Outcomes: defined results and undefined behaviour *)

(** Why an execution left the defined fragment of C++ or of a library, or
    was cut short by an exception. *)
Inductive undefined : Type :=
| PopBackEmpty      (* std::vector::pop_back on an empty vector *)
| IteratorPastEnd   (* dereference of an iterator at or past end() *)
| SignedOverflow    (* int arithmetic whose result is no int *)
| CvShapeMismatch   (* cv2eigen into a 4x4 matrix of a node that is no 4x4 matrix *)
| CvTypeMismatch    (* a file node read at a type it was not written with *)
| UncaughtException. (* an exception that nothing catches: the process is terminated *)

Inductive outcome (A : Type) : Type :=
| Ok (a : A)
| Undef (u : undefined).
Arguments Ok {A} a.
Arguments Undef {A} u.

#[export] Instance undefined_eq_dec : EqDecision undefined.
Proof. solve_decision. Defined.

#[export] Instance outcome_eq_dec {A} `{EqDecision A} : EqDecision (outcome A).
Proof. solve_decision. Defined.

#[export] Instance outcome_ret : MRet outcome := @Ok.
#[export] Instance outcome_bind : MBind outcome :=
  λ A B f m, match m with Ok a => f a | Undef u => Undef u end.
#[export] Instance outcome_fmap : FMap outcome :=
  λ A B f m, match m with Ok a => Ok (f a) | Undef u => Undef u end.

Definition is_ok {A} (m : outcome A) : bool :=
  match m with Ok _ => true | Undef _ => false end.

(** ** Characters the program prints *)

(** Line feed, escape (the first character of the colour sequences) and
    the double quote. *)
Definition nl : string := String (Ascii.ascii_of_nat 10) EmptyString.
Definition esc : string := String (Ascii.ascii_of_nat 27) EmptyString.
Definition dquote : string := String (Ascii.ascii_of_nat 34) EmptyString.

(** What a defined computation returned ([d] otherwise). *)
Definition returned {A} (d : A) (m : outcome A) : A :=
  match m with Ok a => a | Undef _ => d end.

(** ** std::vector *)

Definition push_back {A} (x : A) (v : list A) : list A := v ++ [x].

Definition pop_back {A} (v : list A) : outcome (list A) :=
  match v with
  | [] => Undef PopBackEmpty
  | _ :: _ => Ok (removelast v)
  end.

(** ** Machine integers *)

Definition INT_MAX : Z := 2 ^ 31 - 1.

(** Conversion of a value to [int] (32 bits, two's complement). *)
Definition to_int (z : Z) : Z := (z + 2 ^ 31) `mod` 2 ^ 32 - 2 ^ 31.

(** Conversion of a value to [unsigned int]. *)
Definition to_uint (z : Z) : Z := z `mod` 2 ^ 32.

(** [++i] on an [int]. *)
Definition int_incr (i : Z) : outcome Z :=
  if decide (i = INT_MAX) then Undef SignedOverflow else Ok (i + 1)%Z.

Definition INT_MIN : Z := - 2 ^ 31.

(** [a + b] on two [int]s. *)
Definition int_add (a b : Z) : outcome Z :=
  if decide (INT_MIN ≤ a + b ≤ INT_MAX)%Z then Ok (a + b)%Z else Undef SignedOverflow.

(** ** Progress of a transition system *)

(** [eventually R P a]: a path of [R] from [a] reaches a state where [P]
    holds.  The systems of this development are deterministic, so the path
    is the run. *)
Inductive eventually {A} (R : relation A) (P : A → Prop) (a : A) : Prop :=
  | eventually_done : P a → eventually R P a
  | eventually_step b : R a b → eventually R P b → eventually R P a.

(** ** Lemmas on outcomes *)

Lemma bind_Ok {A B} (f : A → outcome B) (m : outcome A) (b : B) :
  m ≫= f = Ok b ↔ ∃ a, m = Ok a ∧ f a = Ok b.
Proof. destruct m; simpl; split; [eauto|intros (?&[=]&?); by subst|done|by intros (?&?&?)]. Qed.

Lemma mret_Ok {A} (a b : A) : mret a = Ok b ↔ a = b.
Proof. split; [by intros [= ->]|by intros ->]. Qed.

Lemma bind_Undef {A B} (f : A → outcome B) (m : outcome A) (u : undefined) :
  m ≫= f = Undef u ↔ m = Undef u ∨ ∃ a, m = Ok a ∧ f a = Undef u.
Proof.
  destruct m; simpl; split.
  - eauto.
  - intros [|(?&[=]&?)]; by subst.
  - intros [= ->]. by left.
  - intros [[= ->]|(?&?&?)]; done.
Qed.

Lemma fmap_Ok {A B} (f : A → B) (m : outcome A) (b : B) :
  f <$> m = Ok b ↔ ∃ a, m = Ok a ∧ b = f a.
Proof.
  unfold fmap, outcome_fmap. destruct m; split.
  - intros [= <-]. eauto.
  - intros (?&[= <-]&->). done.
  - done.
  - by intros (?&?&?).
Qed.

Lemma is_ok_true {A} (m : outcome A) : is_ok m = true ↔ ∃ a, m = Ok a.
Proof. destruct m; simpl; split; eauto; (done || by intros [? [=]]). Qed.

Lemma returned_Ok {A} (d : A) (m : outcome A) : is_ok m = true → m = Ok (returned d m).
Proof. by destruct m. Qed.

(** ** Lemmas on vectors *)

Lemma pop_back_push_back {A} (x : A) (v : list A) :
  pop_back (push_back x v) = Ok v.
Proof.
  unfold pop_back, push_back. destruct (v ++ [x]) eqn:E.
  - by destruct v.
  - by rewrite <- E, removelast_last.
Qed.

Lemma pop_back_Ok {A} (v w : list A) :
  pop_back v = Ok w ↔ ∃ x, v = push_back x w.
Proof.
  split.
  - destruct v as [|a v]; [done|]. intros [= <-].
    exists (List.last (a :: v) a). by apply app_removelast_last.
  - intros [x ->]. apply pop_back_push_back.
Qed.

Lemma pop_back_Undef {A} (v : list A) (u : undefined) :
  pop_back v = Undef u ↔ v = [] ∧ u = PopBackEmpty.
Proof.
  destruct v; simpl; split; try done.
  - by intros [= <-].
  - by intros [_ ->].
  - by intros [[=] _].
Qed.

Lemma length_push_back {A} (x : A) (v : list A) :
  length (push_back x v) = S (length v).
Proof. unfold push_back. rewrite length_app. simpl. lia. Qed.

Lemma push_back_inj {A} (x y : A) (v w : list A) :
  push_back x v = push_back y w → v = w ∧ x = y.
Proof. unfold push_back. intros H. by apply app_inj_tail in H. Qed.

Lemma push_back_not_nil {A} (x : A) (v : list A) : push_back x v ≠ [].
Proof. unfold push_back. by destruct v. Qed.

Lemma Forall_push_back {A} (P : A → Prop) (x : A) (v : list A) :
  Forall P v → P x → Forall P (push_back x v).
Proof. intros Hv Hx. apply Forall_app. by split; [|constructor]. Qed.

Lemma Forall_pop_back {A} (P : A → Prop) (v w : list A) :
  Forall P v → pop_back v = Ok w → Forall P w.
Proof. intros Hv [x ->]%pop_back_Ok. by apply Forall_app in Hv as [? _]. Qed.

Lemma Forall_removelast {A} (P : A → Prop) (v : list A) :
  Forall P v → Forall P (removelast v).
Proof.
  induction v as [|x v _] using rev_ind; [done|].
  rewrite removelast_last. by intros [? _]%Forall_app.
Qed.

Lemma length_pop_back {A} (v w : list A) :
  pop_back v = Ok w → length v = S (length w).
Proof. intros [x ->]%pop_back_Ok. apply length_push_back. Qed.

Lemma push_back_cons {A} (x y : A) (v : list A) :
  push_back x (y :: v) = y :: push_back x v.
Proof. done. Qed.

(** [omap] of a function that is defined on every element keeps the
    length. *)
Lemma length_omap_total {A B} (f : A → option B) (l : list A) :
  Forall (λ x, is_Some (f x)) l → length (omap f l) = length l.
Proof. induction 1 as [|x l [y Hy] _ IH]; simpl; [done|]. rewrite Hy. simpl. f_equal. exact IH. Qed.

(** ** Invariants of a transition system *)

(** What every step preserves holds along every path. *)
Lemma rtc_preserves {A} (R : relation A) (I : A → Prop) (x y : A) :
  (∀ a b, R a b → I a → I b) → rtc R x y → I x → I y.
Proof. intros Hstep. induction 1; eauto. Qed.

Section Eventually.
Context {A : Type} (R : relation A).

Lemma eventually_rtc (P : A → Prop) (a b : A) :
  rtc R a b → eventually R P b → eventually R P a.
Proof. induction 1; eauto using eventually. Qed.

Lemma eventually_weaken (P Q : A → Prop) (a : A) :
  (∀ x, P x → Q x) → eventually R P a → eventually R Q a.
Proof. induction 2; eauto using eventually. Qed.

Lemma eventually_reaches (P : A → Prop) (a : A) :
  eventually R P a ↔ ∃ b, rtc R a b ∧ P b.
Proof.
  split.
  - induction 1 as [a Ha|a b Hab _ (c & Hbc & Hc)]; [by exists a|].
    exists c. split; [by econstructor|done].
  - intros (b & Hab & Hb). eapply eventually_rtc; [done|by constructor].
Qed.

(** In a deterministic system what some path reaches, every path that runs
    to a state without successor passes through. *)
Lemma eventually_deterministic (P : A → Prop) (a b : A) :
  (∀ x y z, R x y → R x z → y = z) →
  eventually R P a → rtc R a b → (∀ c, ¬ R b c) →
  ∃ c, rtc R a c ∧ rtc R c b ∧ P c.
Proof.
  intros Hdet Hev. revert b. induction Hev as [a Ha|a a' Hstep _ IH]; intros b Hab Hend.
  - exists a. split; [reflexivity|done].
  - destruct Hab as [|a a'' b Hstep' Hrest]; [by destruct (Hend a')|].
    rewrite <- (Hdet _ _ _ Hstep Hstep') in Hrest.
    destruct (IH b Hrest Hend) as (c & Hac & Hcb & Hc).
    exists c. split; [exact (rtc_l _ _ _ _ Hstep Hac)|done].
Qed.

End Eventually.

(** ** Lemmas on machine integers *)

Lemma to_int_small (z : Z) : (- 2 ^ 31 ≤ z ≤ INT_MAX)%Z → to_int z = z.
Proof. unfold to_int, INT_MAX. intros ?. rewrite Z.mod_small; lia. Qed.

Lemma to_uint_small (z : Z) : (0 ≤ z < 2 ^ 32)%Z → to_uint z = z.
Proof. unfold to_uint. intros ?. by rewrite Z.mod_small. Qed.

Lemma testbit_to_uint (z i : Z) :
  (0 ≤ i)%Z → Z.testbit (to_uint z) i = if decide (i < 32)%Z then Z.testbit z i else false.
Proof.
  intros Hi. unfold to_uint. case_decide.
  - by apply Z.mod_pow2_bits_low.
  - apply Z.mod_pow2_bits_high. lia.
Qed.

Lemma testbit_uint_high (z i : Z) :
  (0 ≤ z < 2 ^ 32)%Z → (32 ≤ i)%Z → Z.testbit z i = false.
Proof.
  intros Hz Hi. rewrite <- (Z.mod_small z (2 ^ 32)) by done.
  apply Z.mod_pow2_bits_high. lia.
Qed.

Lemma int_incr_Ok (i : Z) : (i < INT_MAX)%Z → int_incr i = Ok (i + 1)%Z.
Proof. unfold int_incr. intros ?. case_decide; [lia|done]. Qed.

Lemma int_add_Ok (a b : Z) :
  (INT_MIN ≤ a + b ≤ INT_MAX)%Z → int_add a b = Ok (a + b)%Z.
Proof. unfold int_add. intros ?. by case_decide. Qed.

Lemma int_add_defined (a b : Z) :
  is_ok (int_add a b) = true ↔ (INT_MIN ≤ a + b ≤ INT_MAX)%Z.
Proof. unfold int_add. case_decide; simpl; split; (done || lia). Qed.

(** ** Automation *)

Create HintDb calib discriminated.
Create Rewrite HintDb calib.

#[export] Hint Rewrite @pop_back_push_back @length_push_back : calib.
#[export] Hint Rewrite @length_app @length_map @removelast_last : calib.
#[export] Hint Resolve push_back_not_nil Forall_push_back Forall_pop_back : calib.

(** Invert hypotheses that say a monadic computation returned a value:
    binds are split into their steps, tuples into their components, and
    the equations between results are substituted. *)
Ltac outcome_inv :=
  repeat match goal with
  | H : Undef _ = Ok _ |- _ => discriminate H
  | H : Ok _ = Undef _ |- _ => discriminate H
  | H : mret _ = Ok _ |- _ => apply (proj1 (mret_Ok _ _)) in H
  | H : Ok _ = Ok _ |- _ => injection H as H
  | H : Undef _ = Undef _ |- _ => injection H as H
  | H : _ ≫= _ = Ok _ |- _ => apply bind_Ok in H as (? & ? & H)
  | H : context [match ?x with (_, _) => _ end] |- _ => is_var x; destruct x
  | H : (_, _) = (_, _) |- _ => injection H as ? ?
  | H : pop_back _ = Ok _ |- _ => apply pop_back_Ok in H as [? ->]
  | H : pop_back _ = Undef _ |- _ => apply pop_back_Undef in H as [-> ->]
  | H : push_back _ _ = push_back _ _ |- _ => apply push_back_inj in H as [? ?]
  end; subst.

(** Normalise a goal with the shared rewrite rules. *)
Ltac calib_simpl := simpl; autorewrite with calib; simpl in *.
