(* ===== verification/Scalar.v ===== *)
(** * Scalar: the arithmetic of the program's [double]

    The source computes on [double] through Eigen.  The models are written
    over a type [F] with the operations of the class [ScalarOps]; nothing is
    assumed of them unless a theorem also names [ExactField], the laws of a
    field up to an equivalence [≡].  Two instances run the models: exact
    rationals ([Q_ops], which satisfies [ExactField]) and IEEE binary64
    ([float_ops], which does not: see [float_add_not_associative]).
    [OrderedField] adds the order of the field, for the theorems that
    compare residuals.

    What the program takes from the C++ library on a [double] is kept
    apart: the square root ([Sqrt], behind Eigen's [norm()]), the
    insertion into a stream ([StreamOut], [operator<<] at the stream's
    default precision) and the rounding to an [int] ([Round], OpenCV's
    [cvRound], behind the reading of a real file node as an [int]). *)

From Stdlib Require Import ZArith QArith Qfield Field Lqa PrimFloat.
From stdpp Require Import base tactics decidable strings pretty.
From S2P Require Import Prelude.

(** ** Operations *)

Class ScalarOps (F : Type) : Type := {
  s_zero : F;
  s_one : F;
  s_add : F → F → F;
  s_sub : F → F → F;
  s_mul : F → F → F;
  s_div : F → F → F;
  s_opp : F → F;
}.

Declare Scope scalar_scope.
Delimit Scope scalar_scope with S.
Notation "0" := s_zero : scalar_scope.
Notation "1" := s_one : scalar_scope.
Infix "+" := s_add : scalar_scope.
Infix "-" := s_sub : scalar_scope.
Infix "*" := s_mul : scalar_scope.
Infix "/" := s_div : scalar_scope.
Notation "- x" := (s_opp x) : scalar_scope.

(** [std::sqrt]. *)
Class Sqrt (F : Type) : Type := s_sqrt : F → F.

(** [std::ostream::operator<<(double)]. *)
Class StreamOut (F : Type) : Type := print_double : F → string.

(** [cvRound]: the [int] nearest to a [double], a half going to the even
    neighbour (the rounding of [lrint]). *)
Class Round (F : Type) : Type := cvRound : F → Z.

(** [Scalar(1) / x], the way Eigen inverts a determinant. *)
Definition s_inv {F} `{ScalarOps F} (x : F) : F := s_div s_one x.

(** ** The laws of exact arithmetic *)

Class ExactField (F : Type) `{ScalarOps F} `{Equiv F} : Prop := {
  ef_equivalence :: Equivalence (≡@{F});
  ef_add_proper :: Proper ((≡) ==> (≡) ==> (≡@{F})) s_add;
  ef_sub_proper :: Proper ((≡) ==> (≡) ==> (≡@{F})) s_sub;
  ef_mul_proper :: Proper ((≡) ==> (≡) ==> (≡@{F})) s_mul;
  ef_div_proper :: Proper ((≡) ==> (≡) ==> (≡@{F})) s_div;
  ef_opp_proper :: Proper ((≡) ==> (≡@{F})) s_opp;
  ef_field :
    field_theory s_zero s_one s_add s_mul s_sub s_opp
      s_div s_inv (≡@{F});
}.

(** The order of the field: sums of squares are not negative. *)
Class Le (F : Type) : Type := s_le : relation F.
Infix "≤" := s_le : scalar_scope.

Class OrderedField (F : Type) `{ExactField F} `{Le F} : Prop := {
  of_le_proper :: Proper ((≡) ==> (≡) ==> iff) (s_le (F:=F));
  of_le_preorder :: PreOrder (s_le (F:=F));
  of_le_antisym (a b : F) : (a ≤ b → b ≤ a → a ≡ b)%S;
  of_add_le_mono (a b c d : F) : (a ≤ b → c ≤ d → a + c ≤ b + d)%S;
  of_square_nonneg (a : F) : (0 ≤ a * a)%S;
}.

(** ** Exact rationals *)

#[export] Instance Q_ops : ScalarOps Q := {|
  s_zero := 0%Q;
  s_one := 1%Q;
  s_add := Qplus;
  s_sub := Qminus;
  s_mul := Qmult;
  s_div := Qdiv;
  s_opp := Qopp;
|}.

#[export] Instance Q_equiv : Equiv Q := Qeq.

#[export] Instance Q_eq_dec : EqDecision Q.
Proof. solve_decision. Defined.

#[export] Instance Q_equiv_dec : RelDecision (≡@{Q}).
Proof. intros x y. apply Qeq_dec. Defined.

#[export] Instance Q_exact : ExactField Q.
Proof.
  split; try apply _.
  destruct Qsft as [R ? ? ?].
  split; try done.
  - intros p q. unfold s_inv. simpl. unfold Qdiv. by rewrite Qmult_1_l.
  - intros p Hp. unfold s_inv. simpl. unfold Qdiv. rewrite Qmult_1_l, Qmult_comm.
    by apply Qmult_inv_r.
Qed.

#[export] Instance Q_le : Le Q := Qle.

#[export] Instance Q_le_dec : RelDecision (s_le (F:=Q)).
Proof. intros x y. destruct (Qlt_le_dec y x); [right; by apply Qlt_not_le|by left]. Defined.

#[export] Instance Q_ordered : OrderedField Q.
Proof.
  split.
  - intros a a' Ha b b' Hb. unfold s_le, Q_le. by rewrite Ha, Hb.
  - split; [exact Qle_refl|exact Qle_trans].
  - intros a b. apply Qle_antisym.
  - intros a b c d. apply Qplus_le_compat.
  - intros a. simpl. unfold s_le, Q_le. nra.
Qed.

(** The root of a rational is taken on numerator and denominator apart,
    each rounded down: exact on the squares of rationals in lowest terms.
    A rational is printed as numerator, slash, denominator.  Both stand in
    for the C++ library when a model is run on rationals; no theorem
    depends on them. *)
#[export] Instance Q_sqrt : Sqrt Q :=
  λ q, (Z.sqrt (Qnum q) # Pos.sqrt (Qden q))%Q.

#[export] Instance Q_stream : StreamOut Q :=
  λ q, pretty (Qnum q) +:+ "/" +:+ pretty (Z.pos (Qden q)).

#[export] Instance Q_round : Round Q := λ q,
  let n := Qnum q in
  let d := Z.pos (Qden q) in
  let below := (n `div` d)%Z in
  match (2 * (n `mod` d) ?= d)%Z with
  | Lt => below
  | Gt => (below + 1)%Z
  | Eq => if Z.even below then below else (below + 1)%Z
  end.

(** ** IEEE binary64 *)

#[export] Instance float_ops : ScalarOps float := {|
  s_zero := 0%float;
  s_one := 1%float;
  s_add := PrimFloat.add;
  s_sub := PrimFloat.sub;
  s_mul := PrimFloat.mul;
  s_div := PrimFloat.div;
  s_opp := PrimFloat.opp;
|}.

#[export] Instance float_sqrt : Sqrt float := PrimFloat.sqrt.

(** ** Consequences of the laws *)

Section ExactFieldFacts.
Context {F : Type} `{ExactField F}.

#[export] Instance s_inv_proper : Proper ((≡) ==> (≡@{F})) s_inv.
Proof. intros x y Hxy. unfold s_inv. by rewrite Hxy. Qed.

Add Field exact_field : ef_field.

Lemma s_add_0_l (x : F) : (0 + x ≡ x)%S.
Proof. ring. Qed.

Lemma s_mul_1_l (x : F) : (1 * x ≡ x)%S.
Proof. ring. Qed.

Lemma s_mul_0_l (x : F) : (0 * x ≡ 0)%S.
Proof. ring. Qed.

Lemma s_div_mul (x y : F) : ¬ (y ≡ 0)%S → (x / y * y ≡ x)%S.
Proof. intros. by field. Qed.

End ExactFieldFacts.

(** On [double] the laws fail: addition is not associative. *)
Example float_add_not_associative :
  PrimFloat.eqb ((1e16 + 1) + 1)%float (1e16 + (1 + 1))%float = false.
Proof. vm_compute. reflexivity. Qed.

(** Halves are rounded to the even neighbour. *)
Example Q_round_halves :
  cvRound (5 # 2)%Q = 2%Z ∧ cvRound (7 # 2)%Q = 4%Z ∧ cvRound (-1 # 2)%Q = 0%Z ∧
  cvRound (-7 # 4)%Q = (-2)%Z.
Proof. done. Qed.
