(* ===== verification/Eigen.v ===== *)
(** * Eigen: the vectors, matrices and transforms of the program

    [Eigen::Vector3d], [Matrix3d], [Matrix4d] and [Affine3d]
    ([Transform<double,3,Affine>], which stores a 4x4 matrix) over a scalar
    type with [ScalarOps], and the operations the source calls on them.
    An affine transform's operations read only the top three rows of its
    matrix and write the bottom row [0 0 0 1], as Eigen's do in [Affine]
    mode; the bottom row is still stored, because [matrix()] exposes it to
    the file reader and writer.

    The conversions that need square roots, an SVD or inverse trigonometric
    functions ([rotation()], [AngleAxisd], [Quaterniond], [eulerAngles]) are
    the interface [RotationLib]: the program's models take any instance of
    it.  [eigenRotToEigenVector3dAngleAxis] is the source's own function
    (lines 29-34) on top of that interface. *)

From Stdlib Require Import ZArith QArith.
From stdpp Require Import base tactics decidable list list_numbers strings.
From S2P Require Import Prelude Scalar.

(** ** Data *)

Record Vector3d (F : Type) : Type := Vec3 { vx : F; vy : F; vz : F }.
Arguments Vec3 {F} vx vy vz.
Arguments vx {F} v.
Arguments vy {F} v.
Arguments vz {F} v.

Record Vector4d (F : Type) : Type := Vec4 { wx : F; wy : F; wz : F; ww : F }.
Arguments Vec4 {F} wx wy wz ww.
Arguments wx {F} v.
Arguments wy {F} v.
Arguments wz {F} v.
Arguments ww {F} v.

(** A 3x3 matrix, by rows. *)
Record Matrix3d (F : Type) : Type :=
  Mat3 { m3_row0 : Vector3d F; m3_row1 : Vector3d F; m3_row2 : Vector3d F }.
Arguments Mat3 {F} m3_row0 m3_row1 m3_row2.
Arguments m3_row0 {F} m.
Arguments m3_row1 {F} m.
Arguments m3_row2 {F} m.

(** A 4x4 matrix, by rows. *)
Record Matrix4d (F : Type) : Type :=
  Mat4 { row0 : Vector4d F; row1 : Vector4d F; row2 : Vector4d F; row3 : Vector4d F }.
Arguments Mat4 {F} row0 row1 row2 row3.
Arguments row0 {F} m.
Arguments row1 {F} m.
Arguments row2 {F} m.
Arguments row3 {F} m.

(** [Eigen::Affine3d]: a transform is its 4x4 matrix. *)
Record Affine3d (F : Type) : Type := Transform { matrix : Matrix4d F }.
Arguments Transform {F} matrix.
Arguments matrix {F} a.

(** [Eigen::AngleAxisd]. *)
Record AngleAxisd (F : Type) : Type := AngleAxis { angle : F; axis : Vector3d F }.
Arguments AngleAxis {F} angle axis.
Arguments angle {F} a.
Arguments axis {F} a.

(** [Eigen::Quaterniond], with the accessors the source uses. *)
Record Quaterniond (F : Type) : Type := Quaternion { qx : F; qy : F; qz : F; qw : F }.
Arguments Quaternion {F} qx qy qz qw.
Arguments qx {F} q.
Arguments qy {F} q.
Arguments qz {F} q.
Arguments qw {F} q.

#[export] Instance Vector3d_eq_dec {F} `{EqDecision F} : EqDecision (Vector3d F).
Proof. solve_decision. Defined.
#[export] Instance Vector4d_eq_dec {F} `{EqDecision F} : EqDecision (Vector4d F).
Proof. solve_decision. Defined.
#[export] Instance Matrix3d_eq_dec {F} `{EqDecision F} : EqDecision (Matrix3d F).
Proof. solve_decision. Defined.
#[export] Instance Matrix4d_eq_dec {F} `{EqDecision F} : EqDecision (Matrix4d F).
Proof. solve_decision. Defined.
#[export] Instance Affine3d_eq_dec {F} `{EqDecision F} : EqDecision (Affine3d F).
Proof. solve_decision. Defined.

(** ** The library conversions the source only calls *)

Class RotationLib (F : Type) : Type := {
  (** [Transform::rotation()] in [Affine] mode: the rotation factor of the
      polar decomposition of the linear part. *)
  polar_rotation : Matrix3d F → Matrix3d F;
  (** [AngleAxisd(const Matrix3d&)]. *)
  toAngleAxis : Matrix3d F → AngleAxisd F;
  (** [Quaterniond(const Matrix3d&)]. *)
  toQuaternion : Matrix3d F → Quaterniond F;
  (** [Matrix3d::eulerAngles(2, 1, 0)]. *)
  eulerAngles210 : Matrix3d F → Vector3d F;
}.

(** ** Operations *)

Section Operations.
Context {F : Type} `{ScalarOps F}.
Local Open Scope scalar_scope.

Definition v3_zero : Vector3d F := Vec3 0 0 0.

Definition v3_add (a b : Vector3d F) : Vector3d F :=
  Vec3 (vx a + vx b) (vy a + vy b) (vz a + vz b).

(** [s * v], a scalar times a vector. *)
Definition v3_scale (s : F) (v : Vector3d F) : Vector3d F :=
  Vec3 (s * vx v) (s * vy v) (s * vz v).

Definition v3_dot (a b : Vector3d F) : F :=
  vx a * vx b + vy a * vy b + vz a * vz b.

Definition m3_identity : Matrix3d F :=
  Mat3 (Vec3 1 0 0) (Vec3 0 1 0) (Vec3 0 0 1).

Definition m3_col0 (m : Matrix3d F) : Vector3d F :=
  Vec3 (vx (m3_row0 m)) (vx (m3_row1 m)) (vx (m3_row2 m)).
Definition m3_col1 (m : Matrix3d F) : Vector3d F :=
  Vec3 (vy (m3_row0 m)) (vy (m3_row1 m)) (vy (m3_row2 m)).
Definition m3_col2 (m : Matrix3d F) : Vector3d F :=
  Vec3 (vz (m3_row0 m)) (vz (m3_row1 m)) (vz (m3_row2 m)).

Definition m3_mul_vec (m : Matrix3d F) (v : Vector3d F) : Vector3d F :=
  Vec3 (v3_dot (m3_row0 m) v) (v3_dot (m3_row1 m) v) (v3_dot (m3_row2 m) v).

Definition v3_mul_m3 (v : Vector3d F) (m : Matrix3d F) : Vector3d F :=
  Vec3 (v3_dot v (m3_col0 m)) (v3_dot v (m3_col1 m)) (v3_dot v (m3_col2 m)).

Definition m3_mul (a b : Matrix3d F) : Matrix3d F :=
  Mat3 (v3_mul_m3 (m3_row0 a) b) (v3_mul_m3 (m3_row1 a) b) (v3_mul_m3 (m3_row2 a) b).

Definition v3_opp (v : Vector3d F) : Vector3d F :=
  Vec3 (- vx v) (- vy v) (- vz v).

Definition m3_opp (m : Matrix3d F) : Matrix3d F :=
  Mat3 (v3_opp (m3_row0 m)) (v3_opp (m3_row1 m)) (v3_opp (m3_row2 m)).

(** The determinant, expanded along the first column. *)
Definition m3_det (m : Matrix3d F) : F :=
  let '(Mat3 (Vec3 a b c) (Vec3 d e f) (Vec3 g h i)) := m in
  (e * i - f * h) * a + (c * h - b * i) * d + (b * f - c * e) * g.

(** The inverse of a 3x3 matrix as Eigen computes it for fixed size 3: the
    cofactors scaled by [1 / det]. A singular matrix divides by zero. *)
Definition m3_inverse (m : Matrix3d F) : Matrix3d F :=
  let '(Mat3 (Vec3 a b c) (Vec3 d e f) (Vec3 g h i)) := m in
  let invdet := s_inv (m3_det m) in
  Mat3 (Vec3 ((e * i - f * h) * invdet) ((c * h - b * i) * invdet) ((b * f - c * e) * invdet))
       (Vec3 ((f * g - d * i) * invdet) ((a * i - c * g) * invdet) ((c * d - a * f) * invdet))
       (Vec3 ((d * h - e * g) * invdet) ((b * g - a * h) * invdet) ((a * e - b * d) * invdet)).

(** [Transform::linear()]: the top-left 3x3 block. *)
Definition linear (a : Affine3d F) : Matrix3d F :=
  let m := matrix a in
  Mat3 (Vec3 (wx (row0 m)) (wy (row0 m)) (wz (row0 m)))
       (Vec3 (wx (row1 m)) (wy (row1 m)) (wz (row1 m)))
       (Vec3 (wx (row2 m)) (wy (row2 m)) (wz (row2 m))).

(** [Transform::translation()]: the top three entries of the last column. *)
Definition translation (a : Affine3d F) : Vector3d F :=
  let m := matrix a in Vec3 (ww (row0 m)) (ww (row1 m)) (ww (row2 m)).

(** A transform from its linear part and translation, with the bottom row
    that [makeAffine()] writes. *)
Definition fromLinearTranslation (l : Matrix3d F) (t : Vector3d F) : Affine3d F :=
  Transform
    (Mat4 (Vec4 (vx (m3_row0 l)) (vy (m3_row0 l)) (vz (m3_row0 l)) (vx t))
          (Vec4 (vx (m3_row1 l)) (vy (m3_row1 l)) (vz (m3_row1 l)) (vy t))
          (Vec4 (vx (m3_row2 l)) (vy (m3_row2 l)) (vz (m3_row2 l)) (vz t))
          (Vec4 0 0 0 1)).

Definition identity : Affine3d F := fromLinearTranslation m3_identity v3_zero.

(** [Transform::inverse()] in [Affine] mode. *)
Definition inverse (a : Affine3d F) : Affine3d F :=
  let li := m3_inverse (linear a) in
  fromLinearTranslation li (m3_mul_vec (m3_opp li) (translation a)).

(** [operator*] of two affine transforms. *)
Definition compose (a b : Affine3d F) : Affine3d F :=
  fromLinearTranslation
    (m3_mul (linear a) (linear b))
    (v3_add (m3_mul_vec (linear a) (translation b)) (translation a)).

(** [matrix()] by rows. *)
Definition matrix_rows (m : Matrix4d F) : list (list F) :=
  let row v := [wx v; wy v; wz v; ww v] in
  [row (row0 m); row (row1 m); row (row2 m); row (row3 m)].

(** [norm()] of a 3-vector: the root of the sum of the squares. *)
Definition v3_norm `{Sqrt F} (v : Vector3d F) : F := s_sqrt (v3_dot v v).

(** Two transforms with the same top three rows: no operation of an
    affine transform tells them apart. *)
Definition same_affine (a b : Affine3d F) : Prop :=
  linear a = linear b ∧ translation a = translation b.

Context `{RotationLib F}.

(** [Transform::rotation()]. *)
Definition rotation (a : Affine3d F) : Matrix3d F := polar_rotation (linear a).

(** Source lines 29-34: the rotation as the vector [angle * axis]. *)
Definition eigenRotToEigenVector3dAngleAxis (eigenQuat : Matrix3d F) : Vector3d F :=
  let ax3d := toAngleAxis eigenQuat in
  v3_scale (angle ax3d) (axis ax3d).

End Operations.

(** ** Printing

    [operator<<] of a dense matrix with Eigen's default [IOFormat]: every
    coefficient is printed into a field as wide as the longest of them,
    right-aligned; coefficients are separated by one space and rows by a
    line feed. *)

Section Printing.
Context {F : Type} `{StreamOut F}.

Fixpoint spaces (n : nat) : string :=
  match n with O => EmptyString | S n' => " " +:+ spaces n' end.

(** [s.width(w); s << x]. *)
Definition pad (w : nat) (s : string) : string :=
  spaces (w - String.length s) +:+ s.

Definition print_rows (rows : list (list F)) : string :=
  let cells := map (map print_double) rows in
  let width := max_list (String.length <$> concat cells) in
  String.concat nl ((λ r, String.concat " " (pad width <$> r)) <$> cells).

Definition print_matrix (m : Matrix4d F) : string := print_rows (matrix_rows m).

(** A 3-vector transposed: one row. *)
Definition print_transpose (v : Vector3d F) : string :=
  print_rows [[vx v; vy v; vz v]].

End Printing.

Declare Scope eigen_scope.
Delimit Scope eigen_scope with E.
Infix "*" := compose : eigen_scope.

(** ** An instance to run the models on rationals

    Exact arithmetic has no square root or arc tangent, so this instance is
    a stand-in for Eigen's conversions: [rotation()] returns the linear part
    (what the polar decomposition of a rotation matrix is), and the
    axis-angle vector is taken to first order in the angle, [sin θ · n],
    read off the antisymmetric part of the matrix.  Where that part is
    zero the answer is Eigen's on the identity rotation: angle 0 about the
    x axis.  No theorem depends on it: it only serves to evaluate the
    models on concrete poses. *)

Definition Q_antisymmetric_part (m : Matrix3d Q) : Vector3d Q :=
  let '(Mat3 (Vec3 _ b c) (Vec3 d _ f) (Vec3 g h _)) := m in
  Vec3 ((h - f) / 2)%Q ((c - g) / 2)%Q ((d - b) / 2)%Q.

Definition Q_angle_axis (m : Matrix3d Q) : AngleAxisd Q :=
  let v := Q_antisymmetric_part m in
  if Qeq_bool (vx v) 0 && Qeq_bool (vy v) 0 && Qeq_bool (vz v) 0
  then AngleAxis 0%Q (Vec3 1 0 0)%Q
  else AngleAxis 1%Q v.

#[export] Instance Q_rotation : RotationLib Q := {|
  polar_rotation m := m;
  toAngleAxis := Q_angle_axis;
  toQuaternion m := Quaternion 0%Q 0%Q 0%Q 1%Q;
  eulerAngles210 m := Vec3 0%Q 0%Q 0%Q;
|}.

(** ** Sample poses

    Three rigid poses with rational entries (quarter turns about the z and
    the x axis, and a pure translation), on which the models are run. *)

Definition sample_turn_z : Affine3d Q :=
  fromLinearTranslation (Mat3 (Vec3 0 (-1) 0) (Vec3 1 0 0) (Vec3 0 0 1))%Q (Vec3 1 2 3)%Q.

Definition sample_turn_x : Affine3d Q :=
  fromLinearTranslation (Mat3 (Vec3 1 0 0) (Vec3 0 0 (-1)) (Vec3 0 1 0))%Q (Vec3 0 (1 # 2) 4)%Q.

Definition sample_shift : Affine3d Q :=
  fromLinearTranslation m3_identity (Vec3 (-2) 0 5)%Q.

(** [sample_shift] with a bottom row that is not [0 0 0 1], as a matrix read
    from a file may have. *)
Definition sample_skewed : Affine3d Q :=
  Transform (Mat4 (row0 (matrix sample_shift)) (row1 (matrix sample_shift))
                  (row2 (matrix sample_shift)) (Vec4 9 9 9 9)%Q).

(** ** Projections of what the constructors build *)

Section Projections.
Context {F : Type} `{ScalarOps F}.

Lemma linear_fromLinearTranslation (l : Matrix3d F) (t : Vector3d F) :
  linear (fromLinearTranslation l t) = l.
Proof. by destruct l as [[] [] []]. Qed.

Lemma translation_fromLinearTranslation (l : Matrix3d F) (t : Vector3d F) :
  translation (fromLinearTranslation l t) = t.
Proof. by destruct t. Qed.

Lemma row3_fromLinearTranslation (l : Matrix3d F) (t : Vector3d F) :
  row3 (matrix (fromLinearTranslation l t)) = Vec4 s_zero s_zero s_zero s_one.
Proof. done. Qed.

Lemma linear_compose (a b : Affine3d F) :
  linear (compose a b) = m3_mul (linear a) (linear b).
Proof. apply linear_fromLinearTranslation. Qed.

Lemma translation_compose (a b : Affine3d F) :
  translation (compose a b) =
  v3_add (m3_mul_vec (linear a) (translation b)) (translation a).
Proof. apply translation_fromLinearTranslation. Qed.

Lemma linear_inverse (a : Affine3d F) :
  linear (inverse a) = m3_inverse (linear a).
Proof. apply linear_fromLinearTranslation. Qed.

Lemma inverse_ext (a a' : Affine3d F) : same_affine a a' → inverse a = inverse a'.
Proof. intros [Hl Ht]. unfold inverse. by rewrite Hl, Ht. Qed.

Lemma compose_ext (a a' b b' : Affine3d F) :
  same_affine a a' → same_affine b b' → compose a b = compose a' b'.
Proof. intros [Hl Ht] [Hl' Ht']. unfold compose. by rewrite Hl, Ht, Hl', Ht'. Qed.

Lemma same_affine_refl (a : Affine3d F) : same_affine a a.
Proof. done. Qed.

Lemma translation_inverse (a : Affine3d F) :
  translation (inverse a) = m3_mul_vec (m3_opp (m3_inverse (linear a))) (translation a).
Proof. apply translation_fromLinearTranslation. Qed.

Lemma linear_identity : linear (identity (F:=F)) = m3_identity.
Proof. apply linear_fromLinearTranslation. Qed.

Lemma translation_identity : translation (identity (F:=F)) = v3_zero.
Proof. apply translation_fromLinearTranslation. Qed.

End Projections.

#[export] Hint Rewrite @linear_fromLinearTranslation @translation_fromLinearTranslation
  @linear_compose @translation_compose @linear_inverse @translation_inverse
  @linear_identity @translation_identity : calib.
