(* ===== verification/Ros.v ===== *)
(** * Ros: what the node exchanges with ROS and the terminal

    What the program prints ([ROS_INFO], [ROS_WARN], [std::cerr] and
    [std::cout]), the node's parameters as [main] reads them (source lines
    20-21 and 400-416), and the answer of one tf lookup with its conversion
    to an Eigen transform.  A lookup ([Lookup]) finds a transform, or
    [waitForTransform] gives up on it, or [lookupTransform] throws after a
    successful wait.  The quaternion of a tf rotation and
    its axis, which the program only prints, are the interface [TfLib]. *)

From Stdlib Require Import ZArith QArith.
From stdpp Require Import base tactics strings gmap.
From S2P Require Import Prelude Scalar Eigen.

(** ** Log *)

(** One entry per statement that prints: the text of a [ROS_INFO] or
    [ROS_WARN] call after formatting, or the characters one statement
    inserts into [std::cerr] or [std::cout], line feeds included. *)
Inductive Msg : Type :=
| ROS_INFO (text : string)
| ROS_WARN (text : string)
| CERR (text : string)
| COUT (text : string).

#[export] Instance Msg_eq_dec : EqDecision Msg.
Proof. solve_decision. Defined.

Definition is_warning (m : Msg) : bool :=
  match m with ROS_WARN _ => true | _ => false end.

(** ** Parameters *)

Record Params : Type := {
  cameraTFname : string;
  ARTagTFname : string;
  EETFname : string;
  baseTFname : string;
  loadTransformsFromFile : bool;
  transformPairsRecordFile : string;
  transformPairsLoadFile : string;
  calibratedTransformFile : string;
}.

(** The parameters when the server holds none of them. *)
Definition default_params : Params := {|
  cameraTFname := "/camera_2_link";
  ARTagTFname := "/camera_2/ar_marker_0";
  EETFname := "/ee_fixed_link";
  baseTFname := "/base_link";
  loadTransformsFromFile := false;
  transformPairsRecordFile := "TransformPairsInput.yml";
  transformPairsLoadFile := "TransformPairsOutput.yml";
  calibratedTransformFile := "CalibratedTransform.yml";
|}.

(** A value of the parameter server. *)
Inductive ParamValue : Type :=
| PString (s : string)
| PBool (b : bool)
| PInt (z : Z).

(** [nh.param(name, var, default)]: the value on the server when there is
    one of the type of [var], the default otherwise. *)
Definition param_string (server : gmap string ParamValue) (name default : string) : string :=
  match server !! name with Some (PString s) => s | _ => default end.

Definition param_bool (server : gmap string ParamValue) (name : string) (default : bool)
    : bool :=
  match server !! name with Some (PBool b) => b | _ => default end.

(** The eight [nh.param] calls of [main] (source lines 406-416). *)
Definition read_params (server : gmap string ParamValue) : Params := {|
  cameraTFname := param_string server "cameraTF" "/camera_2_link";
  ARTagTFname := param_string server "ARTagTF" "/camera_2/ar_marker_0";
  EETFname := param_string server "EETF" "/ee_fixed_link";
  baseTFname := param_string server "baseTF" "/base_link";
  loadTransformsFromFile := param_bool server "load_transforms_from_file" false;
  transformPairsRecordFile :=
    param_string server "transform_pairs_record_filename" "TransformPairsInput.yml";
  transformPairsLoadFile :=
    param_string server "transform_pairs_load_filename" "TransformPairsOutput.yml";
  calibratedTransformFile :=
    param_string server "output_calibrated_transform_filename" "CalibratedTransform.yml";
|}.

(** ** tf *)

(** [tf::StampedTransform], reduced to the rotation basis and the origin. *)
Record StampedTransform (F : Type) : Type :=
  { getBasis : Matrix3d F; getOrigin : Vector3d F }.
Arguments Build_StampedTransform {F} getBasis getOrigin.
Arguments getBasis {F} s.
Arguments getOrigin {F} s.

(** What tf answers to one lookup of [addFrame]: [waitForTransform]
    returns false ([TimedOut]), or it returns true and [lookupTransform]
    fills in the transform ([Found]) or throws ([Raises]). *)
Inductive Lookup (F : Type) : Type :=
| Found (t : StampedTransform F)
| TimedOut
| Raises.
Arguments Found {F} t.
Arguments TimedOut {F}.
Arguments Raises {F}.

(** The transform of a lookup that returned one. *)
Definition answer {F} (l : Lookup F) : option (StampedTransform F) :=
  match l with Found t => Some t | _ => None end.

Definition throws {F} (l : Lookup F) : bool :=
  match l with Raises => true | _ => false end.

(** [tf::Matrix3x3::getRotation] and [tf::Quaternion::getAxis]. *)
Class TfLib (F : Type) : Type := {
  basisRotation : Matrix3d F → Quaterniond F;
  getAxis : Quaterniond F → Vector3d F;
}.

(** [tf::Transform::getRotation]. *)
Definition getRotation {F} `{TfLib F} (t : StampedTransform F) : Quaterniond F :=
  basisRotation (getBasis t).

(** A stand-in on rationals, to run the models: the identity rotation. *)
#[export] Instance Q_tf : TfLib Q := {|
  basisRotation m := Quaternion 0%Q 0%Q 0%Q 1%Q;
  getAxis q := Vec3 1%Q 0%Q 0%Q;
|}.

(** [tf::transformTFToEigen]: copies basis and origin and writes the bottom
    row [0 0 0 1]. *)
Definition transformTFToEigen {F} `{ScalarOps F} (t : StampedTransform F) : Affine3d F :=
  fromLinearTranslation (getBasis t) (getOrigin t).

Lemma linear_transformTFToEigen {F} `{ScalarOps F} (t : StampedTransform F) :
  linear (transformTFToEigen t) = getBasis t.
Proof. apply linear_fromLinearTranslation. Qed.

Lemma translation_transformTFToEigen {F} `{ScalarOps F} (t : StampedTransform F) :
  translation (transformTFToEigen t) = getOrigin t.
Proof. apply translation_fromLinearTranslation. Qed.

Lemma read_params_empty : read_params ∅ = default_params.
Proof. reflexivity. Qed.

(** With the defaults, the file a session records to is not the file batch
    mode loads. *)
Example default_record_is_not_default_load :
  transformPairsRecordFile default_params ≠ transformPairsLoadFile default_params.
Proof. done. Qed.

(** ** Sample lookups

    Answers of tf with rational entries, on which the models are run. *)

Definition sample_tf_ee0 : StampedTransform Q :=
  Build_StampedTransform (linear sample_turn_z) (translation sample_turn_z).
Definition sample_tf_cam0 : StampedTransform Q :=
  Build_StampedTransform (linear sample_turn_x) (translation sample_turn_x).
Definition sample_tf_ee1 : StampedTransform Q :=
  Build_StampedTransform (linear sample_shift) (translation sample_shift).
Definition sample_tf_cam1 : StampedTransform Q :=
  Build_StampedTransform (linear sample_turn_z) (translation sample_turn_x).
