(* ===== verification/Derive.v ===== *)
(** * Derive: the relative motions of a recorded sequence

    The loop of [estimateHandEye] (source lines 176-226) walks the two
    vectors of absolute poses in lock step.  The first pair is inverted and
    kept; every later pair is composed with those inverses, and the
    rotation vector and the translation of each product are appended to the
    four local vectors that go to the solver.

    [Locals] holds the local variables of the function (they shadow the
    globals of the same names), [estimate_body] is one iteration,
    [estimate_loop] the loop with its [int] counter and its two iterators.
    [deriveAll] is the specification: the relative motion of every pair but
    the first with respect to the first.  The theorems show that the loop
    implements it, where it leaves the defined fragment of C++, and that
    neither the uninitialised locals nor the bottom rows of the pose
    matrices are ever read. *)

From Stdlib Require Import ZArith Lia.
From stdpp Require Import base tactics option list strings.
From S2P Require Import Prelude Scalar Eigen Ros.

(** ** Data *)

(** The local variables of [estimateHandEye]. *)
Record Locals (F : Type) : Type := {
  l_firstEEInverse : Affine3d F;
  l_firstCamInverse : Affine3d F;
  l_firstTransform : bool;
  l_tvecsArm : list (Vector3d F);
  l_rvecsArm : list (Vector3d F);
  l_tvecsFiducial : list (Vector3d F);
  l_rvecsFiducial : list (Vector3d F);
}.
Arguments Build_Locals {F}.
Arguments l_firstEEInverse {F} l.
Arguments l_firstCamInverse {F} l.
Arguments l_firstTransform {F} l.
Arguments l_tvecsArm {F} l.
Arguments l_rvecsArm {F} l.
Arguments l_tvecsFiducial {F} l.
Arguments l_rvecsFiducial {F} l.

(** A pair of absolute poses captured together. *)
Record PosePair (F : Type) : Type := { poseA : Affine3d F; poseB : Affine3d F }.
Arguments Build_PosePair {F} poseA poseB.
Arguments poseA {F} p.
Arguments poseB {F} p.

(** A motion relative to the reference pair, in the form the solver takes. *)
Record RelativeMotion (F : Type) : Type := {
  rotationA : Vector3d F;
  translationA : Vector3d F;
  rotationB : Vector3d F;
  translationB : Vector3d F;
}.
Arguments Build_RelativeMotion {F}.
Arguments rotationA {F} r.
Arguments translationA {F} r.
Arguments rotationB {F} r.
Arguments translationB {F} r.

(** The four vectors [estimateHandEyeScrew] takes. *)
Record ScrewInput (F : Type) : Type := {
  rvecs1 : list (Vector3d F);
  tvecs1 : list (Vector3d F);
  rvecs2 : list (Vector3d F);
  tvecs2 : list (Vector3d F);
}.
Arguments Build_ScrewInput {F}.
Arguments rvecs1 {F} s.
Arguments tvecs1 {F} s.
Arguments rvecs2 {F} s.
Arguments tvecs2 {F} s.

Section Derive.
Context {F : Type} `{ScalarOps F} `{RotationLib F} `{Sqrt F} `{StreamOut F}.
Local Open Scope eigen_scope.

(** ** Specification *)

(** The motion of the pair [p] seen from a reference pair whose inverses
    are [iA] and [iB]. *)
Definition relativeTo (iA iB : Affine3d F) (p : PosePair F) : RelativeMotion F :=
  let a := iA * poseA p in
  let b := iB * poseB p in
  {| rotationA := eigenRotToEigenVector3dAngleAxis (rotation a);
     translationA := translation a;
     rotationB := eigenRotToEigenVector3dAngleAxis (rotation b);
     translationB := translation b |}.

Definition relativeMotion (ref p : PosePair F) : RelativeMotion F :=
  relativeTo (inverse (poseA ref)) (inverse (poseB ref)) p.

Definition deriveAll (pairs : list (PosePair F)) : list (RelativeMotion F) :=
  match pairs with
  | [] => []
  | ref :: rest => relativeMotion ref <$> rest
  end.

Definition pose_pairs (t1 t2 : list (Affine3d F)) : list (PosePair F) :=
  zip_with Build_PosePair t1 t2.

(** ** The loop *)

(** The locals at the loop's entry; [u1] and [u2] stand for what the
    uninitialised [firstEEInverse] and [firstCamInverse] happen to hold. *)
Definition initial_locals (u1 u2 : Affine3d F) : Locals F := {|
  l_firstEEInverse := u1;
  l_firstCamInverse := u2;
  l_firstTransform := true;
  l_tvecsArm := [];
  l_rvecsArm := [];
  l_tvecsFiducial := [];
  l_rvecsFiducial := [];
|}.

(** The norms of the two relative translations, as both [estimateHandEye]
    (source lines 215-220) and [addFrame] (lines 378-383) print them. *)
Definition l2norm_line (robotTipinFirstTipBase fiducialInFirstFiducialBase : Affine3d F)
    : Msg :=
  CERR ("L2Norm EE: "
        +:+ print_double (v3_norm (translation robotTipinFirstTipBase))
        +:+ " vs Cam:"
        +:+ print_double (v3_norm (translation fiducialInFirstFiducialBase))
        +:+ nl).

(** The two absolute poses, as both functions print them after either
    branch (source lines 222-225 and 385-388). *)
Definition dump_poses (eigenEE eigenCam : Affine3d F) : list Msg :=
  [CERR ("EE transform: " +:+ nl +:+ print_matrix (matrix eigenEE) +:+ nl);
   CERR ("Cam transform: " +:+ nl +:+ print_matrix (matrix eigenCam) +:+ nl)].

(** One iteration (source lines 186-225). *)
Definition estimate_body (st : Locals F) (eigenEE eigenCam : Affine3d F)
    : Locals F * list Msg :=
  if l_firstTransform st then
    ({| l_firstEEInverse := inverse eigenEE;
        l_firstCamInverse := inverse eigenCam;
        l_firstTransform := false;
        l_tvecsArm := l_tvecsArm st;
        l_rvecsArm := l_rvecsArm st;
        l_tvecsFiducial := l_tvecsFiducial st;
        l_rvecsFiducial := l_rvecsFiducial st |},
     ROS_INFO "Adding first transformation." :: dump_poses eigenEE eigenCam)
  else
    let robotTipinFirstTipBase := l_firstEEInverse st * eigenEE in
    let fiducialInFirstFiducialBase := l_firstCamInverse st * eigenCam in
    ({| l_firstEEInverse := l_firstEEInverse st;
        l_firstCamInverse := l_firstCamInverse st;
        l_firstTransform := false;
        l_tvecsArm :=
          push_back (translation robotTipinFirstTipBase) (l_tvecsArm st);
        l_rvecsArm :=
          push_back
            (eigenRotToEigenVector3dAngleAxis (rotation robotTipinFirstTipBase))
            (l_rvecsArm st);
        l_tvecsFiducial :=
          push_back (translation fiducialInFirstFiducialBase) (l_tvecsFiducial st);
        l_rvecsFiducial :=
          push_back
            (eigenRotToEigenVector3dAngleAxis (rotation fiducialInFirstFiducialBase))
            (l_rvecsFiducial st) |},
     ROS_INFO "Hand Eye Calibration Transform Pair Added"
       :: l2norm_line robotTipinFirstTipBase fiducialInFirstFiducialBase
       :: dump_poses eigenEE eigenCam).

(** The loop (source lines 184-226): [i] is the [int] counter, [t1] and
    [t2] what is left of the vectors from the iterators [t1_it] and [t2_it]
    on.  The loop stops when [t1] is exhausted; it dereferences [t2_it]
    without a test, and increments [i] before it tests again. *)
Fixpoint estimate_loop (i : Z) (t1 t2 : list (Affine3d F)) (st : Locals F)
    : outcome (Locals F * list Msg) :=
  match t1 with
  | [] => Ok (st, [])
  | eigenEE :: t1' =>
    match t2 with
    | [] => Undef IteratorPastEnd
    | eigenCam :: t2' =>
      let '(st', out) := estimate_body st eigenEE eigenCam in
      i' ← int_incr i;
      '(st'', out') ← estimate_loop i' t1' t2' st';
      mret (st'', out ++ out')
    end
  end.

(** The loop from its entry. *)
Definition deriveMotions (baseToTip camToTag : list (Affine3d F))
    (u1 u2 : Affine3d F) : outcome (Locals F * list Msg) :=
  estimate_loop 0 baseToTip camToTag (initial_locals u1 u2).

(** The arguments of [estimateHandEyeScrew] (source lines 230-231), in the
    order of the call. *)
Definition solver_input (st : Locals F) : ScrewInput F := {|
  rvecs1 := l_rvecsArm st;
  tvecs1 := l_tvecsArm st;
  rvecs2 := l_rvecsFiducial st;
  tvecs2 := l_tvecsFiducial st;
|}.

(** ** What the loop is to compute *)

(** The locals [st] with the motions [ms] appended to the four vectors. *)
Definition append_motions (st : Locals F) (ms : list (RelativeMotion F)) : Locals F := {|
  l_firstEEInverse := l_firstEEInverse st;
  l_firstCamInverse := l_firstCamInverse st;
  l_firstTransform := l_firstTransform st;
  l_tvecsArm := l_tvecsArm st ++ (translationA <$> ms);
  l_rvecsArm := l_rvecsArm st ++ (rotationA <$> ms);
  l_tvecsFiducial := l_tvecsFiducial st ++ (translationB <$> ms);
  l_rvecsFiducial := l_rvecsFiducial st ++ (rotationB <$> ms);
|}.

(** The locals after the loop has consumed [pairs]. *)
Definition locals_of_pairs (u1 u2 : Affine3d F) (pairs : list (PosePair F)) : Locals F :=
  match pairs with
  | [] => initial_locals u1 u2
  | ref :: _ => {|
      l_firstEEInverse := inverse (poseA ref);
      l_firstCamInverse := inverse (poseB ref);
      l_firstTransform := false;
      l_tvecsArm := translationA <$> deriveAll pairs;
      l_rvecsArm := rotationA <$> deriveAll pairs;
      l_tvecsFiducial := translationB <$> deriveAll pairs;
      l_rvecsFiducial := rotationB <$> deriveAll pairs |}
  end.

(** The four vectors of the solver from a list of relative motions. *)
Definition screw_of_motions (ms : list (RelativeMotion F)) : ScrewInput F := {|
  rvecs1 := rotationA <$> ms;
  tvecs1 := translationA <$> ms;
  rvecs2 := rotationB <$> ms;
  tvecs2 := translationB <$> ms;
|}.

(** What the loop prints for the pair [p] past the first, seen from a
    reference pair whose inverses are [iA] and [iB]. *)
Definition running_log (iA iB : Affine3d F) (p : PosePair F) : list Msg :=
  ROS_INFO "Hand Eye Calibration Transform Pair Added"
    :: l2norm_line (iA * poseA p) (iB * poseB p)
    :: dump_poses (poseA p) (poseB p).

(** What the loop prints over [pairs]. *)
Definition derive_log (pairs : list (PosePair F)) : list Msg :=
  match pairs with
  | [] => []
  | ref :: rest =>
    (ROS_INFO "Adding first transformation." :: dump_poses (poseA ref) (poseB ref))
    ++ concat (running_log (inverse (poseA ref)) (inverse (poseB ref)) <$> rest)
  end.

(** Two pairs of poses that agree on their top three rows (their bottom
    rows, which a loaded matrix may fill with anything, are left free). *)
Definition same_pair (p p' : PosePair F) : Prop :=
  same_affine (poseA p) (poseA p') ∧ same_affine (poseB p) (poseB p').

(** ** The loop implements the specification *)

Lemma solver_input_locals_of_pairs (u1 u2 v1 v2 : Affine3d F) (pairs : list (PosePair F)) :
  solver_input (locals_of_pairs u1 u2 pairs) = solver_input (locals_of_pairs v1 v2 pairs).
Proof. by destruct pairs. Qed.

Lemma solver_input_screw_of_motions (u1 u2 : Affine3d F) (pairs : list (PosePair F)) :
  solver_input (locals_of_pairs u1 u2 pairs) = screw_of_motions (deriveAll pairs).
Proof. by destruct pairs. Qed.

Lemma append_motions_nil (st : Locals F) : append_motions st [] = st.
Proof. destruct st. unfold append_motions. simpl. by rewrite !app_nil_r. Qed.

Lemma estimate_body_running (st : Locals F) (e c : Affine3d F) :
  l_firstTransform st = false →
  estimate_body st e c =
    (append_motions st
       [relativeTo (l_firstEEInverse st) (l_firstCamInverse st) (Build_PosePair e c)],
     running_log (l_firstEEInverse st) (l_firstCamInverse st) (Build_PosePair e c)).
Proof. intros Hf. unfold estimate_body, append_motions. by rewrite Hf. Qed.

Lemma append_motions_app (st : Locals F) (ms ms' : list (RelativeMotion F)) :
  append_motions (append_motions st ms) ms' = append_motions st (ms ++ ms').
Proof. unfold append_motions. simpl. by rewrite !fmap_app, !app_assoc. Qed.

(** From a state past the first pair, the loop appends one relative motion
    per remaining pair. *)
Lemma estimate_loop_running (t1 t2 : list (Affine3d F)) (i : Z) (st : Locals F) :
  l_firstTransform st = false →
  length t1 ≤ length t2 →
  (i + Z.of_nat (length t1) ≤ INT_MAX)%Z →
  estimate_loop i t1 t2 st =
    Ok (append_motions st
          (relativeTo (l_firstEEInverse st) (l_firstCamInverse st) <$> pose_pairs t1 t2),
        concat (running_log (l_firstEEInverse st) (l_firstCamInverse st)
                  <$> pose_pairs t1 t2)).
Proof.
  revert t2 i st. induction t1 as [|e t1 IH]; intros [|c t2] i st Hf Hlen Hi;
    simpl in *; try lia.
  - by rewrite append_motions_nil.
  - by rewrite append_motions_nil.
  - rewrite (estimate_body_running _ _ _ Hf), int_incr_Ok by lia. simpl.
    rewrite IH by (done || lia). simpl. by rewrite append_motions_app.
Qed.

(** On [N] pairs with [N] at most [INT_MAX], the loop returns the locals
    that the specification gives, and prints [derive_log] of the pairs. *)
Lemma deriveMotions_spec (t1 t2 : list (Affine3d F)) (u1 u2 : Affine3d F) :
  length t1 ≤ length t2 →
  (Z.of_nat (length t1) ≤ INT_MAX)%Z →
  deriveMotions t1 t2 u1 u2 =
    Ok (locals_of_pairs u1 u2 (pose_pairs t1 t2), derive_log (pose_pairs t1 t2)).
Proof.
  intros Hlen Hmax. unfold deriveMotions.
  destruct t1 as [|e t1], t2 as [|c t2]; simpl in *; try lia; [done..|].
  rewrite estimate_loop_running by (done || lia). simpl.
  by unfold append_motions, relativeMotion.
Qed.

(** ** How the specification grows with one more pair *)

Lemma pose_pairs_push_back (t1 t2 : list (Affine3d F)) (e c : Affine3d F) :
  length t1 = length t2 →
  pose_pairs (push_back e t1) (push_back c t2) =
  push_back (Build_PosePair e c) (pose_pairs t1 t2).
Proof. intros Hlen. unfold pose_pairs, push_back. by rewrite zip_with_app. Qed.

Lemma pose_pairs_nil_inv (t1 t2 : list (Affine3d F)) :
  length t1 = length t2 → pose_pairs t1 t2 = [] → t1 = [] ∧ t2 = [].
Proof. by destruct t1, t2. Qed.

Lemma deriveAll_push_back (ref p : PosePair F) (rest : list (PosePair F)) :
  deriveAll (push_back p (ref :: rest)) =
  push_back (relativeMotion ref p) (deriveAll (ref :: rest)).
Proof. unfold push_back. simpl. by rewrite fmap_app. Qed.

Lemma locals_of_pairs_push_back (u1 u2 : Affine3d F) (ref p : PosePair F)
    (rest : list (PosePair F)) :
  locals_of_pairs u1 u2 (push_back p (ref :: rest)) =
  append_motions (locals_of_pairs u1 u2 (ref :: rest)) [relativeMotion ref p].
Proof.
  unfold locals_of_pairs, append_motions. rewrite push_back_cons.
  rewrite <- push_back_cons, deriveAll_push_back. unfold push_back.
  by rewrite !fmap_app.
Qed.

Lemma locals_of_pairs_cons_irrel (u1 u2 v1 v2 : Affine3d F) (ref : PosePair F)
    (rest : list (PosePair F)) :
  locals_of_pairs u1 u2 (ref :: rest) = locals_of_pairs v1 v2 (ref :: rest).
Proof. done. Qed.

(** ** Where the loop leaves the defined fragment *)

(** When the second vector is shorter than the first, the loop
    dereferences [t2_it] at [end()]: undefined behaviour, whatever the
    poses are. *)
Theorem estimate_loop_iterator_past_end (t1 t2 : list (Affine3d F)) (i : Z) (st : Locals F) :
  length t2 < length t1 →
  (i + Z.of_nat (length t2) ≤ INT_MAX)%Z →
  estimate_loop i t1 t2 st = Undef IteratorPastEnd.
Proof.
  revert t1 i st. induction t2 as [|c t2 IH]; intros [|e t1] i st Hlen Hi;
    simpl in *; try lia; [done|].
  destruct (estimate_body st e c) as [st' out].
  rewrite int_incr_Ok by lia. simpl. by rewrite IH by lia.
Qed.

(** C40. The loop counter is an [int]: on a vector of more than [INT_MAX]
    poses (or from a counter that many steps short of [INT_MAX]), the
    second vector being at least as long as the first so that no iterator
    runs past its end before, the increment overflows, which is undefined
    behaviour. *)
Theorem estimate_loop_signed_overflow (t1 t2 : list (Affine3d F)) (i : Z) (st : Locals F) :
  length t1 ≤ length t2 →
  (i ≤ INT_MAX)%Z →
  (INT_MAX < i + Z.of_nat (length t1))%Z →
  estimate_loop i t1 t2 st = Undef SignedOverflow.
Proof.
  revert t2 i st. induction t1 as [|e t1 IH]; intros [|c t2] i st Hlen Hi Hover;
    simpl in *; try lia.
  destruct (estimate_body st e c) as [st' out].
  unfold int_incr. case_decide; [done|]. simpl. by rewrite IH by lia.
Qed.

Lemma estimate_loop_Ok_inv (t1 t2 : list (Affine3d F)) (i : Z) (st : Locals F)
    (r : Locals F * list Msg) :
  estimate_loop i t1 t2 st = Ok r →
  (i ≤ INT_MAX)%Z →
  length t1 ≤ length t2 ∧ (i + Z.of_nat (length t1) ≤ INT_MAX)%Z.
Proof.
  revert t2 i st r. induction t1 as [|e t1 IH]; intros [|c t2] i st r Hrun Hi;
    simpl in *; try (done || lia).
  destruct (estimate_body st e c) as [st' out].
  apply bind_Ok in Hrun as (i' & Hincr & Hrun).
  apply bind_Ok in Hrun as (r' & Hrun & _).
  unfold int_incr in Hincr. case_decide; simplify_eq.
  apply IH in Hrun as [? ?]; lia.
Qed.

(** C3. [estimateHandEye]'s loop returns exactly when the second vector is
    at least as long as the first and the first holds at most [INT_MAX]
    poses; what it then returns is what the specification [deriveAll] gives
    for the pairs: their relative motions, in order, in the four vectors, the
    inverses of the first pair in [firstEEInverse] and [firstCamInverse],
    and what it prints is [derive_log] of the pairs. *)
Theorem deriveMotions_refines_deriveAll (t1 t2 : list (Affine3d F)) (u1 u2 : Affine3d F)
    (r : Locals F * list Msg) :
  deriveMotions t1 t2 u1 u2 = Ok r ↔
  length t1 ≤ length t2 ∧ (Z.of_nat (length t1) ≤ INT_MAX)%Z ∧
  r = (locals_of_pairs u1 u2 (pose_pairs t1 t2), derive_log (pose_pairs t1 t2)).
Proof.
  split.
  - intros Hrun. destruct (estimate_loop_Ok_inv _ _ _ _ _ Hrun) as [Hlen Hmax]; [done|].
    rewrite deriveMotions_spec in Hrun by (done || lia). by injection Hrun as <-.
  - intros (Hlen & Hmax & ->). by apply deriveMotions_spec.
Qed.

Lemma fmap_poseA_pose_pairs (t1 t2 : list (Affine3d F)) :
  length t1 ≤ length t2 → poseA <$> pose_pairs t1 t2 = t1.
Proof. intros. unfold pose_pairs. by apply fmap_zip_with_l. Qed.

Lemma fmap_poseB_pose_pairs (t1 t2 : list (Affine3d F)) :
  length t2 ≤ length t1 → poseB <$> pose_pairs t1 t2 = t2.
Proof. intros. unfold pose_pairs. by apply fmap_zip_with_r. Qed.

Lemma length_pose_pairs (t1 t2 : list (Affine3d F)) :
  length t1 ≤ length t2 → length (pose_pairs t1 t2) = length t1.
Proof. intros. unfold pose_pairs. rewrite length_zip_with. lia. Qed.

Lemma length_deriveAll (pairs : list (PosePair F)) :
  length (deriveAll pairs) = length pairs - 1.
Proof. destruct pairs; simpl; [done|]. rewrite length_fmap. lia. Qed.

(** Whenever the loop returns on [N] pairs, each of the four vectors
    it hands to the solver holds [N - 1] entries. *)
Theorem deriveMotions_count (t1 t2 : list (Affine3d F)) (u1 u2 : Affine3d F)
    (st : Locals F) (out : list Msg) :
  deriveMotions t1 t2 u1 u2 = Ok (st, out) →
  length (l_rvecsArm st) = length t1 - 1 ∧
  length (l_tvecsArm st) = length t1 - 1 ∧
  length (l_rvecsFiducial st) = length t1 - 1 ∧
  length (l_tvecsFiducial st) = length t1 - 1.
Proof.
  intros Hrun.
  destruct (estimate_loop_Ok_inv _ _ _ _ _ Hrun) as [Hlen Hmax]; [done|].
  rewrite deriveMotions_spec in Hrun by (done || lia).
  injection Hrun as <- <-.
  pose proof (length_pose_pairs t1 t2 Hlen) as Hn.
  pose proof (length_deriveAll (pose_pairs t1 t2)) as Hd.
  destruct (pose_pairs t1 t2) eqn:E; simpl in *.
  - lia.
  - rewrite !length_fmap in *. lia.
Qed.

(** The first relative motion is pair 1 seen from pair 0: the product
    of the inverse of the first pose with the second, for each stream. *)
Theorem deriveMotions_first (e0 e1 c0 c1 : Affine3d F) (t1 t2 : list (Affine3d F))
    (u1 u2 : Affine3d F) (st : Locals F) (out : list Msg) :
  deriveMotions (e0 :: e1 :: t1) (c0 :: c1 :: t2) u1 u2 = Ok (st, out) →
  l_rvecsArm st !! 0 = Some (eigenRotToEigenVector3dAngleAxis (rotation (inverse e0 * e1))) ∧
  l_tvecsArm st !! 0 = Some (translation (inverse e0 * e1)) ∧
  l_rvecsFiducial st !! 0 = Some (eigenRotToEigenVector3dAngleAxis (rotation (inverse c0 * c1))) ∧
  l_tvecsFiducial st !! 0 = Some (translation (inverse c0 * c1)).
Proof.
  intros Hrun.
  destruct (estimate_loop_Ok_inv _ _ _ _ _ Hrun) as [Hlen Hmax]; [done|].
  rewrite deriveMotions_spec in Hrun by (done || lia).
  by injection Hrun as <- <-.
Qed.

(** The locals [firstEEInverse] and [firstCamInverse] are declared
    without an initial value; the loop never reads what they hold before it
    writes them: on a non-empty sequence the outcome is the same whatever
    they held. *)
Theorem deriveMotions_uninitialised_unread (t1 t2 : list (Affine3d F))
    (u1 u2 u1' u2' : Affine3d F) :
  t1 ≠ [] →
  deriveMotions t1 t2 u1 u2 = deriveMotions t1 t2 u1' u2'.
Proof. intros Hne. by destruct t1 as [|e t1], t2 as [|c t2]. Qed.

(** ** The bottom row of a pose is never read *)

Lemma relativeMotion_ext (ref ref' p p' : PosePair F) :
  same_pair ref ref' → same_pair p p' → relativeMotion ref p = relativeMotion ref' p'.
Proof.
  intros [HA HB] [HA' HB']. unfold relativeMotion, relativeTo.
  rewrite (inverse_ext _ _ HA), (inverse_ext _ _ HB).
  by rewrite (compose_ext _ _ _ _ (same_affine_refl _) HA'),
    (compose_ext _ _ _ _ (same_affine_refl _) HB').
Qed.

Lemma pose_pairs_same (t1 t1' t2 t2' : list (Affine3d F)) :
  Forall2 same_affine t1 t1' → Forall2 same_affine t2 t2' →
  Forall2 same_pair (pose_pairs t1 t2) (pose_pairs t1' t2').
Proof.
  intros Ht1. revert t2 t2'.
  induction Ht1; intros ? ? [|]; simpl; constructor; auto. by split.
Qed.

Lemma deriveAll_ext (pairs pairs' : list (PosePair F)) :
  Forall2 same_pair pairs pairs' → deriveAll pairs = deriveAll pairs'.
Proof.
  intros [|ref ref' rest rest' Href Hrest]; simpl; [done|].
  induction Hrest as [|p p' l l' Hp _ IH]; simpl; [done|].
  f_equal; [by apply relativeMotion_ext|done].
Qed.

(** C29. The loop reads a pose through [inverse] and [operator*] only, and
    both read the top three rows of its matrix: two runs on poses that agree
    there (and differ in the bottom row, as the matrices of a hand-written
    pairs file may) both return, and hand the solver the same four vectors.
    Only the dump of the poses in the log tells them apart. *)
Theorem deriveMotions_bottom_row_unread (t1 t1' t2 t2' : list (Affine3d F))
    (u1 u2 : Affine3d F) (st : Locals F) (out : list Msg) :
  Forall2 same_affine t1 t1' → Forall2 same_affine t2 t2' →
  deriveMotions t1 t2 u1 u2 = Ok (st, out) →
  ∃ st' out', deriveMotions t1' t2' u1 u2 = Ok (st', out') ∧
    solver_input st' = solver_input st.
Proof.
  intros H1' H2' Hrun.
  destruct (estimate_loop_Ok_inv _ _ _ _ _ Hrun) as [Hlen Hmax]; [done|].
  rewrite deriveMotions_spec in Hrun by (done || lia). injection Hrun as <- _.
  rewrite (Forall2_length _ _ _ H1'), (Forall2_length _ _ _ H2') in *.
  rewrite deriveMotions_spec by (done || lia). eexists _, _. split; [done|].
  rewrite !solver_input_screw_of_motions. f_equal. symmetry.
  by apply deriveAll_ext, pose_pairs_same.
Qed.

End Derive.

(** ** The theorems at concrete poses *)

Lemma deriveMotions_refines_deriveAll_witness :
  deriveMotions [sample_turn_z; sample_shift; sample_turn_x]
                [sample_turn_x; sample_turn_z; sample_shift] identity identity =
    Ok (locals_of_pairs identity identity
          (pose_pairs [sample_turn_z; sample_shift; sample_turn_x]
                      [sample_turn_x; sample_turn_z; sample_shift]),
        derive_log
          (pose_pairs [sample_turn_z; sample_shift; sample_turn_x]
                      [sample_turn_x; sample_turn_z; sample_shift])).
Proof.
  apply deriveMotions_refines_deriveAll.
  split; [simpl; lia | split; [unfold INT_MAX; simpl; lia | reflexivity]].
Defined.

Lemma estimate_loop_iterator_past_end_witness :
  estimate_loop 0 [sample_turn_z; sample_shift] [sample_turn_x]
    (initial_locals identity identity) = Undef IteratorPastEnd.
Proof.
  apply estimate_loop_iterator_past_end; [simpl; lia | unfold INT_MAX; simpl; lia].
Defined.

Lemma estimate_loop_signed_overflow_witness :
  estimate_loop INT_MAX [sample_turn_z] [sample_turn_x]
    (initial_locals identity identity) = Undef SignedOverflow.
Proof.
  apply estimate_loop_signed_overflow; [simpl; lia | lia | simpl; lia].
Defined.

Lemma deriveMotions_count_witness :
  length (l_rvecsArm
    (locals_of_pairs identity identity
       (pose_pairs [sample_turn_z; sample_shift] [sample_turn_x; sample_turn_z]))) = 2 - 1.
Proof.
  exact (proj1 (deriveMotions_count [sample_turn_z; sample_shift]
    [sample_turn_x; sample_turn_z] identity identity _ _ eq_refl)).
Defined.

Lemma deriveMotions_first_witness :
  l_tvecsArm
    (locals_of_pairs identity identity
       (pose_pairs [sample_turn_z; sample_shift] [sample_turn_x; sample_turn_z])) !! 0 =
  Some (translation (inverse sample_turn_z * sample_shift)%E).
Proof.
  exact (proj1 (proj2 (deriveMotions_first sample_turn_z sample_shift
    sample_turn_x sample_turn_z [] [] identity identity _ _ eq_refl))).
Defined.

Lemma deriveMotions_uninitialised_unread_witness :
  deriveMotions [sample_turn_z] [sample_turn_x] identity identity =
  deriveMotions [sample_turn_z] [sample_turn_x] sample_shift sample_shift.
Proof. apply deriveMotions_uninitialised_unread. discriminate. Defined.

Lemma deriveMotions_bottom_row_unread_witness :
  ∃ st' out',
    deriveMotions [sample_turn_z; sample_skewed] [sample_turn_x; sample_turn_z]
      identity identity = Ok (st', out') ∧
    solver_input st' =
      solver_input (locals_of_pairs identity identity
        (pose_pairs [sample_turn_z; sample_shift] [sample_turn_x; sample_turn_z])).
Proof.
  apply (deriveMotions_bottom_row_unread
           [sample_turn_z; sample_shift] [sample_turn_z; sample_skewed]
           [sample_turn_x; sample_turn_z] [sample_turn_x; sample_turn_z]
           identity identity _
           (derive_log (pose_pairs [sample_turn_z; sample_shift]
                                   [sample_turn_x; sample_turn_z]))).
  - repeat constructor.
  - repeat constructor.
  - apply deriveMotions_spec; [reflexivity | unfold INT_MAX; simpl; lia].
Defined.
