(* ===== verification/Rigid.v ===== *)
(** * Rigid: the algebra of the poses in exact arithmetic

    What Eigen's operations on [Affine3d] satisfy when the scalars obey the
    laws of a field ([ExactField]): composition is associative with the
    identity as unit, [inverse] is a two-sided inverse wherever the
    determinant of the linear part is not zero, and the inverse of a
    product is the product of the inverses in reverse order.  Equality is
    up to [≡]: two transforms are equivalent when their linear parts and
    translations are, whatever their bottom rows hold, which no operation
    reads.

    On these laws rest the properties of the relative motions that
    [estimateHandEye] and [addFrame] derive: they do not depend on the
    frame the absolute poses are expressed in, they vanish when the robot
    has not moved, and, when camera and end effector are rigidly attached,
    they satisfy the equation [A X = X B] that the solver is to solve.
    None of this holds bit for bit on [double]; see
    [Scalar.float_add_not_associative]. *)

From Stdlib Require Import ZArith QArith Qfield Field Lia Setoid.
From stdpp Require Import base tactics option list.
From S2P Require Import Prelude Scalar Eigen Ros Derive.

(** ** Tactics *)

(** Break vectors, matrices and the equivalences between them into
    scalars. *)
Ltac components :=
  repeat match goal with
  | m : Matrix3d _ |- _ => destruct m as [[] [] []]
  | v : Vector3d _ |- _ => destruct v
  end;
  repeat match goal with
  | H : _ ≡@{Matrix3d _} _ |- _ => destruct H as (? & ? & ?); simpl in *
  | H : _ ≡@{Vector3d _} _ |- _ => destruct H as (? & ? & ?); simpl in *
  end;
  unfold m3_inverse, m3_det, m3_mul, m3_mul_vec, v3_mul_m3, m3_opp, v3_opp, v3_add,
    v3_scale, v3_dot, m3_col0, m3_col1, m3_col2, m3_identity, v3_zero;
  repeat split; simpl.

(** Close an equivalence of scalar expressions of the same shape. *)
Ltac congruences :=
  repeat first
    [ assumption | reflexivity
    | apply ef_add_proper | apply ef_sub_proper | apply ef_mul_proper
    | apply ef_div_proper | apply ef_opp_proper | apply s_inv_proper ].

(** Prove an identity of vectors or matrices component by component. *)
Ltac by_ring := intros; components; ring.

Section Rigid.
Context {F : Type} `{ExactField F}.
Local Open Scope scalar_scope.

Add Field rigid_field : ef_field.

(** ** Equivalence of vectors, matrices and transforms *)

#[export] Instance Vector3d_equiv : Equiv (Vector3d F) :=
  λ a b, vx a ≡ vx b ∧ vy a ≡ vy b ∧ vz a ≡ vz b.

#[export] Instance Matrix3d_equiv : Equiv (Matrix3d F) :=
  λ a b, m3_row0 a ≡ m3_row0 b ∧ m3_row1 a ≡ m3_row1 b ∧ m3_row2 a ≡ m3_row2 b.

(** Two transforms are the same affine map: Eigen's operations never read
    the bottom row. *)
#[export] Instance Affine3d_equiv : Equiv (Affine3d F) :=
  λ a b, linear a ≡ linear b ∧ translation a ≡ translation b.

#[export] Instance Vector3d_equivalence : Equivalence (≡@{Vector3d F}).
Proof.
  split.
  - by intros [].
  - intros [] [] (Hx & Hy & Hz); simpl in *.
    split_and!; simpl; [by rewrite Hx|by rewrite Hy|by rewrite Hz].
  - intros [] [] [] (Hx & Hy & Hz) (Hx' & Hy' & Hz'); simpl in *.
    split_and!; simpl; [by rewrite Hx|by rewrite Hy|by rewrite Hz].
Qed.

#[export] Instance Matrix3d_equivalence : Equivalence (≡@{Matrix3d F}).
Proof.
  split.
  - by intros [].
  - intros [] [] (Hx & Hy & Hz); simpl in *.
    split_and!; simpl; [by rewrite Hx|by rewrite Hy|by rewrite Hz].
  - intros [] [] [] (Hx & Hy & Hz) (Hx' & Hy' & Hz'); simpl in *.
    split_and!; simpl; [by rewrite Hx|by rewrite Hy|by rewrite Hz].
Qed.

#[export] Instance Affine3d_equivalence : Equivalence (≡@{Affine3d F}).
Proof.
  split.
  - by intros a.
  - intros a b [Hl Ht]. split; [by rewrite Hl|by rewrite Ht].
  - intros a b c [Hl Ht] [Hl' Ht']. split; [by rewrite Hl|by rewrite Ht].
Qed.

#[export] Instance v3_add_proper : Proper ((≡) ==> (≡) ==> (≡@{Vector3d F})) v3_add.
Proof. intros a a' Ha b b' Hb. components; congruences. Qed.

#[export] Instance v3_opp_proper : Proper ((≡) ==> (≡@{Vector3d F})) v3_opp.
Proof. intros a a' Ha. components; congruences. Qed.

#[export] Instance m3_opp_proper : Proper ((≡) ==> (≡@{Matrix3d F})) m3_opp.
Proof. intros a a' Ha. components; congruences. Qed.

#[export] Instance m3_mul_vec_proper :
  Proper ((≡) ==> (≡) ==> (≡@{Vector3d F})) m3_mul_vec.
Proof. intros a a' Ha b b' Hb. components; congruences. Qed.

#[export] Instance m3_mul_proper : Proper ((≡) ==> (≡) ==> (≡@{Matrix3d F})) m3_mul.
Proof. intros a a' Ha b b' Hb. components; congruences. Qed.

#[export] Instance m3_det_proper : Proper ((≡) ==> (≡@{F})) m3_det.
Proof. intros a a' Ha. components; congruences. Qed.

#[export] Instance m3_inverse_proper : Proper ((≡) ==> (≡@{Matrix3d F})) m3_inverse.
Proof. intros a a' Ha. components; congruences. Qed.

#[export] Instance linear_proper : Proper ((≡) ==> (≡@{Matrix3d F})) linear.
Proof. by intros a a' [Hl _]. Qed.

#[export] Instance translation_proper : Proper ((≡) ==> (≡@{Vector3d F})) translation.
Proof. by intros a a' [_ Ht]. Qed.

#[export] Instance compose_proper : Proper ((≡) ==> (≡) ==> (≡@{Affine3d F})) compose.
Proof.
  intros a a' [Hl Ht] b b' [Hl' Ht']. split.
  - by rewrite !linear_compose, Hl, Hl'.
  - by rewrite !translation_compose, Hl, Ht, Ht'.
Qed.

#[export] Instance inverse_proper : Proper ((≡) ==> (≡@{Affine3d F})) inverse.
Proof.
  intros a a' [Hl Ht]. split.
  - by rewrite !linear_inverse, Hl.
  - by rewrite !translation_inverse, Hl, Ht.
Qed.


(** ** Laws of 3x3 matrices and 3-vectors *)

Lemma v3_add_assoc (a b c : Vector3d F) : v3_add (v3_add a b) c ≡ v3_add a (v3_add b c).
Proof. by_ring. Qed.

Lemma v3_add_comm (a b : Vector3d F) : v3_add a b ≡ v3_add b a.
Proof. by_ring. Qed.

Lemma v3_add_0_l (a : Vector3d F) : v3_add v3_zero a ≡ a.
Proof. by_ring. Qed.

Lemma v3_add_0_r (a : Vector3d F) : v3_add a v3_zero ≡ a.
Proof. by_ring. Qed.

Lemma s_add_move (a b c d : F) : a + b ≡ c + d ↔ a + - d ≡ c + - b.
Proof.
  split; intros Heq.
  - transitivity (a + b + - b + - d); [ring|]. rewrite Heq. ring.
  - transitivity (a + - d + d + b); [ring|]. rewrite Heq. ring.
Qed.

(** Moving terms across an equation of vectors. *)
Lemma v3_add_move (a b c d : Vector3d F) :
  v3_add a b ≡ v3_add c d ↔ v3_add a (v3_opp d) ≡ v3_add c (v3_opp b).
Proof.
  split; intros (Hx & Hy & Hz); destruct a, b, c, d; simpl in *;
    split_and!; simpl;
    first [by apply (proj1 (s_add_move _ _ _ _))|by apply (proj2 (s_add_move _ _ _ _))].
Qed.

Lemma m3_mul_assoc (a b c : Matrix3d F) : m3_mul (m3_mul a b) c ≡ m3_mul a (m3_mul b c).
Proof. by_ring. Qed.

Lemma m3_mul_1_l (a : Matrix3d F) : m3_mul m3_identity a ≡ a.
Proof. by_ring. Qed.

Lemma m3_mul_1_r (a : Matrix3d F) : m3_mul a m3_identity ≡ a.
Proof. by_ring. Qed.

Lemma m3_mul_vec_mul (a b : Matrix3d F) (v : Vector3d F) :
  m3_mul_vec (m3_mul a b) v ≡ m3_mul_vec a (m3_mul_vec b v).
Proof. by_ring. Qed.

Lemma m3_mul_vec_add (a : Matrix3d F) (v w : Vector3d F) :
  m3_mul_vec a (v3_add v w) ≡ v3_add (m3_mul_vec a v) (m3_mul_vec a w).
Proof. by_ring. Qed.

Lemma m3_mul_vec_1 (v : Vector3d F) : m3_mul_vec m3_identity v ≡ v.
Proof. by_ring. Qed.

Lemma m3_mul_vec_0 (a : Matrix3d F) : m3_mul_vec a v3_zero ≡ v3_zero.
Proof. by_ring. Qed.

Lemma m3_mul_vec_opp (a : Matrix3d F) (v : Vector3d F) :
  v3_add (m3_mul_vec (m3_opp a) v) (m3_mul_vec a v) ≡ v3_zero.
Proof. by_ring. Qed.

Lemma m3_opp_mul_l (a b : Matrix3d F) : m3_mul (m3_opp a) b ≡ m3_opp (m3_mul a b).
Proof. by_ring. Qed.

Lemma m3_det_mul (a b : Matrix3d F) : m3_det (m3_mul a b) ≡ m3_det a * m3_det b.
Proof. by_ring. Qed.

Lemma m3_det_1 : m3_det m3_identity ≡ 1.
Proof. by_ring. Qed.

(** A matrix is invertible when its determinant is not zero. *)
Definition m3_invertible (m : Matrix3d F) : Prop := ¬ (m3_det m ≡ 0).

Ltac by_field Hdet :=
  components; field; intros Hzero; apply Hdet; unfold m3_det; simpl; rewrite <- Hzero; ring.

Lemma m3_inverse_l (m : Matrix3d F) :
  m3_invertible m → m3_mul (m3_inverse m) m ≡ m3_identity.
Proof. unfold m3_invertible. intros Hdet. by_field Hdet. Qed.

Lemma m3_inverse_r (m : Matrix3d F) :
  m3_invertible m → m3_mul m (m3_inverse m) ≡ m3_identity.
Proof. unfold m3_invertible. intros Hdet. by_field Hdet. Qed.


Lemma m3_opp_mul_r (a b : Matrix3d F) : m3_mul a (m3_opp b) ≡ m3_opp (m3_mul a b).
Proof. by_ring. Qed.

Lemma s_mul_nonzero (x y : F) : ¬ (x ≡ 0) → ¬ (y ≡ 0) → ¬ (x * y ≡ 0).
Proof.
  intros Hx Hy Hxy. apply Hy.
  transitivity (x * y / x); [by field|]. rewrite Hxy. by field.
Qed.

Lemma m3_invertible_mul (a b : Matrix3d F) :
  m3_invertible a → m3_invertible b → m3_invertible (m3_mul a b).
Proof. unfold m3_invertible. intros Ha Hb. rewrite m3_det_mul. by apply s_mul_nonzero. Qed.

Lemma m3_invertible_inverse (m : Matrix3d F) :
  m3_invertible m → m3_invertible (m3_inverse m).
Proof.
  intros Hm Hzero. pose proof (m3_inverse_l m Hm) as Hinv.
  apply m3_det_proper in Hinv. rewrite m3_det_mul, m3_det_1, Hzero in Hinv.
  apply (F_1_neq_0 ef_field). rewrite <- Hinv. ring.
Qed.

(** ** Laws of affine transforms *)

Local Open Scope eigen_scope.

(** A transform is invertible when its linear part is. *)
Definition invertible (a : Affine3d F) : Prop := m3_invertible (linear a).

Lemma compose_assoc (a b c : Affine3d F) : (a * b) * c ≡ a * (b * c).
Proof.
  split.
  - rewrite !linear_compose. apply m3_mul_assoc.
  - rewrite !translation_compose, !linear_compose.
    by rewrite m3_mul_vec_mul, m3_mul_vec_add, v3_add_assoc.
Qed.

Lemma compose_identity_l (a : Affine3d F) : identity * a ≡ a.
Proof.
  split.
  - rewrite linear_compose, linear_identity. apply m3_mul_1_l.
  - rewrite translation_compose, linear_identity, translation_identity.
    by rewrite m3_mul_vec_1, v3_add_0_r.
Qed.

Lemma compose_identity_r (a : Affine3d F) : a * identity ≡ a.
Proof.
  split.
  - rewrite linear_compose, linear_identity. apply m3_mul_1_r.
  - rewrite translation_compose, translation_identity.
    by rewrite m3_mul_vec_0, v3_add_0_l.
Qed.

Lemma inverse_l (a : Affine3d F) : invertible a → inverse a * a ≡ identity.
Proof.
  intros Ha. split.
  - rewrite linear_compose, linear_inverse, linear_identity. by apply m3_inverse_l.
  - rewrite translation_compose, linear_inverse, translation_inverse, translation_identity.
    rewrite v3_add_comm. apply m3_mul_vec_opp.
Qed.

Lemma inverse_r (a : Affine3d F) : invertible a → a * inverse a ≡ identity.
Proof.
  intros Ha. split.
  - rewrite linear_compose, linear_inverse, linear_identity. by apply m3_inverse_r.
  - rewrite translation_compose, translation_inverse, translation_identity.
    rewrite <- m3_mul_vec_mul, m3_opp_mul_r, m3_inverse_r by done.
    rewrite <- (m3_mul_vec_1 (translation a)) at 2. apply m3_mul_vec_opp.
Qed.

Lemma invertible_compose (a b : Affine3d F) :
  invertible a → invertible b → invertible (a * b).
Proof. unfold invertible. rewrite linear_compose. apply m3_invertible_mul. Qed.

Lemma invertible_identity : invertible identity.
Proof.
  unfold invertible, m3_invertible. rewrite linear_identity, m3_det_1.
  apply (F_1_neq_0 ef_field).
Qed.

Lemma invertible_inverse (a : Affine3d F) : invertible a → invertible (inverse a).
Proof. unfold invertible. rewrite linear_inverse. apply m3_invertible_inverse. Qed.

#[export] Instance invertible_proper : Proper ((≡) ==> iff) invertible.
Proof. intros a b Hab. unfold invertible, m3_invertible. by rewrite Hab. Qed.

(** Cancelling a transform on the left. *)
Lemma compose_inverse_cancel_l (a b : Affine3d F) :
  invertible a → inverse a * (a * b) ≡ b.
Proof. intros Ha. by rewrite <- compose_assoc, inverse_l, compose_identity_l. Qed.

Lemma compose_cancel_inverse_r (a b : Affine3d F) :
  invertible b → (a * b) * inverse b ≡ a.
Proof. intros Hb. by rewrite compose_assoc, inverse_r, compose_identity_r. Qed.

(** A left inverse is the inverse. *)
Lemma left_inverse_unique (a b : Affine3d F) :
  invertible a → b * a ≡ identity → b ≡ inverse a.
Proof.
  intros Ha Hba. rewrite <- (compose_identity_l (inverse a)), <- Hba.
  by rewrite compose_cancel_inverse_r.
Qed.

(** The inverse of a product. *)
Lemma inverse_compose (a b : Affine3d F) :
  invertible a → invertible b → inverse (a * b) ≡ inverse b * inverse a.
Proof.
  intros Ha Hb. symmetry. apply left_inverse_unique; [by apply invertible_compose|].
  by rewrite compose_assoc, compose_inverse_cancel_l, inverse_l.
Qed.

(** The relative transform does not depend on the frame the poses are
    given in. *)
Lemma relative_base_change (g e0 e : Affine3d F) :
  invertible g → invertible e0 → inverse (g * e0) * (g * e) ≡ inverse e0 * e.
Proof.
  intros Hg He0. rewrite inverse_compose by done.
  by rewrite compose_assoc, compose_inverse_cancel_l.
Qed.

(** The equation of hand-eye calibration. *)
Lemma relative_hand_eye (e0 c0 e c X W : Affine3d F) :
  invertible e0 → invertible c0 →
  e0 * X ≡ W * c0 → e * X ≡ W * c →
  (inverse e0 * e) * X ≡ X * (inverse c0 * c).
Proof.
  intros He0 Hc0 H0' Hi.
  assert (X * inverse c0 ≡ inverse e0 * W) as HX.
  { rewrite <- (compose_inverse_cancel_l e0 X), H0' by done.
    by rewrite !compose_assoc, inverse_r, compose_identity_r. }
  by rewrite compose_assoc, Hi, <- (compose_assoc X), HX, compose_assoc.
Qed.


(** ** The equations of the solver *)

(** The two equations the solver works from, for a relative motion with
    transforms [A] and [B] and the unknown [X]: [R_A R_X = R_X R_B] for the
    rotation, and [(R_A - I) t_X = R_X t_B - t_A] for the translation. *)
Definition screw_equations (X : Affine3d F) (ab : Affine3d F * Affine3d F) : Prop :=
  m3_mul (linear ab.1) (linear X) ≡ m3_mul (linear X) (linear ab.2) ∧
  v3_add (m3_mul_vec (linear ab.1) (translation X)) (v3_opp (translation X)) ≡
  v3_add (m3_mul_vec (linear X) (translation ab.2)) (v3_opp (translation ab.1)).

(** They say [A X = X B], no more and no less. *)
Lemma hand_eye_screw_equations (X A B : Affine3d F) :
  A * X ≡ X * B ↔ screw_equations X (A, B).
Proof.
  unfold screw_equations. cbn [fst snd]. split.
  - intros [Hl Ht]. rewrite !linear_compose in Hl. rewrite !translation_compose in Ht.
    split; [done|]. exact (proj1 (v3_add_move _ _ _ _) Ht).
  - intros [Hl Ht]. split; [by rewrite !linear_compose|].
    rewrite !translation_compose. exact (proj2 (v3_add_move _ _ _ _) Ht).
Qed.

End Rigid.

Section Motions.
Context {F : Type} `{ExactField F} `{RotationLib F} `{Sqrt F} `{StreamOut F}.
Local Open Scope eigen_scope.

(** ** What the derived motions satisfy *)

(** The two relative transforms of a pair, before they are split into
    rotation vector and translation. *)
Definition relative_transforms (ref p : PosePair F) : Affine3d F * Affine3d F :=
  (inverse (poseA ref) * poseA p, inverse (poseB ref) * poseB p).

(** The motion handed to the solver for a pair of relative transforms. *)
Definition motion_of (ab : Affine3d F * Affine3d F) : RelativeMotion F := {|
  rotationA := eigenRotToEigenVector3dAngleAxis (rotation ab.1);
  translationA := translation ab.1;
  rotationB := eigenRotToEigenVector3dAngleAxis (rotation ab.2);
  translationB := translation ab.2;
|}.

Lemma deriveAll_motion_of (ref : PosePair F) (rest : list (PosePair F)) :
  deriveAll (ref :: rest) = motion_of <$> (relative_transforms ref <$> rest).
Proof. simpl. by rewrite <- list_fmap_compose. Qed.

(** What the loop returns on a sequence that starts with [e0] and [c0]. *)
Lemma deriveMotions_cons_inv (e0 c0 : Affine3d F) (t1 t2 : list (Affine3d F))
    (u1 u2 : Affine3d F) (st : Locals F) (out : list Msg) :
  deriveMotions (e0 :: t1) (c0 :: t2) u1 u2 = Ok (st, out) →
  length t1 ≤ length t2 ∧
  solver_input st =
    screw_of_motions (motion_of <$>
      (relative_transforms (Build_PosePair e0 c0) <$> pose_pairs t1 t2)).
Proof.
  intros Hrun. destruct (estimate_loop_Ok_inv _ _ _ _ _ Hrun) as [Hlen Hmax]; [done|].
  rewrite deriveMotions_spec in Hrun by (done || lia). injection Hrun as <- _.
  split; [simpl in *; lia|].
  unfold solver_input, screw_of_motions. simpl. by rewrite <- !list_fmap_compose.
Qed.

(** The poses are those of a camera rigidly attached to the end effector
    by [X], looking at a tag fixed at [W] in the base frame. *)
Definition hand_eye_consistent (X W : Affine3d F) (t1 t2 : list (Affine3d F)) : Prop :=
  Forall2 (λ e c, e * X ≡ W * c) t1 t2.

Lemma hand_eye_consistent_pairs (X W : Affine3d F) (t1 t2 : list (Affine3d F)) :
  hand_eye_consistent X W t1 t2 →
  Forall (λ p, poseA p * X ≡ W * poseB p) (pose_pairs t1 t2).
Proof. induction 1; simpl; by constructor. Qed.

(** The relative transforms of a rigidly mounted camera. *)
Lemma relative_transforms_hand_eye (e0 c0 X W : Affine3d F) (t1 t2 : list (Affine3d F)) :
  invertible e0 → invertible c0 →
  hand_eye_consistent X W (e0 :: t1) (c0 :: t2) →
  Forall (λ ab, ab.1 * X ≡ X * ab.2)
    (relative_transforms (Build_PosePair e0 c0) <$> pose_pairs t1 t2).
Proof.
  intros He0 Hc0 Hcons. inversion Hcons as [|? ? ? ? H0' Hrest]; subst.
  apply Forall_fmap. eapply Forall_impl; [by apply hand_eye_consistent_pairs|].
  intros [e c] Hi. by apply (relative_hand_eye e0 c0 e c X W).
Qed.

Lemma relative_transforms_screw_equations (e0 c0 X W : Affine3d F)
    (t1 t2 : list (Affine3d F)) :
  invertible e0 → invertible c0 →
  hand_eye_consistent X W (e0 :: t1) (c0 :: t2) →
  Forall (screw_equations X)
    (relative_transforms (Build_PosePair e0 c0) <$> pose_pairs t1 t2).
Proof.
  intros He0 Hc0 Hcons. eapply Forall_impl; [by eapply relative_transforms_hand_eye|].
  intros [A B]. apply hand_eye_screw_equations.
Qed.

(** C8. The motions handed to the solver satisfy the equation it solves.
    When the poses are those of a camera attached to the end effector by
    [X] and a tag fixed in the base frame, every motion that the loop of
    [estimateHandEye] derives is the rotation vector and translation of a
    pair of transforms [A], [B] with [A X ≡ X B]. *)
Theorem deriveMotions_hand_eye (e0 c0 : Affine3d F) (t1 t2 : list (Affine3d F))
    (u1 u2 X W : Affine3d F) (st : Locals F) (out : list Msg) :
  invertible e0 → invertible c0 →
  hand_eye_consistent X W (e0 :: t1) (c0 :: t2) →
  deriveMotions (e0 :: t1) (c0 :: t2) u1 u2 = Ok (st, out) →
  ∃ ABs : list (Affine3d F * Affine3d F),
    Forall (λ ab, ab.1 * X ≡ X * ab.2) ABs ∧
    solver_input st = screw_of_motions (motion_of <$> ABs).
Proof.
  intros He0 Hc0 Hcons Hrun. apply deriveMotions_cons_inv in Hrun as [_ ->].
  eexists. split; [|reflexivity]. by eapply relative_transforms_hand_eye.
Qed.

(** The data handed to the solver satisfy the two equations that the
    estimator of section 4.3 works from.  Under the same assumption (a
    camera attached by [X], a tag fixed in the base frame) every motion the
    loop derives comes from transforms [A], [B] with [R_A R_X = R_X R_B] and
    [(R_A - I) t_X = R_X t_B - t_A], where the translations [t_A] and [t_B]
    are the ones stored for the solver. *)
Theorem deriveMotions_screw_equations (e0 c0 : Affine3d F) (t1 t2 : list (Affine3d F))
    (u1 u2 X W : Affine3d F) (st : Locals F) (out : list Msg) :
  invertible e0 → invertible c0 →
  hand_eye_consistent X W (e0 :: t1) (c0 :: t2) →
  deriveMotions (e0 :: t1) (c0 :: t2) u1 u2 = Ok (st, out) →
  ∃ ABs : list (Affine3d F * Affine3d F),
    Forall (screw_equations X) ABs ∧
    solver_input st = screw_of_motions (motion_of <$> ABs).
Proof.
  intros He0 Hc0 Hcons Hrun. apply deriveMotions_cons_inv in Hrun as [_ ->].
  eexists. split; [|reflexivity]. by eapply relative_transforms_screw_equations.
Qed.

(** Equivalence of lists of vectors, entry by entry. *)
Lemma Forall2_fmap_equiv {A} (f g : A → Vector3d F) (l : list A) :
  Forall (λ x, f x ≡ g x) l → Forall2 (≡) (f <$> l) (g <$> l).
Proof. induction 1; simpl; by constructor. Qed.

Lemma pose_pairs_fmap (g h : Affine3d F) (t1 t2 : list (Affine3d F)) :
  pose_pairs (compose g <$> t1) (compose h <$> t2) =
  (λ p, Build_PosePair (g * poseA p) (h * poseB p)) <$> pose_pairs t1 t2.
Proof.
  revert t2. induction t1 as [|e t1 IH]; intros [|c t2]; simpl; try done.
  f_equal. apply IH.
Qed.

(** C36. The translations handed to the solver do not depend on the frames
    the absolute poses are given in: composing every pose of the first
    sequence with [g] on the left, and every pose of the second with [h],
    leaves them unchanged up to [≡]. *)
Theorem deriveMotions_base_change (g h e0 c0 : Affine3d F) (t1 t2 : list (Affine3d F))
    (u1 u2 : Affine3d F) (st st' : Locals F) (out out' : list Msg) :
  invertible g → invertible h → invertible e0 → invertible c0 →
  deriveMotions (e0 :: t1) (c0 :: t2) u1 u2 = Ok (st, out) →
  deriveMotions (compose g <$> e0 :: t1) (compose h <$> c0 :: t2) u1 u2 = Ok (st', out') →
  Forall2 (≡) (tvecs1 (solver_input st')) (tvecs1 (solver_input st)) ∧
  Forall2 (≡) (tvecs2 (solver_input st')) (tvecs2 (solver_input st)).
Proof.
  intros Hg Hh He0 Hc0 Hrun Hrun'. simpl in Hrun'.
  apply deriveMotions_cons_inv in Hrun as [_ ->], Hrun' as [_ ->].
  rewrite pose_pairs_fmap. simpl. rewrite <- !list_fmap_compose.
  split; apply Forall2_fmap_equiv, Forall_forall; intros [e c] _; simpl;
    by rewrite relative_base_change.
Qed.

Lemma Forall_pose_pairs (P Q : Affine3d F → Prop) (t1 t2 : list (Affine3d F)) :
  Forall P t1 → Forall Q t2 → Forall (λ p, P (poseA p) ∧ Q (poseB p)) (pose_pairs t1 t2).
Proof.
  intros H1'. revert t2. induction H1' as [|e t1 He _ IH]; intros t2 H2'; [constructor|].
  destruct H2' as [|c t2 Hc H2']; simpl; constructor; auto.
Qed.

(** When every pose equals the first one (nothing moved between the
    captures), every translation handed to the solver is zero. *)
Theorem deriveMotions_at_rest (e0 c0 : Affine3d F) (t1 t2 : list (Affine3d F))
    (u1 u2 : Affine3d F) (st : Locals F) (out : list Msg) :
  invertible e0 → invertible c0 →
  Forall (λ e, e ≡ e0) t1 → Forall (λ c, c ≡ c0) t2 →
  deriveMotions (e0 :: t1) (c0 :: t2) u1 u2 = Ok (st, out) →
  Forall (λ t, t ≡ v3_zero) (tvecs1 (solver_input st)) ∧
  Forall (λ t, t ≡ v3_zero) (tvecs2 (solver_input st)).
Proof.
  intros He0 Hc0 H1' H2' Hrun. apply deriveMotions_cons_inv in Hrun as [_ ->].
  pose proof (Forall_pose_pairs _ _ _ _ H1' H2') as Hrest.
  simpl. rewrite <- !list_fmap_compose.
  split; apply Forall_fmap; (eapply Forall_impl; [exact Hrest|]);
    intros [e c] [He Hc]; simpl in *.
  - by rewrite He, inverse_l, translation_identity.
  - by rewrite Hc, inverse_l, translation_identity.
Qed.

End Motions.

(** ** The theorems at concrete poses *)

Lemma sample_turn_z_invertible : invertible sample_turn_z.
Proof. by vm_compute. Qed.

Lemma sample_turn_x_invertible : invertible sample_turn_x.
Proof. by vm_compute. Qed.

(** The tag poses of a camera attached by [sample_turn_x], the tag at the
    origin of the base frame. *)
Definition sample_cam (e : Affine3d Q) : Affine3d Q := (e * sample_turn_x)%E.

Lemma sample_hand_eye_consistent :
  hand_eye_consistent sample_turn_x identity
    [sample_turn_z; sample_shift] [sample_cam sample_turn_z; sample_cam sample_shift].
Proof. repeat constructor; by rewrite compose_identity_l. Qed.

Definition sample_derived : Locals Q * list Msg :=
  returned (initial_locals identity identity, [])
    (deriveMotions [sample_turn_z; sample_shift]
       [sample_cam sample_turn_z; sample_cam sample_shift] identity identity).

Lemma sample_derived_run :
  deriveMotions [sample_turn_z; sample_shift]
    [sample_cam sample_turn_z; sample_cam sample_shift] identity identity =
  Ok (sample_derived.1, sample_derived.2).
Proof. rewrite <- surjective_pairing. apply returned_Ok. vm_compute. reflexivity. Qed.

Lemma deriveMotions_hand_eye_witness :
  ∃ ABs : list (Affine3d Q * Affine3d Q),
    Forall (λ ab, (ab.1 * sample_turn_x ≡ sample_turn_x * ab.2)%E) ABs ∧
    solver_input sample_derived.1 = screw_of_motions (motion_of <$> ABs).
Proof.
  exact (deriveMotions_hand_eye _ _ _ _ _ _ _ _ _ _ sample_turn_z_invertible
           (invertible_compose _ _ sample_turn_z_invertible sample_turn_x_invertible)
           sample_hand_eye_consistent sample_derived_run).
Defined.

Definition sample_derived_moved : Locals Q * list Msg :=
  returned (initial_locals identity identity, [])
    (deriveMotions (compose sample_shift <$> [sample_turn_z; sample_shift])
       (compose sample_turn_x <$> [sample_cam sample_turn_z; sample_cam sample_shift])
       identity identity).

Lemma sample_derived_moved_run :
  deriveMotions (compose sample_shift <$> [sample_turn_z; sample_shift])
    (compose sample_turn_x <$> [sample_cam sample_turn_z; sample_cam sample_shift])
    identity identity =
  Ok (sample_derived_moved.1, sample_derived_moved.2).
Proof. rewrite <- surjective_pairing. apply returned_Ok. vm_compute. reflexivity. Qed.

Lemma sample_shift_invertible : invertible sample_shift.
Proof. by vm_compute. Qed.

Lemma deriveMotions_base_change_witness :
  Forall2 (≡) (tvecs1 (solver_input sample_derived_moved.1))
              (tvecs1 (solver_input sample_derived.1)) ∧
  Forall2 (≡) (tvecs2 (solver_input sample_derived_moved.1))
              (tvecs2 (solver_input sample_derived.1)).
Proof.
  exact (deriveMotions_base_change sample_shift sample_turn_x _ _ _ _ _ _ _ _ _ _
           sample_shift_invertible sample_turn_x_invertible sample_turn_z_invertible
           (invertible_compose _ _ sample_turn_z_invertible sample_turn_x_invertible)
           sample_derived_run sample_derived_moved_run).
Defined.

Definition sample_at_rest : Locals Q * list Msg :=
  returned (initial_locals identity identity, [])
    (deriveMotions [sample_turn_z; sample_turn_z] [sample_turn_x; sample_turn_x]
       identity identity).

Lemma sample_at_rest_run :
  deriveMotions [sample_turn_z; sample_turn_z] [sample_turn_x; sample_turn_x]
    identity identity =
  Ok (sample_at_rest.1, sample_at_rest.2).
Proof. rewrite <- surjective_pairing. apply returned_Ok. vm_compute. reflexivity. Qed.

Lemma deriveMotions_at_rest_witness :
  Forall (λ t, t ≡ v3_zero) (tvecs1 (solver_input sample_at_rest.1)) ∧
  Forall (λ t, t ≡ v3_zero) (tvecs2 (solver_input sample_at_rest.1)).
Proof.
  apply (deriveMotions_at_rest sample_turn_z sample_turn_x [sample_turn_z] [sample_turn_x]
           identity identity _ sample_at_rest.2
           sample_turn_z_invertible sample_turn_x_invertible);
    [by repeat constructor..|exact sample_at_rest_run].
Defined.

Lemma deriveMotions_screw_equations_witness :
  ∃ ABs : list (Affine3d Q * Affine3d Q),
    Forall (screw_equations sample_turn_x) ABs ∧
    solver_input sample_derived.1 = screw_of_motions (motion_of <$> ABs).
Proof.
  exact (deriveMotions_screw_equations _ _ _ _ _ _ _ _ _ _ sample_turn_z_invertible
           (invertible_compose _ _ sample_turn_z_invertible sample_turn_x_invertible)
           sample_hand_eye_consistent sample_derived_run).
Defined.
