(* ===== verification/Solver.v ===== *)
(** * Solver: the translation solve of the AX=XB estimator

    The estimator itself is camodocal's, outside the repository; the
    program reaches it through the interface [Calib.HandEyeSolver].
    Section 4.3 of the specification describes it in three steps.  This
    file models the second one from the specification: with the rotation
    [R_X] fixed, one linear equation [(R_A - I) t = R_X t_B - t_A] per
    relative motion, solved in the least-squares sense through the normal
    equations.  The rotation solve and the refinement need a singular value
    decomposition and an optimiser, and are not modelled; of the first step
    the file proves the correspondence of the rotation axes that it relies
    on ([rotation_axis_correspondence]).

    The theorems are in exact arithmetic ([ExactField]): the normal
    equations have the true [t_X] as a solution whenever the motions come
    from a rigidly mounted camera, and when the normal matrix is invertible
    the step returns it: run on what the loop of [estimateHandEye] derives,
    the step recovers the translation of the mounting.  On poses that
    satisfy no equation exactly, and for any estimate of the rotation, what
    the step returns is the one minimiser of the sum of the squared
    residuals of the equations ([OrderedField]): solving the normal
    equations is solving the least-squares problem. *)

From Stdlib Require Import ZArith QArith Qfield Field Lia Setoid.
From stdpp Require Import base tactics option list.
From S2P Require Import Prelude Scalar Eigen Ros Derive Rigid.

Section Solver.
Context {F : Type} `{ExactField F}.
Local Open Scope scalar_scope.

Add Field solver_field : ef_field.

(** ** Least squares in three unknowns *)

Definition m3_zero : Matrix3d F := Mat3 v3_zero v3_zero v3_zero.

Definition m3_add (a b : Matrix3d F) : Matrix3d F :=
  Mat3 (v3_add (m3_row0 a) (m3_row0 b)) (v3_add (m3_row1 a) (m3_row1 b))
       (v3_add (m3_row2 a) (m3_row2 b)).

Definition m3_transpose (m : Matrix3d F) : Matrix3d F :=
  Mat3 (m3_col0 m) (m3_col1 m) (m3_col2 m).

(** A linear equation [M t = b] in the unknown vector [t]. *)
Definition Equation : Type := Matrix3d F * Vector3d F.

Definition satisfies (t : Vector3d F) (e : Equation) : Prop := m3_mul_vec e.1 t ≡ e.2.

(** The normal equations [(sum M^T M) t = sum M^T b] of a system. *)
Definition normal_matrix (eqs : list Equation) : Matrix3d F :=
  foldr (λ e acc, m3_add (m3_mul (m3_transpose e.1) e.1) acc) m3_zero eqs.

Definition normal_rhs (eqs : list Equation) : Vector3d F :=
  foldr (λ e acc, v3_add (m3_mul_vec (m3_transpose e.1) e.2) acc) v3_zero eqs.

Definition least_squares (eqs : list Equation) : Vector3d F :=
  m3_mul_vec (m3_inverse (normal_matrix eqs)) (normal_rhs eqs).

(** ** The translation solve *)

(** The equation of one relative motion, [A] and [B] its two transforms:
    [(R_A - I) t = R_X t_B - t_A]. *)
Definition translation_equation (R_X : Matrix3d F) (ab : Affine3d F * Affine3d F)
    : Equation :=
  (m3_add (linear ab.1) (m3_opp m3_identity),
   v3_add (m3_mul_vec R_X (translation ab.2)) (v3_opp (translation ab.1))).

Definition solveTranslation (R_X : Matrix3d F) (ABs : list (Affine3d F * Affine3d F))
    : Vector3d F :=
  least_squares (translation_equation R_X <$> ABs).

(** ** Laws *)

Ltac by_ring' := intros; unfold m3_add, m3_transpose, m3_zero; by_ring.

#[export] Instance m3_add_proper : Proper ((≡) ==> (≡) ==> (≡@{Matrix3d F})) m3_add.
Proof. intros a a' Ha b b' Hb. unfold m3_add. components; congruences. Qed.

Lemma m3_mul_vec_add_l (a b : Matrix3d F) (v : Vector3d F) :
  m3_mul_vec (m3_add a b) v ≡ v3_add (m3_mul_vec a v) (m3_mul_vec b v).
Proof. by_ring'. Qed.

Lemma m3_mul_vec_zero_l (v : Vector3d F) : m3_mul_vec m3_zero v ≡ v3_zero.
Proof. by_ring'. Qed.

Lemma m3_mul_vec_sub_identity (a : Matrix3d F) (v : Vector3d F) :
  m3_mul_vec (m3_add a (m3_opp m3_identity)) v ≡ v3_add (m3_mul_vec a v) (v3_opp v).
Proof. by_ring'. Qed.

(** ** The normal equations *)

(** What satisfies every equation satisfies the normal equations. *)
Lemma normal_equations (eqs : list Equation) (t : Vector3d F) :
  Forall (satisfies t) eqs → m3_mul_vec (normal_matrix eqs) t ≡ normal_rhs eqs.
Proof.
  induction 1 as [|[M b] eqs Ht _ IH]; simpl; [apply m3_mul_vec_zero_l|].
  unfold satisfies in Ht. simpl in Ht.
  by rewrite m3_mul_vec_add_l, m3_mul_vec_mul, Ht, IH.
Qed.

(** A system with an invertible normal matrix has one solution of its
    normal equations. *)
Lemma least_squares_unique (eqs : list Equation) (t : Vector3d F) :
  m3_invertible (normal_matrix eqs) →
  m3_mul_vec (normal_matrix eqs) t ≡ normal_rhs eqs → least_squares eqs ≡ t.
Proof.
  intros Hinv Ht. unfold least_squares.
  by rewrite <- Ht, <- m3_mul_vec_mul, m3_inverse_l, m3_mul_vec_1.
Qed.

(** The unknown satisfies the equation of every motion with [A X = X B]. *)
Lemma screw_equations_satisfies (X : Affine3d F) (ab : Affine3d F * Affine3d F) :
  screw_equations X ab → satisfies (translation X) (translation_equation (linear X) ab).
Proof.
  intros [_ Ht]. unfold satisfies, translation_equation. simpl.
  by rewrite m3_mul_vec_sub_identity.
Qed.

(** ** The rotation axes *)

(** The screw correspondence of the rotation step: a vector that the
    rotation of [B] fixes (its axis) is carried by the rotation of [X] to a
    vector that the rotation of [A] fixes. *)
Lemma rotation_axis_correspondence (X : Affine3d F) (ab : Affine3d F * Affine3d F)
    (n : Vector3d F) :
  screw_equations X ab →
  m3_mul_vec (linear ab.2) n ≡ n →
  m3_mul_vec (linear ab.1) (m3_mul_vec (linear X) n) ≡ m3_mul_vec (linear X) n.
Proof.
  intros [HR _] Hn. by rewrite <- m3_mul_vec_mul, HR, m3_mul_vec_mul, Hn.
Qed.

(** ** The translation of the mounting *)

(** With the rotation of [X] given, the least-squares solution of the
    translation equations of motions that satisfy the two equations of
    section 4.3 for [X] is the translation of [X]. *)
Lemma solveTranslation_screw_equations (X : Affine3d F)
    (ABs : list (Affine3d F * Affine3d F)) :
  Forall (screw_equations X) ABs →
  m3_invertible (normal_matrix (translation_equation (linear X) <$> ABs)) →
  solveTranslation (linear X) ABs ≡ translation X.
Proof.
  intros Heqs Hinv. apply least_squares_unique; [done|]. apply normal_equations.
  apply Forall_fmap. eapply Forall_impl; [done|]. apply screw_equations_satisfies.
Qed.

(** Recovery on synthetic data (section 8 of the specification).  For
    a known invertible [X] and any motions [B_i], let [A_i = X B_i X^-1].
    When the motions determine the translation (the normal matrix is
    invertible), the translation solve, given the rotation of [X], returns
    the translation of [X]. *)
Theorem solveTranslation_recovers (X : Affine3d F) (ABs : list (Affine3d F * Affine3d F)) :
  invertible X →
  Forall (λ ab, ab.1 ≡ (X * ab.2 * inverse X)%E) ABs →
  m3_invertible (normal_matrix (translation_equation (linear X) <$> ABs)) →
  solveTranslation (linear X) ABs ≡ translation X.
Proof.
  intros HX Hsyn. apply solveTranslation_screw_equations.
  eapply Forall_impl; [done|]. intros [A B] HA. simpl in HA.
  apply hand_eye_screw_equations.
  by rewrite HA, compose_assoc, inverse_l, compose_identity_r.
Qed.

End Solver.

(** ** The normal equations solve the least-squares problem *)

Section LeastSquares.
Context {F : Type} `{OrderedField F}.
Local Open Scope scalar_scope.

Add Field least_squares_field : ef_field.

(** The squared residual [|M t - b|^2] of [t] in one equation, and their
    sum over a system. *)
Definition squared_residual (t : Vector3d F) (e : Equation) : F :=
  let r := v3_add (m3_mul_vec e.1 t) (v3_opp e.2) in v3_dot r r.

Definition residual_cost (eqs : list Equation) (t : Vector3d F) : F :=
  foldr (λ e acc, squared_residual t e + acc) 0 eqs.

(** The system with the right-hand sides set to zero. *)
Definition homogeneous (eqs : list Equation) : list Equation :=
  (λ e, (e.1, v3_zero)) <$> eqs.

Lemma homogeneous_cons (e : Equation) (eqs : list Equation) :
  homogeneous (e :: eqs) = (e.1, v3_zero) :: homogeneous eqs.
Proof. done. Qed.

Lemma residual_cost_cons (e : Equation) (eqs : list Equation) (t : Vector3d F) :
  residual_cost (e :: eqs) t = squared_residual t e + residual_cost eqs t.
Proof. done. Qed.

Lemma normal_matrix_cons (e : Equation) (eqs : list Equation) :
  normal_matrix (e :: eqs) = m3_add (m3_mul (m3_transpose e.1) e.1) (normal_matrix eqs).
Proof. done. Qed.

Lemma normal_rhs_cons (e : Equation) (eqs : list Equation) :
  normal_rhs (e :: eqs) = v3_add (m3_mul_vec (m3_transpose e.1) e.2) (normal_rhs eqs).
Proof. done. Qed.

#[export] Instance v3_dot_proper : Proper ((≡) ==> (≡) ==> (≡@{F})) v3_dot.
Proof. intros a a' Ha b b' Hb. components; congruences. Qed.

#[export] Instance squared_residual_proper :
  Proper ((≡) ==> (=) ==> (≡@{F})) squared_residual.
Proof. intros t t' Ht e ? <-. unfold squared_residual. by rewrite Ht. Qed.

#[export] Instance residual_cost_proper (eqs : list Equation) :
  Proper ((≡) ==> (≡@{F})) (residual_cost eqs).
Proof.
  intros t t' Ht. induction eqs as [|e eqs IH]; [done|].
  by rewrite !residual_cost_cons, IH, Ht.
Qed.

Lemma v3_sub_diag (v : Vector3d F) : v3_add v (v3_opp v) ≡ v3_zero.
Proof. by_ring. Qed.

Lemma v3_dot_0_r (v : Vector3d F) : v3_dot v v3_zero ≡ 0.
Proof. by_ring. Qed.

Lemma v3_dot_self_nonneg (v : Vector3d F) : 0 ≤ v3_dot v v.
Proof.
  destruct v as [x y z]. unfold v3_dot. simpl.
  assert (0 ≡@{F} 0 + 0 + 0) as -> by ring.
  repeat apply of_add_le_mono; apply of_square_nonneg.
Qed.

Lemma residual_cost_nonneg (eqs : list Equation) (t : Vector3d F) : 0 ≤ residual_cost eqs t.
Proof.
  induction eqs as [|e eqs IH]; [done|]. rewrite residual_cost_cons.
  assert (0 ≡@{F} 0 + 0) as -> by ring.
  apply of_add_le_mono; [apply v3_dot_self_nonneg|done].
Qed.

(** The cost around a point [s]: the cost at [s], a term that is linear in
    the step [d] and vanishes when [s] solves the normal equations, and
    the cost of [d] in the homogeneous system. *)
Lemma residual_cost_expand (eqs : list Equation) (s d : Vector3d F) :
  residual_cost eqs (v3_add s d) ≡
  residual_cost eqs s
  + (1 + 1) * v3_dot d (v3_add (m3_mul_vec (normal_matrix eqs) s) (v3_opp (normal_rhs eqs)))
  + residual_cost (homogeneous eqs) d.
Proof.
  induction eqs as [|[M b] eqs IH].
  - unfold residual_cost, normal_matrix, normal_rhs, m3_zero. cbn [foldr homogeneous fmap list_fmap].
    by_ring.
  - rewrite homogeneous_cons, !residual_cost_cons, normal_matrix_cons, normal_rhs_cons, IH.
    generalize (residual_cost eqs s) (residual_cost (homogeneous eqs) d).
    generalize (normal_matrix eqs) (normal_rhs eqs). intros N r c q.
    unfold squared_residual, m3_add, m3_transpose. cbn [fst snd]. by_ring.
Qed.

(** With an invertible normal matrix, [least_squares] solves the normal
    equations. *)
Lemma least_squares_normal (eqs : list Equation) :
  m3_invertible (normal_matrix eqs) →
  m3_mul_vec (normal_matrix eqs) (least_squares eqs) ≡ normal_rhs eqs.
Proof.
  intros Hinv. unfold least_squares.
  by rewrite <- m3_mul_vec_mul, m3_inverse_r, m3_mul_vec_1.
Qed.

(** A solution of the normal equations minimises the cost. *)
Lemma normal_equations_minimise (eqs : list Equation) (s t : Vector3d F) :
  m3_mul_vec (normal_matrix eqs) s ≡ normal_rhs eqs →
  residual_cost eqs s ≤ residual_cost eqs t.
Proof.
  intros Hn. assert (t ≡ v3_add s (v3_add t (v3_opp s))) as -> by by_ring.
  rewrite residual_cost_expand, Hn, v3_sub_diag, v3_dot_0_r.
  set (q := residual_cost _ (v3_add t _)).
  assert (0 ≤ q) as Hq by apply residual_cost_nonneg.
  assert (residual_cost eqs s ≡ residual_cost eqs s + 0) as Hs by ring. rewrite Hs at 1.
  assert (residual_cost eqs s + (1 + 1) * 0 + q ≡ residual_cost eqs s + q) as -> by ring.
  by apply of_add_le_mono.
Qed.

Theorem least_squares_minimises (eqs : list Equation) (t : Vector3d F) :
  m3_invertible (normal_matrix eqs) →
  residual_cost eqs (least_squares eqs) ≤ residual_cost eqs t.
Proof. intros Hinv. by apply normal_equations_minimise, least_squares_normal. Qed.

(** *** The minimiser is unique *)

Lemma sum_nonneg_zero (a b : F) : 0 ≤ a → 0 ≤ b → a + b ≤ 0 → a ≡ 0 ∧ b ≡ 0.
Proof.
  intros Ha Hb Hab. split; apply of_le_antisym; try done.
  - transitivity (a + b); [|done]. assert (a ≡ a + 0) as Hr by ring. rewrite Hr at 1.
    by apply of_add_le_mono.
  - transitivity (a + b); [|done]. assert (b ≡ 0 + b) as Hr by ring. rewrite Hr at 1.
    by apply of_add_le_mono.
Qed.

Context `{!RelDecision (≡@{F})}.

Lemma square_zero (a : F) : a * a ≡ 0 → a ≡ 0.
Proof.
  intros Ha. destruct (decide (a ≡ 0)) as [|Hne]; [done|].
  transitivity (a * a / a); [by field|]. rewrite Ha. by field.
Qed.

Lemma v3_dot_self_zero (v : Vector3d F) : v3_dot v v ≤ 0 → v ≡ v3_zero.
Proof.
  destruct v as [x y z]. unfold v3_dot. simpl. intros Hv.
  pose proof (of_square_nonneg x) as Hx. pose proof (of_square_nonneg y) as Hy.
  pose proof (of_square_nonneg z) as Hz.
  assert (0 ≤ x * x + y * y) as Hxy.
  { assert (0 ≡@{F} 0 + 0) as -> by ring. by apply of_add_le_mono. }
  destruct (sum_nonneg_zero _ _ Hxy Hz Hv) as [Hxy0 Hz0].
  destruct (sum_nonneg_zero _ _ Hx Hy) as [Hx0 Hy0]; [by rewrite Hxy0|].
  repeat split; simpl; by apply square_zero.
Qed.

(** The cost of a step in the homogeneous system vanishes only where the
    normal matrix does. *)
Lemma homogeneous_cost_zero (eqs : list Equation) (d : Vector3d F) :
  residual_cost (homogeneous eqs) d ≤ 0 → m3_mul_vec (normal_matrix eqs) d ≡ v3_zero.
Proof.
  induction eqs as [|[M b] eqs IH].
  - intros _. unfold normal_matrix. simpl. apply m3_mul_vec_zero_l.
  - rewrite normal_matrix_cons. cbn [fst snd]. intros Hc.
    change (squared_residual d (M, v3_zero) + residual_cost (homogeneous eqs) d ≤ 0) in Hc.
    destruct (sum_nonneg_zero _ _ (v3_dot_self_nonneg _) (residual_cost_nonneg _ d) Hc)
      as [HM Hrest].
    assert (m3_mul_vec M d ≡ v3_zero) as HMd.
    { apply v3_dot_self_zero. unfold squared_residual in HM. cbn [fst snd] in HM.
      assert (m3_mul_vec M d ≡ v3_add (m3_mul_vec M d) (v3_opp v3_zero)) as -> by by_ring.
      by rewrite HM. }
    rewrite m3_mul_vec_add_l, m3_mul_vec_mul, HMd, m3_mul_vec_0, IH, v3_add_0_l;
      [done|by rewrite Hrest].
Qed.

(** What costs no more than a solution of the normal equations differs
    from it by a step the normal matrix sends to zero. *)
Lemma no_better_than_normal (eqs : list Equation) (s t : Vector3d F) :
  m3_mul_vec (normal_matrix eqs) s ≡ normal_rhs eqs →
  residual_cost eqs t ≤ residual_cost eqs s →
  m3_mul_vec (normal_matrix eqs) (v3_add t (v3_opp s)) ≡ v3_zero.
Proof.
  intros Hn. assert (t ≡ v3_add s (v3_add t (v3_opp s))) as Ht by by_ring.
  rewrite Ht at 1. rewrite residual_cost_expand, Hn, v3_sub_diag, v3_dot_0_r.
  set (d := v3_add t (v3_opp s)). intros Hle. apply homogeneous_cost_zero.
  apply of_le_antisym in Hle.
  - assert (residual_cost (homogeneous eqs) d ≡ 0) as ->; [|done].
    transitivity (residual_cost eqs s + (1 + 1) * 0 + residual_cost (homogeneous eqs) d
                  + - residual_cost eqs s); [ring|].
    rewrite <- Hle. ring.
  - assert (residual_cost eqs s ≡ residual_cost eqs s + (1 + 1) * 0 + 0) as Hr by ring.
    rewrite Hr at 1. apply of_add_le_mono; [done|apply residual_cost_nonneg].
Qed.

Theorem least_squares_unique_minimiser (eqs : list Equation) (t : Vector3d F) :
  m3_invertible (normal_matrix eqs) →
  residual_cost eqs t ≤ residual_cost eqs (least_squares eqs) → t ≡ least_squares eqs.
Proof.
  intros Hinv Hle.
  apply (no_better_than_normal _ _ _ (least_squares_normal eqs Hinv)) in Hle.
  assert (v3_add t (v3_opp (least_squares eqs)) ≡ v3_zero) as Hd.
  { rewrite <- (m3_mul_vec_1 (v3_add _ _)), <- (m3_inverse_l _ Hinv), m3_mul_vec_mul, Hle.
    apply m3_mul_vec_0. }
  assert (t ≡ v3_add (least_squares eqs) (v3_add t (v3_opp (least_squares eqs)))) as ->
    by by_ring.
  rewrite Hd at 1. apply v3_add_0_r.
Qed.

End LeastSquares.

Section Pipeline.
Context {F : Type} `{ExactField F} `{RotationLib F} `{Sqrt F} `{StreamOut F}.
Local Open Scope eigen_scope.

(** C27. From the recorded poses to the translation of the mounting.  When
    the poses are those of a camera attached to the end effector by [X] and
    a tag fixed in the base frame, the loop of [estimateHandEye] hands the
    solver the motions of relative transforms on which the translation
    solve, given the rotation of [X], returns the translation of [X],
    provided the motions determine it (the normal matrix is invertible). *)
Theorem deriveMotions_recovers_translation (e0 c0 : Affine3d F) (t1 t2 : list (Affine3d F))
    (u1 u2 X W : Affine3d F) (st : Locals F) (out : list Msg) :
  invertible e0 → invertible c0 →
  hand_eye_consistent X W (e0 :: t1) (c0 :: t2) →
  deriveMotions (e0 :: t1) (c0 :: t2) u1 u2 = Ok (st, out) →
  let ABs := relative_transforms (Build_PosePair e0 c0) <$> pose_pairs t1 t2 in
  m3_invertible (normal_matrix (translation_equation (linear X) <$> ABs)) →
  solver_input st = screw_of_motions (motion_of <$> ABs) ∧
  solveTranslation (linear X) ABs ≡ translation X.
Proof.
  intros He0 Hc0 Hcons Hrun ABs Hinv.
  split; [by apply deriveMotions_cons_inv in Hrun as [_ ->]|].
  apply solveTranslation_screw_equations; [|done].
  by eapply relative_transforms_screw_equations.
Qed.

(** C28. From the recorded poses to a least-squares translation.  Whatever
    poses were recorded, exact or not, and whatever estimate [R_X] of the
    rotation the first step made, the loop of [estimateHandEye] hands the
    solver the motions of relative transforms on which the translation
    solve returns a minimiser of the squared residuals of the equations
    [(R_A - I) t = R_X t_B - t_A], provided the normal matrix is
    invertible: no translation fits the recorded motions better, and none
    other fits them as well. *)
Theorem deriveMotions_translation_least_squares `{Le F} `{!OrderedField F}
    `{!RelDecision (≡@{F})}
    (e0 c0 : Affine3d F) (t1 t2 : list (Affine3d F)) (u1 u2 : Affine3d F)
    (R_X : Matrix3d F) (st : Locals F) (out : list Msg) :
  deriveMotions (e0 :: t1) (c0 :: t2) u1 u2 = Ok (st, out) →
  let ABs := relative_transforms (Build_PosePair e0 c0) <$> pose_pairs t1 t2 in
  let cost := residual_cost (translation_equation R_X <$> ABs) in
  m3_invertible (normal_matrix (translation_equation R_X <$> ABs)) →
  solver_input st = screw_of_motions (motion_of <$> ABs) ∧
  ∀ t, (cost (solveTranslation R_X ABs) ≤ cost t)%S ∧
       ((cost t ≤ cost (solveTranslation R_X ABs))%S → t ≡ solveTranslation R_X ABs).
Proof.
  intros Hrun ABs cost Hinv. split; [by apply deriveMotions_cons_inv in Hrun as [_ ->]|].
  intros t. split; [by apply least_squares_minimises|by apply least_squares_unique_minimiser].
Qed.

End Pipeline.

(** ** The theorems at concrete poses *)

(** Three poses of the end effector, and the tag poses of a camera
    attached by [sample_turn_x]. *)
Definition sample_arm : list (Affine3d Q) := [sample_turn_z; sample_shift; sample_turn_x].
Definition sample_tags : list (Affine3d Q) := sample_cam <$> sample_arm.

Lemma sample_tags_consistent : hand_eye_consistent sample_turn_x identity sample_arm sample_tags.
Proof. repeat constructor; by rewrite compose_identity_l. Qed.

Definition sample_motions : Locals Q * list Msg :=
  returned (initial_locals identity identity, [])
    (deriveMotions sample_arm sample_tags identity identity).

Lemma sample_motions_run :
  deriveMotions sample_arm sample_tags identity identity =
  Ok (sample_motions.1, sample_motions.2).
Proof. rewrite <- surjective_pairing. apply returned_Ok. vm_compute. reflexivity. Qed.

Definition sample_ABs : list (Affine3d Q * Affine3d Q) :=
  relative_transforms (Build_PosePair sample_turn_z (sample_cam sample_turn_z)) <$>
    pose_pairs [sample_shift; sample_turn_x] [sample_cam sample_shift; sample_cam sample_turn_x].

Lemma sample_normal_matrix_invertible :
  m3_invertible (normal_matrix (translation_equation (linear sample_turn_x) <$> sample_ABs)).
Proof. by vm_compute. Qed.

Lemma deriveMotions_recovers_translation_witness :
  solver_input sample_motions.1 = screw_of_motions (motion_of <$> sample_ABs) ∧
  solveTranslation (linear sample_turn_x) sample_ABs ≡ translation sample_turn_x.
Proof.
  exact (deriveMotions_recovers_translation _ _ _ _ _ _ _ _ _ _ sample_turn_z_invertible
           (invertible_compose _ _ sample_turn_z_invertible sample_turn_x_invertible)
           sample_tags_consistent sample_motions_run sample_normal_matrix_invertible).
Defined.

(** Synthetic data: two motions [B] and [A = X B X^-1] for [X] the pose
    [sample_turn_x]. *)
Definition synthetic_ABs : list (Affine3d Q * Affine3d Q) :=
  (λ B, ((sample_turn_x * B * inverse sample_turn_x)%E, B)) <$> [sample_turn_z; sample_shift;
    (sample_turn_z * sample_turn_x)%E].

Lemma solveTranslation_recovers_witness :
  solveTranslation (linear sample_turn_x) synthetic_ABs ≡ translation sample_turn_x.
Proof.
  apply solveTranslation_recovers; [exact sample_turn_x_invertible| |by vm_compute].
  repeat constructor.
Defined.

(** Recorded poses that fit no mounting: the last tag pose of the sample
    is off by [sample_shift]. *)
Definition noisy_tags : list (Affine3d Q) :=
  [sample_cam sample_turn_z; sample_cam sample_shift; (sample_cam sample_turn_x * sample_shift)%E].

Definition noisy_motions : Locals Q * list Msg :=
  returned (initial_locals identity identity, [])
    (deriveMotions sample_arm noisy_tags identity identity).

Lemma noisy_motions_run :
  deriveMotions sample_arm noisy_tags identity identity =
  Ok (noisy_motions.1, noisy_motions.2).
Proof. rewrite <- surjective_pairing. apply returned_Ok. vm_compute. reflexivity. Qed.

Definition noisy_ABs : list (Affine3d Q * Affine3d Q) :=
  relative_transforms (Build_PosePair sample_turn_z (sample_cam sample_turn_z)) <$>
    pose_pairs [sample_shift; sample_turn_x]
      [sample_cam sample_shift; (sample_cam sample_turn_x * sample_shift)%E].

Lemma noisy_normal_matrix_invertible :
  m3_invertible (normal_matrix (translation_equation (linear sample_turn_x) <$> noisy_ABs)).
Proof. by vm_compute. Qed.

Lemma deriveMotions_translation_least_squares_witness :
  let cost := residual_cost (translation_equation (linear sample_turn_x) <$> noisy_ABs) in
  solver_input noisy_motions.1 = screw_of_motions (motion_of <$> noisy_ABs) ∧
  ∀ t, (cost (solveTranslation (linear sample_turn_x) noisy_ABs) ≤ cost t)%S ∧
       ((cost t ≤ cost (solveTranslation (linear sample_turn_x) noisy_ABs))%S →
        t ≡ solveTranslation (linear sample_turn_x) noisy_ABs).
Proof.
  exact (deriveMotions_translation_least_squares _ _ _ _ _ _ (linear sample_turn_x) _ _
           noisy_motions_run noisy_normal_matrix_invertible).
Defined.

(** On these poses no translation satisfies the equations, and the one of
    the mounting is not the best fit. *)
Example noisy_cost :
  let eqs := translation_equation (linear sample_turn_x) <$> noisy_ABs in
  ¬ (residual_cost eqs (solveTranslation (linear sample_turn_x) noisy_ABs) ≡ 0)%S ∧
  ¬ (residual_cost eqs (translation sample_turn_x)
     ≤ residual_cost eqs (solveTranslation (linear sample_turn_x) noisy_ABs))%S.
Proof. split; by vm_compute. Qed.
