(* ===== verification/Capture.v ===== *)
(** * Capture: the interactive store of pose pairs

    The global variables of the program (source lines 20-27) as the record
    [Globals]; [addFrame] (lines 297-394), which looks both transforms up,
    appends them to [baseToTip] and [cameraToTag] and extends the cached
    relative motions; [deleteLastFrame], the body of the [d] key in [main]
    (lines 455-463), which pops all six vectors.  [addFrame] takes each
    lookup as found or not; [addFrame_tf] is the function as tf answers it,
    where a lookup may also throw.

    The cached vectors [rvecsArm], [tvecsArm], [rvecsFiducial] and
    [tvecsFiducial] are what the [q] key hands to the solver.  The invariant
    [coherent] says that they are the relative motions of the stored pairs;
    it holds in every state reachable without undefined behaviour, and it
    makes the interactive calibration agree with the batch calibration of
    the same pairs ([Derive]). *)

From Stdlib Require Import ZArith QArith Lia.
From stdpp Require Import base tactics option list strings pretty relations.
From S2P Require Import Prelude Scalar Eigen Ros Derive.

(** ** State *)

Record Globals (F : Type) : Type := {
  firstEEInverse : Affine3d F;
  firstCamInverse : Affine3d F;
  firstTransform : bool;
  tvecsArm : list (Vector3d F);
  rvecsArm : list (Vector3d F);
  tvecsFiducial : list (Vector3d F);
  rvecsFiducial : list (Vector3d F);
  baseToTip : list (Affine3d F);
  cameraToTag : list (Affine3d F);
}.
Arguments Build_Globals {F}.
Arguments firstEEInverse {F} g.
Arguments firstCamInverse {F} g.
Arguments firstTransform {F} g.
Arguments tvecsArm {F} g.
Arguments rvecsArm {F} g.
Arguments tvecsFiducial {F} g.
Arguments rvecsFiducial {F} g.
Arguments baseToTip {F} g.
Arguments cameraToTag {F} g.

#[export] Instance Locals_eq_dec {F} `{EqDecision F} : EqDecision (Locals F).
Proof. solve_decision. Defined.
#[export] Instance Globals_eq_dec {F} `{EqDecision F} : EqDecision (Globals F).
Proof. solve_decision. Defined.

Section Capture.
Context {F : Type} `{ScalarOps F} `{RotationLib F} `{Sqrt F} `{StreamOut F} `{TfLib F}.
Local Open Scope eigen_scope.

(** The globals when [main] starts: static storage is zeroed, then the
    constructor of [Affine3d] writes the bottom row; the vectors are
    empty. *)
Definition initial_globals : Globals F := {|
  firstEEInverse :=
    fromLinearTranslation (Mat3 v3_zero v3_zero v3_zero) v3_zero;
  firstCamInverse :=
    fromLinearTranslation (Mat3 v3_zero v3_zero v3_zero) v3_zero;
  firstTransform := true;
  tvecsArm := [];
  rvecsArm := [];
  tvecsFiducial := [];
  rvecsFiducial := [];
  baseToTip := [];
  cameraToTag := [];
|}.

(** ** Operations *)

(** [addFrame] (source lines 297-394).  [camLookup] and [eeLookup] are the
    answers of tf to the two lookups, in the order the source makes them. *)
Definition addFrame (P : Params) (camLookup eeLookup : option (StampedTransform F))
    (g : Globals F) : Globals F * list Msg :=
  let warnCam :=
    match camLookup with
    | Some _ => []
    | None =>
      [ROS_WARN ("Fail to Cam TF transform between " +:+ ARTagTFname P
                 +:+ " to " +:+ cameraTFname P)]
    end in
  let warnEE :=
    match eeLookup with
    | Some _ => []
    | None =>
      [ROS_WARN ("Fail to EE TF transform between " +:+ baseTFname P
                 +:+ " to " +:+ EETFname P)]
    end in
  match eeLookup, camLookup with
  | Some EETransform, Some CamTransform =>
    let eigenEE := transformTFToEigen EETransform in
    let eigenCam := transformTFToEigen CamTransform in
    if firstTransform g then
      ({| firstEEInverse := inverse eigenEE;
          firstCamInverse := inverse eigenCam;
          firstTransform := false;
          tvecsArm := tvecsArm g;
          rvecsArm := rvecsArm g;
          tvecsFiducial := tvecsFiducial g;
          rvecsFiducial := rvecsFiducial g;
          baseToTip := push_back eigenEE (baseToTip g);
          cameraToTag := push_back eigenCam (cameraToTag g) |},
       CERR (esc +:+ "[1;34m" +:+ "Adding First Transform" +:+ esc +:+ "[0m" +:+ nl)
         :: ROS_INFO "Adding first transformation."
         :: dump_poses eigenEE eigenCam)
    else
      let robotTipinFirstTipBase := firstEEInverse g * eigenEE in
      let fiducialInFirstFiducialBase := firstCamInverse g * eigenCam in
      ({| firstEEInverse := firstEEInverse g;
          firstCamInverse := firstCamInverse g;
          firstTransform := false;
          tvecsArm := push_back (translation robotTipinFirstTipBase) (tvecsArm g);
          rvecsArm :=
            push_back
              (eigenRotToEigenVector3dAngleAxis (rotation robotTipinFirstTipBase))
              (rvecsArm g);
          tvecsFiducial :=
            push_back (translation fiducialInFirstFiducialBase) (tvecsFiducial g);
          rvecsFiducial :=
            push_back
              (eigenRotToEigenVector3dAngleAxis (rotation fiducialInFirstFiducialBase))
              (rvecsFiducial g);
          baseToTip := push_back eigenEE (baseToTip g);
          cameraToTag := push_back eigenCam (cameraToTag g) |},
       CERR (esc +:+ "[1;34m" +:+ "Adding Transform #:"
             +:+ pretty (Z.of_nat (length (rvecsArm g)) + 1)%Z +:+ esc +:+ "[0m" +:+ nl)
         :: ROS_INFO "Hand Eye Calibration Transform Pair Added"
         :: CERR ("EE Relative transform: " +:+ nl
                  +:+ print_matrix (matrix robotTipinFirstTipBase) +:+ nl)
         :: CERR ("Cam Relative transform: " +:+ nl
                  +:+ print_matrix (matrix fiducialInFirstFiducialBase) +:+ nl)
         :: CERR ("EE pos: (" +:+ print_double (vx (getOrigin EETransform)) +:+ ", "
                  +:+ print_double (vy (getOrigin EETransform)) +:+ ", "
                  +:+ print_double (vz (getOrigin EETransform)) +:+ ")" +:+ nl)
         :: CERR ("EE rot: ("
                  +:+ print_double (vx (getAxis (getRotation EETransform))) +:+ ", "
                  +:+ print_double (vy (getAxis (getRotation EETransform))) +:+ ", "
                  +:+ print_double (vz (getAxis (getRotation EETransform))) +:+ ", "
                  +:+ print_double (qw (getRotation EETransform)) +:+ ")" +:+ nl)
         :: l2norm_line robotTipinFirstTipBase fiducialInFirstFiducialBase
         :: dump_poses eigenEE eigenCam)
  | _, _ =>
    (g, warnCam ++ warnEE ++ [ROS_WARN "Fail to get one/both of needed TF transform"])
  end.

(** [addFrame] as tf answers it (source lines 303-320): the camera is
    looked up first, then the end effector; a [lookupTransform] that throws
    ends the function, and with it the process, since nothing catches the
    exception. *)
Definition addFrame_tf (P : Params) (camLookup eeLookup : Lookup F) (g : Globals F)
    : outcome (Globals F * list Msg) :=
  if throws camLookup || throws eeLookup then Undef UncaughtException
  else Ok (addFrame P (answer camLookup) (answer eeLookup) g).

(** The [d] key (source lines 455-463): the log line is written first, with
    the size of [rvecsArm] converted to [unsigned int]; then each of the six
    vectors is popped, empty or not. *)
Definition deleteLastFrame (g : Globals F) : outcome (Globals F * list Msg) :=
  let out :=
    [ROS_INFO ("Deleted last frame transformation. Number of Current Transformations: "
               +:+ pretty (to_uint (Z.of_nat (length (rvecsArm g)))))] in
  rvecsArm' ← pop_back (rvecsArm g);
  tvecsArm' ← pop_back (tvecsArm g);
  rvecsFiducial' ← pop_back (rvecsFiducial g);
  tvecsFiducial' ← pop_back (tvecsFiducial g);
  baseToTip' ← pop_back (baseToTip g);
  cameraToTag' ← pop_back (cameraToTag g);
  mret ({| firstEEInverse := firstEEInverse g;
           firstCamInverse := firstCamInverse g;
           firstTransform := firstTransform g;
           tvecsArm := tvecsArm';
           rvecsArm := rvecsArm';
           tvecsFiducial := tvecsFiducial';
           rvecsFiducial := rvecsFiducial';
           baseToTip := baseToTip';
           cameraToTag := cameraToTag' |}, out).

(** ** The capture commands as a transition system *)

Inductive capture_step (P : Params) : Globals F → Globals F → Prop :=
| step_addFrame (camLookup eeLookup : option (StampedTransform F)) (g : Globals F) :
    capture_step P g (addFrame P camLookup eeLookup g).1
| step_deleteLastFrame (g g' : Globals F) (out : list Msg) :
    deleteLastFrame g = Ok (g', out) → capture_step P g g'.

(** The states a session can be in before it has run into undefined
    behaviour. *)
Definition reachable (P : Params) (g : Globals F) : Prop :=
  rtc (capture_step P) initial_globals g.

(** ** The invariant *)

(** The globals that [estimateHandEye] shadows with locals of the same
    names. *)
Definition cached (g : Globals F) : Locals F := {|
  l_firstEEInverse := firstEEInverse g;
  l_firstCamInverse := firstCamInverse g;
  l_firstTransform := firstTransform g;
  l_tvecsArm := tvecsArm g;
  l_rvecsArm := rvecsArm g;
  l_tvecsFiducial := tvecsFiducial g;
  l_rvecsFiducial := rvecsFiducial g;
|}.

(** The two pose vectors have the same length, and the cache is what the
    specification derives from the stored pairs. *)
Definition coherent (g : Globals F) : Prop :=
  length (cameraToTag g) = length (baseToTip g) ∧
  cached g =
    locals_of_pairs (firstEEInverse g) (firstCamInverse g)
      (pose_pairs (baseToTip g) (cameraToTag g)).

#[export] Instance coherent_dec `{EqDecision F} (g : Globals F) : Decision (coherent g).
Proof. unfold coherent. apply _. Defined.

(** ** Shapes of coherent states *)

(** The two shapes of a coherent state. *)
Lemma coherent_empty (g : Globals F) :
  coherent g → firstTransform g = true →
  baseToTip g = [] ∧ cameraToTag g = [] ∧
  tvecsArm g = [] ∧ rvecsArm g = [] ∧ tvecsFiducial g = [] ∧ rvecsFiducial g = [].
Proof.
  intros [Hlen Hc] Hf. destruct g as [? ? ? ? ? ? ? [|e t1] [|c t2]];
    unfold cached, pose_pairs in Hc; simpl in *; unfold initial_locals in *; by simplify_eq.
Qed.

Lemma coherent_running (g : Globals F) :
  coherent g → firstTransform g = false →
  ∃ e0 c0 t1 t2,
    baseToTip g = e0 :: t1 ∧ cameraToTag g = c0 :: t2 ∧ length t1 = length t2 ∧
    cached g = locals_of_pairs (inverse e0) (inverse c0) (pose_pairs (e0 :: t1) (c0 :: t2)).
Proof.
  intros [Hlen Hc] Hf. destruct g as [? ? ? ? ? ? ? [|e t1] [|c t2]];
    unfold cached, pose_pairs in *; simpl in *; unfold initial_locals in *; simplify_eq.
  by exists e, c, t1, t2.
Qed.

Lemma coherent_intro (g : Globals F) (e0 c0 : Affine3d F) (t1 t2 : list (Affine3d F)) :
  baseToTip g = e0 :: t1 → cameraToTag g = c0 :: t2 → length t1 = length t2 →
  cached g = locals_of_pairs (inverse e0) (inverse c0) (pose_pairs (e0 :: t1) (c0 :: t2)) →
  coherent g.
Proof.
  intros Hb Hc Hlen Hcached. split; rewrite Hb, Hc; simpl; [by rewrite Hlen|].
  rewrite Hcached. simpl. by inversion Hcached.
Qed.

Lemma cached_first_inverses (g : Globals F) (u1 u2 : Affine3d F) (ref : PosePair F)
    (rest : list (PosePair F)) :
  cached g = locals_of_pairs u1 u2 (ref :: rest) →
  firstEEInverse g = inverse (poseA ref) ∧ firstCamInverse g = inverse (poseB ref) ∧
  firstTransform g = false.
Proof. unfold cached. simpl. by intros [= -> -> -> _ _ _ _]. Qed.

(** [addFrame] keeps the cache coherent with the stored pairs, whether
    the lookups succeed or not. *)
Lemma addFrame_coherent (P : Params) (camLookup eeLookup : option (StampedTransform F))
    (g : Globals F) :
  coherent g → coherent (addFrame P camLookup eeLookup g).1.
Proof.
  intros Hg. unfold addFrame.
  destruct eeLookup as [ee|], camLookup as [cam|]; try done.
  destruct (firstTransform g) eqn:Hf; cbn [fst].
  - destruct (coherent_empty g Hg Hf) as (Hb & Hc & Ht & Hr & Ht' & Hr').
    split; cbn [baseToTip cameraToTag firstEEInverse firstCamInverse];
      rewrite Hb, Hc; [done|].
    unfold cached; simpl. by rewrite Ht, Hr, Ht', Hr'.
  - destruct (coherent_running g Hg Hf) as (e0 & c0 & t1 & t2 & Hb & Hc & Hlen & Hcached).
    destruct (cached_first_inverses _ _ _ _ _ Hcached) as (HiA & HiB & _).
    split; cbn [baseToTip cameraToTag firstEEInverse firstCamInverse]; rewrite Hb, Hc.
    { rewrite !length_push_back. simpl. by rewrite Hlen. }
    rewrite pose_pairs_push_back by (simpl; by rewrite Hlen).
    change (pose_pairs (e0 :: t1) (c0 :: t2))
      with (Build_PosePair e0 c0 :: pose_pairs t1 t2) in *.
    rewrite locals_of_pairs_push_back.
    rewrite (locals_of_pairs_cons_irrel _ _ (inverse e0) (inverse c0)), <- Hcached.
    unfold cached, append_motions, relativeMotion, relativeTo, push_back.
    cbn -[compose inverse]. simpl in HiA, HiB. by rewrite Hf, HiA, HiB.
Qed.

(** What [deleteLastFrame] does to a state whose six vectors all end in
    a pushed element. *)
Lemma deleteLastFrame_pushed (g : Globals F) (tA rA tF rF : Vector3d F) (e c : Affine3d F)
    (tAs rAs tFs rFs : list (Vector3d F)) (es cs : list (Affine3d F)) :
  tvecsArm g = push_back tA tAs → rvecsArm g = push_back rA rAs →
  tvecsFiducial g = push_back tF tFs → rvecsFiducial g = push_back rF rFs →
  baseToTip g = push_back e es → cameraToTag g = push_back c cs →
  deleteLastFrame g =
    Ok ({| firstEEInverse := firstEEInverse g;
           firstCamInverse := firstCamInverse g;
           firstTransform := firstTransform g;
           tvecsArm := tAs; rvecsArm := rAs;
           tvecsFiducial := tFs; rvecsFiducial := rFs;
           baseToTip := es; cameraToTag := cs |},
        [ROS_INFO ("Deleted last frame transformation. Number of Current Transformations: "
                   +:+ pretty (to_uint (Z.of_nat (length (rvecsArm g)))))]).
Proof.
  intros HtA HrA HtF HrF He Hc. unfold deleteLastFrame.
  rewrite HtA, HrA, HtF, HrF, He, Hc, !pop_back_push_back. done.
Qed.

Lemma snoc_inv {A} (l : list A) : l ≠ [] → ∃ l' x, l = push_back x l'.
Proof.
  intros Hl. destruct l as [|a l] using rev_ind; [done|]. by exists l, a.
Qed.

(** The shape of a coherent state that holds at least two pairs. *)
Lemma coherent_snoc (g : Globals F) :
  coherent g → 2 ≤ length (baseToTip g) →
  ∃ e0 c0 t1 t2 e c,
    baseToTip g = push_back e (e0 :: t1) ∧ cameraToTag g = push_back c (c0 :: t2) ∧
    length t1 = length t2 ∧
    cached g =
      append_motions
        (locals_of_pairs (inverse e0) (inverse c0) (pose_pairs (e0 :: t1) (c0 :: t2)))
        [relativeMotion (Build_PosePair e0 c0) (Build_PosePair e c)].
Proof.
  intros Hg Hlen2.
  destruct (firstTransform g) eqn:Hf.
  { destruct (coherent_empty g Hg Hf) as (Hb & _). rewrite Hb in Hlen2. simpl in *. lia. }
  destruct (coherent_running g Hg Hf) as (e0 & c0 & t1 & t2 & Hb & Hc & Hlen & Hcached).
  rewrite Hb in Hlen2. simpl in Hlen2.
  destruct (snoc_inv t1) as (t1' & e & ->); [by destruct t1; simpl in *; try lia|].
  destruct (snoc_inv t2) as (t2' & c & ->).
  { destruct t2; [|done]. rewrite length_push_back in Hlen. done. }
  rewrite !length_push_back in Hlen.
  exists e0, c0, t1', t2', e, c. rewrite Hb, Hc. repeat split; [lia|].
  rewrite Hcached, <- !push_back_cons, pose_pairs_push_back by (simpl; lia).
  apply locals_of_pairs_push_back.
Qed.

(** With at least two pairs stored, the [d] key is defined: it
    removes the last pair and its relative motion and leaves a coherent
    state. *)
Lemma deleteLastFrame_defined (g : Globals F) :
  coherent g → 2 ≤ length (baseToTip g) →
  ∃ g' out, deleteLastFrame g = Ok (g', out) ∧ coherent g' ∧
    length (baseToTip g') = length (baseToTip g) - 1.
Proof.
  intros Hg Hlen2.
  destruct (coherent_snoc g Hg Hlen2) as (e0 & c0 & t1 & t2 & e & c & Hb & Hc & Hlen & Hcached).
  pose proof Hcached as Hvec. unfold cached, append_motions in Hvec.
  injection Hvec as HiA HiB Hf HtA HrA HtF HrF.
  eexists _, _. split; [|split].
  - eapply deleteLastFrame_pushed; [exact HtA|exact HrA|exact HtF|exact HrF|exact Hb|exact Hc].
  - split; cbn [baseToTip cameraToTag firstEEInverse firstCamInverse]; [simpl; lia|].
    unfold cached. cbn -[locals_of_pairs pose_pairs]. by rewrite HiA, HiB, Hf.
  - cbn [baseToTip]. rewrite Hb, length_push_back. lia.
Qed.

(** With fewer than two pairs stored (none, or only the reference
    pair), the [d] key pops the empty vector [rvecsArm]: undefined behaviour. *)
Lemma deleteLastFrame_short (g : Globals F) :
  coherent g → length (baseToTip g) ≤ 1 →
  deleteLastFrame g = Undef PopBackEmpty.
Proof.
  intros Hg Hlen1. unfold deleteLastFrame.
  destruct (firstTransform g) eqn:Hf.
  - destruct (coherent_empty g Hg Hf) as (_ & _ & _ & -> & _). done.
  - destruct (coherent_running g Hg Hf) as (e0 & c0 & t1 & t2 & Hb & Hc & Hlen & Hcached).
    rewrite Hb in Hlen1. destruct t1, t2; simpl in *; try lia.
    unfold cached in Hcached. injection Hcached as _ _ _ _ -> _ _. done.
Qed.

(** The number that the [d] key logs is read before the vectors are
    popped: it is one more than the number of relative motions that are
    left. *)
Lemma deleteLastFrame_logs_old_count (g g' : Globals F) (out : list Msg) :
  deleteLastFrame g = Ok (g', out) →
  out = [ROS_INFO ("Deleted last frame transformation. Number of Current Transformations: "
                   +:+ pretty (to_uint (Z.of_nat (S (length (rvecsArm g'))))))].
Proof.
  unfold deleteLastFrame. intros (r & [y Hy]%pop_back_Ok & Hrest)%bind_Ok.
  outcome_inv. simpl. by rewrite Hy, length_push_back.
Qed.

(** Whenever the [d] key returns, the state it leaves is coherent. *)
Lemma deleteLastFrame_coherent (g g' : Globals F) (out : list Msg) :
  coherent g → deleteLastFrame g = Ok (g', out) → coherent g'.
Proof.
  intros Hg Hdel. destruct (decide (2 ≤ length (baseToTip g))) as [Hlen|Hlen].
  - destruct (deleteLastFrame_defined g Hg Hlen) as (g1 & out1 & Hdel1 & Hg1 & _).
    congruence.
  - rewrite deleteLastFrame_short in Hdel by (done || lia). done.
Qed.

(** C22. In a coherent state the [d] key is defined exactly when at least
    two pairs are stored: with one pair or none it pops the empty vector
    [rvecsArm], which is undefined behaviour. *)
Theorem deleteLastFrame_defined_iff (g : Globals F) :
  coherent g →
  (is_ok (deleteLastFrame g) = true ↔ 2 ≤ length (baseToTip g)) ∧
  (deleteLastFrame g = Undef PopBackEmpty ↔ length (baseToTip g) ≤ 1).
Proof.
  intros Hg. destruct (decide (2 ≤ length (baseToTip g))) as [Hlen|Hlen].
  - destruct (deleteLastFrame_defined g Hg Hlen) as (g' & out & Hdel & _).
    rewrite Hdel. split; split; (done || lia).
  - rewrite deleteLastFrame_short by (done || lia). split; split; (done || lia).
Qed.

(** Both commands preserve the invariant. *)
Lemma capture_step_coherent (P : Params) (g g' : Globals F) :
  capture_step P g g' → coherent g → coherent g'.
Proof.
  intros [cam ee g1|g1 g2 out Hdel] Hg.
  - by apply addFrame_coherent.
  - by eapply deleteLastFrame_coherent.
Qed.

Lemma rtc_capture_step_coherent (P : Params) (g g' : Globals F) :
  rtc (capture_step P) g g' → coherent g → coherent g'.
Proof. apply rtc_preserves, capture_step_coherent. Qed.

(** C10. Every state a session reaches without undefined behaviour is
    coherent: the vectors the [q] key hands to the solver are the relative
    motions of the stored pose pairs. *)
Theorem reachable_coherent (P : Params) (g : Globals F) :
  reachable P g → coherent g.
Proof. intros Hreach. by eapply rtc_capture_step_coherent. Qed.


(** ** Interactive and batch calibration agree *)

(** In a coherent state (so in every reachable one) with at most
    [INT_MAX] pairs, the loop of
    [estimateHandEye] run on the stored pairs (what the batch mode does
    with a recorded file) returns, and hands the solver the same four
    vectors as the [q] key takes from the globals. *)
Theorem interactive_agrees_with_batch (g : Globals F) (u1 u2 : Affine3d F) :
  coherent g →
  (Z.of_nat (length (baseToTip g)) ≤ INT_MAX)%Z →
  (λ r, solver_input r.1) <$> deriveMotions (baseToTip g) (cameraToTag g) u1 u2 =
  Ok (solver_input (cached g)).
Proof.
  intros [Hlen Hcached] Hmax.
  rewrite deriveMotions_spec by (done || lia).
  rewrite Hcached. simpl. f_equal. apply solver_input_locals_of_pairs.
Qed.

Lemma coherent_take (g : Globals F) :
  coherent g → take (length (baseToTip g)) (cameraToTag g) = cameraToTag g.
Proof. intros [Hlen _]. rewrite <- Hlen. apply firstn_all. Qed.

Lemma coherent_solver_input (g : Globals F) (u1 u2 : Affine3d F) :
  coherent g →
  solver_input (locals_of_pairs u1 u2 (pose_pairs (baseToTip g) (cameraToTag g))) =
  solver_input (cached g).
Proof. intros [_ ->]. apply solver_input_locals_of_pairs. Qed.

(** ** Capture and undo *)

(** A capture with both lookups successful appends exactly the two
    looked-up poses to the store. *)
Lemma addFrame_appends (P : Params) (cam ee : StampedTransform F) (g : Globals F) :
  baseToTip (addFrame P (Some cam) (Some ee) g).1 =
    push_back (transformTFToEigen ee) (baseToTip g) ∧
  cameraToTag (addFrame P (Some cam) (Some ee) g).1 =
    push_back (transformTFToEigen cam) (cameraToTag g).
Proof. unfold addFrame. by destruct (firstTransform g). Qed.

(** [addFrame_tf] returns exactly when no lookup throws. *)
Lemma addFrame_tf_Ok (P : Params) (camLookup eeLookup : Lookup F) (g : Globals F)
    (r : Globals F * list Msg) :
  addFrame_tf P camLookup eeLookup g = Ok r ↔
  throws camLookup || throws eeLookup = false ∧
  r = addFrame P (answer camLookup) (answer eeLookup) g.
Proof.
  unfold addFrame_tf. destruct (_ || _); split; try done.
  - by intros [? _].
  - by intros [= <-].
  - by intros [_ ->].
Qed.

(** A capture stores at most one pair. *)
Lemma addFrame_length (P : Params) (camLookup eeLookup : option (StampedTransform F))
    (g : Globals F) :
  length (baseToTip (addFrame P camLookup eeLookup g).1) ≤ S (length (baseToTip g)).
Proof.
  destruct camLookup as [cam|], eeLookup as [ee|];
    [destruct (addFrame_appends P cam ee g) as [-> _]; by rewrite length_push_back|..];
    unfold addFrame; simpl; lia.
Qed.

(** C39. When a lookup fails, [addFrame] leaves every global as it was and
    says so: it writes only warnings, the last of which is that a
    transform is missing. *)
Theorem addFrame_lookup_failure (P : Params) (camLookup eeLookup : option (StampedTransform F))
    (g : Globals F) :
  camLookup = None ∨ eeLookup = None →
  ∃ out, addFrame P camLookup eeLookup g = (g, out) ∧
    Forall (λ m, is_warning m = true) out ∧
    last out = Some (ROS_WARN "Fail to get one/both of needed TF transform").
Proof.
  intros Hfail. unfold addFrame.
  destruct eeLookup, camLookup; try (by destruct Hfail);
    eexists; (split; [reflexivity|]); split; by repeat constructor.
Qed.

(** C25. Past the first pair, the [d] key undoes a capture: the globals are
    again what they were before [addFrame]. *)
Theorem addFrame_deleteLastFrame_undo (P : Params) (cam ee : StampedTransform F)
    (g : Globals F) :
  firstTransform g = false →
  fst <$> deleteLastFrame (addFrame P (Some cam) (Some ee) g).1 = Ok g.
Proof.
  intros Hf. unfold addFrame. rewrite Hf. cbn [fst].
  erewrite deleteLastFrame_pushed by reflexivity. simpl. rewrite <- Hf. by destruct g.
Qed.

(** C26. The first capture cannot be undone: [d] after the first [s] pops
    the empty [rvecsArm], which is undefined behaviour. *)
Theorem first_capture_undo_undefined (P : Params) (cam ee : StampedTransform F)
    (g : Globals F) :
  coherent g → firstTransform g = true →
  deleteLastFrame (addFrame P (Some cam) (Some ee) g).1 = Undef PopBackEmpty.
Proof.
  intros Hg Hf. apply deleteLastFrame_short; [by apply addFrame_coherent|].
  destruct (coherent_empty g Hg Hf) as (Hb & _).
  destruct (addFrame_appends P cam ee g) as [-> _]. by rewrite Hb.
Qed.

End Capture.

(** ** The theorems at concrete states *)

(** A session of two captures on the sample lookups. *)
Definition sample_one_pair : Globals Q :=
  (addFrame default_params (Some sample_tf_cam0) (Some sample_tf_ee0) initial_globals).1.
Definition sample_two_pairs : Globals Q :=
  (addFrame default_params (Some sample_tf_cam1) (Some sample_tf_ee1) sample_one_pair).1.

Lemma sample_two_pairs_reachable : reachable default_params sample_two_pairs.
Proof.
  eapply rtc_r; [eapply rtc_r; [apply rtc_refl|]|]; apply step_addFrame.
Defined.

Lemma sample_one_pair_coherent : coherent sample_one_pair.
Proof. exact (conj eq_refl eq_refl). Qed.

Lemma sample_two_pairs_coherent : coherent sample_two_pairs.
Proof. exact (conj eq_refl eq_refl). Qed.

Lemma reachable_coherent_witness : coherent sample_two_pairs.
Proof. exact (reachable_coherent default_params _ sample_two_pairs_reachable). Defined.

Lemma deleteLastFrame_defined_iff_witness :
  (is_ok (deleteLastFrame sample_two_pairs) = true ↔
     2 ≤ length (baseToTip sample_two_pairs)) ∧
  (deleteLastFrame sample_two_pairs = Undef PopBackEmpty ↔
     length (baseToTip sample_two_pairs) ≤ 1).
Proof. apply deleteLastFrame_defined_iff. exact sample_two_pairs_coherent. Defined.

Lemma interactive_agrees_with_batch_witness :
  (λ r, solver_input r.1) <$>
    deriveMotions (baseToTip sample_two_pairs) (cameraToTag sample_two_pairs)
      identity identity =
  Ok (solver_input (cached sample_two_pairs)).
Proof.
  apply interactive_agrees_with_batch;
    [exact sample_two_pairs_coherent | unfold INT_MAX; simpl; lia].
Defined.

Lemma addFrame_lookup_failure_witness :
  ∃ out, addFrame default_params None (Some sample_tf_ee0) sample_one_pair
           = (sample_one_pair, out) ∧
    Forall (λ m, is_warning m = true) out ∧
    last out = Some (ROS_WARN "Fail to get one/both of needed TF transform").
Proof. apply addFrame_lookup_failure. by left. Defined.

Lemma addFrame_deleteLastFrame_undo_witness :
  fst <$> deleteLastFrame
    (addFrame default_params (Some sample_tf_cam1) (Some sample_tf_ee1) sample_one_pair).1
  = Ok sample_one_pair.
Proof. apply addFrame_deleteLastFrame_undo. reflexivity. Defined.

Lemma first_capture_undo_undefined_witness :
  deleteLastFrame
    (addFrame default_params (Some sample_tf_cam0) (Some sample_tf_ee0) initial_globals).1
  = Undef PopBackEmpty.
Proof.
  apply first_capture_undo_undefined; [exact (conj eq_refl eq_refl)|reflexivity].
Defined.
