(* ===== verification/Store.v ===== *)
(** * Store: the contract of the pose pair store and what the globals keep

    Section 4.1 of the specification describes the store as a sequence of
    pose pairs with [append] and [removeLast]; section 3 adds that the
    relative motions are a function of that sequence.  The program has no
    such object: it keeps nine global variables.  This file states the
    contract ([store_step]), reads the sequence off the globals ([stored]),
    and proves that the commands of the program implement the contract
    wherever they are defined, step by step and along a session.  It also
    states what is well formed about the globals ([wf_globals]): the poses
    are affine, the four cached vectors have one entry per pair after the
    first, and [firstTransform] says whether the store is empty. *)

From Stdlib Require Import ZArith QArith Lia.
From stdpp Require Import base tactics option list strings relations.
From S2P Require Import Prelude Scalar Eigen Ros Derive Capture.

Section Store.
Context {F : Type} `{ScalarOps F} `{RotationLib F} `{Sqrt F} `{StreamOut F} `{TfLib F}.

(** ** The contract *)

Definition store_append (p : PosePair F) (s : list (PosePair F)) : list (PosePair F) :=
  s ++ [p].

(** [removeLast()]: a no-op on the empty store. *)
Definition store_removeLast (s : list (PosePair F)) : list (PosePair F) := removelast s.

Inductive store_step : list (PosePair F) → list (PosePair F) → Prop :=
| store_step_append (p : PosePair F) (s : list (PosePair F)) :
    store_step s (store_append p s)
| store_step_removeLast (s : list (PosePair F)) :
    store_step s (store_removeLast s).

(** The sequence of pose pairs the globals hold. *)
Definition stored (g : Globals F) : list (PosePair F) :=
  pose_pairs (baseToTip g) (cameraToTag g).

(** ** Well-formed globals *)

(** The bottom row of an affine transform. *)
Definition affine (a : Affine3d F) : Prop :=
  row3 (matrix a) = Vec4 s_zero s_zero s_zero s_one.

Definition wf_globals (g : Globals F) : Prop :=
  Forall affine (baseToTip g) ∧ Forall affine (cameraToTag g) ∧
  length (cameraToTag g) = length (baseToTip g) ∧
  length (rvecsArm g) = length (baseToTip g) - 1 ∧
  length (tvecsArm g) = length (baseToTip g) - 1 ∧
  length (rvecsFiducial g) = length (baseToTip g) - 1 ∧
  length (tvecsFiducial g) = length (baseToTip g) - 1 ∧
  (firstTransform g = true ↔ baseToTip g = []).

Lemma affine_transformTFToEigen (t : StampedTransform F) : affine (transformTFToEigen t).
Proof. apply row3_fromLinearTranslation. Qed.

Lemma wf_initial_globals : wf_globals initial_globals.
Proof. by repeat split. Qed.

Lemma addFrame_wf (P : Params) (camLookup eeLookup : option (StampedTransform F))
    (g : Globals F) :
  wf_globals g → wf_globals (addFrame P camLookup eeLookup g).1.
Proof.
  intros Hwf. unfold addFrame.
  destruct eeLookup as [ee|], camLookup as [cam|]; try exact Hwf.
  destruct Hwf as (HA & HB & Hlen & Hr1 & Ht1 & Hr2 & Ht2 & Hfirst).
  pose proof (affine_transformTFToEigen ee) as Hee.
  pose proof (affine_transformTFToEigen cam) as Hcam.
  destruct (firstTransform g) eqn:Hf; simpl.
  - destruct Hfirst as [Hnil _]. rewrite (Hnil eq_refl) in *.
    split_and!; calib_simpl; try lia; auto with calib.
    split; [done|]. intros Hnil'. by apply push_back_not_nil in Hnil'.
  - assert (0 < length (baseToTip g)).
    { destruct (baseToTip g); [|simpl; lia]. destruct Hfirst as [_ Habs].
      by specialize (Habs eq_refl). }
    split_and!; calib_simpl; try lia; auto with calib.
    split; [done|]. intros Hnil'. by apply push_back_not_nil in Hnil'.
Qed.

Lemma deleteLastFrame_wf (g g' : Globals F) (out : list Msg) :
  wf_globals g → deleteLastFrame g = Ok (g', out) → wf_globals g'.
Proof.
  intros (HA & HB & Hlen & Hr1 & Ht1 & Hr2 & Ht2 & Hfirst) Hdel.
  unfold deleteLastFrame in Hdel. outcome_inv.
  repeat match goal with
  | Hp : pop_back _ = Ok _ |- _ => apply length_pop_back in Hp as ?; revert Hp
  end; intros.
  split_and!; simpl; eauto with calib; try lia.
  split; [intros Hf%Hfirst|intros ->]; [rewrite Hf in *|]; simpl in *; lia.
Qed.

Lemma capture_step_wf (P : Params) (g g' : Globals F) :
  capture_step P g g' → wf_globals g → wf_globals g'.
Proof. destruct 1; eauto using addFrame_wf, deleteLastFrame_wf. Qed.

(** C16. The globals are well formed in every state a session reaches
    without undefined behaviour: every stored pose has the bottom row
    [0 0 0 1], both pose vectors have the same length [N], each of the four
    vectors handed to the solver has [N - 1] entries, and [firstTransform]
    holds exactly while nothing is stored. *)
Theorem reachable_wf (P : Params) (g : Globals F) : reachable P g → wf_globals g.
Proof.
  intros Hreach. eapply rtc_preserves; [apply capture_step_wf|done|].
  apply wf_initial_globals.
Qed.

(** ** The globals implement the contract *)

Lemma stored_addFrame (P : Params) (cam ee : StampedTransform F) (g : Globals F) :
  coherent g →
  stored (addFrame P (Some cam) (Some ee) g).1 =
  store_append (Build_PosePair (transformTFToEigen ee) (transformTFToEigen cam)) (stored g).
Proof.
  intros [Hlen _]. unfold stored.
  destruct (addFrame_appends P cam ee g) as [-> ->]. by apply pose_pairs_push_back.
Qed.

Lemma stored_deleteLastFrame (g g' : Globals F) (out : list Msg) :
  coherent g → deleteLastFrame g = Ok (g', out) →
  stored g' = store_removeLast (stored g).
Proof.
  intros [Hlen _] Hdel. unfold deleteLastFrame in Hdel. outcome_inv.
  repeat match goal with
  | Hp : pop_back _ = Ok _ |- _ => apply pop_back_Ok in Hp as [? Hp]
  end.
  unfold stored, store_removeLast. simpl.
  match goal with
  | Hb : baseToTip g = _, Hc : cameraToTag g = _ |- _ =>
    rewrite Hb, Hc in *; rewrite !length_push_back in Hlen
  end.
  rewrite pose_pairs_push_back by lia. unfold push_back. by rewrite removelast_last.
Qed.

(** In a coherent state the solver is handed the motions of the stored
    pairs. *)
Lemma coherent_stored_input (g : Globals F) :
  coherent g → solver_input (cached g) = screw_of_motions (deriveAll (stored g)).
Proof. intros [_ ->]. apply solver_input_screw_of_motions. Qed.

(** A step of the program is a step of the store, or leaves it alone. *)
Lemma capture_step_store_step (P : Params) (g g' : Globals F) :
  coherent g → capture_step P g g' →
  stored g' = stored g ∨ store_step (stored g) (stored g').
Proof.
  intros Hg Hstep. revert Hg.
  destruct Hstep as [[cam|] [ee|] g|g g' out Hdel]; intros Hg; try by left.
  - right. rewrite (stored_addFrame P cam ee g Hg). constructor.
  - right. rewrite (stored_deleteLastFrame g g' out Hg Hdel). constructor.
Qed.

(** C11. The commands of the program implement the store of section 4.1:
    in a coherent state a capture either leaves the sequence of stored
    pairs as it is (a lookup failed) or appends one pair, the [d] key,
    where it is defined, removes the last pair, and after either the
    vectors for the solver are [deriveAll] of the sequence. *)
Theorem capture_step_refines_store (P : Params) (g g' : Globals F) :
  coherent g → capture_step P g g' →
  (stored g' = stored g ∨ store_step (stored g) (stored g')) ∧
  solver_input (cached g') = screw_of_motions (deriveAll (stored g')).
Proof.
  intros Hg Hstep. split; [by eapply capture_step_store_step|].
  apply (capture_step_coherent _ _ _ Hstep) in Hg as [_ ->].
  apply solver_input_screw_of_motions.
Qed.

(** The simulation along a session: what a reachable state of the globals
    stores is what the store of section 4.1 reaches from the empty sequence
    by [append] and [removeLast], and the vectors for the solver are
    [deriveAll] of it. *)
Theorem reachable_refines_store (P : Params) (g : Globals F) :
  reachable P g →
  rtc store_step [] (stored g) ∧
  solver_input (cached g) = screw_of_motions (deriveAll (stored g)).
Proof.
  intros Hreach. split.
  - revert g Hreach. apply (rtc_ind_r (λ g, rtc store_step [] (stored g))); [done|].
    intros g1 g2 Hreach Hstep IH.
    assert (coherent g1) as Hg1 by (by eapply rtc_capture_step_coherent).
    destruct (capture_step_store_step P g1 g2 Hg1 Hstep) as [->|Hs]; [done|].
    by eapply rtc_r.
  - apply coherent_stored_input. by eapply rtc_capture_step_coherent.
Qed.

End Store.

(** ** The theorems at concrete states *)

Lemma reachable_refines_store_witness :
  rtc store_step [] (stored sample_two_pairs) ∧
  solver_input (cached sample_two_pairs) =
    screw_of_motions (deriveAll (stored sample_two_pairs)).
Proof. exact (reachable_refines_store default_params _ sample_two_pairs_reachable). Defined.

Lemma reachable_wf_witness : wf_globals sample_two_pairs.
Proof. exact (reachable_wf default_params _ sample_two_pairs_reachable). Defined.

Lemma capture_step_refines_store_witness :
  (stored sample_two_pairs = stored sample_one_pair ∨
   store_step (stored sample_one_pair) (stored sample_two_pairs)) ∧
  solver_input (cached sample_two_pairs) =
    screw_of_motions (deriveAll (stored sample_two_pairs)).
Proof.
  exact (capture_step_refines_store default_params sample_one_pair sample_two_pairs
           sample_one_pair_coherent
           (step_addFrame default_params (Some sample_tf_cam1) (Some sample_tf_ee1) _)).
Defined.
