(* ===== verification/Persist.v ===== *)
(** * Persist: the recorded file of pose pairs

    [cv::FileStorage] is modelled as a finite map from keys to nodes, and
    the files of the machine as a finite map from file names to such
    storages.  A node is an integer, a real, a string or a matrix
    ([cv::Mat], by rows).  How OpenCV lays the nodes out as YAML text, and
    how it prints and parses a [double], is not modelled: a written scalar
    is read back as it was.

    [writeTransformPairsToFile] (source lines 37-74) writes [frameCount]
    and, for every index [i], the matrices [T1_i] and [T2_i];
    [readTransformPairsFromFile] (lines 77-122) reads [frameCount] and
    appends that many pairs to the vectors it is given.  Opening a file for
    writing succeeds or not as the environment decides ([can_open]);
    opening for reading succeeds when the file exists.

    The reader converts the node [frameCount] to an [int] the way OpenCV
    does ([read_int]): a missing node gives 0, an integer itself, a real
    its rounding ([cvRound]), any other node [INT_MAX].  A matrix that is
    missing or is no 4x4 matrix leaves the reader undefined.  The files
    the reader can load are the [well_formed_pairs], and
    [readTransformPairsFromFile_spec] says what it returns on every
    file.  [pair_storage] is the schema of the file in closed form, and
    [writeTransformPairsToFile_storage] says that the writer writes it. *)

From Stdlib Require Import ZArith QArith Lia.
From stdpp Require Import base tactics option list strings pretty gmap.
From S2P Require Import Prelude Scalar Eigen Ros.

(** ** Data *)

Inductive FileNode (F : Type) : Type :=
| NInt (z : Z)
| NReal (x : F)
| NString (s : string)
| NMat (rows : list (list F)).
Arguments NInt {F} z.
Arguments NReal {F} x.
Arguments NString {F} s.
Arguments NMat {F} rows.

#[export] Instance FileNode_eq_dec {F} `{EqDecision F} : EqDecision (FileNode F).
Proof. solve_decision. Defined.

(** [cv::eigen2cv] of a 4x4 matrix: element [(i, j)] goes to [(i, j)]. *)
Definition eigen2cv {F} (m : Matrix4d F) : list (list F) :=
  let row v := [wx v; wy v; wz v; ww v] in
  [row (row0 m); row (row1 m); row (row2 m); row (row3 m)].

(** [cv::cv2eigen] into a fixed 4x4 matrix: defined on 4x4 input only. *)
Definition cv2eigen {F} (rows : list (list F)) : outcome (Matrix4d F) :=
  match rows with
  | [[a0; a1; a2; a3]; [b0; b1; b2; b3]; [c0; c1; c2; c3]; [d0; d1; d2; d3]] =>
    Ok (Mat4 (Vec4 a0 a1 a2 a3) (Vec4 b0 b1 b2 b3) (Vec4 c0 c1 c2 c3) (Vec4 d0 d1 d2 d3))
  | _ => Undef CvShapeMismatch
  end.

(** The keys of the pair file: ["T1_"] and ["T2_"] followed by the index
    in decimal, as [std::stringstream] prints an [int]. *)
Definition key_T1 (i : Z) : string := "T1_" +:+ pretty i.
Definition key_T2 (i : Z) : string := "T2_" +:+ pretty i.
Definition key_frameCount : string := "frameCount".

Section Persist.
Context {F : Type} `{Round F}.

(** [fs[key] >> int]: a missing node reads as 0, an integer as itself, a
    real is rounded, and any other node reads as [0x7fffffff]. *)
Definition read_int (n : option (FileNode F)) : Z :=
  match n with
  | None => 0
  | Some (NInt z) => z
  | Some (NReal x) => cvRound x
  | Some _ => INT_MAX
  end.

(** [fs[key] >> cv::Mat] followed by [cv2eigen] into the matrix of a
    transform: a missing node reads as an empty matrix, and a node that is
    no matrix raises an exception. *)
Definition read_transform (n : option (FileNode F)) : outcome (Affine3d F) :=
  match n with
  | Some (NMat rows) => Transform <$> cv2eigen rows
  | None => Undef CvShapeMismatch
  | Some _ => Undef CvTypeMismatch
  end.

(** ** Writing *)

(** The loop of source lines 51-65, from index [i] on. *)
Fixpoint write_loop (i : Z) (t1 t2 : list (Affine3d F)) (fs : gmap string (FileNode F))
    : outcome (gmap string (FileNode F)) :=
  match t1 with
  | [] => Ok fs
  | a :: t1' =>
    match t2 with
    | [] => Undef IteratorPastEnd
    | b :: t2' =>
      let t1cv := eigen2cv (matrix a) in
      let t2cv := eigen2cv (matrix b) in
      let fs := <[key_T1 i := NMat t1cv]> fs in
      let fs := <[key_T2 i := NMat t2cv]> fs in
      i' ← int_incr i;
      write_loop i' t1' t2' fs
    end
  end.

(** [writeTransformPairsToFile] (source lines 37-74): the return code, the
    files afterwards and what was written to [std::cerr] on failure. *)
Definition writeTransformPairsToFile (t1 t2 : list (Affine3d F)) (filename : string)
    (can_open : bool) (files : gmap string (gmap string (FileNode F)))
    : outcome (Z * gmap string (gmap string (FileNode F)) * list Msg) :=
  let log := [CERR ("Writing pairs to " +:+ dquote +:+ filename +:+ dquote +:+ "..." +:+ nl)] in
  let frameCount := to_int (Z.of_nat (length t1)) in
  if can_open then
    fs ← write_loop 0 t1 t2 (<[key_frameCount := NInt frameCount]> ∅);
    mret (0%Z, <[filename := fs]> files, log)
  else
    Ok (1%Z, files, push_back (CERR ("failed to open output file " +:+ filename +:+ nl)) log).

(** ** The schema of the pair file *)

(** The entries of a pair file from index [i] on (section 6 of the
    specification): one [T1_i] and one [T2_i] per pair. *)
Fixpoint pair_entries (i : Z) (t1 t2 : list (Affine3d F)) : list (string * FileNode F) :=
  match t1, t2 with
  | a :: t1', b :: t2' =>
    (key_T1 i, NMat (eigen2cv (matrix a))) :: (key_T2 i, NMat (eigen2cv (matrix b)))
    :: pair_entries (i + 1) t1' t2'
  | _, _ => []
  end.

(** The storage of a pair file: [frameCount], then the entries. *)
Definition pair_storage (t1 t2 : list (Affine3d F)) : gmap string (FileNode F) :=
  list_to_map ((key_frameCount, NInt (Z.of_nat (length t1))) :: pair_entries 0 t1 t2).

(** ** Reading *)

(** The loop of source lines 90-113: [n] iterations are left, [i] is the
    counter. *)
Fixpoint read_loop (n : nat) (i : Z) (fs : gmap string (FileNode F))
    (t1 t2 : list (Affine3d F)) : outcome (list (Affine3d F) * list (Affine3d F)) :=
  match n with
  | O => Ok (t1, t2)
  | S n' =>
    t1e ← read_transform (fs !! key_T1 i);
    t2e ← read_transform (fs !! key_T2 i);
    read_loop n' (i + 1) fs (push_back t1e t1) (push_back t2e t2)
  end.

(** [readTransformPairsFromFile] (source lines 77-122): the return code,
    the two vectors afterwards and what was written to [std::cerr]. *)
Definition readTransformPairsFromFile (filename : string) (t1 t2 : list (Affine3d F))
    (files : gmap string (gmap string (FileNode F)))
    : outcome (Z * (list (Affine3d F) * list (Affine3d F)) * list Msg) :=
  match files !! filename with
  | Some fs =>
    let frameCount := read_int (fs !! key_frameCount) in
    r ← read_loop (Z.to_nat frameCount) 0 fs t1 t2;
    mret (0%Z, r, [])
  | None =>
    Ok (1%Z, (t1, t2), [CERR ("failed to open input file " +:+ filename +:+ nl)])
  end.

(** ** What a pair file is to hold *)

(** The node holds a 4x4 matrix. *)
Definition is_pose (n : option (FileNode F)) : Prop := is_ok (read_transform n) = true.

(** The pose a node holds. *)
Definition node_pose (n : option (FileNode F)) : option (Affine3d F) :=
  match read_transform n with Ok a => Some a | Undef _ => None end.

(** The poses stored under [key i], [key (i + 1)], ..., [n] of them. *)
Definition poses_from (key : Z → string) (fs : gmap string (FileNode F)) (i n : Z)
    : list (Affine3d F) :=
  omap (λ j, node_pose (fs !! key j)) (seqZ i n).

(** A storage is a well-formed pair file when it holds a 4x4 matrix under
    [T1_i] and under [T2_i] for every index below its frame count. *)
Definition well_formed_pairs (fs : gmap string (FileNode F)) : Prop :=
  Forall (λ j, is_pose (fs !! key_T1 j) ∧ is_pose (fs !! key_T2 j))
    (seqZ 0 (read_int (fs !! key_frameCount))).

#[export] Instance well_formed_pairs_dec fs : Decision (well_formed_pairs fs).
Proof. unfold well_formed_pairs, is_pose. apply _. Defined.

End Persist.

(** ** The keys are pairwise distinct *)

#[export] Instance key_T1_inj : Inj (=) (=) key_T1.
Proof. intros i j [= Hp]. by apply (inj pretty). Qed.
#[export] Instance key_T2_inj : Inj (=) (=) key_T2.
Proof. intros i j [= Hp]. by apply (inj pretty). Qed.
Lemma key_T1_T2 (i j : Z) : key_T1 i ≠ key_T2 j.
Proof. done. Qed.
Lemma key_T1_frameCount (i : Z) : key_T1 i ≠ key_frameCount.
Proof. done. Qed.
Lemma key_T2_frameCount (i : Z) : key_T2 i ≠ key_frameCount.
Proof. done. Qed.

Section PersistFacts.
Context {F : Type} `{Round F}.
Implicit Types (fs : gmap string (FileNode F)) (ta tb : list (Affine3d F)).

(** ** What is written can be read *)

Lemma cv2eigen_eigen2cv (m : Matrix4d F) : cv2eigen (eigen2cv m) = Ok m.
Proof. by destruct m as [[] [] [] []]. Qed.

Lemma read_transform_written (a : Affine3d F) :
  read_transform (Some (NMat (eigen2cv (matrix a)))) = Ok a.
Proof. unfold read_transform. rewrite cv2eigen_eigen2cv. by destruct a. Qed.

(** The storage [fs] holds the pairs of [ta] and [tb] at the indices from [i] on. *)
Definition holds_pairs fs (i : Z) ta tb : Prop :=
  ∀ (k : nat) a b, ta !! k = Some a → tb !! k = Some b →
    fs !! key_T1 (i + Z.of_nat k) = Some (NMat (eigen2cv (matrix a))) ∧
    fs !! key_T2 (i + Z.of_nat k) = Some (NMat (eigen2cv (matrix b))).

Lemma holds_pairs_cons_inv fs i a b ta tb :
  holds_pairs fs i (a :: ta) (b :: tb) →
  fs !! key_T1 i = Some (NMat (eigen2cv (matrix a))) ∧
  fs !! key_T2 i = Some (NMat (eigen2cv (matrix b))) ∧
  holds_pairs fs (i + 1) ta tb.
Proof.
  intros Hh. destruct (Hh 0 a b eq_refl eq_refl) as [H1 H2].
  rewrite Z.add_0_r in H1, H2. split_and!; [done..|].
  intros k a' b' Ha Hb. destruct (Hh (S k) a' b' Ha Hb) as [H1' H2'].
  by replace (i + 1 + Z.of_nat k)%Z with (i + Z.of_nat (S k))%Z by lia.
Qed.

Lemma read_loop_spec fs ta tb (i : Z) (acc1 acc2 : list (Affine3d F)) :
  length ta = length tb → holds_pairs fs i ta tb →
  read_loop (length ta) i fs acc1 acc2 = Ok (acc1 ++ ta, acc2 ++ tb).
Proof.
  revert tb i acc1 acc2. induction ta as [|a ta IH]; intros [|b tb] i acc1 acc2 Hlen Hh;
    simplify_eq/=; [by rewrite !app_nil_r|].
  apply holds_pairs_cons_inv in Hh as (-> & -> & Hh).
  rewrite !read_transform_written. simpl.
  rewrite (IH tb) by done. unfold push_back. by rewrite <- !app_assoc.
Qed.

(** Writing leaves alone every key that is not one it writes. *)
Lemma write_loop_lookup_other ta tb (i : Z) fs fs' (key : string) :
  write_loop i ta tb fs = Ok fs' →
  (∀ j, (i ≤ j)%Z → key ≠ key_T1 j ∧ key ≠ key_T2 j) →
  fs' !! key = fs !! key.
Proof.
  revert tb i fs. induction ta as [|a ta IH]; intros [|b tb] i fs Hw Hkey;
    simplify_eq/=; [done..|].
  apply bind_Ok in Hw as (i' & Hi & Hw).
  unfold int_incr in Hi. case_decide; simplify_eq.
  rewrite (IH _ _ _ Hw) by (intros j Hj; apply Hkey; lia).
  destruct (Hkey i) as [? ?]; [lia|]. by rewrite !lookup_insert_ne.
Qed.

Lemma write_loop_holds_pairs ta tb (i : Z) fs fs' :
  write_loop i ta tb fs = Ok fs' →
  holds_pairs fs' i ta tb.
Proof.
  revert tb i fs. induction ta as [|a ta IH]; intros [|b tb] i fs Hw;
    simplify_eq/=; try (by intros k ? ? [=]).
  apply bind_Ok in Hw as (i' & Hi & Hw).
  unfold int_incr in Hi. case_decide; simplify_eq.
  intros [|k] a' b' Ha Hb; simplify_eq/=.
  - rewrite Z.add_0_r.
    rewrite !(write_loop_lookup_other _ _ _ _ _ _ Hw).
    + rewrite lookup_insert_ne by done.
      by rewrite !lookup_insert_eq.
    + intros j Hj. split; (done || (intros ?%(inj _); lia)).
    + intros j Hj. split; (done || (intros ?%(inj _); lia)).
  - destruct (IH _ _ _ Hw k a' b' Ha Hb) as [H1 H2].
    by replace (i + Z.of_nat (S k))%Z with (i + 1 + Z.of_nat k)%Z by lia.
Qed.


Lemma write_loop_spec ta tb (i : Z) fs :
  length ta ≤ length tb → (i + Z.of_nat (length ta) ≤ INT_MAX)%Z →
  is_ok (write_loop i ta tb fs) = true.
Proof.
  revert tb i fs. induction ta as [|a ta IH]; intros [|b tb] i fs Hlen Hi;
    simpl in *; try (done || lia).
  rewrite int_incr_Ok by lia. simpl. apply IH; lia.
Qed.

Lemma write_loop_Ok_inv ta tb (i : Z) fs fs' :
  write_loop i ta tb fs = Ok fs' → (i ≤ INT_MAX)%Z →
  length ta ≤ length tb ∧ (i + Z.of_nat (length ta) ≤ INT_MAX)%Z.
Proof.
  revert tb i fs. induction ta as [|a ta IH]; intros [|b tb] i fs Hw Hi;
    simpl in *; try (done || lia).
  apply bind_Ok in Hw as (i' & Hincr & Hw).
  unfold int_incr in Hincr. case_decide; simplify_eq.
  apply IH in Hw as [? ?]; lia.
Qed.

Lemma holds_pairs_take fs i ta tb :
  holds_pairs fs i ta tb → holds_pairs fs i ta (take (length ta) tb).
Proof.
  intros Hh k a b Ha Hb. apply Hh; [done|].
  by apply lookup_take_Some in Hb as [? _].
Qed.

(** The storage that [writeTransformPairsToFile] builds. *)
Lemma writeTransformPairsToFile_Ok ta tb (filename : string)
    (files : gmap string (gmap string (FileNode F))) :
  length ta ≤ length tb → (Z.of_nat (length ta) ≤ INT_MAX)%Z →
  ∃ fs,
    write_loop 0 ta tb (<[key_frameCount:=NInt (to_int (Z.of_nat (length ta)))]> ∅) = Ok fs ∧
    writeTransformPairsToFile ta tb filename true files =
      Ok (0%Z, <[filename:=fs]> files,
          [CERR ("Writing pairs to " +:+ dquote +:+ filename +:+ dquote +:+ "..." +:+ nl)]).
Proof.
  intros Hlen Hmax. unfold writeTransformPairsToFile.
  pose proof (write_loop_spec ta tb 0 (<[key_frameCount:=NInt (to_int (Z.of_nat (length ta)))]> ∅)
    Hlen ltac:(lia)) as [fs Hw]%is_ok_true.
  exists fs. by rewrite Hw.
Qed.

(** Writing to a file that opens is defined only within the bounds. *)
Lemma writeTransformPairsToFile_bounds ta tb (filename : string)
    (files : gmap string (gmap string (FileNode F))) :
  is_ok (writeTransformPairsToFile ta tb filename true files) = true →
  length ta ≤ length tb ∧ (Z.of_nat (length ta) ≤ INT_MAX)%Z.
Proof.
  unfold writeTransformPairsToFile. intros [r (fs & Hw & _)%bind_Ok]%is_ok_true.
  by apply write_loop_Ok_inv in Hw.
Qed.

(** ** What is written is the schema, and nothing else *)

Lemma lookup_pair_entries_ne ta tb (i : Z) (key : string) :
  (∀ j, (i ≤ j)%Z → key ≠ key_T1 j ∧ key ≠ key_T2 j) →
  (list_to_map (pair_entries i ta tb) : gmap string (FileNode F)) !! key = None.
Proof.
  revert tb i. induction ta as [|a ta IH]; intros [|b tb] i Hkey; simpl; try done.
  destruct (Hkey i) as [? ?]; [lia|]. rewrite !lookup_insert_ne by done.
  apply IH. intros j Hj. apply Hkey. lia.
Qed.

Lemma lookup_pair_entries_below ta tb (i j : Z) :
  (j < i)%Z →
  (list_to_map (pair_entries i ta tb) : gmap string (FileNode F)) !! key_T1 j = None ∧
  (list_to_map (pair_entries i ta tb) : gmap string (FileNode F)) !! key_T2 j = None.
Proof.
  intros Hj.
  split; apply lookup_pair_entries_ne; intros k Hk; split; (done || (intros ?%(inj _); lia)).
Qed.

(** The loop writes the entries on top of what the storage held. *)
Lemma write_loop_entries ta tb (i : Z) fs fs' :
  write_loop i ta tb fs = Ok fs' → fs' = list_to_map (pair_entries i ta tb) ∪ fs.
Proof.
  revert tb i fs. induction ta as [|a ta IH]; intros [|b tb] i fs Hw; simplify_eq/=;
    try by rewrite (left_id_L ∅ (∪)).
  apply bind_Ok in Hw as (i' & Hi & Hw).
  unfold int_incr in Hi. case_decide; simplify_eq.
  rewrite (IH _ _ _ Hw). destruct (lookup_pair_entries_below ta tb (i + 1) i) as [H1 H2]; [lia|].
  rewrite <- !insert_union_l, <- !insert_union_r by done.
  apply insert_insert_ne, not_eq_sym, key_T1_T2.
Qed.

(** What the loop leaves of a storage that held [frameCount] alone. *)
Lemma write_loop_pair_storage ta tb fs :
  (Z.of_nat (length ta) ≤ INT_MAX)%Z →
  write_loop 0 ta tb (<[key_frameCount:=NInt (to_int (Z.of_nat (length ta)))]> ∅) = Ok fs →
  fs = pair_storage ta tb.
Proof.
  intros Hmax ->%write_loop_entries. unfold pair_storage.
  rewrite to_int_small by (unfold INT_MAX in *; lia). cbn [list_to_map foldr fst snd].
  rewrite <- insert_union_r, (right_id_L ∅ (∪)); [done|].
  apply lookup_pair_entries_ne. intros j _.
  split; [apply not_eq_sym, key_T1_frameCount|apply not_eq_sym, key_T2_frameCount].
Qed.

(** The file [writeTransformPairsToFile] writes is [pair_storage] of its
    two vectors. *)
Lemma writeTransformPairsToFile_storage ta tb (filename : string)
    (files : gmap string (gmap string (FileNode F))) :
  length ta ≤ length tb → (Z.of_nat (length ta) ≤ INT_MAX)%Z →
  writeTransformPairsToFile ta tb filename true files =
    Ok (0%Z, <[filename:=pair_storage ta tb]> files,
        [CERR ("Writing pairs to " +:+ dquote +:+ filename +:+ dquote +:+ "..." +:+ nl)]).
Proof.
  intros Hlen Hmax.
  destruct (writeTransformPairsToFile_Ok ta tb filename files Hlen Hmax) as (fs & Hw & ->).
  by rewrite (write_loop_pair_storage ta tb fs Hmax Hw).
Qed.

(** The keys of a pair file. *)
Lemma dom_pair_entries ta tb (i : Z) :
  length ta ≤ length tb →
  dom (list_to_map (pair_entries i ta tb) : gmap string (FileNode F)) =
  list_to_set (key_T1 <$> seqZ i (Z.of_nat (length ta)))
  ∪ list_to_set (key_T2 <$> seqZ i (Z.of_nat (length ta))).
Proof.
  revert tb i. induction ta as [|a ta IH]; intros [|b tb] i Hlen; simpl in *; try lia.
  - by rewrite dom_empty_L, (left_id_L ∅ (∪)).
  - by rewrite dom_empty_L, (left_id_L ∅ (∪)).
  - rewrite !dom_insert_L, IH by lia.
    rewrite (seqZ_cons i (Z.of_nat (S (length ta)))) by lia.
    replace (Z.pred (Z.of_nat (S (length ta)))) with (Z.of_nat (length ta)) by lia.
    rewrite !fmap_cons, !list_to_set_cons. fold (i + 1)%Z.
    set (s1 := list_to_set (key_T1 <$> _)). set (s2 := list_to_set (key_T2 <$> _)).
    apply set_eq. intros x. rewrite !elem_of_union. tauto.
Qed.

Lemma dom_pair_storage ta tb :
  length ta ≤ length tb →
  dom (pair_storage ta tb) =
  {[key_frameCount]} ∪ list_to_set (key_T1 <$> seqZ 0 (Z.of_nat (length ta)))
  ∪ list_to_set (key_T2 <$> seqZ 0 (Z.of_nat (length ta))).
Proof.
  intros Hlen. unfold pair_storage. cbn [list_to_map foldr fst snd].
  rewrite dom_insert_L, dom_pair_entries by done. by rewrite (assoc_L (∪)).
Qed.

(** C37. The pair file is the schema of section 6 and nothing else.  When the
    second vector is at least as long as the first and the length of the
    first fits an [int], [writeTransformPairsToFile] on a file that opens
    returns 0 after its one line on [std::cerr] and replaces the file by a
    storage whose keys are [frameCount], [T1_i] and [T2_i] for the [i]
    below the length of the first vector and no other, with that length
    under [frameCount] and the matrices of the poses at index [i] under
    [T1_i] and [T2_i]; the poses of the second vector past that length are
    not written. *)
Theorem writeTransformPairsToFile_schema ta tb (filename : string)
    (files : gmap string (gmap string (FileNode F))) :
  length ta ≤ length tb → (Z.of_nat (length ta) ≤ INT_MAX)%Z →
  ∃ fs,
    writeTransformPairsToFile ta tb filename true files =
      Ok (0%Z, <[filename:=fs]> files,
          [CERR ("Writing pairs to " +:+ dquote +:+ filename +:+ dquote +:+ "..." +:+ nl)]) ∧
    dom fs =
      {[key_frameCount]} ∪ list_to_set (key_T1 <$> seqZ 0 (Z.of_nat (length ta)))
      ∪ list_to_set (key_T2 <$> seqZ 0 (Z.of_nat (length ta))) ∧
    fs !! key_frameCount = Some (NInt (Z.of_nat (length ta))) ∧
    ∀ (i : nat) a b, ta !! i = Some a → tb !! i = Some b →
      fs !! key_T1 (Z.of_nat i) = Some (NMat (eigen2cv (matrix a))) ∧
      fs !! key_T2 (Z.of_nat i) = Some (NMat (eigen2cv (matrix b))).
Proof.
  intros Hlen Hmax.
  destruct (writeTransformPairsToFile_Ok ta tb filename files Hlen Hmax) as (fs & Hw & ->).
  exists fs. split; [done|].
  pose proof (write_loop_holds_pairs _ _ _ _ _ Hw) as Hpairs.
  apply (write_loop_pair_storage ta tb fs Hmax) in Hw as ->.
  split_and!; [by apply dom_pair_storage|apply lookup_insert_eq|exact Hpairs].
Qed.

(** Reading a file that holds such a storage. *)
Lemma written_pairs_read ta tb (va vb : list (Affine3d F)) (filename : string) fs
    (files : gmap string (gmap string (FileNode F))) :
  write_loop 0 ta tb (<[key_frameCount:=NInt (to_int (Z.of_nat (length ta)))]> ∅) = Ok fs →
  length ta ≤ length tb → (Z.of_nat (length ta) ≤ INT_MAX)%Z →
  files !! filename = Some fs →
  readTransformPairsFromFile filename va vb files =
    Ok (0%Z, (va ++ ta, vb ++ take (length ta) tb), []).
Proof.
  intros Hw Hlen Hmax Hfile. unfold readTransformPairsFromFile. rewrite Hfile.
  rewrite (write_loop_lookup_other _ _ _ _ _ _ Hw) by done.
  rewrite lookup_insert_eq. simpl.
  rewrite to_int_small by (unfold INT_MAX in *; lia). rewrite Nat2Z.id.
  rewrite (read_loop_spec fs ta (take (length ta) tb)); [done| |].
  - rewrite length_take. lia.
  - apply holds_pairs_take. by eapply write_loop_holds_pairs.
Qed.

(** C6. Round trip: what [writeTransformPairsToFile] writes,
    [readTransformPairsFromFile] reads back.  For [N] poses in the first
    vector ([N] at most [INT_MAX]) and at least [N] in the second, writing
    succeeds with code 0, and reading the file appends to the vectors it is
    given the [N] poses of the first vector and the first [N] of the
    second, unchanged, also with code 0. *)
Theorem write_read_roundtrip ta tb (va vb : list (Affine3d F)) (filename : string)
    (files : gmap string (gmap string (FileNode F))) :
  length ta ≤ length tb → (Z.of_nat (length ta) ≤ INT_MAX)%Z →
  ∃ files',
    writeTransformPairsToFile ta tb filename true files =
      Ok (0%Z, files',
          [CERR ("Writing pairs to " +:+ dquote +:+ filename +:+ dquote +:+ "..." +:+ nl)]) ∧
    readTransformPairsFromFile filename va vb files' =
      Ok (0%Z, (va ++ ta, vb ++ take (length ta) tb), []).
Proof.
  intros Hlen Hmax.
  destruct (writeTransformPairsToFile_Ok ta tb filename files Hlen Hmax) as (fs & Hw & ->).
  eexists. split; [reflexivity|].
  eapply written_pairs_read; [done..|]. by rewrite lookup_insert_eq.
Qed.

(** Writing another file does not change what a file reads as. *)
Lemma readTransformPairsFromFile_insert_ne (filename other : string)
    (fs : gmap string (FileNode F)) (va vb : list (Affine3d F))
    (files : gmap string (gmap string (FileNode F))) :
  filename ≠ other →
  readTransformPairsFromFile filename va vb (<[other:=fs]> files) =
  readTransformPairsFromFile filename va vb files.
Proof. intros Hne. unfold readTransformPairsFromFile. by rewrite lookup_insert_ne. Qed.

(** ** What the reader returns, file by file *)

Lemma is_pose_Ok (n : option (FileNode F)) : is_pose n ↔ ∃ a, read_transform n = Ok a.
Proof. apply is_ok_true. Qed.

Lemma node_pose_Ok (n : option (FileNode F)) (a : Affine3d F) :
  read_transform n = Ok a → node_pose n = Some a.
Proof. unfold node_pose. by intros ->. Qed.

Lemma seqZ_S_cons (i : Z) (n : nat) : seqZ i (Z.of_nat (S n)) = i :: seqZ (i + 1) (Z.of_nat n).
Proof. rewrite seqZ_cons by lia. do 2 f_equal. lia. Qed.

Lemma seqZ_to_nat (i n : Z) : seqZ i (Z.of_nat (Z.to_nat n)) = seqZ i n.
Proof. unfold seqZ. by rewrite Nat2Z.id. Qed.

Lemma poses_from_cons (key : Z → string) fs (i : Z) (n : nat) (a : Affine3d F) :
  read_transform (fs !! key i) = Ok a →
  poses_from key fs i (Z.of_nat (S n)) = a :: poses_from key fs (i + 1) (Z.of_nat n).
Proof.
  intros Ha. unfold poses_from. rewrite seqZ_S_cons. simpl. by rewrite (node_pose_Ok _ _ Ha).
Qed.

(** The loop of the reader returns exactly when every node it reads holds
    a 4x4 matrix, and then it has appended the poses in the order of their
    indices. *)
Lemma read_loop_Ok fs (n : nat) (i : Z) (t1 t2 : list (Affine3d F))
    (r : list (Affine3d F) * list (Affine3d F)) :
  read_loop n i fs t1 t2 = Ok r ↔
  Forall (λ j, is_pose (fs !! key_T1 j) ∧ is_pose (fs !! key_T2 j)) (seqZ i (Z.of_nat n)) ∧
  r = (t1 ++ poses_from key_T1 fs i (Z.of_nat n), t2 ++ poses_from key_T2 fs i (Z.of_nat n)).
Proof.
  revert i t1 t2. induction n as [|n IH]; intros i t1 t2.
  { simpl. unfold poses_from. rewrite seqZ_nil, !app_nil_r by done.
    split; [by intros [= <-]|by intros [_ ->]]. }
  rewrite seqZ_S_cons, Forall_cons. cbn [read_loop]. split.
  - intros (a & Ha & (b & Hb & Hrest)%bind_Ok)%bind_Ok. apply IH in Hrest as [Hall ->].
    rewrite (poses_from_cons _ _ _ _ _ Ha), (poses_from_cons _ _ _ _ _ Hb).
    unfold push_back. rewrite <- !app_assoc. split; [|done].
    split; [|done]. split; apply is_pose_Ok; eauto.
  - intros ([[[a Ha]%is_pose_Ok [b Hb]%is_pose_Ok] Hall] & ->). rewrite Ha, Hb. simpl.
    apply IH. split; [done|].
    rewrite (poses_from_cons _ _ _ _ _ Ha), (poses_from_cons _ _ _ _ _ Hb).
    unfold push_back. by rewrite <- !app_assoc.
Qed.

Lemma read_loop_frames fs (frameCount : Z) (t1 t2 : list (Affine3d F))
    (r : list (Affine3d F) * list (Affine3d F)) :
  read_loop (Z.to_nat frameCount) 0 fs t1 t2 = Ok r ↔
  Forall (λ j, is_pose (fs !! key_T1 j) ∧ is_pose (fs !! key_T2 j)) (seqZ 0 frameCount) ∧
  r = (t1 ++ poses_from key_T1 fs 0 frameCount, t2 ++ poses_from key_T2 fs 0 frameCount).
Proof. rewrite read_loop_Ok. unfold poses_from. by rewrite !seqZ_to_nat. Qed.

Lemma length_poses_from (key : Z → string) fs (i n : Z) :
  Forall (λ j, is_pose (fs !! key j)) (seqZ i n) →
  length (poses_from key fs i n) = Z.to_nat n.
Proof.
  intros Hall. rewrite <- (length_seqZ i n). apply length_omap_total.
  eapply Forall_impl; [exact Hall|]. intros j [a Ha]%is_pose_Ok. by rewrite (node_pose_Ok _ _ Ha).
Qed.

Lemma readTransformPairsFromFile_missing (filename : string) (va vb : list (Affine3d F))
    (files : gmap string (gmap string (FileNode F))) :
  files !! filename = None →
  readTransformPairsFromFile filename va vb files =
    Ok (1%Z, (va, vb), [CERR ("failed to open input file " +:+ filename +:+ nl)]).
Proof. unfold readTransformPairsFromFile. by intros ->. Qed.

Lemma readTransformPairsFromFile_well_formed (filename : string) (va vb : list (Affine3d F))
    (files : gmap string (gmap string (FileNode F))) fs :
  files !! filename = Some fs → well_formed_pairs fs →
  readTransformPairsFromFile filename va vb files =
    Ok (0%Z, (va ++ poses_from key_T1 fs 0 (read_int (fs !! key_frameCount)),
              vb ++ poses_from key_T2 fs 0 (read_int (fs !! key_frameCount))), []).
Proof.
  unfold readTransformPairsFromFile. intros -> Hwf.
  by rewrite (proj2 (read_loop_frames fs _ va vb _) (conj Hwf eq_refl)).
Qed.

Lemma readTransformPairsFromFile_ill_formed (filename : string) (va vb : list (Affine3d F))
    (files : gmap string (gmap string (FileNode F))) fs :
  files !! filename = Some fs → ¬ well_formed_pairs fs →
  is_ok (readTransformPairsFromFile filename va vb files) = false.
Proof.
  unfold readTransformPairsFromFile. intros -> Hwf.
  destruct (read_loop _ _ _ _ _) as [r|u] eqn:Hloop; [|done].
  by apply read_loop_frames in Hloop as [? _].
Qed.

Lemma length_poses_well_formed fs :
  well_formed_pairs fs →
  length (poses_from key_T1 fs 0 (read_int (fs !! key_frameCount))) =
    Z.to_nat (read_int (fs !! key_frameCount)) ∧
  length (poses_from key_T2 fs 0 (read_int (fs !! key_frameCount))) =
    Z.to_nat (read_int (fs !! key_frameCount)).
Proof.
  intros Hwf. split; apply length_poses_from; (eapply Forall_impl; [exact Hwf|]); by intros j [? ?].
Qed.

(** C12. What [readTransformPairsFromFile] does, on every file.  It is
    defined exactly when the file is missing or is a well-formed pair file:
    one that holds a 4x4 matrix under [T1_i] and [T2_i] for every [i] below
    its frame count (a missing [frameCount] counting as 0, a real as its
    rounding, anything else as [INT_MAX]).  A missing file is reported, the
    code is 1 and the vectors are left alone; a well-formed file gives code
    0, and the vectors receive the poses in the order of their indices, as
    many to each as the frame count says. *)
Theorem readTransformPairsFromFile_spec (filename : string) (va vb : list (Affine3d F))
    (files : gmap string (gmap string (FileNode F))) :
  (is_ok (readTransformPairsFromFile filename va vb files) = true ↔
     ∀ fs, files !! filename = Some fs → well_formed_pairs fs) ∧
  (files !! filename = None →
     readTransformPairsFromFile filename va vb files =
       Ok (1%Z, (va, vb), [CERR ("failed to open input file " +:+ filename +:+ nl)])) ∧
  (∀ fs, files !! filename = Some fs → well_formed_pairs fs →
     let frameCount := read_int (fs !! key_frameCount) in
     readTransformPairsFromFile filename va vb files =
       Ok (0%Z, (va ++ poses_from key_T1 fs 0 frameCount,
                 vb ++ poses_from key_T2 fs 0 frameCount), []) ∧
     length (poses_from key_T1 fs 0 frameCount) = Z.to_nat frameCount ∧
     length (poses_from key_T2 fs 0 frameCount) = Z.to_nat frameCount).
Proof.
  split_and!.
  - destruct (files !! filename) as [fs|] eqn:Hfile.
    + destruct (decide (well_formed_pairs fs)) as [Hwf|Hwf].
      * rewrite (readTransformPairsFromFile_well_formed _ _ _ _ _ Hfile Hwf).
        split; [by intros _ ? [= <-]|done].
      * rewrite (readTransformPairsFromFile_ill_formed _ _ _ _ _ Hfile Hwf).
        split; [done|]. intros Hall. destruct Hwf. by apply Hall.
    + by rewrite readTransformPairsFromFile_missing.
  - apply readTransformPairsFromFile_missing.
  - intros fs Hfile Hwf. split; [by apply readTransformPairsFromFile_well_formed|].
    by apply length_poses_well_formed.
Qed.

(** ** Files that do not hold what they announce *)

Lemma read_loop_missing (n k : nat) (i : Z) fs (va vb : list (Affine3d F)) :
  k < n →
  (∀ j : nat, j < k →
     is_ok (read_transform (fs !! key_T1 (i + Z.of_nat j))) = true ∧
     is_ok (read_transform (fs !! key_T2 (i + Z.of_nat j))) = true) →
  fs !! key_T1 (i + Z.of_nat k) = None →
  read_loop n i fs va vb = Undef CvShapeMismatch.
Proof.
  revert n i va vb. induction k as [|k IH]; intros [|n] i va vb Hk Hpresent Hmissing;
    try lia; simpl.
  - rewrite Z.add_0_r in Hmissing. by rewrite Hmissing.
  - destruct (Hpresent 0) as [Ha Hb]; [lia|]. rewrite Z.add_0_r in Ha, Hb.
    apply is_ok_true in Ha as [a ->], Hb as [b ->]. simpl.
    apply IH; [lia| |].
    + intros j Hj. destruct (Hpresent (S j)) as [H1 H2]; [lia|].
      by replace (i + 1 + Z.of_nat j)%Z with (i + Z.of_nat (S j))%Z by lia.
    + by replace (i + 1 + Z.of_nat k)%Z with (i + Z.of_nat (S k))%Z by lia.
Qed.

(** A file whose [frameCount] announces more pairs than it holds
    cannot be loaded: at the first index whose [T1] matrix is missing, the
    reader converts an empty [cv::Mat] into a 4x4 matrix, outside what
    [cv2eigen] is defined on. *)
Theorem read_truncated_file (filename : string) fs
    (files : gmap string (gmap string (FileNode F)))
    (frameCount : Z) (k : nat) (va vb : list (Affine3d F)) :
  files !! filename = Some fs →
  fs !! key_frameCount = Some (NInt frameCount) →
  (Z.of_nat k < frameCount)%Z →
  (∀ j : nat, j < k →
     is_ok (read_transform (fs !! key_T1 (Z.of_nat j))) = true ∧
     is_ok (read_transform (fs !! key_T2 (Z.of_nat j))) = true) →
  fs !! key_T1 (Z.of_nat k) = None →
  readTransformPairsFromFile filename va vb files = Undef CvShapeMismatch.
Proof.
  intros Hfile Hcount Hk Hpresent Hmissing. unfold readTransformPairsFromFile.
  rewrite Hfile, Hcount. simpl.
  by rewrite (read_loop_missing _ k) by (done || lia).
Qed.

(** [writeTransformPairsToFile] is defined exactly when the file cannot
    be opened, or the second vector is at least as long as the first and
    the first holds at most [INT_MAX] poses; when the file cannot be opened
    it returns 1, reports it, and leaves every file as it was. *)
Theorem writeTransformPairsToFile_defined ta tb (filename : string) (can_open : bool)
    (files : gmap string (gmap string (FileNode F))) :
  (is_ok (writeTransformPairsToFile ta tb filename can_open files) = true ↔
     can_open = false ∨ (length ta ≤ length tb ∧ (Z.of_nat (length ta) ≤ INT_MAX)%Z)) ∧
  (can_open = false →
     writeTransformPairsToFile ta tb filename can_open files =
       Ok (1%Z, files,
           [CERR ("Writing pairs to " +:+ dquote +:+ filename +:+ dquote +:+ "..." +:+ nl);
            CERR ("failed to open output file " +:+ filename +:+ nl)])).
Proof.
  unfold writeTransformPairsToFile. destruct can_open; [|by split; [split; auto|]].
  split; [|done]. split.
  - intros [r Hr]%is_ok_true. right. apply bind_Ok in Hr as (fs & Hw & _).
    by apply write_loop_Ok_inv in Hw.
  - intros [?|[Hlen Hmax]]; [done|].
    pose proof (write_loop_spec ta tb 0
      (<[key_frameCount:=NInt (to_int (Z.of_nat (length ta)))]> ∅) Hlen ltac:(lia))
      as [fs ->]%is_ok_true. done.
Qed.

End PersistFacts.

(** ** The theorems at concrete files *)

Lemma write_read_roundtrip_witness :
  ∃ files',
    writeTransformPairsToFile [sample_turn_z; sample_shift] [sample_turn_x; sample_turn_z]
      "TransformPairsInput.yml" true ∅ =
      Ok (0%Z, files', [CERR ("Writing pairs to " +:+ dquote +:+ "TransformPairsInput.yml"
                              +:+ dquote +:+ "..." +:+ nl)]) ∧
    readTransformPairsFromFile "TransformPairsInput.yml" [] [] files' =
      Ok (0%Z, ([] ++ [sample_turn_z; sample_shift],
                [] ++ take 2 [sample_turn_x; sample_turn_z]), []).
Proof.
  apply (write_read_roundtrip [sample_turn_z; sample_shift] [sample_turn_x; sample_turn_z]);
    [simpl; lia | unfold INT_MAX; simpl; lia].
Defined.

(** A file that announces two pairs and holds one. *)
(** Two poses written from vectors of two and of three: the storage has
    five keys, and the third pose of the second vector is not in it. *)
Lemma writeTransformPairsToFile_schema_witness :
  ∃ fs : gmap string (FileNode Q),
    writeTransformPairsToFile [sample_turn_z; sample_shift]
      [sample_turn_x; sample_turn_z; sample_shift] "TransformPairsInput.yml" true ∅ =
      Ok (0%Z, <["TransformPairsInput.yml":=fs]> ∅,
          [CERR ("Writing pairs to " +:+ dquote +:+ "TransformPairsInput.yml"
                 +:+ dquote +:+ "..." +:+ nl)]) ∧
    dom fs =
      {[key_frameCount]} ∪ list_to_set (key_T1 <$> seqZ 0 2) ∪ list_to_set (key_T2 <$> seqZ 0 2) ∧
    fs !! key_frameCount = Some (NInt 2) ∧
    ∀ (i : nat) a b,
      [sample_turn_z; sample_shift] !! i = Some a →
      [sample_turn_x; sample_turn_z; sample_shift] !! i = Some b →
      fs !! key_T1 (Z.of_nat i) = Some (NMat (eigen2cv (matrix a))) ∧
      fs !! key_T2 (Z.of_nat i) = Some (NMat (eigen2cv (matrix b))).
Proof.
  apply (writeTransformPairsToFile_schema [sample_turn_z; sample_shift]
           [sample_turn_x; sample_turn_z; sample_shift] "TransformPairsInput.yml" ∅);
    [simpl; lia|by vm_compute].
Defined.

Definition sample_truncated_file : gmap string (FileNode Q) :=
  <[key_T2 0 := NMat (eigen2cv (matrix sample_turn_x))]>
    (<[key_T1 0 := NMat (eigen2cv (matrix sample_turn_z))]>
       (<[key_frameCount := NInt 2]> ∅)).

Lemma read_truncated_file_witness :
  readTransformPairsFromFile "TransformPairsOutput.yml" [] []
    (<["TransformPairsOutput.yml" := sample_truncated_file]> ∅) = Undef CvShapeMismatch.
Proof.
  apply (read_truncated_file _ sample_truncated_file _ 2 1).
  - apply lookup_insert_eq.
  - reflexivity.
  - lia.
  - intros [|j] Hj; [split; reflexivity|lia].
  - reflexivity.
Defined.
