(* ===== verification/Calib.v ===== *)
(** * Calib: the solver call, the report and the result file

    [camodocal::HandEyeCalibration::estimateHandEyeScrew] and
    [ceres::Solver::Summary] belong to libraries the source only calls:
    the solver is the interface [HandEyeSolver], and [Summary] holds the
    fields of the summary that the program reads.

    [reportCalibration] (source lines 124-169) prints the result, its
    translation, quaternion and Euler angles, and the same for its inverse;
    [estimateHandEye] (lines 171-236) is the loop of [Derive] followed by
    the solver call and the report; [writeCalibration] (lines 238-279)
    prints the convergence report and stores result and summary under nine
    keys ([calibration_entries]). *)

From Stdlib Require Import ZArith QArith Lia.
From stdpp Require Import base tactics option list strings pretty gmap.
From S2P Require Import Prelude Scalar Eigen Ros Derive Persist.

(** ** Data *)

(** [ceres::TerminationType], in the order of its declaration. *)
Inductive TerminationType : Type :=
| CONVERGENCE
| NO_CONVERGENCE
| FAILURE
| USER_SUCCESS
| USER_FAILURE.

#[export] Instance TerminationType_eq_dec : EqDecision TerminationType.
Proof. solve_decision. Defined.

(** The value of the enumerator, which is what [operator<<] of a stream
    or of a [cv::FileStorage] writes. *)
Definition termination_code (t : TerminationType) : Z :=
  match t with
  | CONVERGENCE => 0
  | NO_CONVERGENCE => 1
  | FAILURE => 2
  | USER_SUCCESS => 3
  | USER_FAILURE => 4
  end.

(** The fields of [ceres::Solver::Summary] the program reads. *)
Record Summary (F : Type) : Type := {
  initial_cost : F;
  final_cost : F;
  termination_type : TerminationType;
  num_successful_steps : Z;
  num_unsuccessful_steps : Z;
}.
Arguments Build_Summary {F}.
Arguments initial_cost {F} s.
Arguments final_cost {F} s.
Arguments termination_type {F} s.
Arguments num_successful_steps {F} s.
Arguments num_unsuccessful_steps {F} s.

#[export] Instance Summary_eq_dec {F} `{EqDecision F} : EqDecision (Summary F).
Proof. solve_decision. Defined.

(** What the program calls and does not define.  Both call sites pass an
    uninitialised [result] and a freshly constructed [summary], so what the
    call leaves in them is a function of the four vectors. *)
Class HandEyeSolver (F : Type) : Type := {
  (** [estimateHandEyeScrew(rvecs1, tvecs1, rvecs2, tvecs2, result,
      summary, false)]. *)
  estimateHandEyeScrew : ScrewInput F → Matrix4d F * Summary F;
  (** [Summary::BriefReport()]. *)
  BriefReport : Summary F → string;
}.

(** The keys of the result file. *)
Definition key_handToEyeTF : string := "handToEyeTF".
Definition key_handToEyeTransform : string := "handToEyeTransform".
Definition key_initial_cost : string := "initial_cost".
Definition key_final_cost : string := "final_cost".
Definition key_change_cost : string := "change_cost".
Definition key_termination_type : string := "termination_type".
Definition key_num_successful_iteration : string := "num_successful_iteration".
Definition key_num_unsuccessful_iteration : string := "num_unsuccessful_iteration".
Definition key_num_iteration : string := "num_iteration".

Section Calib.
Context {F : Type} `{ScalarOps F} `{RotationLib F} `{Sqrt F} `{StreamOut F}
  `{HandEyeSolver F}.
Local Open Scope eigen_scope.

(** ** The report *)

(** The four coefficients of a quaternion, separated by spaces. *)
Definition print_xyzw (q : Quaterniond F) : string :=
  print_double (qx q) +:+ " " +:+ print_double (qy q) +:+ " "
  +:+ print_double (qz q) +:+ " " +:+ print_double (qw q).

(** [reportCalibration] (source lines 124-169). *)
Definition reportCalibration (EETFname cameraTFname : string) (resultAffine : Affine3d F)
    : list Msg :=
  let quaternionResult := toQuaternion (rotation resultAffine) in
  let rpy := eulerAngles210 (rotation resultAffine) in
  let resultAffineInv := inverse resultAffine in
  let quaternionResult' := toQuaternion (rotation resultAffineInv) in
  [COUT (esc +:+ "[1;33m" +:+ nl +:+ nl);
   CERR ("Result from " +:+ EETFname +:+ " to " +:+ cameraTFname +:+ ":"
         +:+ esc +:+ "[0m" +:+ nl);
   CERR (print_matrix (matrix resultAffine) +:+ nl +:+ nl);
   CERR (esc +:+ "[1;33m");
   CERR ("Translation (x,y,z) : " +:+ print_transpose (translation resultAffine) +:+ nl);
   CERR ("Rotation q(x,y,z,w): " +:+ print_xyzw quaternionResult +:+ nl);
   CERR ("Rotation (roll,pitch,yaw): " +:+ print_double (vz rpy) +:+ " "
         +:+ print_double (vy rpy) +:+ " " +:+ print_double (vx rpy) +:+ nl);
   CERR (esc +:+ "[0m");
   COUT (esc +:+ "[1;34m" +:+ "Now you can publish tf in: [ Translation, Rotation] "
         +:+ EETFname +:+ " " +:+ cameraTFname +:+ esc +:+ "[0m" +:+ nl +:+ nl);
   CERR ("Inverted translation (x,y,z) : "
         +:+ print_transpose (translation resultAffineInv) +:+ nl);
   CERR ("Inverted rotation (x,y,z,w): " +:+ print_xyzw quaternionResult' +:+ nl)].

(** ** The batch estimate *)

(** The solver call and the report, as both [estimateHandEye] (source
    lines 228-234) and the [q] key (lines 473-482) make them. *)
Definition solve_and_report (P : Params) (input : ScrewInput F)
    : Affine3d F * Summary F * list Msg :=
  let '(result, summary) := estimateHandEyeScrew input in
  let resultAffine := Transform result in
  (resultAffine, summary, reportCalibration (EETFname P) (cameraTFname P) resultAffine).

(** [estimateHandEye] (source lines 171-236); [u1] and [u2] are what the
    uninitialised locals hold. *)
Definition estimateHandEye (P : Params) (baseToTip camToTag : list (Affine3d F))
    (u1 u2 : Affine3d F) : outcome (Affine3d F * Summary F * list Msg) :=
  '(st, out) ← deriveMotions baseToTip camToTag u1 u2;
  let '(resultAffine, summary, out') := solve_and_report P (solver_input st) in
  mret (resultAffine, summary, out ++ out').

(** ** The result file *)

(** The row [x y z qx qy qz qw] (source lines 253-261). *)
Definition Mat_tfpose_1_7 (resultAffine : Affine3d F) : list (list F) :=
  let resultQuat := toQuaternion (rotation resultAffine) in
  [[vx (translation resultAffine); vy (translation resultAffine);
    vz (translation resultAffine);
    qx resultQuat; qy resultQuat; qz resultQuat; qw resultQuat]].

(** The nine entries of the result file (source lines 262-276), given
    the sum of the two step counts. *)
Definition calibration_entries (resultAffine : Affine3d F) (summary : Summary F)
    (num_iteration : Z) : gmap string (FileNode F) :=
  <[key_num_iteration := NInt num_iteration]>
  (<[key_num_unsuccessful_iteration := NInt (num_unsuccessful_steps summary)]>
  (<[key_num_successful_iteration := NInt (num_successful_steps summary)]>
  (<[key_termination_type := NInt (termination_code (termination_type summary))]>
  (<[key_change_cost := NReal (initial_cost summary - final_cost summary)%S]>
  (<[key_final_cost := NReal (final_cost summary)]>
  (<[key_initial_cost := NReal (initial_cost summary)]>
  (<[key_handToEyeTransform := NMat (eigen2cv (matrix resultAffine))]>
  (<[key_handToEyeTF := NMat (Mat_tfpose_1_7 resultAffine)]> ∅)))))))).

(** What [writeCalibration] puts into the storage (source lines 253-276);
    the sum of the two step counts is an [int] addition. *)
Definition calibration_storage (resultAffine : Affine3d F) (summary : Summary F)
    : outcome (gmap string (FileNode F)) :=
  num_iteration ← int_add (num_unsuccessful_steps summary) (num_successful_steps summary);
  mret (calibration_entries resultAffine summary num_iteration).

(** [writeCalibration] (source lines 238-279): the files afterwards and
    what was printed.  Nothing tells the caller whether the file could be
    opened. *)
Definition writeCalibration (resultAffine : Affine3d F) (filename : string)
    (summary : Summary F) (can_open : bool) (files : gmap string (gmap string (FileNode F)))
    : outcome (gmap string (gmap string (FileNode F)) * list Msg) :=
  let log :=
    [CERR ("FULL CONVERGENCE REPORT " +:+ dquote +:+ dquote +:+ "..." +:+ nl);
     COUT (BriefReport summary +:+ nl);
     COUT (pretty (termination_code (termination_type summary)) +:+ nl);
     CERR ("Writing calibration to " +:+ dquote +:+ filename +:+ dquote +:+ "..." +:+ nl)] in
  if can_open then
    fs ← calibration_storage resultAffine summary;
    mret (<[filename := fs]> files, log)
  else
    Ok (files, log).

(** ** What the result file is to hold *)

(** The persisted calibration result, field by field. *)
Record CalibrationResult : Type := {
  handToEyeTF : list (list F);
  handToEyeTransform : Matrix4d F;
  r_initial_cost : F;
  r_final_cost : F;
  r_change_cost : F;
  r_termination_type : Z;
  r_num_successful_iteration : Z;
  r_num_unsuccessful_iteration : Z;
  r_num_iteration : Z;
}.

Definition node_mat (n : option (FileNode F)) : option (list (list F)) :=
  match n with Some (NMat rows) => Some rows | _ => None end.
Definition node_real (n : option (FileNode F)) : option F :=
  match n with Some (NReal x) => Some x | _ => None end.
Definition node_int (n : option (FileNode F)) : option Z :=
  match n with Some (NInt z) => Some z | _ => None end.
Definition node_transform (n : option (FileNode F)) : option (Matrix4d F) :=
  match read_transform n with Ok a => Some (matrix a) | Undef _ => None end.

(** A reader of the result file: every key present, at its type. *)
Definition read_calibration (fs : gmap string (FileNode F)) : option CalibrationResult :=
  tf ← node_mat (fs !! key_handToEyeTF);
  m ← node_transform (fs !! key_handToEyeTransform);
  ic ← node_real (fs !! key_initial_cost);
  fc ← node_real (fs !! key_final_cost);
  cc ← node_real (fs !! key_change_cost);
  tt ← node_int (fs !! key_termination_type);
  ns ← node_int (fs !! key_num_successful_iteration);
  nu ← node_int (fs !! key_num_unsuccessful_iteration);
  ni ← node_int (fs !! key_num_iteration);
  Some {| handToEyeTF := tf; handToEyeTransform := m; r_initial_cost := ic;
          r_final_cost := fc; r_change_cost := cc; r_termination_type := tt;
          r_num_successful_iteration := ns; r_num_unsuccessful_iteration := nu;
          r_num_iteration := ni |}.

(** What a run that ends with [resultAffine] and [summary] is to persist. *)
Definition calibration_result (resultAffine : Affine3d F) (summary : Summary F)
    : CalibrationResult := {|
  handToEyeTF := Mat_tfpose_1_7 resultAffine;
  handToEyeTransform := matrix resultAffine;
  r_initial_cost := initial_cost summary;
  r_final_cost := final_cost summary;
  r_change_cost := (initial_cost summary - final_cost summary)%S;
  r_termination_type := termination_code (termination_type summary);
  r_num_successful_iteration := num_successful_steps summary;
  r_num_unsuccessful_iteration := num_unsuccessful_steps summary;
  r_num_iteration := (num_unsuccessful_steps summary + num_successful_steps summary)%Z;
|}.

(** ** [estimateHandEye] solves for the derived motions *)

(** C14. [estimateHandEye] returns exactly when the loop of relative
    motions is defined; it then hands the solver the relative motions
    [deriveAll] specifies for the pairs, returns the solver's matrix as the
    transform and its summary untouched, and prints the log of the loop
    followed by the report of that transform. *)
Theorem estimateHandEye_spec (P : Params) (t1 t2 : list (Affine3d F)) (u1 u2 : Affine3d F)
    (r : Affine3d F * Summary F * list Msg) :
  estimateHandEye P t1 t2 u1 u2 = Ok r ↔
  length t1 ≤ length t2 ∧ (Z.of_nat (length t1) ≤ INT_MAX)%Z ∧
  r = (Transform (estimateHandEyeScrew (screw_of_motions (deriveAll (pose_pairs t1 t2)))).1,
       (estimateHandEyeScrew (screw_of_motions (deriveAll (pose_pairs t1 t2)))).2,
       derive_log (pose_pairs t1 t2)
       ++ reportCalibration (EETFname P) (cameraTFname P)
            (Transform (estimateHandEyeScrew
                          (screw_of_motions (deriveAll (pose_pairs t1 t2)))).1)).
Proof.
  unfold estimateHandEye, solve_and_report. split.
  - intros ([st out] & Hrun & Hr)%bind_Ok.
    destruct (estimate_loop_Ok_inv _ _ _ _ _ Hrun) as [Hlen Hmax]; [done|].
    rewrite deriveMotions_spec in Hrun by (done || lia). injection Hrun as <- <-.
    rewrite solver_input_screw_of_motions in Hr.
    destruct (estimateHandEyeScrew _) as [result summary]. by injection Hr as <-.
  - intros (Hlen & Hmax & ->). rewrite deriveMotions_spec by (done || lia). simpl.
    rewrite solver_input_screw_of_motions.
    by destruct (estimateHandEyeScrew _) as [result summary].
Qed.

(** ** The result file holds the result *)

Lemma node_transform_written (a : Affine3d F) :
  node_transform (Some (NMat (eigen2cv (matrix a)))) = Some (matrix a).
Proof. unfold node_transform. by rewrite read_transform_written. Qed.

Lemma calibration_storage_Ok (resultAffine : Affine3d F) (summary : Summary F)
    (fs : gmap string (FileNode F)) :
  calibration_storage resultAffine summary = Ok fs →
  read_calibration fs = Some (calibration_result resultAffine summary) ∧ size fs = 9.
Proof.
  unfold calibration_storage, calibration_entries, int_add. case_decide; [|done].
  intros [= <-]. split; [|done]. unfold read_calibration.
  repeat (rewrite lookup_insert_eq || (rewrite lookup_insert_ne by done)).
  cbn [node_mat mbind option_bind]. by rewrite node_transform_written.
Qed.

Lemma writeCalibration_stores (resultAffine : Affine3d F) (filename : string)
    (summary : Summary F) (files files' : gmap string (gmap string (FileNode F)))
    (out : list Msg) :
  writeCalibration resultAffine filename summary true files = Ok (files', out) →
  files' !! filename ≫= read_calibration = Some (calibration_result resultAffine summary).
Proof.
  unfold writeCalibration. intros (fs & Hfs & [= <- <-])%bind_Ok.
  rewrite lookup_insert_eq. simpl. by apply calibration_storage_Ok in Hfs as [-> _].
Qed.

(** C24. When the file opens and [writeCalibration] returns, the file it
    wrote holds nine entries, which read back as: the row [x y z qx qy qz
    qw], the 4x4 matrix of the result, both costs and their difference
    [initial - final], the termination code, both step counts and their
    sum.  No other file changed. *)
Theorem writeCalibration_read_back (resultAffine : Affine3d F) (filename : string)
    (summary : Summary F) (files files' : gmap string (gmap string (FileNode F)))
    (out : list Msg) :
  writeCalibration resultAffine filename summary true files = Ok (files', out) →
  (∃ fs, files' !! filename = Some fs ∧ size fs = 9 ∧
     read_calibration fs = Some {|
       handToEyeTF := Mat_tfpose_1_7 resultAffine;
       handToEyeTransform := matrix resultAffine;
       r_initial_cost := initial_cost summary;
       r_final_cost := final_cost summary;
       r_change_cost := (initial_cost summary - final_cost summary)%S;
       r_termination_type := termination_code (termination_type summary);
       r_num_successful_iteration := num_successful_steps summary;
       r_num_unsuccessful_iteration := num_unsuccessful_steps summary;
       r_num_iteration :=
         (num_unsuccessful_steps summary + num_successful_steps summary)%Z |}) ∧
  (∀ other, other ≠ filename → files' !! other = files !! other).
Proof.
  unfold writeCalibration. intros (fs & Hfs & [= <- <-])%bind_Ok.
  apply calibration_storage_Ok in Hfs as [Hread Hsize]. split.
  - exists fs. by rewrite lookup_insert_eq.
  - intros other Hother. by rewrite lookup_insert_ne.
Qed.

(** [writeCalibration] is defined exactly when the file cannot be opened
    or the sum of the two step counts is an [int]. *)
Lemma writeCalibration_defined_iff (resultAffine : Affine3d F) (filename : string)
    (summary : Summary F) (can_open : bool)
    (files : gmap string (gmap string (FileNode F))) :
  is_ok (writeCalibration resultAffine filename summary can_open files) = true ↔
  can_open = false ∨
  (INT_MIN ≤ num_unsuccessful_steps summary + num_successful_steps summary ≤ INT_MAX)%Z.
Proof.
  unfold writeCalibration, calibration_storage, int_add.
  destruct can_open; [|by split; auto]. case_decide; simpl; split; try done; auto.
  by intros [|].
Qed.

(** C38. When the result file cannot be opened, [writeCalibration] prints
    exactly what it prints when it can, and writes nothing: the failure is
    not reported. *)
Theorem writeCalibration_failure_silent (resultAffine : Affine3d F) (filename : string)
    (summary : Summary F) (files files' : gmap string (gmap string (FileNode F)))
    (out : list Msg) :
  writeCalibration resultAffine filename summary true files = Ok (files', out) →
  writeCalibration resultAffine filename summary false files = Ok (files, out).
Proof.
  unfold writeCalibration. by intros (fs & _ & [= _ <-])%bind_Ok.
Qed.

(** ** Facts the session uses *)

(** Writing the result twice is writing it once. *)
Lemma writeCalibration_shape (resultAffine : Affine3d F) (filename : string)
    (summary : Summary F) (can_open : bool)
    (files files' : gmap string (gmap string (FileNode F))) (out : list Msg) :
  writeCalibration resultAffine filename summary can_open files = Ok (files', out) →
  (files' = files ∨ ∃ fs, files' = <[filename:=fs]> files) ∧
  writeCalibration resultAffine filename summary can_open files' = Ok (files', out).
Proof.
  unfold writeCalibration. destruct can_open.
  - intros (fs & Hfs & [= <- <-])%bind_Ok. rewrite Hfs. simpl.
    split; [eauto|]. by rewrite insert_insert_eq.
  - intros [= <- <-]. auto.
Qed.

(** The file [writeCalibration] writes, when it opens and the step counts
    add up within an [int]. *)
Lemma writeCalibration_entries (resultAffine : Affine3d F) (filename : string)
    (summary : Summary F) (can_open : bool)
    (files : gmap string (gmap string (FileNode F))) :
  can_open = false ∨
  (INT_MIN ≤ num_unsuccessful_steps summary + num_successful_steps summary ≤ INT_MAX)%Z →
  fst <$> writeCalibration resultAffine filename summary can_open files =
  Ok (if can_open
      then <[filename:=calibration_entries resultAffine summary
                         (num_unsuccessful_steps summary + num_successful_steps summary)]> files
      else files).
Proof.
  intros Hsum. unfold writeCalibration, calibration_storage. destruct can_open; [|done].
  destruct Hsum as [|Hsum]; [done|]. by rewrite (int_add_Ok _ _ Hsum).
Qed.

(** The files after [writeCalibration]: when the file opens it reads back
    as the result, otherwise nothing changes; no other file changes. *)
Lemma writeCalibration_files (resultAffine : Affine3d F) (filename : string)
    (summary : Summary F) (can_open : bool)
    (files files' : gmap string (gmap string (FileNode F))) :
  fst <$> writeCalibration resultAffine filename summary can_open files = Ok files' →
  (if can_open
   then files' !! filename ≫= read_calibration = Some (calibration_result resultAffine summary)
   else files' = files) ∧
  ∀ other, other ≠ filename → files' !! other = files !! other.
Proof.
  intros ([f o] & Hw & ->)%fmap_Ok. simpl. destruct can_open.
  - split; [by eapply writeCalibration_stores|].
    apply writeCalibration_shape in Hw as [[->|[fs ->]] _]; [done|].
    intros other Hother. by rewrite lookup_insert_ne.
  - unfold writeCalibration in Hw. by injection Hw as <- _.
Qed.

(** The parameters change what the report prints, not the result. *)
Lemma solve_and_report_params (P P' : Params) (input : ScrewInput F) :
  (solve_and_report P' input).1 = (solve_and_report P input).1.
Proof. unfold solve_and_report. by destruct (estimateHandEyeScrew input). Qed.

End Calib.

(** ** A solver to run the models

    A stand-in for camodocal on rationals: it answers with a fixed rigid
    transform and a summary of a run that converged.  No theorem depends on
    it. *)

#[export] Instance sample_solver : HandEyeSolver Q := {|
  estimateHandEyeScrew input :=
    (matrix sample_turn_z,
     {| initial_cost := 3%Q; final_cost := (1 # 4)%Q; termination_type := CONVERGENCE;
        num_successful_steps := 7; num_unsuccessful_steps := 2 |});
  BriefReport summary := "Ceres Solver Report";
|}.

(** ** The theorems at concrete inputs *)

Lemma estimateHandEye_spec_witness :
  estimateHandEye default_params [sample_turn_z; sample_shift] [sample_turn_x; sample_turn_z]
    identity identity =
  Ok (Transform (estimateHandEyeScrew (screw_of_motions (deriveAll
        (pose_pairs [sample_turn_z; sample_shift] [sample_turn_x; sample_turn_z])))).1,
      (estimateHandEyeScrew (screw_of_motions (deriveAll
        (pose_pairs [sample_turn_z; sample_shift] [sample_turn_x; sample_turn_z])))).2,
      derive_log (pose_pairs [sample_turn_z; sample_shift] [sample_turn_x; sample_turn_z])
      ++ reportCalibration (EETFname default_params) (cameraTFname default_params)
           (Transform (estimateHandEyeScrew (screw_of_motions (deriveAll
              (pose_pairs [sample_turn_z; sample_shift]
                          [sample_turn_x; sample_turn_z])))).1)).
Proof.
  apply estimateHandEye_spec.
  split; [simpl; lia | split; [unfold INT_MAX; simpl; lia | reflexivity]].
Defined.

Definition sample_summary : Summary Q := (estimateHandEyeScrew (screw_of_motions [])).2.

Definition sample_written : gmap string (gmap string (FileNode Q)) * list Msg :=
  returned (∅, [])
    (writeCalibration sample_turn_z "CalibratedTransform.yml" sample_summary true ∅).

Lemma sample_written_run :
  writeCalibration sample_turn_z "CalibratedTransform.yml" sample_summary true ∅ =
  Ok (sample_written.1, sample_written.2).
Proof. rewrite <- surjective_pairing. apply returned_Ok. vm_compute. reflexivity. Qed.

Lemma writeCalibration_read_back_witness :
  (∃ fs, sample_written.1 !! "CalibratedTransform.yml" = Some fs ∧ size fs = 9 ∧
     read_calibration fs = Some {|
       handToEyeTF := Mat_tfpose_1_7 sample_turn_z;
       handToEyeTransform := matrix sample_turn_z;
       r_initial_cost := initial_cost sample_summary;
       r_final_cost := final_cost sample_summary;
       r_change_cost := (initial_cost sample_summary - final_cost sample_summary)%S;
       r_termination_type := termination_code (termination_type sample_summary);
       r_num_successful_iteration := num_successful_steps sample_summary;
       r_num_unsuccessful_iteration := num_unsuccessful_steps sample_summary;
       r_num_iteration :=
         (num_unsuccessful_steps sample_summary + num_successful_steps sample_summary)%Z |}) ∧
  (∀ other, other ≠ "CalibratedTransform.yml" →
     sample_written.1 !! other = (∅ : gmap string (gmap string (FileNode Q))) !! other).
Proof. exact (writeCalibration_read_back _ _ _ _ _ _ sample_written_run). Defined.

Lemma writeCalibration_failure_silent_witness :
  writeCalibration sample_turn_z "CalibratedTransform.yml" sample_summary false ∅ =
  Ok (∅, sample_written.2).
Proof. exact (writeCalibration_failure_silent _ _ _ _ _ _ sample_written_run). Defined.
