(* ===== verification/Terminal.v ===== *)
(** * Terminal: [getch]

    [getch] (source lines 283-295) reads one key without waiting for the
    end of the line: it saves the settings of the terminal, clears the
    [ICANON] bit of the local flags, reads one character with [getchar],
    and puts the saved settings back.  The two [termios] structures are
    [static], so they are part of the state; [tcgetattr] and [tcsetattr]
    fail on a standard input that is no terminal, and the code does not
    look at what they return.

    Standard input is the record [Stdin]: whether it is a terminal, the
    settings of that terminal, and the characters still to come.  The
    theorems show that the settings are restored, that only the [ICANON]
    bit differs while the character is read, and which keys a sequence of
    calls returns: the characters in order, then [EOF] for ever. *)

From Stdlib Require Import ZArith Lia Ascii.
From stdpp Require Import base tactics option list.
From S2P Require Import Prelude.

(** ** Data *)

(** [struct termios]: the four flag words, each a [tcflag_t] (an [unsigned
    int]). *)
Record termios : Type := {
  c_iflag : Z;
  c_oflag : Z;
  c_cflag : Z;
  c_lflag : Z;
}.

#[export] Instance termios_eq_dec : EqDecision termios.
Proof. solve_decision. Defined.

(** The bit of [c_lflag] for canonical (line by line) input, and its
    position. *)
Definition ICANON : Z := 2.
Definition ICANON_bit : Z := 1.

(** What [getchar] returns at the end of the input. *)
Definition EOF : Z := -1.

Record Stdin : Type := {
  isatty : bool;
  attributes : termios;
  chars : list ascii;
}.

(** The [static] locals of [getch]; zero before the first call. *)
Record Statics : Type := { oldt : termios; newt : termios }.

Definition zero_termios : termios :=
  {| c_iflag := 0; c_oflag := 0; c_cflag := 0; c_lflag := 0 |}.
Definition initial_statics : Statics := {| oldt := zero_termios; newt := zero_termios |}.

(** ** Operations *)

(** [tcgetattr(STDIN_FILENO, &t)]: on a terminal [t] receives the
    settings; otherwise the call fails and [t] keeps what it held. *)
Definition tcgetattr (s : Stdin) (t : termios) : termios :=
  if isatty s then attributes s else t.

(** [tcsetattr(STDIN_FILENO, TCSANOW, &t)]: fails on what is no terminal. *)
Definition tcsetattr (t : termios) (s : Stdin) : Stdin :=
  if isatty s then {| isatty := true; attributes := t; chars := chars s |} else s.

(** [getchar()]: the next character as an [unsigned char] converted to
    [int], or [EOF]. *)
Definition getchar (s : Stdin) : Z * Stdin :=
  match chars s with
  | [] => (EOF, s)
  | c :: rest =>
    (Z.of_N (N_of_ascii c),
     {| isatty := isatty s; attributes := attributes s; chars := rest |})
  end.

(** [newt.c_lflag &= ~(ICANON)]: the complement is taken on [int] and
    converted to [tcflag_t]. *)
Definition clear_ICANON (t : termios) : termios :=
  {| c_iflag := c_iflag t; c_oflag := c_oflag t; c_cflag := c_cflag t;
     c_lflag := Z.land (c_lflag t) (to_uint (Z.lnot ICANON)) |}.

(** Source lines 286-289: the statics and the input when [getchar] is
    called. *)
Definition getch_enter (st : Statics) (s : Stdin) : Statics * Stdin :=
  let oldt := tcgetattr s (oldt st) in
  let newt := clear_ICANON oldt in
  ({| oldt := oldt; newt := newt |}, tcsetattr newt s).

(** [getch] (source lines 283-295): the key, the statics and the input
    afterwards. *)
Definition getch (st : Statics) (s : Stdin) : Z * Statics * Stdin :=
  let '(st', s1) := getch_enter st s in
  let '(c, s2) := getchar s1 in
  (c, st', tcsetattr (oldt st') s2).

(** [n] calls of [getch] in a row: the keys they return. *)
Fixpoint getch_keys (n : nat) (st : Statics) (s : Stdin) : list Z :=
  match n with
  | O => []
  | S n' => let '(c, st', s') := getch st s in c :: getch_keys n' st' s'
  end.

(** Flag words as the terminal holds them. *)
Definition wf_termios (t : termios) : Prop :=
  (0 ≤ c_iflag t < 2 ^ 32)%Z ∧ (0 ≤ c_oflag t < 2 ^ 32)%Z ∧
  (0 ≤ c_cflag t < 2 ^ 32)%Z ∧ (0 ≤ c_lflag t < 2 ^ 32)%Z.

(** ** The settings *)

Lemma testbit_clear_ICANON (flags i : Z) :
  (0 ≤ flags < 2 ^ 32)%Z →
  Z.testbit (Z.land flags (to_uint (Z.lnot ICANON))) i =
  if decide (i = ICANON_bit) then false else Z.testbit flags i.
Proof.
  intros Hflags. destruct (Z.neg_nonneg_cases i) as [Hneg|Hpos].
  { rewrite !Z.testbit_neg_r by done. by case_decide. }
  rewrite Z.land_spec, testbit_to_uint by done. case_decide as Hlow.
  - rewrite Z.lnot_spec by done. change ICANON with (2 ^ ICANON_bit)%Z.
    rewrite Z.pow2_bits_eqb by done. unfold ICANON_bit.
    destruct (Z.eqb_spec 1 i) as [<-|Hne]; simpl.
    + by rewrite andb_false_r.
    + rewrite andb_true_r. by rewrite decide_False by congruence.
  - rewrite testbit_uint_high by lia. by case_decide.
Qed.

(** While [getch] waits for the character, only the [ICANON] bit differs. *)
Lemma getch_enter_raw (st : Statics) (s : Stdin) :
  isatty s = true → wf_termios (attributes s) →
  let t := attributes (getch_enter st s).2 in
  c_iflag t = c_iflag (attributes s) ∧ c_oflag t = c_oflag (attributes s) ∧
  c_cflag t = c_cflag (attributes s) ∧
  ∀ i, Z.testbit (c_lflag t) i =
       if decide (i = ICANON_bit) then false else Z.testbit (c_lflag (attributes s)) i.
Proof.
  intros Htty (_ & _ & _ & Hl). unfold getch_enter, tcsetattr, tcgetattr. rewrite Htty.
  simpl. split_and!; try done. intros i. by apply testbit_clear_ICANON.
Qed.

Lemma getch_stdin (st : Statics) (s : Stdin) :
  (getch st s).2 =
  {| isatty := isatty s; attributes := attributes s; chars := tail (chars s) |}.
Proof.
  unfold getch, getch_enter, getchar, tcsetattr, tcgetattr.
  destruct s as [[] a [|c rest]]; done.
Qed.

Lemma getch_key (st : Statics) (s : Stdin) :
  (getch st s).1.1 = match chars s with [] => EOF | c :: _ => Z.of_N (N_of_ascii c) end.
Proof.
  unfold getch, getch_enter, getchar, tcsetattr, tcgetattr.
  destruct s as [[] a [|c rest]]; done.
Qed.

(** C30. [getch] puts the terminal into non-canonical mode for the time
    of one read and leaves it as it found it.  On a terminal, while
    [getchar] waits, the settings are the ones found with the [ICANON] bit
    of the local flags cleared (every other bit of [c_lflag] and every
    other flag word as it was); after the call the settings are the ones
    found, and exactly one character was taken from the input (none at its
    end). *)
Theorem getch_settings (st : Statics) (s : Stdin) :
  isatty s = true → wf_termios (attributes s) →
  (let t := attributes (getch_enter st s).2 in
   c_iflag t = c_iflag (attributes s) ∧ c_oflag t = c_oflag (attributes s) ∧
   c_cflag t = c_cflag (attributes s) ∧
   ∀ i, Z.testbit (c_lflag t) i =
        if decide (i = ICANON_bit) then false else Z.testbit (c_lflag (attributes s)) i) ∧
  attributes (getch st s).2 = attributes s ∧
  chars (getch st s).2 = tail (chars s).
Proof.
  intros Htty Hwf. split; [by apply getch_enter_raw|]. by rewrite getch_stdin.
Qed.

(** At the end of the input every call returns [EOF]. *)
Lemma getch_keys_eof (n : nat) (st : Statics) (s : Stdin) :
  chars s = [] → getch_keys n st s = replicate n EOF.
Proof.
  revert st s. induction n as [|n IH]; intros st s Hs; [done|]. simpl.
  pose proof (getch_key st s) as Hkey. pose proof (getch_stdin st s) as Hs'.
  destruct (getch st s) as [[c st'] s']. simpl in *. subst.
  rewrite Hs. simpl. by rewrite IH.
Qed.

(** The keys that [n] calls of [getch] return are the characters of
    the input in order, followed by [EOF] once the input is exhausted. *)
Theorem getch_keys_spec (n : nat) (st : Statics) (s : Stdin) :
  getch_keys n st s =
  take n (((λ c, Z.of_N (N_of_ascii c)) <$> chars s) ++ replicate (n - length (chars s)) EOF).
Proof.
  revert st s. induction n as [|n IH]; intros st s; [done|]. simpl.
  pose proof (getch_key st s) as Hkey. pose proof (getch_stdin st s) as Hs.
  destruct (getch st s) as [[c st'] s']. simpl in *. subst. rewrite IH. simpl.
  destruct (chars s) as [|c rest]; simpl; [|done].
  by rewrite Nat.sub_0_r, !take_replicate, Nat.min_id.
Qed.

(** ** The theorems on a concrete terminal *)

(** A terminal in canonical mode with echo, and the keys [s], [x], [q]
    typed. *)
Definition sample_stdin : Stdin :=
  {| isatty := true;
     attributes := {| c_iflag := 0x4500; c_oflag := 0x5; c_cflag := 0xbf; c_lflag := 0x8a3b |};
     chars := ["s"; "x"; "q"]%char |}.

Lemma getch_settings_witness :
  (let t := attributes (getch_enter initial_statics sample_stdin).2 in
   c_iflag t = 0x4500%Z ∧ c_oflag t = 0x5%Z ∧ c_cflag t = 0xbf%Z ∧
   ∀ i, Z.testbit (c_lflag t) i =
        if decide (i = ICANON_bit) then false else Z.testbit 0x8a3b i) ∧
  attributes (getch initial_statics sample_stdin).2 = attributes sample_stdin ∧
  chars (getch initial_statics sample_stdin).2 = ["x"; "q"]%char.
Proof.
  apply (getch_settings initial_statics sample_stdin); [reflexivity|].
  unfold wf_termios. simpl. lia.
Defined.

(** Three keys typed, five read: the last two calls return [EOF]. *)
Example getch_keys_sample :
  getch_keys 5 initial_statics sample_stdin = [115; 120; 113; -1; -1]%Z.
Proof. reflexivity. Qed.
