(* ===== verification/Session.v ===== *)
(** * Session: the loop of [main] over the keys, and batch mode

    [main] (source lines 396-496) either calibrates from a recorded file of
    pose pairs (batch mode, [main_batch]) or runs the interactive loop: one
    key per iteration, [s] to capture, [d] to delete, [q] to calibrate and
    leave, anything else reported and ignored.

    This file gives the loop over the keys that were read.  What the
    environment decides is an input: the key, the answers of tf to the
    lookups of a capture, and whether a file can be opened for writing.  One
    [Tick] holds these for one iteration of the loop; the loop ends when
    [ros::ok()] turns false, which is when the ticks are exhausted, or at
    the [q] key.  [Steps] gives the same loop as a transition system, and
    [Main] reads the keys from the terminal.

    The theorems say that every run ends coherent, where an iteration is
    defined, what the record file and the result file hold, that the
    globals at the end of a run do not depend on the files, what batch mode
    does on every file, and that batch mode on the record file of a session
    reproduces what the [q] key computes. *)

From Stdlib Require Import ZArith QArith Lia Ascii.
From stdpp Require Import base tactics option list strings pretty gmap relations.
From S2P Require Import Prelude Scalar Eigen Ros Derive Capture Store Persist Calib Terminal.

(** ** Inputs *)

(** What one iteration of the loop takes from the environment. *)
Record Tick (F : Type) : Type := {
  key : Z;
  camLookup : Lookup F;
  eeLookup : Lookup F;
  can_open : bool;
}.
Arguments Build_Tick {F}.
Arguments key {F} t.
Arguments camLookup {F} t.
Arguments eeLookup {F} t.
Arguments can_open {F} t.

(** The value of a character literal. *)
Definition char (c : Ascii.ascii) : Z := Z.of_N (Ascii.N_of_ascii c).

(** The branch of the loop a key selects (source lines 447, 453, 465). *)
Inductive Command : Type := CmdAdd | CmdDelete | CmdQuit | CmdOther.

#[export] Instance Command_eq_dec : EqDecision Command.
Proof. solve_decision. Defined.

Definition command_of_key (key : Z) : Command :=
  if decide (key = char "s"%char ∨ key = char "S"%char) then CmdAdd
  else if decide (key = char "d"%char ∨ key = char "D"%char) then CmdDelete
  else if decide (key = char "q"%char ∨ key = char "Q"%char) then CmdQuit
  else CmdOther.

Section Session.
Context {F : Type} `{ScalarOps F} `{RotationLib F} `{Sqrt F} `{StreamOut F} `{Round F}
  `{TfLib F} `{HandEyeSolver F}.

Local Notation "'Files'" := (gmap string (gmap string (FileNode F))) (only parsing).

(** ** The interactive loop *)

(** The [q] key (source lines 467-483). *)
Definition calibrate (P : Params) (g : Globals F) (can_open : bool) (files : Files)
    : outcome (Files * list Msg) :=
  let warn :=
    if decide (length (rvecsArm g) < 5)
    then [ROS_WARN "Number of calibration transform pairs < 5."; ROS_INFO "Node Quit"]
    else [] in
  let '(resultAffine, summary, out) := solve_and_report P (solver_input (cached g)) in
  '(files', out') ←
    writeCalibration resultAffine (calibratedTransformFile P) summary can_open files;
  mret (files', warn ++ [ROS_INFO "Calculating Calibration..."] ++ out ++ out').

(** One iteration of the loop (source lines 446-491): the globals and the
    files afterwards, what was printed, and whether the loop is left. *)
Definition loop_body (P : Params) (t : Tick F) (g : Globals F) (files : Files)
    : outcome (Globals F * Files * list Msg * bool) :=
  match command_of_key (key t) with
  | CmdAdd =>
    '(g', out) ← addFrame_tf P (camLookup t) (eeLookup t) g;
    '(_, files', out') ←
      writeTransformPairsToFile (baseToTip g') (cameraToTag g')
        (transformPairsRecordFile P) (can_open t) files;
    mret (g', files', out ++ out', false)
  | CmdDelete =>
    '(g', out) ← deleteLastFrame g;
    mret (g', files, out, false)
  | CmdQuit =>
    '(files', out) ← calibrate P g (can_open t) files;
    mret (g, files', out, true)
  | CmdOther =>
    mret (g, files, [CERR (pretty (key t) +:+ " pressed." +:+ nl)], false)
  end.

(** The loop (source lines 444-492). *)
Fixpoint main_loop (P : Params) (ticks : list (Tick F)) (g : Globals F) (files : Files)
    : outcome (Globals F * Files * list Msg) :=
  match ticks with
  | [] => Ok (g, files, [])
  | t :: ticks' =>
    '(g', files', out, quit) ← loop_body P t g files;
    if quit : bool then mret (g', files', out)
    else
      '(g'', files'', out') ← main_loop P ticks' g' files';
      mret (g'', files'', out ++ out')
  end.

(** A tick after which the record file is as current as it was before: not
    the [d] key, and no capture whose record file fails to open. *)
Definition keeps_record (t : Tick F) : Prop :=
  command_of_key (key t) ≠ CmdDelete ∧
  (command_of_key (key t) = CmdAdd → can_open t = true).

(** Two iterations with the same key and the same answers of tf, the
    files apart (section 7: capture and undo do not depend on the files for
    correctness, only for durability). *)
Definition same_commands (t t' : Tick F) : Prop :=
  key t = key t' ∧ camLookup t = camLookup t' ∧ eeLookup t = eeLookup t'.

(** ** Batch mode *)

(** Source lines 422-429.  The code [readTransformPairsFromFile] returns is
    not looked at. *)
Definition main_batch (P : Params) (can_open : bool) (u1 u2 : Affine3d F) (files : Files)
    : outcome (Files * list Msg) :=
  '(_, (t1, t2), out1) ← readTransformPairsFromFile (transformPairsLoadFile P) [] [] files;
  '(result, summary, out2) ← estimateHandEye P t1 t2 u1 u2;
  '(files', out3) ← writeCalibration result (calibratedTransformFile P) summary can_open files;
  mret (files',
        [CERR ("Transform pairs loading file: " +:+ transformPairsLoadFile P +:+ nl)]
        ++ out1 ++ out2 ++ out3).

(** The pose pairs that batch mode takes from the file [filename]: none
    when the file is missing. *)
Definition loaded_pairs (filename : string) (files : Files) : list (PosePair F) :=
  match files !! filename with
  | None => []
  | Some fs =>
    pose_pairs (poses_from key_T1 fs 0 (read_int (fs !! key_frameCount)))
               (poses_from key_T2 fs 0 (read_int (fs !! key_frameCount)))
  end.

(** ** The record file and the store *)

(** The record file holds exactly the stored pairs. *)
Definition recorded (P : Params) (g : Globals F) (files : Files) : Prop :=
  readTransformPairsFromFile (transformPairsRecordFile P) [] [] files =
    Ok (0%Z, (baseToTip g, cameraToTag g), []).

Lemma loop_body_step (P : Params) (t : Tick F) (g g' : Globals F) (files files' : Files)
    (out : list Msg) (quit : bool) :
  loop_body P t g files = Ok (g', files', out, quit) →
  g' = g ∨ capture_step P g g'.
Proof.
  unfold loop_body. intros Hrun. destruct (command_of_key (key t)).
  - apply bind_Ok in Hrun as (r & [_ ->]%addFrame_tf_Ok & Hrun).
    pose proof (step_addFrame P (answer (camLookup t)) (answer (eeLookup t)) g) as Hstep.
    destruct (addFrame _ _ _ _). outcome_inv. by right.
  - outcome_inv. right. by econstructor.
  - outcome_inv. by left.
  - outcome_inv. by left.
Qed.

Lemma main_loop_steps (P : Params) (ticks : list (Tick F)) (g g' : Globals F)
    (files files' : Files) (out : list Msg) :
  main_loop P ticks g files = Ok (g', files', out) → rtc (capture_step P) g g'.
Proof.
  revert g files out. induction ticks as [|t ticks IH]; intros g files out; simpl.
  - by intros [= <- _ _].
  - intros ([[[g1 files1] out1] quit] & Hbody & Hrest)%bind_Ok.
    assert (rtc (capture_step P) g g1) as Hstep.
    { destruct (loop_body_step _ _ _ _ _ _ _ _ Hbody) as [->|?]; [reflexivity|by apply rtc_once]. }
    destruct quit.
    + by apply mret_Ok in Hrest as [= <- _ _].
    + apply bind_Ok in Hrest as ([[g2 files2] out2] & Hloop & [= <- <- _]).
      etrans; [exact Hstep|]. by eapply IH.
Qed.

(** C1. Every run of the interactive loop from the start of [main] that
    is free of undefined behaviour is a path of the transition system
    [capture_step] and ends in a coherent state: whatever keys were
    pressed and whatever tf and the file system answered, the vectors the
    [q] key hands to the solver are the relative motions of the stored
    pairs. *)
Theorem main_loop_reachable_coherent (P : Params) (ticks : list (Tick F)) (g' : Globals F)
    (files files' : Files) (out : list Msg) :
  main_loop P ticks initial_globals files = Ok (g', files', out) →
  reachable P g' ∧ coherent g'.
Proof.
  intros Hrun%main_loop_steps. split; [done|].
  eapply rtc_capture_step_coherent; [done|]. done.
Qed.

(** After a capture whose record file opened, the file holds the store. *)
Lemma loop_body_add_recorded (P : Params) (t : Tick F) (g g' : Globals F)
    (files files' : Files) (out : list Msg) (quit : bool) :
  coherent g →
  command_of_key (key t) = CmdAdd → can_open t = true →
  loop_body P t g files = Ok (g', files', out, quit) →
  recorded P g' files' ∧ coherent g' ∧ quit = false ∧
  (Z.of_nat (length (baseToTip g')) ≤ INT_MAX)%Z.
Proof.
  intros Hg Hcmd Hopen. unfold loop_body. rewrite Hcmd, Hopen.
  intros (r & [_ ->]%addFrame_tf_Ok & Hrun)%bind_Ok. revert Hrun.
  pose proof (addFrame_coherent P (answer (camLookup t)) (answer (eeLookup t)) g Hg) as Hg1.
  destruct (addFrame P (answer (camLookup t)) (answer (eeLookup t)) g) as [g1 out1].
  simpl in Hg1. intros ([[code fs] o] & Hw & [= <- <- _ <-])%bind_Ok.
  assert (is_ok (writeTransformPairsToFile (baseToTip g1) (cameraToTag g1)
            (transformPairsRecordFile P) true files) = true) as Hdef by by rewrite Hw.
  apply writeTransformPairsToFile_bounds in Hdef as [Hlen Hmax].
  destruct (writeTransformPairsToFile_Ok (baseToTip g1) (cameraToTag g1)
    (transformPairsRecordFile P) files Hlen Hmax) as (fs1 & Hloop & Hw').
  rewrite Hw in Hw'. injection Hw' as _ -> _.
  split; [|done]. unfold recorded.
  rewrite (written_pairs_read _ _ [] [] _ fs1 _ Hloop Hlen Hmax) by by rewrite lookup_insert_eq.
  by rewrite coherent_take.
Qed.

(** What batch mode does once the pairs are read. *)
Lemma main_batch_read (P : Params) (can_open : bool) (u1 u2 : Affine3d F) (files : Files)
    (code : Z) (t1 t2 : list (Affine3d F)) (out1 : list Msg) :
  readTransformPairsFromFile (transformPairsLoadFile P) [] [] files = Ok (code, (t1, t2), out1) →
  length t1 ≤ length t2 → (Z.of_nat (length t1) ≤ INT_MAX)%Z →
  fst <$> main_batch P can_open u1 u2 files =
  fst <$> (let '(resultAffine, summary, _) :=
             solve_and_report P (solver_input (locals_of_pairs u1 u2 (pose_pairs t1 t2))) in
           writeCalibration resultAffine (calibratedTransformFile P) summary can_open files).
Proof.
  intros Hread Hlen Hmax. unfold main_batch, estimateHandEye. rewrite Hread. simpl.
  rewrite deriveMotions_spec by done. simpl.
  destruct (solve_and_report _ _) as [[resultAffine summary] out2]. simpl.
  by destruct (writeCalibration _ _ _ _ _) as [[files' out3]|].
Qed.

Lemma calibrate_files (P : Params) (g : Globals F) (can_open : bool) (files : Files) :
  fst <$> calibrate P g can_open files =
  fst <$> (let '(resultAffine, summary, _) := solve_and_report P (solver_input (cached g)) in
           writeCalibration resultAffine (calibratedTransformFile P) summary can_open files).
Proof.
  unfold calibrate. destruct (solve_and_report _ _) as [[resultAffine summary] out2].
  by destruct (writeCalibration _ _ _ _ _) as [[files' out3]|].
Qed.

(** C21. Batch mode on a file that holds the stored pairs of a coherent
    state writes the same files as the [q] key pressed in that state: both
    call the solver with the same four vectors and store its answer under
    the same name. *)
Theorem batch_agrees_with_quit (P : Params) (g : Globals F) (can_open : bool)
    (u1 u2 : Affine3d F) (files : Files) :
  coherent g → (Z.of_nat (length (baseToTip g)) ≤ INT_MAX)%Z →
  readTransformPairsFromFile (transformPairsLoadFile P) [] [] files =
    Ok (0%Z, (baseToTip g, cameraToTag g), []) →
  fst <$> main_batch P can_open u1 u2 files = fst <$> calibrate P g can_open files.
Proof.
  intros Hg Hmax Hread.
  rewrite (main_batch_read _ _ _ _ _ _ _ _ _ Hread) by (destruct Hg; lia || done).
  by rewrite calibrate_files, coherent_solver_input.
Qed.

(** C23. The [d] key does not rewrite the record file: after it the file
    still holds the pair that was deleted, so it no longer holds what the
    store holds. *)
Theorem delete_leaves_record_stale (P : Params) (t : Tick F) (g g' : Globals F)
    (files files' : Files) (out : list Msg) (quit : bool) :
  coherent g → recorded P g files →
  command_of_key (key t) = CmdDelete →
  loop_body P t g files = Ok (g', files', out, quit) →
  files' = files ∧ ¬ recorded P g' files' ∧
  length (baseToTip g') = length (baseToTip g) - 1 ∧ quit = false.
Proof.
  intros Hg Hrec Hcmd. unfold loop_body. rewrite Hcmd.
  intros ([g1 o] & Hdel & [= <- <- _ <-])%bind_Ok.
  destruct (decide (2 ≤ length (baseToTip g))) as [Hlen|Hlen].
  - destruct (deleteLastFrame_defined g Hg Hlen) as (g2 & out2 & Hdel2 & _ & Hl).
    rewrite Hdel in Hdel2. injection Hdel2 as <- <-.
    split; [done|]. split; [|done]. unfold recorded in *. rewrite Hrec.
    intros [= Heq _]. rewrite <- Heq in Hl. lia.
  - rewrite deleteLastFrame_short in Hdel by (done || lia). done.
Qed.

(** The [q] key ends the loop: the keys after it are never read, the
    globals stay as they are, and what is written and printed is what
    [calibrate] writes and prints. *)
Theorem quit_ends_loop (P : Params) (t : Tick F) (rest : list (Tick F)) (g : Globals F)
    (files : Files) :
  command_of_key (key t) = CmdQuit →
  main_loop P (t :: rest) g files =
  (λ r, (g, r.1, r.2)) <$> calibrate P g (can_open t) files.
Proof.
  intros Hcmd. simpl. unfold loop_body. rewrite Hcmd.
  by destruct (calibrate P g (can_open t) files) as [[files' out]|].
Qed.

(** A key that is no command changes neither the globals nor the
    files: its code is printed and the loop goes on. *)
Theorem other_key_ignored (P : Params) (t : Tick F) (rest : list (Tick F)) (g : Globals F)
    (files : Files) :
  command_of_key (key t) = CmdOther →
  main_loop P (t :: rest) g files =
  (λ r, (r.1.1, r.1.2, CERR (pretty (key t) +:+ " pressed." +:+ nl) :: r.2))
    <$> main_loop P rest g files.
Proof.
  intros Hcmd. simpl. unfold loop_body. rewrite Hcmd. simpl.
  by destruct (main_loop P rest g files) as [[[g' files'] out]|].
Qed.

Lemma command_of_key_EOF : command_of_key EOF = CmdOther.
Proof. reflexivity. Qed.

(** The end of the input is not noticed.  When the keys of a run are
    what [getch] returns on an input that is exhausted, every one of them
    is [EOF], which is no command: the loop changes neither the globals nor
    the files, prints [-1 pressed.] once per iteration, and goes on for as
    long as [ros::ok()] holds. *)
Theorem main_loop_at_end_of_input (P : Params) (ticks : list (Tick F)) (st : Statics)
    (s : Stdin) (g : Globals F) (files : Files) :
  chars s = [] → key <$> ticks = getch_keys (length ticks) st s →
  main_loop P ticks g files =
    Ok (g, files, replicate (length ticks) (CERR ("-1 pressed." +:+ nl))).
Proof.
  intros Hs Hkeys. rewrite getch_keys_eof in Hkeys by done. clear Hs.
  revert Hkeys. induction ticks as [|t ticks IH]; [done|]. simpl.
  intros [= Ht Hkeys]. unfold loop_body. rewrite Ht, command_of_key_EOF. simpl.
  by rewrite IH.
Qed.

(** Batch mode once the reader has returned two vectors of one length. *)
Lemma main_batch_loaded (P : Params) (can_open : bool) (u1 u2 : Affine3d F) (files : Files)
    (code : Z) (t1 t2 : list (Affine3d F)) (out1 : list Msg) :
  readTransformPairsFromFile (transformPairsLoadFile P) [] [] files = Ok (code, (t1, t2), out1) →
  length t1 = length t2 →
  let answer := estimateHandEyeScrew (screw_of_motions (deriveAll (pose_pairs t1 t2))) in
  (is_ok (main_batch P can_open u1 u2 files) = true ↔
     (Z.of_nat (length t1) ≤ INT_MAX)%Z ∧
     (can_open = false ∨
      (INT_MIN ≤ num_unsuccessful_steps answer.2 + num_successful_steps answer.2
         ≤ INT_MAX)%Z)) ∧
  (∀ files' out, main_batch P can_open u1 u2 files = Ok (files', out) →
     fst <$> writeCalibration (Transform answer.1) (calibratedTransformFile P) answer.2
               can_open files = Ok files').
Proof.
  intros Hread Hlen answer. unfold main_batch, estimateHandEye. rewrite Hread. simpl.
  destruct (decide (Z.of_nat (length t1) ≤ INT_MAX)%Z) as [Hmax|Hmax].
  - rewrite deriveMotions_spec by (done || lia). simpl.
    rewrite solver_input_screw_of_motions. unfold solve_and_report. fold answer.
    destruct answer as [r s]. simpl.
    pose proof (writeCalibration_defined_iff (Transform r) (calibratedTransformFile P) s
      can_open files) as Hdef.
    destruct (writeCalibration _ _ _ _ _) as [[f o]|]; simpl in *.
    + split; [by rewrite <- Hdef|]. by intros ? ? [= <- _].
    + split; [|done]. split; [done|]. intros [_ ?]. by apply Hdef.
  - destruct (deriveMotions t1 t2 u1 u2) as [[st o]|u] eqn:Hrun; simpl.
    + apply estimate_loop_Ok_inv in Hrun as [_ ?]; [lia|done].
    + split; [|done]. split; [done|]. by intros [? _].
Qed.

(** Batch mode on every file: where it is defined, and that it hands the
    solver's answer on the pairs of the file to [writeCalibration]. *)
Lemma main_batch_writes (P : Params) (can_open : bool) (u1 u2 : Affine3d F) (files : Files) :
  let answer :=
    estimateHandEyeScrew
      (screw_of_motions (deriveAll (loaded_pairs (transformPairsLoadFile P) files))) in
  (is_ok (main_batch P can_open u1 u2 files) = true ↔
     (∀ fs, files !! transformPairsLoadFile P = Some fs →
        well_formed_pairs fs ∧ (read_int (fs !! key_frameCount) ≤ INT_MAX)%Z) ∧
     (can_open = false ∨
      (INT_MIN ≤ num_unsuccessful_steps answer.2 + num_successful_steps answer.2
         ≤ INT_MAX)%Z)) ∧
  (∀ files' out, main_batch P can_open u1 u2 files = Ok (files', out) →
     fst <$> writeCalibration (Transform answer.1) (calibratedTransformFile P) answer.2
               can_open files = Ok files').
Proof.
  intros answer. unfold loaded_pairs in answer.
  destruct (files !! transformPairsLoadFile P) as [fs|] eqn:Hfile.
  - destruct (decide (well_formed_pairs fs)) as [Hwf|Hwf].
    + destruct (length_poses_well_formed fs Hwf) as [Hl1 Hl2].
      destruct (main_batch_loaded P can_open u1 u2 files _ _ _ _
        (readTransformPairsFromFile_well_formed _ [] [] _ _ Hfile Hwf)) as [Hdef Hres].
      { simpl. by rewrite Hl1, Hl2. }
      simpl in Hdef, Hres.
      split; [|done].
      rewrite Hdef, Hl1. split.
      * intros [Hmax Hsum]. split; [|done]. intros ? [= <-]. split; [done|].
        unfold INT_MAX in *. lia.
      * intros [Hall Hsum]. split; [|done]. destruct (Hall fs eq_refl) as [_ ?].
        unfold INT_MAX in *. lia.
    + split.
      * unfold main_batch.
        pose proof (readTransformPairsFromFile_ill_formed _ [] [] _ _ Hfile Hwf) as Hill.
        destruct (readTransformPairsFromFile _ _ _ _); [done|]. simpl.
        split; [done|]. intros [Hall _]. destruct Hwf. by apply Hall.
      * intros files' out Hrun. exfalso. revert Hrun. unfold main_batch.
        pose proof (readTransformPairsFromFile_ill_formed _ [] [] _ _ Hfile Hwf) as Hill.
        by destruct (readTransformPairsFromFile _ _ _ _).
  - destruct (main_batch_loaded P can_open u1 u2 files _ _ _ _
      (readTransformPairsFromFile_missing _ [] [] _ Hfile) eq_refl) as [Hdef Hres].
    simpl in Hdef, Hres.
    split; [|done].
    rewrite Hdef. unfold INT_MAX. split; [intros [_ ?]|intros [_ ?]]; (split; [done||lia|done]).
Qed.

(** C9. What batch mode does, on every file.  Batch mode is defined
    exactly when the file to load is missing or is a well-formed pair file
    of at most [INT_MAX] pairs, and the result file cannot be opened or the
    solver's two step counts add up within an [int].  It then calls the
    solver on the relative motions [deriveAll] specifies for the pairs of
    the file (none for a missing file); when the result file opens it reads
    back as the solver's answer, otherwise no file changes; no other file
    changes in either case. *)
Theorem main_batch_spec (P : Params) (can_open : bool) (u1 u2 : Affine3d F) (files : Files) :
  let answer :=
    estimateHandEyeScrew
      (screw_of_motions (deriveAll (loaded_pairs (transformPairsLoadFile P) files))) in
  (is_ok (main_batch P can_open u1 u2 files) = true ↔
     (∀ fs, files !! transformPairsLoadFile P = Some fs →
        well_formed_pairs fs ∧ (read_int (fs !! key_frameCount) ≤ INT_MAX)%Z) ∧
     (can_open = false ∨
      (INT_MIN ≤ num_unsuccessful_steps answer.2 + num_successful_steps answer.2
         ≤ INT_MAX)%Z)) ∧
  (∀ files' out, main_batch P can_open u1 u2 files = Ok (files', out) →
     (if can_open
      then files' !! calibratedTransformFile P ≫= read_calibration =
             Some (calibration_result (Transform answer.1) answer.2)
      else files' = files) ∧
     ∀ other, other ≠ calibratedTransformFile P → files' !! other = files !! other).
Proof.
  intros answer. destruct (main_batch_writes P can_open u1 u2 files) as [Hdef Hres].
  split; [done|]. intros files' out Hrun. apply writeCalibration_files. by eapply Hres.
Qed.

(** When the file to load does not exist, batch mode does not stop:
    the code that [readTransformPairsFromFile] returns is dropped, the
    solver is called with four empty vectors, and its answer is written to
    the result file. *)
Theorem batch_missing_file_still_calibrates (P : Params) (can_open : bool)
    (u1 u2 : Affine3d F) (files : Files) :
  files !! transformPairsLoadFile P = None →
  fst <$> main_batch P can_open u1 u2 files =
  fst <$> writeCalibration (Transform (estimateHandEyeScrew (screw_of_motions [])).1)
            (calibratedTransformFile P) (estimateHandEyeScrew (screw_of_motions [])).2
            can_open files.
Proof.
  intros Hnone.
  assert (readTransformPairsFromFile (transformPairsLoadFile P) [] [] files =
          Ok (1%Z, ([], []),
              [CERR ("failed to open input file " +:+ transformPairsLoadFile P +:+ nl)]))
    as Hread by (unfold readTransformPairsFromFile; by rewrite Hnone).
  rewrite (main_batch_read _ _ _ _ _ _ _ _ _ Hread) by (simpl; unfold INT_MAX; lia || done).
  unfold solve_and_report. simpl.
  change (solver_input (initial_locals u1 u2)) with (screw_of_motions (F:=F) []).
  by destruct (estimateHandEyeScrew _).
Qed.

(** C33. The [q] key with fewer than two pairs stored calls the solver
    with four empty vectors and writes its answer to the result file. *)
Theorem quit_without_motions (P : Params) (g : Globals F) (can_open : bool) (files : Files) :
  coherent g → length (baseToTip g) ≤ 1 →
  fst <$> calibrate P g can_open files =
  fst <$> writeCalibration (Transform (estimateHandEyeScrew (screw_of_motions [])).1)
            (calibratedTransformFile P) (estimateHandEyeScrew (screw_of_motions [])).2
            can_open files.
Proof.
  intros Hg Hlen. rewrite calibrate_files.
  rewrite (coherent_stored_input g Hg). unfold stored.
  assert (deriveAll (pose_pairs (baseToTip g) (cameraToTag g)) = []) as ->.
  { destruct Hg as [Hl _]. destruct (baseToTip g) as [|e [|]], (cameraToTag g) as [|c [|]];
      simpl in *; done || lia. }
  unfold solve_and_report. by destruct (estimateHandEyeScrew _).
Qed.

Lemma loop_body_quit (P : Params) (t : Tick F) (g : Globals F) (files : Files) :
  command_of_key (key t) = CmdQuit →
  loop_body P t g files = (λ r, (g, r.1, r.2, true)) <$> calibrate P g (can_open t) files.
Proof.
  intros Hcmd. unfold loop_body. rewrite Hcmd.
  by destruct (calibrate P g (can_open t) files) as [[files' out]|].
Qed.

Lemma loop_body_no_quit (P : Params) (t : Tick F) (g g' : Globals F) (files files' : Files)
    (out : list Msg) (quit : bool) :
  command_of_key (key t) ≠ CmdQuit →
  loop_body P t g files = Ok (g', files', out, quit) → quit = false.
Proof.
  unfold loop_body. intros Hcmd Hrun.
  destruct (command_of_key (key t)); [|by outcome_inv|done|by outcome_inv].
  apply bind_Ok in Hrun as ([g1 o1] & _ & Hrun). by outcome_inv.
Qed.

(** A run over [l1 ++ l2] that meets no [q] in [l1] is a run over [l1]
    followed by a run over [l2]. *)
Lemma main_loop_app_inv (P : Params) (l1 l2 : list (Tick F)) (g g2 : Globals F)
    (files files2 : Files) (out : list Msg) :
  Forall (λ t, command_of_key (key t) ≠ CmdQuit) l1 →
  main_loop P (l1 ++ l2) g files = Ok (g2, files2, out) →
  ∃ g1 files1 out1 out2,
    main_loop P l1 g files = Ok (g1, files1, out1) ∧
    main_loop P l2 g1 files1 = Ok (g2, files2, out2) ∧ out = out1 ++ out2.
Proof.
  intros Hno. revert g files out.
  induction Hno as [|t l1 Ht _ IH]; intros g files out; simpl.
  - intros Hrun. by exists g, files, [], out.
  - intros ([[[ga fa] oa] quit] & Hbody & Hrest)%bind_Ok. rewrite Hbody. simpl.
    rewrite (loop_body_no_quit _ _ _ _ _ _ _ _ Ht Hbody) in *.
    apply bind_Ok in Hrest as ([[gb fb] ob] & Hrun & [= <- <- <-]).
    apply IH in Hrun as (g1 & f1 & o1 & o2 & Hl1 & Hl2 & ->).
    rewrite Hl1. simpl. exists g1, f1, (oa ++ o1), o2. by rewrite app_assoc.
Qed.

(** Replaying a session at the level of the loop.  Take a session without
    [q] that is followed by a capture whose record file opens and then by
    [q]; run batch mode on the files it leaves, loading the file the
    session recorded and writing to the same result file.  Then batch mode
    leaves every file as the session left it. *)
Lemma session_replay (P P' : Params) (ticks : list (Tick F))
    (ts tq : Tick F) (u1 u2 : Affine3d F) (g : Globals F) (files files' : Files)
    (out : list Msg) :
  Forall (λ t, command_of_key (key t) ≠ CmdQuit) ticks →
  command_of_key (key ts) = CmdAdd → can_open ts = true →
  command_of_key (key tq) = CmdQuit →
  transformPairsLoadFile P' = transformPairsRecordFile P →
  calibratedTransformFile P' = calibratedTransformFile P →
  transformPairsRecordFile P ≠ calibratedTransformFile P →
  main_loop P (ticks ++ [ts; tq]) initial_globals files = Ok (g, files', out) →
  fst <$> main_batch P' (can_open tq) u1 u2 files' = Ok files'.
Proof.
  intros Hno Hs Hopen Hq Hload Hcal Hne Hrun.
  apply main_loop_app_inv in Hrun as (g1 & f1 & o1 & o2 & Hl1 & Hl2 & _); [|done].
  eapply main_loop_steps, rtc_capture_step_coherent in Hl1; [|done].
  simpl in Hl2. apply bind_Ok in Hl2 as ([[[g2 f2] oa] qa] & Hadd & Hl2).
  destruct (loop_body_add_recorded _ _ _ _ _ _ _ _ Hl1 Hs Hopen Hadd) as (Hrec & Hg2 & -> & Hmax).
  rewrite (loop_body_quit _ _ _ _ Hq) in Hl2.
  pose proof (calibrate_files P g2 (can_open tq) f2) as Hcf.
  destruct (calibrate P g2 (can_open tq) f2) as [[f3 ob]|]; [|done].
  simpl in Hl2. injection Hl2 as <- <- _. simpl in Hcf.
  destruct (solve_and_report P (solver_input (cached g2))) as [[r s] o] eqn:Hsolve.
  destruct (writeCalibration r _ s _ f2) as [[f3' o3]|] eqn:Hw; [|done].
  injection Hcf as <-.
  destruct (writeCalibration_shape _ _ _ _ _ _ _ Hw) as [Hshape Hidem].
  assert (readTransformPairsFromFile (transformPairsLoadFile P') [] [] f3 =
          Ok (0%Z, (baseToTip g2, cameraToTag g2), [])) as Hread.
  { rewrite Hload. destruct Hshape as [->|[fs ->]]; [done|].
    by rewrite readTransformPairsFromFile_insert_ne. }
  rewrite (main_batch_read _ _ _ _ _ _ _ _ _ Hread) by (destruct Hg2; lia || done).
  rewrite coherent_solver_input by done.
  pose proof (solve_and_report_params P P' (solver_input (cached g2))) as Hp.
  destruct (solve_and_report P' _) as [[r' s'] o']. rewrite Hsolve in Hp.
  injection Hp as -> ->. by rewrite Hcal, Hidem.
Qed.

(** A run over [l1 ++ l2] with no [q] in [l1] is the run over [l1]
    followed by the run over [l2]. *)
Lemma main_loop_app (P : Params) (l1 l2 : list (Tick F)) (g : Globals F) (files : Files) :
  Forall (λ t, command_of_key (key t) ≠ CmdQuit) l1 →
  main_loop P (l1 ++ l2) g files =
  '(g1, files1, out1) ← main_loop P l1 g files;
  '(g2, files2, out2) ← main_loop P l2 g1 files1;
  mret (g2, files2, out1 ++ out2).
Proof.
  intros Hno. revert g files. induction Hno as [|t l1 Ht _ IH]; intros g files; simpl.
  - by destruct (main_loop P l2 g files) as [[[g2 f2] o2]|].
  - destruct (loop_body P t g files) as [[[[ga fa] oa] quit]|u] eqn:Hbody; [|done]. simpl.
    rewrite (loop_body_no_quit _ _ _ _ _ _ _ _ Ht Hbody), IH.
    destruct (main_loop P l1 ga fa) as [[[g1 f1] o1]|]; [|done]. simpl.
    destruct (main_loop P l2 g1 f1) as [[[g2 f2] o2]|]; [|done]. simpl.
    by rewrite app_assoc.
Qed.

Lemma loop_body_throws (P : Params) (t : Tick F) (g : Globals F) (files : Files) :
  command_of_key (key t) = CmdAdd → throws (camLookup t) || throws (eeLookup t) = true →
  loop_body P t g files = Undef UncaughtException.
Proof. intros Hcmd Hthrow. unfold loop_body, addFrame_tf. by rewrite Hcmd, Hthrow. Qed.

(** What one iteration needs to be free of undefined behaviour, in a
    coherent state: a capture whose record file opens needs the number of
    stored pairs to fit an [int]; the [d] key needs two stored pairs; the
    [q] key whose result file opens needs the sum of the solver's two step
    counts to fit an [int]; any other key needs nothing. *)
Theorem loop_body_defined_iff (P : Params) (t : Tick F) (g : Globals F) (files : Files) :
  coherent g →
  (is_ok (loop_body P t g files) = true ↔
   match command_of_key (key t) with
   | CmdAdd =>
     throws (camLookup t) || throws (eeLookup t) = false ∧
     (can_open t = false ∨
      (Z.of_nat (length (baseToTip
         (addFrame P (answer (camLookup t)) (answer (eeLookup t)) g).1)) ≤ INT_MAX)%Z)
   | CmdDelete => 2 ≤ length (baseToTip g)
   | CmdQuit =>
     can_open t = false ∨
     let summary := (estimateHandEyeScrew (solver_input (cached g))).2 in
     (INT_MIN ≤ num_unsuccessful_steps summary + num_successful_steps summary ≤ INT_MAX)%Z
   | CmdOther => True
   end).
Proof.
  intros Hg. unfold loop_body. destruct (command_of_key (key t)).
  - unfold addFrame_tf. destruct (_ || _); [by split; [|intros [? _]]|]. simpl.
    pose proof (addFrame_coherent P (answer (camLookup t)) (answer (eeLookup t)) g Hg)
      as [Hlen _].
    destruct (addFrame _ _ _ _) as [g1 o1]. simpl in *.
    destruct (can_open t) eqn:Hopen.
    + split.
      * intros [r (x & Hw & _)%bind_Ok]%is_ok_true. split; [done|right].
        assert (is_ok (writeTransformPairsToFile (baseToTip g1) (cameraToTag g1)
          (transformPairsRecordFile P) true files) = true) as Hok by by rewrite Hw.
        by apply writeTransformPairsToFile_bounds in Hok as [_ ?].
      * intros [_ [|Hmax]]; [done|].
        destruct (writeTransformPairsToFile_Ok (baseToTip g1) (cameraToTag g1)
          (transformPairsRecordFile P) files) as (fs & _ & ->); [lia|done|done].
    + split; [auto|]. intros _. by unfold writeTransformPairsToFile.
  - destruct (decide (2 ≤ length (baseToTip g))) as [Hlen|Hlen].
    + destruct (deleteLastFrame_defined g Hg Hlen) as (g' & out & -> & _). done.
    + rewrite deleteLastFrame_short by (done || lia). done.
  - unfold calibrate, solve_and_report.
    destruct (estimateHandEyeScrew _) as [r s]. cbn [snd].
    pose proof (writeCalibration_defined_iff (Transform r) (calibratedTransformFile P) s
      (can_open t) files) as Hiff.
    by destruct (writeCalibration _ _ _ _ _) as [[f o]|].
  - done.
Qed.

(** A session ends with its calibration on file: the run over keys other
    than [q], then [q], returns with the result file holding the solver's
    answer for the stored pairs. *)
Lemma main_loop_quit_calibrates (P : Params) (pre post : list (Tick F)) (tq : Tick F)
    (g : Globals F) (files files1 : Files) (out1 : list Msg) :
  Forall (λ t, command_of_key (key t) ≠ CmdQuit) pre →
  command_of_key (key tq) = CmdQuit → can_open tq = true →
  main_loop P pre initial_globals files = Ok (g, files1, out1) →
  let answer := estimateHandEyeScrew (screw_of_motions (deriveAll (stored g))) in
  (INT_MIN ≤ num_unsuccessful_steps answer.2 + num_successful_steps answer.2 ≤ INT_MAX)%Z →
  ∃ files' out,
    main_loop P (pre ++ tq :: post) initial_globals files = Ok (g, files', out) ∧
    files' !! calibratedTransformFile P ≫= read_calibration =
      Some (calibration_result (Transform answer.1) answer.2).
Proof.
  intros Hno Hq Hopen Hrun answer Hsteps.
  assert (coherent g) as Hg
    by (eapply rtc_capture_step_coherent; [by eapply main_loop_steps|done]).
  rewrite main_loop_app, Hrun by done. cbn [mbind outcome_bind main_loop].
  rewrite (loop_body_quit P tq g files1 Hq).
  unfold calibrate, solve_and_report. rewrite (coherent_stored_input g Hg), Hopen.
  fold answer. destruct answer as [r s] eqn:Hanswer. cbn [fst snd] in *.
  pose proof (proj2 (writeCalibration_defined_iff (Transform r) (calibratedTransformFile P)
    s true files1) (or_intror Hsteps)) as [[f o] Hw]%is_ok_true.
  rewrite Hw. simpl. eexists _, _. split; [done|]. by eapply writeCalibration_stores.
Qed.

(** A run that returned and met its first [q] after [pre]: the globals
    are those after [pre], and the files are what [writeCalibration] makes
    of the files after [pre] and the solver's answer for the stored
    pairs. *)
Lemma main_loop_quit_inv (P : Params) (pre post : list (Tick F)) (tq : Tick F)
    (g : Globals F) (files files' : Files) (out : list Msg) :
  Forall (λ t, command_of_key (key t) ≠ CmdQuit) pre →
  command_of_key (key tq) = CmdQuit →
  main_loop P (pre ++ tq :: post) initial_globals files = Ok (g, files', out) →
  ∃ files1 out1,
    main_loop P pre initial_globals files = Ok (g, files1, out1) ∧
    let answer := estimateHandEyeScrew (screw_of_motions (deriveAll (stored g))) in
    fst <$> writeCalibration (Transform answer.1) (calibratedTransformFile P) answer.2
              (can_open tq) files1 = Ok files'.
Proof.
  intros Hno Hq Hrun.
  apply main_loop_app_inv in Hrun as (g1 & f1 & o1 & o2 & Hl1 & Hl2 & _); [|done].
  assert (coherent g1) as Hg
    by (eapply rtc_capture_step_coherent; [by eapply main_loop_steps|done]).
  simpl in Hl2. rewrite (loop_body_quit P tq g1 f1 Hq) in Hl2.
  pose proof (calibrate_files P g1 (can_open tq) f1) as Hfiles.
  destruct (calibrate P g1 (can_open tq) f1) as [[f o]|]; [|done].
  simpl in Hl2. injection Hl2 as <- <- _. exists f1, o1. split; [done|].
  rewrite (coherent_stored_input g1 Hg) in Hfiles. unfold solve_and_report in Hfiles.
  simpl. by destruct (estimateHandEyeScrew _).
Qed.

(** ** Sessions that are defined *)

(** A capture or a stray key in a coherent state with room for one more
    pair is defined, does not leave the loop, and stores at most one pair
    more. *)
Lemma loop_body_no_delete_defined (P : Params) (t : Tick F) (g : Globals F) (files : Files) :
  coherent g → (Z.of_nat (length (baseToTip g)) < INT_MAX)%Z →
  command_of_key (key t) = CmdAdd ∨ command_of_key (key t) = CmdOther →
  throws (camLookup t) || throws (eeLookup t) = false →
  ∃ g' files' out,
    loop_body P t g files = Ok (g', files', out, false) ∧ coherent g' ∧
    length (baseToTip g') ≤ S (length (baseToTip g)).
Proof.
  intros Hg Hmax [Hcmd|Hcmd] Hthrow; unfold loop_body, addFrame_tf; rewrite Hcmd.
  - rewrite Hthrow. simpl.
    pose proof (addFrame_coherent P (answer (camLookup t)) (answer (eeLookup t)) g Hg) as Hg1.
    pose proof (addFrame_length P (answer (camLookup t)) (answer (eeLookup t)) g) as Hlen.
    destruct (addFrame P (answer (camLookup t)) (answer (eeLookup t)) g) as [g1 out1].
    simpl in *.
    destruct (can_open t).
    + destruct (writeTransformPairsToFile_Ok (baseToTip g1) (cameraToTag g1)
        (transformPairsRecordFile P) files) as (fs & _ & ->);
        [destruct Hg1; lia|lia|]. simpl. eauto 10.
    + unfold writeTransformPairsToFile. simpl. eauto 10.
  - simpl. eauto 10.
Qed.

(** A run of captures and stray keys from a coherent state with room for
    one more pair per key is defined. *)
Lemma main_loop_defined (P : Params) (ticks : list (Tick F)) (g : Globals F) (files : Files) :
  Forall (λ t, (command_of_key (key t) = CmdAdd ∨ command_of_key (key t) = CmdOther) ∧
               throws (camLookup t) || throws (eeLookup t) = false) ticks →
  coherent g → (Z.of_nat (length (baseToTip g) + length ticks) ≤ INT_MAX)%Z →
  ∃ g' files' out,
    main_loop P ticks g files = Ok (g', files', out) ∧
    length (baseToTip g') ≤ length (baseToTip g) + length ticks.
Proof.
  intros Hticks. revert g files.
  induction Hticks as [|t ticks [Ht Hthrow] _ IH]; intros g files Hg Hmax.
  - exists g, files, []. simpl. split; [done|lia].
  - simpl in Hmax.
    destruct (loop_body_no_delete_defined P t g files Hg ltac:(lia) Ht Hthrow)
      as (g1 & f1 & o1 & Hbody & Hg1 & Hlen).
    destruct (IH g1 f1 Hg1 ltac:(lia)) as (g2 & f2 & o2 & Hloop & Hlen2).
    exists g2, f2, (o1 ++ o2). simpl. rewrite Hbody. simpl. rewrite Hloop. simpl.
    split; [done|lia].
Qed.

(** C18. A session of captures and stray keys returns.  Whether the
    lookups find a transform or time out, and whether or not the files
    open, a run of the loop from the start of [main] over at most [INT_MAX]
    keys, none of them [d] or [q] and no [lookupTransform] throwing, is free
    of undefined behaviour: it returns, with at most one pair stored per
    key. *)
Theorem main_loop_total (P : Params) (ticks : list (Tick F)) (files : Files) :
  Forall (λ t, (command_of_key (key t) = CmdAdd ∨ command_of_key (key t) = CmdOther) ∧
               throws (camLookup t) || throws (eeLookup t) = false) ticks →
  (Z.of_nat (length ticks) ≤ INT_MAX)%Z →
  ∃ g files' out,
    main_loop P ticks initial_globals files = Ok (g, files', out) ∧
    length (baseToTip g) ≤ length ticks.
Proof.
  intros Hticks Hmax.
  destruct (main_loop_defined P ticks initial_globals files Hticks) as (g & f & o & Hrun & Hlen);
    [done|simpl; lia|].
  exists g, f, o. split; [done|]. simpl in Hlen. lia.
Qed.

(** ** When the record file is current *)

Lemma calibrate_keeps_recorded (P : Params) (g g' : Globals F) (can_open : bool)
    (files files' : Files) (out : list Msg) :
  transformPairsRecordFile P ≠ calibratedTransformFile P →
  recorded P g' files → calibrate P g can_open files = Ok (files', out) →
  recorded P g' files'.
Proof.
  intros Hne Hrec Hcal. unfold calibrate in Hcal.
  destruct (solve_and_report _ _) as [[r s] o].
  apply bind_Ok in Hcal as ([f o'] & Hw & [= <- _]).
  apply writeCalibration_shape in Hw as [[->|[fs ->]] _]; [done|].
  unfold recorded. by rewrite readTransformPairsFromFile_insert_ne.
Qed.

Lemma loop_body_keeps_recorded (P : Params) (t : Tick F) (g g' : Globals F)
    (files files' : Files) (out : list Msg) (quit : bool) :
  transformPairsRecordFile P ≠ calibratedTransformFile P →
  keeps_record t → coherent g → recorded P g files →
  loop_body P t g files = Ok (g', files', out, quit) →
  coherent g' ∧ recorded P g' files'.
Proof.
  intros Hne [Hnd Hopen] Hg Hrec Hbody.
  destruct (command_of_key (key t)) eqn:Hcmd; [|done|..].
  - by destruct (loop_body_add_recorded _ _ _ _ _ _ _ _ Hg Hcmd (Hopen eq_refl) Hbody)
      as (? & ? & _).
  - rewrite (loop_body_quit _ _ _ _ Hcmd) in Hbody.
    apply fmap_Ok in Hbody as ([f o] & Hcal & [= -> -> _ _]).
    split; [done|]. by eapply calibrate_keeps_recorded.
  - unfold loop_body in Hbody. rewrite Hcmd in Hbody. by outcome_inv.
Qed.

Lemma main_loop_keeps_recorded (P : Params) (ticks : list (Tick F)) (g g' : Globals F)
    (files files' : Files) (out : list Msg) :
  transformPairsRecordFile P ≠ calibratedTransformFile P →
  Forall keeps_record ticks → coherent g → recorded P g files →
  main_loop P ticks g files = Ok (g', files', out) →
  recorded P g' files'.
Proof.
  intros Hne Hticks. revert g files out.
  induction Hticks as [|t ticks Ht _ IH]; intros g files out Hg Hrec; simpl.
  - by intros [= <- <- _].
  - intros ([[[g1 f1] o1] quit] & Hbody & Hrest)%bind_Ok.
    destruct (loop_body_keeps_recorded _ _ _ _ _ _ _ _ Hne Ht Hg Hrec Hbody) as [Hg1 Hrec1].
    destruct quit; [by apply mret_Ok in Hrest as [= <- <- _]|].
    apply bind_Ok in Hrest as ([[g2 f2] o2] & Hloop & [= <- <- _]). by eapply IH.
Qed.

(** C19. The record file is current as long as nothing is deleted.  After
    a capture whose record file opened, and whatever follows that is not the
    [d] key and not a capture whose record file fails to open, the record
    file holds exactly the stored pairs when the loop ends (the result file
    being another file). *)
Theorem record_file_current (P : Params) (pre rest : list (Tick F)) (ts : Tick F)
    (g : Globals F) (files files' : Files) (out : list Msg) :
  transformPairsRecordFile P ≠ calibratedTransformFile P →
  Forall (λ t, command_of_key (key t) ≠ CmdQuit) pre →
  command_of_key (key ts) = CmdAdd → can_open ts = true →
  Forall keeps_record rest →
  main_loop P (pre ++ ts :: rest) initial_globals files = Ok (g, files', out) →
  recorded P g files'.
Proof.
  intros Hne Hno Hs Hopen Hrest Hrun.
  apply main_loop_app_inv in Hrun as (g1 & f1 & o1 & o2 & Hl1 & Hl2 & _); [|done].
  eapply main_loop_steps, rtc_capture_step_coherent in Hl1; [|done].
  simpl in Hl2. apply bind_Ok in Hl2 as ([[[g2 f2] oa] qa] & Hadd & Hl2).
  destruct (loop_body_add_recorded _ _ _ _ _ _ _ _ Hl1 Hs Hopen Hadd) as (Hrec & Hg2 & -> & _).
  apply bind_Ok in Hl2 as ([[g3 f3] o3] & Hloop & [= <- <- _]).
  by eapply main_loop_keeps_recorded.
Qed.

(** ** What is flagged and what is not *)

Lemma derive_log_quiet (pairs : list (PosePair F)) :
  Forall (λ m, is_warning m = false) (derive_log pairs).
Proof.
  destruct pairs as [|ref rest]; [constructor|]. simpl. repeat constructor.
  induction rest as [|p rest IH]; simpl; by repeat constructor.
Qed.

Lemma reportCalibration_quiet (EETFname cameraTFname : string) (a : Affine3d F) :
  Forall (λ m, is_warning m = false) (reportCalibration EETFname cameraTFname a).
Proof. by repeat constructor. Qed.

Lemma writeCalibration_quiet (a : Affine3d F) (filename : string) (summary : Summary F)
    (can_open : bool) (files files' : Files) (out : list Msg) :
  writeCalibration a filename summary can_open files = Ok (files', out) →
  Forall (λ m, is_warning m = false) out.
Proof.
  unfold writeCalibration. intros Hw.
  destruct can_open; outcome_inv; by repeat constructor.
Qed.

Lemma readTransformPairsFromFile_quiet (filename : string) (va vb : list (Affine3d F))
    (files : Files) (r : Z * (list (Affine3d F) * list (Affine3d F))) (out : list Msg) :
  readTransformPairsFromFile filename va vb files = Ok (r, out) →
  Forall (λ m, is_warning m = false) out.
Proof.
  unfold readTransformPairsFromFile. intros Hread.
  destruct (files !! filename); outcome_inv; by repeat constructor.
Qed.

(** C34. Batch mode never warns: whatever the file holds, also no pair at
    all, nothing it prints is a [ROS_WARN]. *)
Theorem main_batch_never_warns (P : Params) (can_open : bool) (u1 u2 : Affine3d F)
    (files files' : Files) (out : list Msg) :
  main_batch P can_open u1 u2 files = Ok (files', out) →
  Forall (λ m, is_warning m = false) out.
Proof.
  unfold main_batch, estimateHandEye, solve_and_report.
  intros ([[code [t1 t2]] out1] & Hread & Hrest)%bind_Ok.
  apply bind_Ok in Hrest as ([[r s] out2] & Hest & Hrest).
  apply bind_Ok in Hrest as ([f out3] & Hw & [= _ <-]).
  apply bind_Ok in Hest as ([st o] & Hrun & Hest).
  destruct (estimate_loop_Ok_inv _ _ _ _ _ Hrun) as [Hlen Hmax]; [done|].
  rewrite deriveMotions_spec in Hrun by (done || lia). injection Hrun as _ <-.
  destruct (estimateHandEyeScrew _) as [result summary]. injection Hest as _ _ <-.
  constructor; [done|].
  repeat apply Forall_app_2;
    eauto using derive_log_quiet, reportCalibration_quiet, writeCalibration_quiet,
      readTransformPairsFromFile_quiet.
Qed.

(** C35. With fewer than five relative motions stored, the [q] key warns,
    logs that the node quits, and goes on: it calibrates and writes the
    result all the same. *)
Theorem quit_warns_and_proceeds (P : Params) (g : Globals F) (can_open : bool)
    (files files' : Files) (out : list Msg) :
  length (rvecsArm g) < 5 →
  calibrate P g can_open files = Ok (files', out) →
  (∃ out',
     out = ROS_WARN "Number of calibration transform pairs < 5." :: ROS_INFO "Node Quit"
           :: ROS_INFO "Calculating Calibration..." :: out') ∧
  fst <$> writeCalibration (solve_and_report P (solver_input (cached g))).1.1
            (calibratedTransformFile P) (solve_and_report P (solver_input (cached g))).1.2
            can_open files = Ok files'.
Proof.
  intros Hfew. unfold calibrate. case_decide; [|lia].
  destruct (solve_and_report _ _) as [[r s] o].
  intros ([f o'] & Hw & [= <- <-])%bind_Ok. split; [by eexists|].
  simpl. by rewrite Hw.
Qed.

(** ** The files do not show in the globals *)

(** An iteration changes the globals, and leaves the loop or not, as its
    key and the answers of tf say, whatever the files are and whether or
    not they open. *)
Lemma loop_body_same_commands (P : Params) (t t' : Tick F) (g g1 g2 : Globals F)
    (files files' f1 f2 : Files) (o1 o2 : list Msg) (q1 q2 : bool) :
  same_commands t t' →
  loop_body P t g files = Ok (g1, f1, o1, q1) →
  loop_body P t' g files' = Ok (g2, f2, o2, q2) →
  g1 = g2 ∧ q1 = q2.
Proof.
  intros (Hkey & Hcam & Hee). unfold loop_body. rewrite <- Hkey, <- Hcam, <- Hee.
  destruct (command_of_key (key t)); intros Hrun1 Hrun2.
  - apply bind_Ok in Hrun1 as ([ga oa] & Ha & Hrun1).
    apply bind_Ok in Hrun2 as ([gb ob] & Hb & Hrun2). rewrite Ha in Hb. injection Hb as <- <-.
    apply bind_Ok in Hrun1 as ([[? ?] ?] & _ & [= <- _ _ <-]).
    by apply bind_Ok in Hrun2 as ([[? ?] ?] & _ & [= <- _ _ <-]).
  - apply bind_Ok in Hrun1 as ([ga oa] & Ha & [= <- _ _ <-]).
    apply bind_Ok in Hrun2 as ([gb ob] & Hb & [= <- _ _ <-]). rewrite Ha in Hb.
    by injection Hb as <- _.
  - apply bind_Ok in Hrun1 as ([? ?] & _ & [= <- _ _ <-]).
    by apply bind_Ok in Hrun2 as ([? ?] & _ & [= <- _ _ <-]).
  - injection Hrun1 as <- _ _ <-. by injection Hrun2 as <- _ _ <-.
Qed.

(** C17. Durability does not show in the store.  Two runs of the loop from the
    same globals, over the same keys and the same answers of tf, that both
    return end with the same globals, whatever the files held and whichever of them could
    be opened in either run: the pairs stored, the cached motions and the
    two inverses are the same. *)
Theorem globals_independent_of_files (P : Params) (ticks ticks' : list (Tick F))
    (g g1 g2 : Globals F) (files files' f1 f2 : Files) (o1 o2 : list Msg) :
  Forall2 same_commands ticks ticks' →
  main_loop P ticks g files = Ok (g1, f1, o1) →
  main_loop P ticks' g files' = Ok (g2, f2, o2) →
  g1 = g2.
Proof.
  intros Hticks. revert g files files' f1 f2 o1 o2.
  induction Hticks as [|t t' ticks ticks' Ht _ IH]; intros g files files' f1 f2 o1 o2;
    cbn [main_loop]; [congruence|].
  intros ([[[ga fa] oa] qa] & Ha & Hrun1)%bind_Ok ([[[gb fb] ob] qb] & Hb & Hrun2)%bind_Ok.
  destruct (loop_body_same_commands _ _ _ _ _ _ _ _ _ _ _ _ _ _ Ht Ha Hb) as [<- <-].
  destruct qa.
  { apply mret_Ok in Hrun1 as [= <- _ _]. by apply mret_Ok in Hrun2 as [= <- _ _]. }
  apply bind_Ok in Hrun1 as ([[? ?] ?] & Hloop1 & [= <- _ _]).
  apply bind_Ok in Hrun2 as ([[? ?] ?] & Hloop2 & [= <- _ _]).
  by eapply IH.
Qed.

End Session.

(** ** The theorems on a concrete session *)

Definition tick_s0 : Tick Q :=
  {| key := char "s"; camLookup := Found sample_tf_cam0; eeLookup := Found sample_tf_ee0;
     can_open := true |}.
Definition tick_s1 : Tick Q :=
  {| key := char "S"; camLookup := Found sample_tf_cam1; eeLookup := Found sample_tf_ee1;
     can_open := true |}.
Definition tick_d : Tick Q :=
  {| key := char "d"; camLookup := TimedOut; eeLookup := TimedOut; can_open := true |}.
Definition tick_q : Tick Q :=
  {| key := char "q"; camLookup := TimedOut; eeLookup := TimedOut; can_open := true |}.
Definition tick_x : Tick Q :=
  {| key := char "x"; camLookup := TimedOut; eeLookup := TimedOut; can_open := true |}.

(** Two captures with a stray key between them, then [q]. *)
Definition sample_session : Globals Q * gmap string (gmap string (FileNode Q)) * list Msg :=
  returned (initial_globals, ∅, [])
    (main_loop default_params [tick_s0; tick_x; tick_s1; tick_q] initial_globals ∅).

Lemma sample_session_run :
  main_loop default_params [tick_s0; tick_x; tick_s1; tick_q] initial_globals ∅ =
  Ok (sample_session.1.1, sample_session.1.2, sample_session.2).
Proof. rewrite <- !surjective_pairing. apply returned_Ok. vm_compute. reflexivity. Qed.

(** Parameters of a batch run that loads what the default session records. *)
Definition replay_server : gmap string ParamValue :=
  <["load_transforms_from_file" := PBool true]>
    (<["transform_pairs_load_filename" := PString "TransformPairsInput.yml"]> ∅).

Definition replay_params : Params := read_params replay_server.

Lemma sample_session_recorded :
  readTransformPairsFromFile "TransformPairsInput.yml" [] [] sample_session.1.2 =
  Ok (0%Z, (baseToTip sample_two_pairs, cameraToTag sample_two_pairs), []).
Proof. vm_compute. reflexivity. Qed.

Lemma main_loop_reachable_coherent_witness :
  reachable default_params sample_session.1.1 ∧ coherent sample_session.1.1.
Proof. exact (main_loop_reachable_coherent _ _ _ _ _ _ sample_session_run). Defined.

Lemma batch_agrees_with_quit_witness :
  fst <$> main_batch replay_params true identity identity sample_session.1.2 =
  fst <$> calibrate replay_params sample_two_pairs true sample_session.1.2.
Proof.
  apply batch_agrees_with_quit;
    [exact sample_two_pairs_coherent | by vm_compute | exact sample_session_recorded].
Defined.

Definition sample_after_delete
    : Globals Q * gmap string (gmap string (FileNode Q)) * list Msg * bool :=
  returned (initial_globals, ∅, [], true)
    (loop_body default_params tick_d sample_two_pairs sample_session.1.2).

Lemma sample_after_delete_run :
  loop_body default_params tick_d sample_two_pairs sample_session.1.2 =
  Ok (sample_after_delete.1.1.1, sample_after_delete.1.1.2, sample_after_delete.1.2,
      sample_after_delete.2).
Proof. rewrite <- !surjective_pairing. apply returned_Ok. vm_compute. reflexivity. Qed.

Lemma delete_leaves_record_stale_witness :
  sample_after_delete.1.1.2 = sample_session.1.2 ∧
  ¬ recorded default_params sample_after_delete.1.1.1 sample_after_delete.1.1.2 ∧
  length (baseToTip sample_after_delete.1.1.1) = length (baseToTip sample_two_pairs) - 1 ∧
  sample_after_delete.2 = false.
Proof.
  exact (delete_leaves_record_stale default_params tick_d sample_two_pairs _ _ _ _ _
           sample_two_pairs_coherent sample_session_recorded eq_refl sample_after_delete_run).
Defined.

Lemma quit_ends_loop_witness :
  main_loop default_params [tick_q; tick_s0; tick_d] sample_two_pairs ∅ =
  (λ r, (sample_two_pairs, r.1, r.2)) <$> calibrate default_params sample_two_pairs true ∅.
Proof. exact (quit_ends_loop default_params tick_q _ sample_two_pairs ∅ eq_refl). Defined.

Lemma other_key_ignored_witness :
  main_loop default_params [tick_x; tick_q] sample_two_pairs ∅ =
  (λ r, (r.1.1, r.1.2, CERR (pretty (key tick_x) +:+ " pressed." +:+ nl) :: r.2))
    <$> main_loop default_params [tick_q] sample_two_pairs ∅.
Proof. exact (other_key_ignored default_params tick_x _ sample_two_pairs ∅ eq_refl). Defined.

Lemma batch_missing_file_still_calibrates_witness :
  fst <$> main_batch replay_params true identity identity ∅ =
  fst <$> writeCalibration (Transform (estimateHandEyeScrew (screw_of_motions [])).1)
            (calibratedTransformFile replay_params)
            (estimateHandEyeScrew (screw_of_motions [])).2 true ∅.
Proof. exact (batch_missing_file_still_calibrates replay_params true _ _ ∅ eq_refl). Defined.

Lemma quit_without_motions_witness :
  fst <$> calibrate default_params sample_one_pair true ∅ =
  fst <$> writeCalibration (Transform (estimateHandEyeScrew (screw_of_motions [])).1)
            (calibratedTransformFile default_params)
            (estimateHandEyeScrew (screw_of_motions [])).2 true ∅.
Proof.
  apply quit_without_motions; [exact sample_one_pair_coherent|simpl; lia].
Defined.

Definition sample_batch : gmap string (gmap string (FileNode Q)) * list Msg :=
  returned (∅, []) (main_batch replay_params true identity identity ∅).

Lemma sample_batch_run :
  main_batch replay_params true identity identity ∅ = Ok (sample_batch.1, sample_batch.2).
Proof. rewrite <- surjective_pairing. apply returned_Ok. vm_compute. reflexivity. Qed.

Lemma main_batch_never_warns_witness :
  Forall (λ m, is_warning m = false) sample_batch.2.
Proof. exact (main_batch_never_warns _ _ _ _ _ _ _ sample_batch_run). Defined.

Definition sample_quit : gmap string (gmap string (FileNode Q)) * list Msg :=
  returned (∅, []) (calibrate default_params sample_two_pairs true ∅).

Lemma sample_quit_run :
  calibrate default_params sample_two_pairs true ∅ = Ok (sample_quit.1, sample_quit.2).
Proof. rewrite <- surjective_pairing. apply returned_Ok. vm_compute. reflexivity. Qed.

Lemma quit_warns_and_proceeds_witness :
  (∃ out',
     sample_quit.2 =
       ROS_WARN "Number of calibration transform pairs < 5." :: ROS_INFO "Node Quit"
       :: ROS_INFO "Calculating Calibration..." :: out') ∧
  fst <$> writeCalibration
            (solve_and_report default_params (solver_input (cached sample_two_pairs))).1.1
            (calibratedTransformFile default_params)
            (solve_and_report default_params (solver_input (cached sample_two_pairs))).1.2
            true ∅ = Ok sample_quit.1.
Proof.
  apply (quit_warns_and_proceeds default_params sample_two_pairs true ∅ _ _);
    [simpl; lia|exact sample_quit_run].
Defined.

Lemma loop_body_defined_iff_witness :
  is_ok (loop_body default_params tick_d sample_two_pairs ∅) = true ↔
  2 ≤ length (baseToTip sample_two_pairs).
Proof.
  exact (loop_body_defined_iff default_params tick_d sample_two_pairs ∅
           sample_two_pairs_coherent).
Defined.

(** Two captures with a stray key between them. *)
Definition sample_captures : Globals Q * gmap string (gmap string (FileNode Q)) * list Msg :=
  returned (initial_globals, ∅, [])
    (main_loop default_params [tick_s0; tick_x; tick_s1] initial_globals ∅).

Lemma sample_captures_run :
  main_loop default_params [tick_s0; tick_x; tick_s1] initial_globals ∅ =
  Ok (sample_captures.1.1, sample_captures.1.2, sample_captures.2).
Proof. rewrite <- !surjective_pairing. apply returned_Ok. vm_compute. reflexivity. Qed.

Lemma record_file_current_witness :
  recorded default_params sample_session.1.1 sample_session.1.2.
Proof.
  apply (record_file_current default_params [tick_s0; tick_x] [tick_q] tick_s1
           sample_session.1.1 ∅ sample_session.1.2 sample_session.2);
    [by vm_compute|repeat constructor; by vm_compute|reflexivity|reflexivity|
     repeat constructor; by vm_compute|exact sample_session_run].
Defined.

(** The key [getch] returns at the end of the input. *)
Definition tick_eof : Tick Q :=
  {| key := EOF; camLookup := TimedOut; eeLookup := TimedOut; can_open := true |}.

Lemma main_loop_at_end_of_input_witness :
  main_loop default_params [tick_eof; tick_eof] sample_two_pairs ∅ =
    Ok (sample_two_pairs, ∅, replicate 2 (CERR ("-1 pressed." +:+ nl))).
Proof.
  apply (main_loop_at_end_of_input default_params [tick_eof; tick_eof] initial_statics
           {| isatty := true; attributes := zero_termios; chars := [] |});
    reflexivity.
Defined.

Lemma main_loop_total_witness :
  ∃ g files' out,
    main_loop default_params [tick_s0; tick_x; tick_s1] initial_globals ∅ =
      Ok (g, files', out) ∧
    length (baseToTip g) ≤ 3.
Proof.
  apply (main_loop_total default_params [tick_s0; tick_x; tick_s1] ∅);
    [repeat constructor; by vm_compute|by vm_compute].
Defined.

(** The sample session again, with no file that can be opened. *)
Definition offline (t : Tick Q) : Tick Q :=
  {| key := key t; camLookup := camLookup t; eeLookup := eeLookup t; can_open := false |}.

Definition sample_offline : Globals Q * gmap string (gmap string (FileNode Q)) * list Msg :=
  returned (initial_globals, ∅, [])
    (main_loop default_params (offline <$> [tick_s0; tick_x; tick_s1; tick_q]) initial_globals ∅).

Lemma sample_offline_run :
  main_loop default_params (offline <$> [tick_s0; tick_x; tick_s1; tick_q]) initial_globals ∅ =
  Ok (sample_offline.1.1, sample_offline.1.2, sample_offline.2).
Proof. rewrite <- !surjective_pairing. apply returned_Ok. vm_compute. reflexivity. Qed.

Lemma globals_independent_of_files_witness : sample_session.1.1 = sample_offline.1.1.
Proof.
  apply (globals_independent_of_files default_params [tick_s0; tick_x; tick_s1; tick_q]
           (offline <$> [tick_s0; tick_x; tick_s1; tick_q]) initial_globals _ _ ∅ ∅
           sample_session.1.2 sample_offline.1.2 sample_session.2 sample_offline.2);
    [by repeat constructor|exact sample_session_run|exact sample_offline_run].
Defined.

(** Nothing was written in that run, and the store is the same. *)
Example sample_offline_files :
  sample_offline.1.2 = ∅ ∧ stored sample_offline.1.1 = stored sample_two_pairs.
Proof. by vm_compute. Qed.
