(* ===== verification/Events.v ===== *)
(** * Events: the command surface of section 6, and the loop as its implementation

    Section 6 of the specification gives the contract the interactive loop
    has to support as three events on the pose pair store and the two
    files: [capture] appends one pose pair (none when the pose source timed
    out, section 7) and then persists the pair file, [undo] removes the last
    pair, [finalize] runs the estimator on the motions of the stored pairs,
    persists the result and ends the session.

    This file states that contract as a machine on [SessionState], whose
    state is the sequence of stored pairs and the files, with no reference
    to the globals of the program, its cached vectors or the loops that
    write the files: the pair file is [pair_storage] of the store and the
    result file [calibration_entries] of the solver's answer.  [event_of]
    reads one iteration of the loop of [main] as an event, [session_of]
    reads the globals as a state of the machine, and [tick_valid] is the
    condition, on the state of the machine, under which the iteration is
    free of undefined behaviour.

    Where the specification leaves a choice the machine makes the one
    the program makes.  A capture that acquires no pose leaves the store as
    it is and still persists the pair file: section 7 calls the event
    dropped and does not say whether the file is written.  Section 6
    requires at least one relative motion of [finalize] ([enabled]); the
    machine finalizes whenever it is asked to, the requirement is not among
    the conditions of [tick_valid], and [finalize_not_enabled] is a valid
    run that finalizes an empty store.  [undo] on an empty store is the
    no-op of section 4.1 in the machine, and outside [tick_valid]: the
    program is undefined there.

    The theorems say that the loop implements the machine exactly: a run of
    [main_loop] from a coherent state returns if and only if every iteration
    is valid, and then the pairs it stores and the files it leaves are
    those of the machine. *)

From Stdlib Require Import ZArith QArith Lia Ascii.
From stdpp Require Import base tactics option list strings pretty gmap.
From S2P Require Import Prelude Scalar Eigen Ros Derive Capture Store Persist Calib.
From S2P Require Import Terminal Session.

(** ** The contract *)

(** The events of the command surface; [durable] says whether the file the
    event persists can be opened.  A key that is no command is [ignored]. *)
Inductive Event (F : Type) : Type :=
| capture (pose : option (PosePair F)) (durable : bool)
| undo
| finalize (durable : bool)
| ignored.
Arguments capture {F} pose durable.
Arguments undo {F}.
Arguments finalize {F} durable.
Arguments ignored {F}.

(** The state of a session: the store, the files, and whether the session
    has been finalized. *)
Record SessionState (F : Type) : Type := {
  store : list (PosePair F);
  persisted : gmap string (gmap string (FileNode F));
  finalized : bool;
}.
Arguments Build_SessionState {F}.
Arguments store {F} s.
Arguments persisted {F} s.
Arguments finalized {F} s.

Section Events.
Context {F : Type} `{ScalarOps F} `{RotationLib F} `{Sqrt F} `{StreamOut F} `{Round F}
  `{TfLib F} `{HandEyeSolver F}.

Local Notation "'Files'" := (gmap string (gmap string (FileNode F))) (only parsing).

(** What [finalize] computes: the solver's answer on the motions of the
    stored pairs. *)
Definition estimate (pairs : list (PosePair F)) : Matrix4d F * Summary F :=
  estimateHandEyeScrew (screw_of_motions (deriveAll pairs)).

(** The pair file of a store. *)
Definition record_of (pairs : list (PosePair F)) : gmap string (FileNode F) :=
  pair_storage (poseA <$> pairs) (poseB <$> pairs).

(** The result file of a store. *)
Definition result_of (pairs : list (PosePair F)) : gmap string (FileNode F) :=
  let summary := (estimate pairs).2 in
  calibration_entries (Transform (estimate pairs).1) summary
    (num_unsuccessful_steps summary + num_successful_steps summary).

(** One event. *)
Definition event_step (P : Params) (e : Event F) (s : SessionState F) : SessionState F :=
  match e with
  | capture pose durable =>
    let store' := from_option (λ p, store_append p (store s)) (store s) pose in
    {| store := store';
       persisted :=
         if durable then <[transformPairsRecordFile P := record_of store']> (persisted s)
         else persisted s;
       finalized := finalized s |}
  | undo =>
    {| store := store_removeLast (store s);
       persisted := persisted s;
       finalized := finalized s |}
  | finalize durable =>
    {| store := store s;
       persisted :=
         if durable then <[calibratedTransformFile P := result_of (store s)]> (persisted s)
         else persisted s;
       finalized := true |}
  | ignored => s
  end.

(** What section 6 requires of an event: [finalize] needs at least one
    relative motion. *)
Definition enabled (e : Event F) (s : SessionState F) : Prop :=
  match e with
  | finalize _ => 1 ≤ length (deriveAll (store s))
  | _ => True
  end.

#[export] Instance enabled_dec (e : Event F) (s : SessionState F) : Decision (enabled e s).
Proof. destruct e; simpl; apply _. Defined.

(** The events of a session, up to the one that finalizes it. *)
Fixpoint events_run (P : Params) (es : list (Event F)) (s : SessionState F)
    : SessionState F :=
  match es with
  | [] => s
  | e :: es' =>
    let s' := event_step P e s in
    if finalized s' then s' else events_run P es' s'
  end.

(** ** The loop as events *)

(** The pair a capture acquires: none when a lookup timed out. *)
Definition pose_of (t : Tick F) : option (PosePair F) :=
  ee ← answer (eeLookup t);
  cam ← answer (camLookup t);
  Some (Build_PosePair (transformTFToEigen ee) (transformTFToEigen cam)).

(** The event of one iteration of the loop (source lines 446-491). *)
Definition event_of (t : Tick F) : Event F :=
  match command_of_key (key t) with
  | CmdAdd => capture (pose_of t) (can_open t)
  | CmdDelete => undo
  | CmdQuit => finalize (can_open t)
  | CmdOther => ignored
  end.

(** The globals and the files as a state of the machine. *)
Definition session_of (g : Globals F) (files : Files) (quit : bool) : SessionState F :=
  {| store := stored g; persisted := files; finalized := quit |}.

(** A session starts with an empty store. *)
Definition initial_session (files : Files) : SessionState F :=
  {| store := []; persisted := files; finalized := false |}.

(** Batch mode as an event: [finalize] on the pairs of the file to load. *)
Definition batch_events (P : Params) (can_open : bool) (files : Files) : SessionState F :=
  event_step P (finalize can_open)
    {| store := loaded_pairs (transformPairsLoadFile P) files;
       persisted := files;
       finalized := false |}.

(** The program as events: batch mode, or the events of the keys. *)
Definition program_events (P : Params) (ticks : list (Tick F)) (can_open : bool)
    (files : Files) : SessionState F :=
  if loadTransformsFromFile P then batch_events P can_open files
  else events_run P (event_of <$> ticks) (initial_session files).

(** Where an iteration of the loop is free of undefined behaviour, as a
    condition on the state of the machine: no lookup of a capture throws,
    and the pair count of a record file that opens fits an [int]; [undo]
    has two pairs to work on; the step counts of a result file that opens
    add up within an [int]. *)
Definition tick_valid (P : Params) (t : Tick F) (s : SessionState F) : Prop :=
  match command_of_key (key t) with
  | CmdAdd =>
    throws (camLookup t) || throws (eeLookup t) = false ∧
    (can_open t = false ∨
     (Z.of_nat (length (store (event_step P (event_of t) s))) ≤ INT_MAX)%Z)
  | CmdDelete => 2 ≤ length (store s)
  | CmdQuit =>
    can_open t = false ∨
    let summary := (estimate (store s)).2 in
    (INT_MIN ≤ num_unsuccessful_steps summary + num_successful_steps summary ≤ INT_MAX)%Z
  | CmdOther => True
  end.

(** Every iteration up to the one that finalizes is valid. *)
Fixpoint run_valid (P : Params) (ticks : list (Tick F)) (s : SessionState F) : Prop :=
  match ticks with
  | [] => True
  | t :: ticks' =>
    tick_valid P t s ∧
    (finalized (event_step P (event_of t) s) = false →
     run_valid P ticks' (event_step P (event_of t) s))
  end.

(** Where batch mode is free of undefined behaviour: the file to load is
    missing or a well-formed pair file of at most [INT_MAX] pairs, and the
    step counts of a result file that opens add up within an [int]. *)
Definition batch_valid (P : Params) (can_open : bool) (files : Files) : Prop :=
  (∀ fs, files !! transformPairsLoadFile P = Some fs →
     well_formed_pairs fs ∧ (read_int (fs !! key_frameCount) ≤ INT_MAX)%Z) ∧
  (can_open = false ∨
   let summary := (estimate (loaded_pairs (transformPairsLoadFile P) files)).2 in
   (INT_MIN ≤ num_unsuccessful_steps summary + num_successful_steps summary ≤ INT_MAX)%Z).

Definition program_valid (P : Params) (ticks : list (Tick F)) (can_open : bool)
    (files : Files) : Prop :=
  if loadTransformsFromFile P then batch_valid P can_open files
  else run_valid P ticks (initial_session files).

#[export] Instance tick_valid_dec (P : Params) (t : Tick F) (s : SessionState F) :
  Decision (tick_valid P t s).
Proof. unfold tick_valid. destruct (command_of_key (key t)); apply _. Defined.

#[export] Instance run_valid_dec (P : Params) (ticks : list (Tick F)) (s : SessionState F) :
  Decision (run_valid P ticks s).
Proof. revert s. induction ticks; intros s; simpl; apply _. Defined.

(** ** Properties of the machine *)

Lemma event_step_finalized (P : Params) (e : Event F) (s : SessionState F) :
  finalized (event_step P e s) = true ↔ finalized s = true ∨ ∃ durable, e = finalize durable.
Proof.
  destruct e; simpl; (split; [by eauto|]); by intros [?|[? ?]].
Qed.

(** An event changes no file but the one it persists. *)
Lemma event_step_other_files (P : Params) (e : Event F) (s : SessionState F)
    (filename : string) :
  filename ≠ transformPairsRecordFile P → filename ≠ calibratedTransformFile P →
  persisted (event_step P e s) !! filename = persisted s !! filename.
Proof.
  intros Hrec Hres. destruct e as [pose [|]| |[|]|]; simpl; try done.
  all: by rewrite lookup_insert_ne.
Qed.

(** The store changes by the steps of section 4.1 only. *)
Lemma event_step_store (P : Params) (e : Event F) (s : SessionState F) :
  store (event_step P e s) = store s ∨ store_step (store s) (store (event_step P e s)).
Proof. destruct e as [[p|] ?| | |]; simpl; auto using store_step. Qed.

(** Whether the files can be written does not show in the store of the
    machine either. *)
Lemma event_step_same_commands (P : Params) (t t' : Tick F) (s s' : SessionState F) :
  same_commands t t' → store s = store s' →
  store (event_step P (event_of t) s) = store (event_step P (event_of t') s') ∧
  (finalized s = finalized s' →
   finalized (event_step P (event_of t) s) = finalized (event_step P (event_of t') s')).
Proof.
  intros (Hkey & Hcam & Hee) Hstore. unfold event_of, pose_of.
  rewrite <- Hkey, <- Hcam, <- Hee.
  destruct (command_of_key (key t)); simpl; rewrite ?Hstore; split; (done || by intros ->).
Qed.

Lemma events_run_same_commands (P : Params) (ticks ticks' : list (Tick F))
    (s s' : SessionState F) :
  Forall2 same_commands ticks ticks' → store s = store s' → finalized s = finalized s' →
  store (events_run P (event_of <$> ticks) s) = store (events_run P (event_of <$> ticks') s').
Proof.
  intros Hticks. revert s s'.
  induction Hticks as [|t t' ticks ticks' Ht _ IH]; intros s s' Hstore Hfin; [done|].
  rewrite !fmap_cons. cbn [events_run].
  destruct (event_step_same_commands P t t' s s' Ht Hstore) as [Hstore' Hfin'].
  cbv zeta. rewrite <- (Hfin' Hfin).
  destruct (finalized (event_step P (event_of t) s)) eqn:Hfin1; [done|].
  apply IH; [done|]. by rewrite <- (Hfin' Hfin).
Qed.

(** ** One iteration implements one event *)

Lemma coherent_stored_poses (g : Globals F) :
  coherent g → poseA <$> stored g = baseToTip g ∧ poseB <$> stored g = cameraToTag g.
Proof.
  intros [Hlen _]. unfold stored.
  by rewrite fmap_poseA_pose_pairs, fmap_poseB_pose_pairs by lia.
Qed.

Lemma coherent_length_stored (g : Globals F) :
  coherent g → length (stored g) = length (baseToTip g).
Proof. intros [Hlen _]. unfold stored. apply length_pose_pairs. lia. Qed.

(** What a capture stores, whatever the lookups answered. *)
Lemma stored_addFrame_pose_of (P : Params) (t : Tick F) (g : Globals F) :
  coherent g →
  stored (addFrame P (answer (camLookup t)) (answer (eeLookup t)) g).1 =
  from_option (λ p, store_append p (stored g)) (stored g) (pose_of t).
Proof.
  intros Hg. unfold pose_of.
  destruct (answer (eeLookup t)) as [ee|], (answer (camLookup t)) as [cam|]; try done.
  by apply stored_addFrame.
Qed.

(** The iteration is defined exactly where it is valid. *)
Lemma loop_body_valid (P : Params) (t : Tick F) (g : Globals F) (files : Files) :
  coherent g →
  is_ok (loop_body P t g files) = true ↔ tick_valid P t (session_of g files false).
Proof.
  intros Hg. rewrite (loop_body_defined_iff P t g files Hg).
  unfold tick_valid, event_of, estimate.
  destruct (command_of_key (key t)); cbn [event_step store session_of].
  - rewrite <- (stored_addFrame_pose_of P t g Hg).
    by rewrite coherent_length_stored by by apply addFrame_coherent.
  - by rewrite coherent_length_stored.
  - by rewrite coherent_stored_input.
  - done.
Qed.

(** Where it returns, it has made the step of the machine. *)
Lemma loop_body_event (P : Params) (t : Tick F) (g g' : Globals F) (files files' : Files)
    (out : list Msg) (quit : bool) :
  coherent g → loop_body P t g files = Ok (g', files', out, quit) →
  coherent g' ∧
  session_of g' files' quit = event_step P (event_of t) (session_of g files false).
Proof.
  intros Hg Hrun. split.
  { destruct (loop_body_step _ _ _ _ _ _ _ _ Hrun) as [->|Hstep]; [done|].
    by eapply capture_step_coherent. }
  revert Hrun. unfold loop_body, event_of, session_of.
  destruct (command_of_key (key t)); cbn [event_step store persisted finalized]; intros Hrun.
  - apply bind_Ok in Hrun as ([g1 o1] & [_ Hadd]%addFrame_tf_Ok & Hrun).
    apply (f_equal fst) in Hadd. cbn [fst] in Hadd. subst g1.
    pose proof (addFrame_coherent P (answer (camLookup t)) (answer (eeLookup t)) g Hg) as Hg1.
    rewrite <- (stored_addFrame_pose_of P t g Hg).
    set (g1 := (addFrame _ _ _ _).1) in *. unfold record_of.
    destruct (coherent_stored_poses g1 Hg1) as [-> ->].
    apply bind_Ok in Hrun as ([[code f1] o2] & Hw & [= <- <- _ <-]).
    f_equal. destruct (can_open t); [|by injection Hw].
    pose proof (writeTransformPairsToFile_bounds (baseToTip g1) (cameraToTag g1)
      (transformPairsRecordFile P) files ltac:(by rewrite Hw)) as [Hlen Hmax].
    rewrite writeTransformPairsToFile_storage in Hw by done. by injection Hw.
  - apply bind_Ok in Hrun as ([g1 o1] & Hdel & [= <- <- _ <-]).
    by rewrite (stored_deleteLastFrame g g1 o1 Hg Hdel).
  - apply bind_Ok in Hrun as ([f1 o1] & Hcal & [= <- <- _ <-]).
    f_equal. apply (f_equal (fmap fst)) in Hcal. rewrite calibrate_files in Hcal.
    unfold solve_and_report, result_of, estimate in *.
    rewrite <- (coherent_stored_input g Hg).
    destruct (estimateHandEyeScrew _) as [r summary].
    pose proof (writeCalibration_defined_iff (Transform r) (calibratedTransformFile P)
      summary (can_open t) files) as Hdef.
    rewrite writeCalibration_entries in Hcal.
    + by injection Hcal.
    + apply Hdef. by destruct (writeCalibration _ _ _ _ _).
  - by injection Hrun as <- <- _ <-.
Qed.

(** ** The loop implements the machine *)

(** The loop of [main] implements the command surface of section 6
    exactly.  From a coherent state, a run of the loop over any keys, the
    answers of tf and of the file system returns if and only if every
    iteration up to the first [q] is valid for the machine; and then the
    pairs it stores and the files it leaves are those the machine reaches
    by the events of the run: the record file is the schema of the store at
    the last capture that could write it, and the result file holds the
    solver's answer on the motions of the store at the [q] key. *)
Theorem main_loop_refines_events (P : Params) (ticks : list (Tick F)) (g : Globals F)
    (files : Files) :
  coherent g →
  (is_ok (main_loop P ticks g files) = true ↔ run_valid P ticks (session_of g files false)) ∧
  ∀ g' files' out,
    main_loop P ticks g files = Ok (g', files', out) →
    stored g' = store (events_run P (event_of <$> ticks) (session_of g files false)) ∧
    files' = persisted (events_run P (event_of <$> ticks) (session_of g files false)).
Proof.
  revert g files. induction ticks as [|t ticks IH]; intros g files Hg.
  { split; [done|]. by intros g' files' out [= <- <- _]. }
  rewrite fmap_cons. cbn [main_loop run_valid events_run].
  pose proof (loop_body_valid P t g files Hg) as Hvalid.
  destruct (loop_body P t g files) as [[[[g1 f1] o1] quit]|u] eqn:Hbody; cycle 1.
  { split; [|done]. split; [done|]. intros [Ht _]. by apply Hvalid in Ht. }
  destruct (loop_body_event _ _ _ _ _ _ _ _ Hg Hbody) as [Hg1 <-].
  cbn [mbind outcome_bind finalized]. destruct quit.
  { split; [|by intros g' files' out [= <- <- _]].
    split; [|done]. intros _. split; [by apply Hvalid|done]. }
  destruct (IH g1 f1 Hg1) as [Hdef Hres]. split.
  - rewrite <- Hdef. destruct (main_loop P ticks g1 f1) as [[[g2 f2] o2]|]; simpl.
    + split; [|done]. intros _. split; [by apply Hvalid|done].
    + split; [done|]. intros [_ Hrest]. by apply Hrest.
  - intros g' files' out Hrun. destruct (main_loop P ticks g1 f1) as [[[g2 f2] o2]|]; [|done].
    injection Hrun as <- <- _. by eapply Hres.
Qed.

(** A session whose iterations are all valid returns, with the store and
    the files of the machine. *)
Corollary run_valid_returns (P : Params) (ticks : list (Tick F)) (g : Globals F)
    (files : Files) :
  coherent g → run_valid P ticks (session_of g files false) →
  ∃ g' out,
    main_loop P ticks g files =
      Ok (g', persisted (events_run P (event_of <$> ticks) (session_of g files false)), out) ∧
    stored g' = store (events_run P (event_of <$> ticks) (session_of g files false)).
Proof.
  intros Hg Hvalid. destruct (main_loop_refines_events P ticks g files Hg) as [Hdef Hres].
  apply Hdef, is_ok_true in Hvalid as [[[g' files'] out] Hrun].
  destruct (Hres _ _ _ Hrun) as [Hstore ->]. by exists g', out.
Qed.

(** ** Batch mode implements [finalize] *)

Lemma main_batch_event (P : Params) (can_open : bool) (u1 u2 : Affine3d F) (files : Files) :
  (is_ok (main_batch P can_open u1 u2 files) = true ↔ batch_valid P can_open files) ∧
  ∀ files' out,
    main_batch P can_open u1 u2 files = Ok (files', out) →
    files' = persisted (batch_events P can_open files).
Proof.
  destruct (main_batch_writes P can_open u1 u2 files) as [Hdef Hres]. split; [done|].
  intros files' out Hrun. pose proof (Hres _ _ Hrun) as Hw.
  pose proof Hw as (r & Hok & _)%fmap_Ok.
  rewrite writeCalibration_entries in Hw; [by injection Hw|].
  eapply (proj1 (writeCalibration_defined_iff _ _ _ _ _)). by rewrite Hok.
Qed.

End Events.

(** ** The machine on a concrete session *)

(** Two captures with a stray key between them, then [q]. *)
Definition sample_events : list (Event Q) := event_of <$> [tick_s0; tick_x; tick_s1; tick_q].

Example sample_events_run :
  events_run default_params sample_events (session_of initial_globals ∅ false) =
  session_of sample_two_pairs sample_session.1.2 true.
Proof. vm_compute. reflexivity. Qed.

Example sample_run_valid :
  run_valid default_params [tick_s0; tick_x; tick_s1; tick_q] (session_of initial_globals ∅ false).
Proof. refine (proj1 (bool_decide_eq_true _) _). vm_compute. reflexivity. Qed.

(** The [d] key after a single capture is outside what the program
    implements: the machine removes the pair, the program pops an empty
    vector. *)
Example undo_of_first_capture_invalid :
  ¬ run_valid default_params [tick_s0; tick_d] (session_of initial_globals ∅ false) ∧
  store (events_run default_params (event_of <$> [tick_s0; tick_d])
           (session_of initial_globals ∅ false)) = [] ∧
  is_ok (main_loop default_params [tick_s0; tick_d] initial_globals ∅) = false.
Proof.
  split; [|by vm_compute]. refine (proj1 (bool_decide_eq_false _) _). vm_compute. reflexivity.
Qed.

(** The [q] key as the first key is valid for the program and finalizes
    the empty store, which section 6 does not allow. *)
Example finalize_not_enabled :
  run_valid default_params [tick_q] (initial_session ∅) ∧
  ¬ enabled (event_of tick_q) (initial_session ∅) ∧
  finalized (events_run default_params [event_of tick_q] (initial_session ∅)) = true.
Proof.
  split_and!; [|by vm_compute; lia|done].
  refine (proj1 (bool_decide_eq_true _) _). vm_compute. reflexivity.
Qed.

Lemma main_loop_refines_events_witness :
  (is_ok (main_loop default_params [tick_s0; tick_x; tick_s1; tick_q] initial_globals ∅) = true ↔
   run_valid default_params [tick_s0; tick_x; tick_s1; tick_q]
     (session_of initial_globals ∅ false)) ∧
  ∀ g' files' out,
    main_loop default_params [tick_s0; tick_x; tick_s1; tick_q] initial_globals ∅ =
      Ok (g', files', out) →
    stored g' = store (events_run default_params sample_events
                         (session_of initial_globals ∅ false)) ∧
    files' = persisted (events_run default_params sample_events
                          (session_of initial_globals ∅ false)).
Proof.
  apply (main_loop_refines_events default_params [tick_s0; tick_x; tick_s1; tick_q]
           initial_globals ∅).
  by vm_compute.
Defined.
