(* ===== verification/Steps.v ===== *)
(** * Steps: the loop of [main] as a transition system

    [Session.main_loop] runs the loop of [main] (source lines 444-492) to
    its end.  Here the same loop is taken one iteration at a time: a point
    of a session ([Config]) holds the ticks still to come, the globals, the
    files, what was printed so far and whether the loop was left, and
    [session_step] is one iteration of [Session.loop_body].

    The theorems show that the steps are deterministic, that a point is
    finished, steps, or faces undefined behaviour, that a session whose
    next key is [q] reaches the point where the calibration is on file,
    that an exception of tf leaves the session stuck where it stood, and
    that the steps simulate the events of [Events]. *)

From Stdlib Require Import ZArith QArith Lia Ascii.
From stdpp Require Import base tactics option list strings pretty gmap relations.
From S2P Require Import Prelude Scalar Eigen Ros Derive Capture Store Persist Calib.
From S2P Require Import Terminal Session Events.

(** ** Points of a session *)

(** A point of a session: the ticks still to come, the globals, the files,
    what was printed so far, and whether the loop was left. *)
Record Config (F : Type) : Type := {
  pending : list (Tick F);
  globals : Globals F;
  disk : gmap string (gmap string (FileNode F));
  printed : list Msg;
  halted : bool;
}.
Arguments Build_Config {F}.
Arguments pending {F} c.
Arguments globals {F} c.
Arguments disk {F} c.
Arguments printed {F} c.
Arguments halted {F} c.

Section Steps.
Context {F : Type} `{ScalarOps F} `{RotationLib F} `{Sqrt F} `{StreamOut F} `{Round F}
  `{TfLib F} `{HandEyeSolver F}.

Local Notation "'Files'" := (gmap string (gmap string (FileNode F))) (only parsing).

(** The loop, one iteration at a time (source lines 444-492): while ticks
    are left and the loop was not left, the body runs on the next one. *)
Inductive session_step (P : Params) : relation (Config F) :=
  | session_tick t ticks g files out g' files' o quit :
      loop_body P t g files = Ok (g', files', o, quit) →
      session_step P (Build_Config (t :: ticks) g files out false)
                     (Build_Config ticks g' files' (out ++ o) quit).

(** The loop is over: it was left, or [ros::ok()] is false. *)
Definition finished (c : Config F) : Prop := halted c = true ∨ pending c = [].

(** ** The loop as a transition system *)

Lemma session_step_deterministic (P : Params) (c c1 c2 : Config F) :
  session_step P c c1 → session_step P c c2 → c1 = c2.
Proof.
  intros [t ticks g files out g1 f1 o1 q1 H1'] Hstep.
  inversion Hstep as [? ? ? ? ? g2 f2 o2 q2 H2']; subst. congruence.
Qed.

Lemma session_steps_prefix (P : Params) (pre rest : list (Tick F)) (g g' : Globals F)
    (files files' : Files) (out out' : list Msg) :
  Forall (λ t, command_of_key (key t) ≠ CmdQuit) pre →
  main_loop P pre g files = Ok (g', files', out') →
  rtc (session_step P) (Build_Config (pre ++ rest) g files out false)
                       (Build_Config rest g' files' (out ++ out') false).
Proof.
  intros Hno. revert g files out out'.
  induction Hno as [|t pre Ht _ IH]; intros g files out out'; simpl.
  - intros [= <- <- <-]. by rewrite app_nil_r.
  - intros ([[[ga fa] oa] quit] & Hbody & Hrest)%bind_Ok.
    assert (quit = false) as -> by by eapply loop_body_no_quit.
    apply bind_Ok in Hrest as ([[gb fb] ob] & Hrun & [= <- <- <-]).
    eapply rtc_l; [by constructor|]. rewrite app_assoc. by apply IH.
Qed.

Lemma session_step_running (P : Params) (c c' : Config F) :
  session_step P c c' → halted c = false.
Proof. by intros []. Qed.

(** A point of a session is the end of the loop, or the loop takes a step,
    or the next iteration is undefined behaviour; a finished point takes no
    step. *)
Lemma session_progress (P : Params) (c : Config F) :
  finished c ∨ (∃ c', session_step P c c') ∨
  ∃ t ticks u, pending c = t :: ticks ∧ loop_body P t (globals c) (disk c) = Undef u.
Proof.
  destruct c as [[|t ticks] g files out []]; try (left; by (left + right)).
  destruct (loop_body P t g files) as [[[[g' files'] o] quit]|u] eqn:Hbody.
  - right. left. eexists. by constructor.
  - right. right. by exists t, ticks, u.
Qed.

Lemma finished_no_step (P : Params) (c c' : Config F) :
  finished c → ¬ session_step P c c'.
Proof. intros [Hhalt|Hend] Hstep; destruct Hstep; done. Qed.

(** C31. An exception of tf ends the session where it stands.  When
    [lookupTransform] throws during a capture, after keys other than [q]
    that ran without undefined behaviour, the run does not return: the loop
    is at the point the earlier keys led to, with the globals and the files
    as they left them, and can neither go on nor finish, so nothing is
    calibrated and the result file is not written. *)
Theorem lookup_exception_ends_session (P : Params) (pre rest : list (Tick F)) (t : Tick F)
    (g : Globals F) (files files1 : Files) (out1 : list Msg) :
  Forall (λ t, command_of_key (key t) ≠ CmdQuit) pre →
  main_loop P pre initial_globals files = Ok (g, files1, out1) →
  command_of_key (key t) = CmdAdd → throws (camLookup t) || throws (eeLookup t) = true →
  main_loop P (pre ++ t :: rest) initial_globals files = Undef UncaughtException ∧
  rtc (session_step P) (Build_Config (pre ++ t :: rest) initial_globals files [] false)
                       (Build_Config (t :: rest) g files1 out1 false) ∧
  ¬ finished (Build_Config (t :: rest) g files1 out1 false) ∧
  ∀ c', ¬ session_step P (Build_Config (t :: rest) g files1 out1 false) c'.
Proof.
  intros Hno Hrun Hcmd Hthrow. pose proof (loop_body_throws P t g files1 Hcmd Hthrow) as Hbody.
  split_and!.
  - rewrite main_loop_app, Hrun by done. simpl. by rewrite Hbody.
  - by apply (session_steps_prefix P pre (t :: rest) _ _ _ _ []).
  - by intros [|].
  - intros c' Hstep. inversion Hstep as [? ? ? ? ? ? ? ? ? Hb]; subst. congruence.
Qed.

(** C15. A session ends with its calibration on file.  Take a run of the
    loop over keys that are not [q], free of undefined behaviour, and let
    the next key be [q] with a result file that opens; let the solver's step
    counts add up within an [int].  Then the session reaches a point where
    the loop is left, the keys after [q] are unread, the globals are as the
    captures left them, and the result file reads back as the solver's
    answer for the relative motions of the stored pairs. *)
Theorem quit_eventually_calibrates (P : Params) (pre post : list (Tick F)) (tq : Tick F)
    (g : Globals F) (files files1 : Files) (out1 : list Msg) :
  Forall (λ t, command_of_key (key t) ≠ CmdQuit) pre →
  command_of_key (key tq) = CmdQuit → can_open tq = true →
  main_loop P pre initial_globals files = Ok (g, files1, out1) →
  let answer := estimateHandEyeScrew (screw_of_motions (deriveAll (stored g))) in
  (INT_MIN ≤ num_unsuccessful_steps answer.2 + num_successful_steps answer.2 ≤ INT_MAX)%Z →
  eventually (session_step P)
    (λ c, halted c = true ∧ pending c = post ∧ globals c = g ∧
          disk c !! calibratedTransformFile P ≫= read_calibration =
            Some (calibration_result (Transform answer.1) answer.2))
    (Build_Config (pre ++ tq :: post) initial_globals files [] false).
Proof.
  intros Hno Hq Hopen Hrun answer Hsteps.
  assert (coherent g) as Hg
    by (eapply rtc_capture_step_coherent; [by eapply main_loop_steps|done]).
  eapply eventually_rtc; [by apply session_steps_prefix|].
  pose proof (loop_body_quit P tq g files1 Hq) as Hbody.
  unfold calibrate, solve_and_report in Hbody.
  rewrite (coherent_stored_input g Hg), Hopen in Hbody.
  fold answer in Hbody. destruct answer as [r s] eqn:Hanswer. cbn [fst snd] in *.
  pose proof (proj2 (writeCalibration_defined_iff (Transform r) (calibratedTransformFile P)
    s true files1) (or_intror Hsteps)) as [[f o] Hw]%is_ok_true.
  rewrite Hw in Hbody. simpl in Hbody.
  eapply eventually_step; [constructor; exact Hbody|]. apply eventually_done. simpl.
  split_and!; try done. by eapply writeCalibration_stores.
Qed.

(** ** The steps simulate the command surface *)

(** A point of a session as a state of the machine of [Events]. *)
Definition abstraction (c : Config F) : SessionState F :=
  session_of (globals c) (disk c) (halted c).

(** One step is the event of the tick it consumes. *)
Lemma session_step_event (P : Params) (c c' : Config F) :
  coherent (globals c) → session_step P c c' →
  ∃ t, pending c = t :: pending c' ∧ coherent (globals c') ∧
       abstraction c' = event_step P (event_of t) (abstraction c).
Proof.
  intros Hg Hstep. revert Hg.
  destruct Hstep as [t ticks g files out g' files' o quit Hbody]. intros Hg. exists t.
  by destruct (loop_body_event _ _ _ _ _ _ _ _ Hg Hbody) as [Hg' Habs].
Qed.

(** The simulation: the points a session reaches are, as states of the
    machine, those the events of the ticks consumed lead to. *)
Theorem session_steps_simulate (P : Params) (c c' : Config F) :
  coherent (globals c) → halted c = false → rtc (session_step P) c c' →
  ∃ consumed, pending c = consumed ++ pending c' ∧ coherent (globals c') ∧
    abstraction c' = events_run P (event_of <$> consumed) (abstraction c).
Proof.
  intros Hg Hrun Hsteps. revert Hg Hrun.
  induction Hsteps as [c|c c1 c' Hstep Hsteps IH]; intros Hg Hrun.
  { by exists []. }
  destruct (session_step_event P c c1 Hg Hstep) as (t & Hpending & Hg1 & Habs).
  destruct (halted c1) eqn:Hhalt.
  - inversion Hsteps as [|? c2 ? Hstep2]; subst.
    + exists [t]. rewrite Hpending. split_and!; [done..|].
      cbn [fmap list_fmap events_run]. rewrite <- Habs. unfold abstraction at 2.
      by rewrite Hhalt.
    + apply session_step_running in Hstep2. congruence.
  - destruct (IH Hg1 eq_refl) as (consumed & Hrest & Hg' & Habs').
    exists (t :: consumed). rewrite Hpending, Hrest. split_and!; [done..|].
    rewrite fmap_cons. cbn [events_run]. rewrite <- Habs. unfold abstraction at 2.
    by rewrite Hhalt.
Qed.

End Steps.

(** ** The theorems on a concrete session *)

Lemma quit_eventually_calibrates_witness :
  eventually (session_step default_params)
    (λ c, halted c = true ∧ pending c = [tick_d] ∧ globals c = sample_captures.1.1 ∧
          disk c !! calibratedTransformFile default_params ≫= read_calibration =
            Some (calibration_result
                    (Transform (estimateHandEyeScrew
                      (screw_of_motions (deriveAll (stored sample_captures.1.1)))).1)
                    (estimateHandEyeScrew
                      (screw_of_motions (deriveAll (stored sample_captures.1.1)))).2))
    (Build_Config ([tick_s0; tick_x; tick_s1] ++ tick_q :: [tick_d]) initial_globals ∅ []
       false).
Proof.
  apply (quit_eventually_calibrates default_params [tick_s0; tick_x; tick_s1] [tick_d]
           tick_q sample_captures.1.1 ∅ sample_captures.1.2 sample_captures.2);
    [repeat constructor; by vm_compute|reflexivity|reflexivity|exact sample_captures_run|
     by vm_compute].
Defined.

(** A capture during which the lookup of the end effector throws. *)
Definition tick_raise : Tick Q :=
  {| key := char "s"; camLookup := Found sample_tf_cam1; eeLookup := Raises;
     can_open := true |}.

Lemma lookup_exception_ends_session_witness :
  main_loop default_params ([tick_s0; tick_x; tick_s1] ++ tick_raise :: [tick_q])
    initial_globals ∅ = Undef UncaughtException ∧
  rtc (session_step default_params)
    (Build_Config ([tick_s0; tick_x; tick_s1] ++ tick_raise :: [tick_q]) initial_globals ∅ []
       false)
    (Build_Config (tick_raise :: [tick_q]) sample_captures.1.1 sample_captures.1.2
       sample_captures.2 false) ∧
  ¬ finished (Build_Config (tick_raise :: [tick_q]) sample_captures.1.1 sample_captures.1.2
                sample_captures.2 false) ∧
  ∀ c', ¬ session_step default_params
            (Build_Config (tick_raise :: [tick_q]) sample_captures.1.1 sample_captures.1.2
               sample_captures.2 false) c'.
Proof.
  apply (lookup_exception_ends_session default_params [tick_s0; tick_x; tick_s1] [tick_q]
           tick_raise);
    [repeat constructor; by vm_compute|exact sample_captures_run|reflexivity|reflexivity].
Defined.
