(* ===== verification/Main.v ===== *)
(** * Main: [main] on a terminal

    [Session] gives the loop of [main] over the keys that were pressed.
    The source takes each key from the terminal: an iteration starts with
    [key = getch()] (source line 446), which saves, changes and restores the
    settings of the terminal and consumes one character of standard input.
    This file puts the two together.  [iteration] is one turn of the loop
    with its call of [getch], [interactive_loop] the loop over a terminal
    ([Console]: the statics of [getch] and standard input), and [main] the
    whole program (source lines 396-496).

    What tf and the file system answer during an iteration is still an
    input, one [Answers] per iteration; the loop ends when they are
    exhausted ([ros::ok()] is false) or at the [q] key.

    The theorems show that the loop on a terminal is the loop of [Session]
    over the keys [getch] returns, that a session leaves the terminal as it
    found it with the characters after [q] unread, that typing keys and then
    [q] ends with the calibration on file, that a second run of [main]
    in batch mode reproduces what an interactive run wrote, and that [main]
    implements the command surface of [Events]. *)

From Stdlib Require Import ZArith QArith Lia Ascii.
From stdpp Require Import base tactics option list strings pretty gmap relations.
From S2P Require Import Prelude Scalar Eigen Ros Derive Capture Store Persist Calib.
From S2P Require Import Terminal Session Events.

(** ** Inputs *)

(** What the environment answers during one iteration, the key apart: tf
    to the two lookups of a capture, and the file system to the opening of
    a file for writing. *)
Record Answers (F : Type) : Type := {
  cam : Lookup F;
  ee : Lookup F;
  opens : bool;
}.
Arguments Build_Answers {F}.
Arguments cam {F} a.
Arguments ee {F} a.
Arguments opens {F} a.

(** The terminal between two calls of [getch]. *)
Record Console : Type := {
  statics : Statics;
  stdin : Stdin;
}.

#[export] Instance Stdin_eq_dec : EqDecision Stdin.
Proof. solve_decision. Defined.
#[export] Instance Statics_eq_dec : EqDecision Statics.
Proof. solve_decision. Defined.
#[export] Instance Console_eq_dec : EqDecision Console.
Proof. solve_decision. Defined.

(** The terminal when the program starts: the statics of [getch] are
    zero. *)
Definition start (s : Stdin) : Console := {| statics := initial_statics; stdin := s |}.

(** The inputs of one iteration, once the key is read. *)
Definition tick_of {F} (key : Z) (a : Answers F) : Tick F :=
  {| key := key; camLookup := cam a; eeLookup := ee a; can_open := opens a |}.

(** The answers of the environment that a tick holds. *)
Definition answers_of {F} (t : Tick F) : Answers F :=
  {| cam := camLookup t; ee := eeLookup t; opens := can_open t |}.

(** [getch] on a console. *)
Definition getch_console (c : Console) : Z * Console :=
  let '(key, st, s) := getch (statics c) (stdin c) in
  (key, {| statics := st; stdin := s |}).

(** The console after [n] calls of [getch]. *)
Definition console_after (n : nat) (c : Console) : Console :=
  Nat.iter n (λ c, (getch_console c).2) c.
Arguments console_after : simpl never.

(** The keys that the next [n] calls of [getch] return. *)
Definition keys_of (n : nat) (c : Console) : list Z :=
  getch_keys n (statics c) (stdin c).
Arguments keys_of : simpl never.

(** The number of iterations the loop makes over [keys]: one per key, up to
    and including the first [q]. *)
Fixpoint iterations (keys : list Z) : nat :=
  match keys with
  | [] => 0
  | key :: keys' =>
    if decide (command_of_key key = CmdQuit) then 1 else S (iterations keys')
  end.

Section Main.
Context {F : Type} `{ScalarOps F} `{RotationLib F} `{Sqrt F} `{StreamOut F} `{Round F}
  `{TfLib F} `{HandEyeSolver F}.

Local Notation "'Files'" := (gmap string (gmap string (FileNode F))) (only parsing).
Implicit Types (P : Params) (a : Answers F) (env : list (Answers F)) (c : Console)
  (g : Globals F) (files : Files) (out : list Msg).

(** The ticks of a session: the keys the console yields, with the answers
    of the environment. *)
Definition ticks_of (c : Console) (env : list (Answers F)) : list (Tick F) :=
  zip_with tick_of (keys_of (length env) c) env.

(** ** The program *)

(** One iteration of the loop (source lines 446-491): the key is read from
    the terminal, then its branch runs. *)
Definition iteration P a c g files
    : outcome (Globals F * Files * list Msg * bool * Console) :=
  let '(key, c') := getch_console c in
  '(g', files', out, quit) ← loop_body P (tick_of key a) g files;
  mret (g', files', out, quit, c').

(** The loop (source lines 444-492) on a terminal. *)
Fixpoint interactive_loop P env c g files
    : outcome (Globals F * Files * list Msg * Console) :=
  match env with
  | [] => Ok (g, files, [], c)
  | a :: env' =>
    '(g', files', out, quit, c') ← iteration P a c g files;
    if quit : bool then mret (g', files', out, c')
    else
      '(g'', files'', out', c'') ← interactive_loop P env' c' g' files';
      mret (g'', files'', out ++ out', c'')
  end.

(** The three lines of help (source lines 440-442). *)
Definition help : list Msg :=
  [ROS_INFO (esc +:+ "[1;35m Press s to add the current frame transformation to the cache."
             +:+ esc +:+ "[0m");
   ROS_INFO (esc +:+ "[1;34m Press d to delete last frame transformation."
             +:+ esc +:+ "[0m");
   ROS_INFO (esc +:+ "[1;33m Press q to calibrate frame transformation and exit the application."
             +:+ esc +:+ "[0m")].

(** [main] (source lines 396-496) on the standard input [s]: the exit
    code, the files and the standard input afterwards, and what was
    printed.  The statics of [getch] are zero when the program starts.
    [can_open] says whether the result file can be opened in batch mode;
    [u1] and [u2] are what the uninitialised locals of [estimateHandEye]
    hold. *)
Definition main (server : gmap string ParamValue) env (s : Stdin) (can_open : bool)
    (u1 u2 : Affine3d F) files : outcome (Z * Files * list Msg * Stdin) :=
  let P := read_params server in
  let out0 := [CERR ("Calibrated output file: " +:+ calibratedTransformFile P +:+ nl)] in
  if loadTransformsFromFile P then
    '(files', out) ← main_batch P can_open u1 u2 files;
    mret (0%Z, files', out0 ++ out, s)
  else
    '(_, files', out, c') ← interactive_loop P env (start s) initial_globals files;
    mret (0%Z, files',
          out0
          ++ [CERR ("Transform pairs recording to file: " +:+ transformPairsRecordFile P +:+ nl)]
          ++ help ++ out,
          stdin c').

(** ** The console *)

Lemma console_after_S (n : nat) c :
  console_after (S n) c = console_after n (getch_console c).2.
Proof. unfold console_after. by rewrite Nat.iter_succ_r. Qed.

Lemma keys_of_S (n : nat) c :
  keys_of (S n) c = (getch_console c).1 :: keys_of n (getch_console c).2.
Proof.
  unfold keys_of, getch_console. simpl.
  by destruct (getch (statics c) (stdin c)) as [[k st] s].
Qed.

Lemma length_keys_of (n : nat) c : length (keys_of n c) = n.
Proof.
  revert c. induction n as [|n IH]; intros c; [done|]. rewrite keys_of_S. simpl. by rewrite IH.
Qed.

(** Standard input after [n] calls: the settings are the ones found, and
    [n] characters were taken. *)
Lemma stdin_console_after (n : nat) c :
  stdin (console_after n c) =
  {| isatty := isatty (stdin c); attributes := attributes (stdin c);
     chars := drop n (chars (stdin c)) |}.
Proof.
  revert c. induction n as [|n IH]; intros c.
  - unfold console_after. simpl. by destruct (stdin c).
  - rewrite console_after_S, IH. unfold getch_console.
    pose proof (getch_stdin (statics c) (stdin c)) as Hs.
    destruct (getch (statics c) (stdin c)) as [[k st] s]. simpl in *. subst s. simpl.
    destruct (chars (stdin c)); simpl; by rewrite ?drop_nil.
Qed.

Lemma keys_of_chars (n : nat) c :
  keys_of n c =
  take n ((char <$> chars (stdin c)) ++ replicate (n - length (chars (stdin c))) EOF).
Proof. apply getch_keys_spec. Qed.

Lemma ticks_of_cons a env c :
  ticks_of c (a :: env) =
  tick_of (getch_console c).1 a :: ticks_of (getch_console c).2 env.
Proof. unfold ticks_of. simpl length. by rewrite keys_of_S. Qed.

Lemma key_ticks_of env c : key <$> ticks_of c env = keys_of (length env) c.
Proof. apply fmap_zip_with_l; [done|]. by rewrite length_keys_of. Qed.

(** ** The loop on a terminal is the loop over its keys *)

Lemma loop_body_quit_iff P (t : Tick F) g g' files files' out (quit : bool) :
  loop_body P t g files = Ok (g', files', out, quit) →
  quit = bool_decide (command_of_key (key t) = CmdQuit).
Proof.
  intros Hbody. case_bool_decide as Hcmd.
  - rewrite (loop_body_quit _ _ _ _ Hcmd) in Hbody.
    by apply fmap_Ok in Hbody as (? & _ & [= _ _ _ ->]).
  - by eapply loop_body_no_quit.
Qed.

Lemma interactive_loop_main_loop P env c g files :
  interactive_loop P env c g files =
  (λ r, (r, console_after (iterations (key <$> ticks_of c env)) c))
    <$> main_loop P (ticks_of c env) g files.
Proof.
  revert c g files. induction env as [|a env IH]; intros c g files; [done|].
  rewrite ticks_of_cons. cbn [interactive_loop main_loop fmap list_fmap iterations].
  unfold iteration. destruct (getch_console c) as [k c'] eqn:Hc. cbn [fst snd key tick_of].
  destruct (loop_body P (tick_of k a) g files) as [[[[g1 f1] o1] quit]|u] eqn:Hbody; [|done].
  pose proof (loop_body_quit_iff _ _ _ _ _ _ _ _ Hbody) as Hq. simpl in Hq. subst quit.
  case_bool_decide; [rewrite decide_True by done|rewrite decide_False by done]; simpl.
  - unfold console_after. simpl. by rewrite Hc.
  - rewrite IH, console_after_S, Hc. simpl.
    by destruct (main_loop P (ticks_of c' env) g1 f1) as [[[g2 f2] o2]|].
Qed.


(** ** Keys that are typed *)

Lemma getch_console_cons c (ch : ascii) (rest : list ascii) :
  chars (stdin c) = ch :: rest →
  (getch_console c).1 = char ch ∧ chars (stdin (getch_console c).2) = rest.
Proof.
  intros Hc. unfold getch_console.
  pose proof (getch_key (statics c) (stdin c)) as Hk.
  pose proof (getch_stdin (statics c) (stdin c)) as Hs.
  destruct (getch (statics c) (stdin c)) as [[k st] s]. simpl in *. subst.
  by rewrite Hc.
Qed.

(** While characters are left, the ticks are made of them. *)
Lemma ticks_of_typed (pre rest : list ascii) (epre env : list (Answers F)) c :
  chars (stdin c) = pre ++ rest → length epre = length pre →
  ticks_of c (epre ++ env) =
  zip_with tick_of (char <$> pre) epre ++ ticks_of (console_after (length pre) c) env.
Proof.
  revert epre c. induction pre as [|ch pre IH]; intros [|a epre] c Hc Hlen; simplify_eq/=.
  { done. }
  destruct (getch_console_cons c ch (pre ++ rest) Hc) as [Hk Hc'].
  rewrite ticks_of_cons, Hk, console_after_S. f_equal. by apply IH.
Qed.

Lemma key_zip_with_tick_of (keys : list Z) env :
  length keys ≤ length env → key <$> zip_with tick_of keys env = keys.
Proof. by apply fmap_zip_with_l. Qed.

Lemma iterations_le (keys : list Z) : iterations keys ≤ length keys.
Proof. induction keys as [|k keys IH]; simpl; [done|]. case_decide; lia. Qed.

Lemma iterations_app_quit (pre rest : list Z) (q : Z) :
  Forall (λ k, command_of_key k ≠ CmdQuit) pre → command_of_key q = CmdQuit →
  iterations (pre ++ q :: rest) = S (length pre).
Proof.
  intros Hpre Hq. induction Hpre as [|k pre Hk _ IH]; simpl.
  - by rewrite decide_True.
  - by rewrite decide_False, IH.
Qed.

Lemma iterations_no_quit (keys : list Z) :
  Forall (λ k, command_of_key k ≠ CmdQuit) keys → iterations keys = length keys.
Proof. induction 1; simpl; [done|]. rewrite decide_False by done. lia. Qed.

Lemma Forall_zip_with_tick_of (φ : Z → Prop) (keys : list Z) env :
  Forall φ keys → Forall (λ t, φ (key t)) (zip_with tick_of keys env).
Proof.
  intros Hkeys. revert env. induction Hkeys; intros [|a env]; simpl; constructor; auto.
Qed.

Lemma length_ticks_of env c : length (ticks_of c env) = length env.
Proof. unfold ticks_of. by rewrite length_zip_with_r_eq by by rewrite length_keys_of. Qed.

Lemma answers_ticks_of env c : answers_of <$> ticks_of c env = env.
Proof. apply fmap_zip_with_r; [by intros k []|]. by rewrite length_keys_of. Qed.

(** C13. The loop on a terminal is the loop of [Session] over the keys
    that [getch] returns.  The ticks of a session are the characters of
    standard input in order, then [EOF] once it is exhausted, each with the
    answers of the environment for its iteration; the loop on the terminal
    has the outcome of [main_loop] over these ticks, and leaves the
    terminal as one call of [getch] per iteration leaves it. *)
Theorem interactive_loop_reads_terminal P env c g files :
  key <$> ticks_of c env =
    take (length env)
      ((char <$> chars (stdin c)) ++ replicate (length env - length (chars (stdin c))) EOF) ∧
  answers_of <$> ticks_of c env = env ∧
  interactive_loop P env c g files =
    (λ r, (r, console_after (iterations (key <$> ticks_of c env)) c))
      <$> main_loop P (ticks_of c env) g files.
Proof.
  split_and!; [by rewrite key_ticks_of, keys_of_chars|apply answers_ticks_of|
               apply interactive_loop_main_loop].
Qed.

(** C20. A session leaves the terminal as it found it.  Whenever [main]
    returns, its exit code is 0, standard input is a terminal or not as it
    was, the settings of the terminal are the ones found, and the
    characters taken from the input are one per iteration of the loop, up to
    and including the first [q]: what was typed after it is still there.
    Batch mode takes none. *)
Theorem main_leaves_terminal (server : gmap string ParamValue) env (s s' : Stdin)
    (can_open : bool) (u1 u2 : Affine3d F) files files' (code : Z) out :
  main server env s can_open u1 u2 files = Ok (code, files', out, s') →
  code = 0%Z ∧ isatty s' = isatty s ∧ attributes s' = attributes s ∧
  chars s' =
    drop (if loadTransformsFromFile (read_params server) then 0
          else iterations (keys_of (length env) (start s))) (chars s).
Proof.
  unfold main. destruct (loadTransformsFromFile _).
  - by intros ([f o] & _ & [= <- _ _ <-])%bind_Ok.
  - rewrite interactive_loop_main_loop, key_ticks_of.
    intros ([[[g f] o] c'] & ([[g' f'] o'] & _ & [= _ _ _ ->])%fmap_Ok & [= <- _ _ <-])%bind_Ok.
    by rewrite stdin_console_after.
Qed.

(** [main] on a terminal where keys other than [q] and then [q] are
    typed is the loop over these keys: it returns 0 with the files the
    loop leaves, the characters after [q] unread and the settings of the
    terminal as they were. *)
Lemma main_typed (server : gmap string ParamValue) (epre epost : list (Answers F))
    (aq : Answers F) (s : Stdin) (pre post : list ascii) (q : ascii) (can_open : bool)
    (u1 u2 : Affine3d F) files :
  loadTransformsFromFile (read_params server) = false →
  chars s = pre ++ q :: post → length epre = length pre →
  Forall (λ ch, command_of_key (char ch) ≠ CmdQuit) pre →
  command_of_key (char q) = CmdQuit →
  ∃ rest, ∀ g files' out,
    main_loop (read_params server)
      (zip_with tick_of (char <$> pre) epre ++ tick_of (char q) aq :: rest)
      initial_globals files = Ok (g, files', out) →
    ∃ out' s',
      main server (epre ++ aq :: epost) s can_open u1 u2 files = Ok (0%Z, files', out', s') ∧
      chars s' = post ∧ attributes s' = attributes s.
Proof.
  intros Hint Hchars Hlen Hpre Hq.
  assert (Forall (λ k, command_of_key k ≠ CmdQuit) (char <$> pre)) as Hkeys
    by by apply Forall_fmap.
  exists (ticks_of (getch_console (console_after (length pre) (start s))).2 epost).
  intros g files' out Hrun. unfold main. rewrite Hint, interactive_loop_main_loop.
  rewrite (ticks_of_typed pre (q :: post) epre (aq :: epost) (start s) Hchars Hlen).
  rewrite ticks_of_cons.
  destruct (getch_console_cons (console_after (length pre) (start s)) q post) as [-> _].
  { rewrite stdin_console_after. simpl. rewrite Hchars. apply drop_app_length. }
  rewrite Hrun. simpl. eexists _, _. split; [done|].
  rewrite fmap_app, key_zip_with_tick_of by (rewrite length_fmap; lia).
  rewrite fmap_cons, iterations_app_quit, length_fmap, stdin_console_after by done. simpl.
  split; [|done]. rewrite Hchars, drop_app_ge by lia.
  by replace (S (length pre) - length pre) with 1 by lia.
Qed.

(** C7. Typing [q] ends the session with the calibration on file.  Let the
    characters typed be keys other than [q] followed by [q] and whatever
    else, let the loop over the keys before [q] be free of undefined
    behaviour, let the result file open at [q], and let the solver's step
    counts add up within an [int].  Then [main] returns 0, the result file
    reads back as the solver's answer for the relative motions of the
    pairs stored when [q] was typed, the characters after [q] are unread,
    and the terminal has the settings it had. *)
Theorem typed_session_calibrates (server : gmap string ParamValue)
    (epre epost : list (Answers F)) (aq : Answers F) (s : Stdin) (pre post : list ascii)
    (q : ascii) (can_open : bool) (u1 u2 : Affine3d F) g files files1 out1 :
  loadTransformsFromFile (read_params server) = false →
  chars s = pre ++ q :: post → length epre = length pre →
  Forall (λ ch, command_of_key (char ch) ≠ CmdQuit) pre →
  command_of_key (char q) = CmdQuit → opens aq = true →
  main_loop (read_params server) (zip_with tick_of (char <$> pre) epre) initial_globals files =
    Ok (g, files1, out1) →
  let answer := estimateHandEyeScrew (screw_of_motions (deriveAll (stored g))) in
  (INT_MIN ≤ num_unsuccessful_steps answer.2 + num_successful_steps answer.2 ≤ INT_MAX)%Z →
  ∃ files' out s',
    main server (epre ++ aq :: epost) s can_open u1 u2 files = Ok (0%Z, files', out, s') ∧
    files' !! calibratedTransformFile (read_params server) ≫= read_calibration =
      Some (calibration_result (Transform answer.1) answer.2) ∧
    chars s' = post ∧ attributes s' = attributes s.
Proof.
  intros Hint Hchars Hlen Hpre Hq Hopen Hrun answer Hsteps.
  destruct (main_typed server epre epost aq s pre post q can_open u1 u2 files
    Hint Hchars Hlen Hpre Hq) as (rest & Hmain).
  assert (Forall (λ k, command_of_key k ≠ CmdQuit) (char <$> pre)) as Hkeys
    by by apply Forall_fmap.
  destruct (main_loop_quit_calibrates (read_params server) _ rest (tick_of (char q) aq)
    g files files1 out1 (Forall_zip_with_tick_of _ _ _ Hkeys) Hq Hopen Hrun Hsteps)
    as (files' & out & Hloop & Hres).
  destruct (Hmain _ _ _ Hloop) as (out' & s' & Hm & Hpost & Hattr).
  by exists files', out', s'.
Qed.

(** C4. Replaying a session reproduces its calibration.  Run [main]
    interactively on a terminal: any keys but [q], then a capture whose
    record file opens, then [q].  Run [main] again in batch mode on the
    files the first run left, with parameters that load the file the first
    run recorded and name the same result file.  Then both runs return 0
    and the second leaves every file as the first left it: it computes and
    writes the same calibration. *)
Theorem main_replay_reproduces_calibration (server server' : gmap string ParamValue)
    (env env' : list (Answers F)) (s s' s1 : Stdin) (ticks : list (Tick F)) (ts tq : Tick F)
    (can_open' : bool) (u1 u2 u1' u2' : Affine3d F) files files' (code : Z) out :
  loadTransformsFromFile (read_params server) = false →
  loadTransformsFromFile (read_params server') = true →
  transformPairsLoadFile (read_params server') = transformPairsRecordFile (read_params server) →
  calibratedTransformFile (read_params server') = calibratedTransformFile (read_params server) →
  transformPairsRecordFile (read_params server) ≠ calibratedTransformFile (read_params server) →
  ticks_of (start s) env = ticks ++ [ts; tq] →
  Forall (λ t, command_of_key (key t) ≠ CmdQuit) ticks →
  command_of_key (key ts) = CmdAdd → can_open ts = true →
  command_of_key (key tq) = CmdQuit →
  main server env s can_open' u1 u2 files = Ok (code, files', out, s1) →
  code = 0%Z ∧
  (λ r, r.1.1) <$> main server' env' s' (can_open tq) u1' u2' files' = Ok (0%Z, files').
Proof.
  intros Hint Hbatch Hload Hcal Hne Hticks Hno Hs Hopen Hq. unfold main.
  rewrite Hint, Hbatch, interactive_loop_main_loop, Hticks.
  intros ([[[g f] o] c'] & ([[g' f'] o'] & Hrun & [= -> -> -> _])%fmap_Ok
          & [= <- <- _ _])%bind_Ok.
  pose proof (session_replay _ _ _ _ _ u1' u2' _ _ _ _
    Hno Hs Hopen Hq Hload Hcal Hne Hrun) as ([f'' o''] & -> & ->)%fmap_Ok.
  done.
Qed.

(** C32. The end of the input is not noticed.  On a standard input that
    is exhausted [getch] returns [EOF] every time, which is no command: the
    loop changes neither the globals nor the files, prints [-1 pressed.]
    once per iteration, and goes on for as long as [ros::ok()] holds; [main]
    then returns 0 without a calibration. *)
Theorem main_at_end_of_input (server : gmap string ParamValue) env (s : Stdin)
    (can_open : bool) (u1 u2 : Affine3d F) files :
  loadTransformsFromFile (read_params server) = false → chars s = [] →
  main server env s can_open u1 u2 files =
    Ok (0%Z, files,
        [CERR ("Calibrated output file: "
               +:+ calibratedTransformFile (read_params server) +:+ nl);
         CERR ("Transform pairs recording to file: "
               +:+ transformPairsRecordFile (read_params server) +:+ nl)]
        ++ help ++ replicate (length env) (CERR ("-1 pressed." +:+ nl)),
        s).
Proof.
  intros Hint Hs. unfold main. rewrite Hint, interactive_loop_main_loop.
  rewrite (main_loop_at_end_of_input _ _ initial_statics s), length_ticks_of;
    [|done|by rewrite key_ticks_of, length_ticks_of].
  cbn [fmap outcome_fmap mbind outcome_bind mret outcome_ret]. do 2 f_equal.
  rewrite stdin_console_after. simpl. rewrite Hs, drop_nil, <- Hs. by destruct s.
Qed.

(** C2. The program implements the command surface of section 6.  [main]
    returns if and only if the run is valid for the machine of [Events]: in
    batch mode the file to load is missing or well formed with at most
    [INT_MAX] pairs and the step counts of a result file that opens add up
    within an [int]; interactively every iteration up to the first [q] is
    valid, over the keys the terminal yields and the answers of tf and the
    file system.  The files it then leaves are those of the machine: in
    batch mode those after [finalize] on the pairs of the file to load,
    interactively those after the events of the keys, from the empty
    store. *)
Theorem main_implements_events (server : gmap string ParamValue) env (s : Stdin)
    (can_open : bool) (u1 u2 : Affine3d F) files :
  let P := read_params server in
  let ticks := ticks_of (start s) env in
  (is_ok (main server env s can_open u1 u2 files) = true ↔
   program_valid P ticks can_open files) ∧
  ∀ (code : Z) files' out (s' : Stdin),
    main server env s can_open u1 u2 files = Ok (code, files', out, s') →
    files' = persisted (program_events P ticks can_open files).
Proof.
  intros P ticks. unfold main, program_valid, program_events. fold P.
  destruct (loadTransformsFromFile P).
  - destruct (main_batch_event P can_open u1 u2 files) as [Hdef Hres]. rewrite <- Hdef.
    destruct (main_batch P can_open u1 u2 files) as [[f o]|]; [|done].
    split; [done|]. intros code files' out s' [= _ <- _ _]. by eapply Hres.
  - rewrite interactive_loop_main_loop. fold ticks.
    destruct (main_loop_refines_events P ticks initial_globals files) as [Hdef Hres];
      [by split|].
    change (session_of initial_globals files false) with (initial_session files) in *.
    rewrite <- Hdef. destruct (main_loop P ticks initial_globals files) as [[[g f] o]|]; [|done].
    split; [done|]. intros code files' out s' [= _ <- _ _]. by eapply Hres.
Qed.

End Main.

(** ** The theorems on a concrete terminal *)

(** A terminal on which [s], [x], [S], [q] and [d] are typed, and what tf
    and the file system answer during the first four iterations. *)
Definition sample_typed : Stdin :=
  {| isatty := true; attributes := attributes sample_stdin;
     chars := ["s"; "x"; "S"; "q"; "d"]%char |}.

Definition sample_env : list (Answers Q) := answers_of <$> [tick_s0; tick_x; tick_s1; tick_q].

Lemma sample_ticks :
  ticks_of (start sample_typed) sample_env = [tick_s0; tick_x] ++ [tick_s1; tick_q].
Proof. reflexivity. Qed.

Definition sample_main
    : Z * gmap string (gmap string (FileNode Q)) * list Msg * Stdin :=
  returned (1%Z, ∅, [], sample_typed)
    (main ∅ sample_env sample_typed false identity identity ∅).

Lemma sample_main_run :
  main ∅ sample_env sample_typed false identity identity ∅ =
  Ok (sample_main.1.1.1, sample_main.1.1.2, sample_main.1.2, sample_main.2).
Proof. rewrite <- !surjective_pairing. apply returned_Ok. vm_compute. reflexivity. Qed.

Lemma main_leaves_terminal_witness :
  sample_main.1.1.1 = 0%Z ∧ isatty sample_main.2 = isatty sample_typed ∧
  attributes sample_main.2 = attributes sample_typed ∧
  chars sample_main.2 =
    drop (if loadTransformsFromFile (read_params ∅) then 0
          else iterations (keys_of (length sample_env) (start sample_typed)))
      (chars sample_typed).
Proof. exact (main_leaves_terminal _ _ _ _ _ _ _ _ _ _ _ sample_main_run). Defined.

(** The files the session leaves are those of the machine. *)
Lemma main_implements_events_witness :
  sample_main.1.1.2 =
  persisted (program_events (read_params ∅) (ticks_of (start sample_typed) sample_env)
               false ∅).
Proof.
  exact (proj2 (main_implements_events ∅ sample_env sample_typed false identity identity ∅)
           _ _ _ _ sample_main_run).
Defined.

(** After the session the [d] that was typed after [q] is still to be
    read. *)
Example sample_main_unread : chars sample_main.2 = ["d"]%char.
Proof. reflexivity. Qed.

Lemma typed_session_calibrates_witness :
  ∃ files' out s',
    main ∅ (take 3 sample_env ++ answers_of tick_q :: []) sample_typed false
      identity identity ∅ = Ok (0%Z, files', out, s') ∧
    files' !! calibratedTransformFile (read_params ∅) ≫= read_calibration =
      Some (calibration_result
              (Transform (estimateHandEyeScrew
                 (screw_of_motions (deriveAll (stored sample_captures.1.1)))).1)
              (estimateHandEyeScrew
                 (screw_of_motions (deriveAll (stored sample_captures.1.1)))).2) ∧
    chars s' = ["d"]%char ∧ attributes s' = attributes sample_typed.
Proof.
  apply (typed_session_calibrates ∅ (take 3 sample_env) [] (answers_of tick_q) sample_typed
           ["s"; "x"; "S"]%char ["d"]%char "q"%char false identity identity
           sample_captures.1.1 ∅ sample_captures.1.2 sample_captures.2);
    [reflexivity|reflexivity|reflexivity|repeat constructor; by vm_compute|reflexivity|
     reflexivity|exact sample_captures_run|by vm_compute].
Defined.

Lemma main_replay_reproduces_calibration_witness :
  sample_main.1.1.1 = 0%Z ∧
  (λ r, r.1.1) <$> main replay_server [] sample_typed (can_open tick_q) sample_turn_z
                     sample_shift sample_main.1.1.2 = Ok (0%Z, sample_main.1.1.2).
Proof.
  apply (main_replay_reproduces_calibration ∅ replay_server sample_env [] sample_typed
           sample_typed sample_main.2 [tick_s0; tick_x] tick_s1 tick_q false
           identity identity sample_turn_z sample_shift ∅ _ _ sample_main.1.2);
    [reflexivity|reflexivity|reflexivity|reflexivity|by vm_compute|exact sample_ticks|
     repeat constructor; by vm_compute|reflexivity|reflexivity|reflexivity|
     exact sample_main_run].
Defined.

(** A standard input that is no terminal and has ended. *)
Definition sample_closed : Stdin :=
  {| isatty := false; attributes := zero_termios; chars := [] |}.

Lemma main_at_end_of_input_witness :
  main ∅ (take 2 sample_env) sample_closed true identity identity ∅ =
    Ok (0%Z, ∅,
        [CERR ("Calibrated output file: " +:+ calibratedTransformFile (read_params ∅) +:+ nl);
         CERR ("Transform pairs recording to file: "
               +:+ transformPairsRecordFile (read_params ∅) +:+ nl)]
        ++ help ++ replicate 2 (CERR ("-1 pressed." +:+ nl)),
        sample_closed).
Proof.
  exact (main_at_end_of_input ∅ (take 2 sample_env) sample_closed true identity identity ∅
           eq_refl eq_refl).
Defined.

(** With the default parameters, one capture followed by [d] leaves the
    defined fragment of C++. *)
Example main_capture_then_delete_undefined :
  main ∅ (answers_of <$> [tick_s0; tick_d])
    {| isatty := true; attributes := zero_termios; chars := ["s"; "d"]%char |}
    true identity identity ∅ = Undef PopBackEmpty.
Proof. vm_compute. reflexivity. Qed.
