(* ===== verification/Scene.v ===== *)
(** * Scene: the frames behind the lookups, and what a session measures

    [addFrame] asks the tf listener twice (source lines 303-305 and
    313-314): for the transform with target [ARTagTFname] and source
    [cameraTFname], and for the one with target [baseTFname] and source
    [EETFname].  In [Capture] the two answers are inputs.  Here they are
    computed from the frames the listener tracks: a tree of frames is a map
    from the name of a frame to its pose in the frame at the root, and the
    transform with target [t] and source [s] is the pose of [s] in [t],
    that is [inverse t * s]; a frame the listener does not know makes
    [waitForTransform] time out.  tf is a library the source only calls, so
    [lookupTransform] is modelled from the contract of the pose source
    (section 6 of the specification) and the convention of tf.

    The scene of a hand-eye calibration is a camera mounted on the end
    effector by a fixed transform [X] and a tag fixed in the base frame at
    [W] ([mounted]).  The theorems show that in such a scene the two lookups
    of [addFrame], with the frame names in the order the source passes them,
    yield a pair of poses [E], [C] with [E X ≡ W C]; that every pair a
    session stores is such a pair, captures and deletions included; that
    every [s] key stores a pair; and that a session of captures and stray
    keys ended by [q] returns with the result file holding the solver's
    answer on one motion per capture after the first, each of transforms
    [A], [B] with [A X ≡ X B]: the unknown of the equation the program sets
    up is the pose of the camera frame in the frame of the end effector. *)

From Stdlib Require Import ZArith QArith Lia Ascii.
From stdpp Require Import base tactics option list strings pretty gmap.
From S2P Require Import Prelude Scalar Eigen Ros Derive Rigid Capture Store Persist Calib.
From S2P Require Import Terminal Session Main.

(** ** Data *)

(** The world during one iteration of the loop: the pose of every frame
    the listener tracks, in the frame at the root of its tree, and whether
    a file can be opened for writing. *)
Record Instant (F : Type) : Type := {
  frames : gmap string (Affine3d F);
  writable : bool;
}.
Arguments Build_Instant {F}.
Arguments frames {F} i.
Arguments writable {F} i.

(** The number of [s] keys among [keys]. *)
Definition captures (keys : list Z) : nat :=
  length (filter (λ k, command_of_key k = CmdAdd) keys).

Section Lookups.
Context {F : Type} `{ScalarOps F}.
Local Open Scope eigen_scope.

(** A transform as tf hands it out: rotation basis and origin. *)
Definition stamped (a : Affine3d F) : StampedTransform F :=
  {| getBasis := linear a; getOrigin := translation a |}.

(** [waitForTransform(target, source, now, timeout)] followed by
    [lookupTransform(target, source, now, out)]: the pose of the frame
    [source] in the frame [target], when the listener knows both. *)
Definition lookupTransform (fr : gmap string (Affine3d F)) (target source : string)
    : Lookup F :=
  match fr !! target, fr !! source with
  | Some t, Some s => Found (stamped (inverse t * s))
  | _, _ => TimedOut
  end.

(** The answers of the world to one iteration: the two lookups of
    [addFrame] with the frame names the source passes (lines 303-305 and
    313-314), and the opening of a file. *)
Definition answers_at (P : Params) (w : Instant F) : Answers F :=
  {| cam := lookupTransform (frames w) (ARTagTFname P) (cameraTFname P);
     ee := lookupTransform (frames w) (baseTFname P) (EETFname P);
     opens := writable w |}.

End Lookups.

Section Scene.
Context {F : Type} `{ExactField F} `{RotationLib F} `{Sqrt F} `{StreamOut F} `{Round F}
  `{TfLib F} `{HandEyeSolver F}.
Local Open Scope eigen_scope.

Local Notation "'Files'" := (gmap string (gmap string (FileNode F))) (only parsing).
Implicit Types (P : Params) (X W : Affine3d F) (g : Globals F) (files : Files)
  (fr : gmap string (Affine3d F)) (t : Tick F).

(** The scene of a calibration: the camera frame sits at [X] in the frame
    of the end effector, the tag at [W] in the base frame. *)
Definition mounted P X W fr : Prop :=
  ∃ base tip camera tag,
    fr !! baseTFname P = Some base ∧ fr !! EETFname P = Some tip ∧
    fr !! cameraTFname P = Some camera ∧ fr !! ARTagTFname P = Some tag ∧
    invertible base ∧ invertible tip ∧ camera ≡ tip * X ∧ tag ≡ base * W.

(** A pose pair as such a scene yields it. *)
Definition measured X W (p : PosePair F) : Prop :=
  invertible (poseA p) ∧ invertible (poseB p) ∧ poseA p * X ≡ W * poseB p.

(** A tick whose lookups are answered from such a scene. *)
Definition sees P X W t : Prop :=
  ∃ fr, mounted P X W fr ∧
    camLookup t = lookupTransform fr (ARTagTFname P) (cameraTFname P) ∧
    eeLookup t = lookupTransform fr (baseTFname P) (EETFname P).

(** The globals of a session in such a scene. *)
Definition consistent X W g : Prop :=
  coherent g ∧ Forall (measured X W) (stored g).

(** ** The lookups *)

Lemma transformTFToEigen_stamped (a : Affine3d F) : transformTFToEigen (stamped a) ≡ a.
Proof.
  split; [by rewrite linear_transformTFToEigen|by rewrite translation_transformTFToEigen].
Qed.

(** A lookup times out exactly when the listener does not know one of the
    two frames; in a tree of frames it never throws. *)
Lemma lookupTransform_TimedOut fr (target source : string) :
  lookupTransform fr target source = TimedOut ↔ fr !! target = None ∨ fr !! source = None.
Proof.
  unfold lookupTransform. destruct (fr !! target), (fr !! source); split; try done; auto.
  by intros [|].
Qed.

Lemma lookupTransform_throws fr (target source : string) :
  throws (lookupTransform fr target source) = false.
Proof. unfold lookupTransform. by destruct (fr !! target), (fr !! source). Qed.

Lemma compose_cancel_l (a b : Affine3d F) : invertible a → a * (inverse a * b) ≡ b.
Proof. intros Ha. by rewrite <- compose_assoc, inverse_r, compose_identity_l. Qed.

(** The two lookups of [addFrame] in a scene: the pose [E] of the end
    effector in the base frame and the pose [C] of the camera in the frame
    of the tag, with [E X ≡ W C]. *)
Lemma lookup_mounted P X W fr :
  invertible X → invertible W → mounted P X W fr →
  ∃ E C,
    lookupTransform fr (baseTFname P) (EETFname P) = Found (stamped E) ∧
    lookupTransform fr (ARTagTFname P) (cameraTFname P) = Found (stamped C) ∧
    measured X W (Build_PosePair (transformTFToEigen (stamped E))
                                 (transformTFToEigen (stamped C))).
Proof.
  intros HX HW (base & tip & camera & tag & Hb & Ht & Hc & Hg & Hib & Hit & Hcam & Htag).
  unfold lookupTransform. rewrite Hb, Ht, Hc, Hg. eexists _, _. split_and!; [done..|].
  assert (invertible tag) by (rewrite Htag; by apply invertible_compose).
  assert (invertible camera) by (rewrite Hcam; by apply invertible_compose).
  unfold measured. cbn [poseA poseB]. rewrite !transformTFToEigen_stamped.
  split_and!; try by (apply invertible_compose; [apply invertible_inverse|]).
  rewrite Hcam, Htag, inverse_compose, (compose_assoc (inverse W)) by done.
  by rewrite compose_cancel_l, compose_assoc.
Qed.

Lemma sees_zip_with P X W (keys : list Z) (ws : list (Instant F)) :
  Forall (mounted P X W) (frames <$> ws) →
  Forall (sees P X W) (zip_with tick_of keys (answers_at P <$> ws)).
Proof.
  revert keys. induction ws as [|w ws IH]; intros [|k keys] Hws; simpl; try done.
  apply Forall_cons in Hws as [Hw Hws]. constructor; [by exists (frames w)|by apply IH].
Qed.

(** ** The invariant of a session in a scene *)

Lemma consistent_initial X W : consistent X W initial_globals.
Proof. by split. Qed.

(** A capture in a scene stores one pair, measured in the scene. *)
Lemma loop_body_capture P X W t g g' files files' (out : list Msg) (quit : bool) :
  invertible X → invertible W → sees P X W t → coherent g →
  command_of_key (key t) = CmdAdd →
  loop_body P t g files = Ok (g', files', out, quit) →
  ∃ p, measured X W p ∧ stored g' = stored g ++ [p] ∧ coherent g'.
Proof.
  intros HX HW (fr & Hm & Hcam & Hee) Hg Hcmd. unfold loop_body. rewrite Hcmd.
  destruct (lookup_mounted P X W fr HX HW Hm) as (E & C & HE & HC & Hmeas).
  intros ([g1 o1] & [_ Hadd]%addFrame_tf_Ok & Hrun)%bind_Ok.
  rewrite Hcam, HC, Hee, HE in Hadd. cbn [answer] in Hadd.
  apply bind_Ok in Hrun as ([[? ?] ?] & _ & [= <- _ _ _]).
  apply (f_equal fst) in Hadd. cbn [fst] in Hadd. subst g1.
  eexists. split; [exact Hmeas|]. split; [by apply stored_addFrame|by apply addFrame_coherent].
Qed.

Lemma loop_body_consistent P X W t g g' files files' (out : list Msg) (quit : bool) :
  invertible X → invertible W → sees P X W t → consistent X W g →
  loop_body P t g files = Ok (g', files', out, quit) → consistent X W g'.
Proof.
  intros HX HW Ht [Hg Hall] Hrun.
  destruct (command_of_key (key t)) eqn:Hcmd.
  - destruct (loop_body_capture _ _ _ _ _ _ _ _ _ _ HX HW Ht Hg Hcmd Hrun)
      as (p & Hp & Hstored & Hg').
    split; [done|]. rewrite Hstored. apply Forall_app. split; [done|by constructor].
  - unfold loop_body in Hrun. rewrite Hcmd in Hrun. outcome_inv.
    split; [by eapply deleteLastFrame_coherent|].
    erewrite stored_deleteLastFrame by done. by apply Forall_removelast.
  - unfold loop_body in Hrun. rewrite Hcmd in Hrun. by outcome_inv.
  - unfold loop_body in Hrun. rewrite Hcmd in Hrun. by outcome_inv.
Qed.

Lemma main_loop_consistent P X W (ticks : list (Tick F)) g g' files files'
    (out : list Msg) :
  invertible X → invertible W → Forall (sees P X W) ticks → consistent X W g →
  main_loop P ticks g files = Ok (g', files', out) → consistent X W g'.
Proof.
  intros HX HW Hticks. revert g files out.
  induction Hticks as [|t ticks Ht _ IH]; intros g files out Hg; simpl.
  - by intros [= <- _ _].
  - intros ([[[g1 f1] o1] quit] & Hbody & Hrest)%bind_Ok.
    pose proof (loop_body_consistent _ _ _ _ _ _ _ _ _ _ HX HW Ht Hg Hbody) as Hg1.
    destruct quit; [by apply mret_Ok in Hrest as [= <- _ _]|].
    apply bind_Ok in Hrest as ([[g2 f2] o2] & Hloop & [= <- <- _]). by eapply IH.
Qed.

(** In a scene every [s] key stores a pair: lookups answered from a tree
    of frames that holds the four frames neither time out nor throw. *)
Lemma main_loop_captures P X W (ticks : list (Tick F)) g g' files files' (out : list Msg) :
  invertible X → invertible W → Forall (sees P X W) ticks →
  Forall (λ t, command_of_key (key t) = CmdAdd ∨ command_of_key (key t) = CmdOther) ticks →
  coherent g → main_loop P ticks g files = Ok (g', files', out) →
  length (stored g') = length (stored g) + captures (key <$> ticks).
Proof.
  intros HX HW Hticks. revert g files out.
  induction Hticks as [|t ticks Ht _ IH]; intros g files out Hcmds Hg;
    rewrite ?fmap_cons; cbn [main_loop].
  { intros [= <- _ _]. unfold captures. simpl. lia. }
  apply Forall_cons in Hcmds as [Hcmd Hcmds].
  intros ([[[g1 f1] o1] quit] & Hbody & Hrest)%bind_Ok.
  rewrite (loop_body_no_quit P t g g1 files f1 o1 quit) in Hrest
    by (done || destruct Hcmd as [->| ->]; done).
  apply bind_Ok in Hrest as ([[g2 f2] o2] & Hloop & [= <- <- _]).
  unfold captures. rewrite filter_cons. destruct Hcmd as [Hcmd|Hcmd].
  - destruct (loop_body_capture _ _ _ _ _ _ _ _ _ _ HX HW Ht Hg Hcmd Hbody)
      as (p & _ & Hstored & Hg1).
    rewrite (IH _ _ _ Hcmds Hg1 Hloop), Hstored, length_app, decide_True by done.
    unfold captures. cbn [length]. lia.
  - unfold loop_body in Hbody. rewrite Hcmd in Hbody. injection Hbody as <- _ _ _.
    rewrite (IH _ _ _ Hcmds Hg Hloop), decide_False by (by rewrite Hcmd). done.
Qed.

Lemma tick_of_answers_at_no_throw P (keys : list Z) (ws : list (Instant F)) :
  Forall (λ t, throws (camLookup t) || throws (eeLookup t) = false)
    (zip_with tick_of keys (answers_at P <$> ws)).
Proof.
  revert keys. induction ws as [|w ws IH]; intros [|k keys]; simpl; try done.
  constructor; [|apply IH]. simpl. by rewrite !lookupTransform_throws.
Qed.

(** The motions of pairs measured in a scene satisfy the equation of the
    solver. *)
Lemma measured_hand_eye X W (pairs : list (PosePair F)) :
  Forall (measured X W) pairs →
  ∃ ABs : list (Affine3d F * Affine3d F),
    deriveAll pairs = motion_of <$> ABs ∧ Forall (λ ab, ab.1 * X ≡ X * ab.2) ABs.
Proof.
  intros Hall. destruct Hall as [|ref rest (He0 & Hc0 & H0') Hrest]; [by exists []|].
  exists (relative_transforms ref <$> rest). split; [apply deriveAll_motion_of|].
  apply Forall_fmap. eapply Forall_impl; [exact Hrest|].
  intros p (_ & _ & Hi). by apply (relative_hand_eye _ _ _ _ X W).
Qed.

(** ** What a session measures *)

(** C5. A session in the scene of a hand-eye calibration calibrates the
    mounting of the camera.  Let the camera frame sit at [X] in the frame of
    the end effector and the tag at [W] in the base frame while the
    operator types captures and stray keys, whatever the robot does in
    between; then [q] is typed, at an iteration where the result file
    opens.  With fewer than [INT_MAX] keys and a solver whose step counts
    add up within an [int], [main] returns 0, every [s] key has stored a
    pair, and the result file reads back as the answer of the solver on the
    rotation vectors and translations of one motion per capture after the
    first, each of transforms [A], [B] with [A X ≡ X B]: with the frame
    names in the order the source passes them to tf, the unknown of the
    equation the estimator is built on is the mounting [X].  The
    characters after [q] are unread and the terminal has its settings. *)
Theorem mounted_session_calibrates (server : gmap string ParamValue)
    (wpre wpost : list (Instant F)) (wq : Instant F) (s : Stdin) (pre post : list ascii)
    (q : ascii) (can_open : bool) (u1 u2 X W : Affine3d F) files :
  let P := read_params server in
  loadTransformsFromFile P = false → invertible X → invertible W →
  chars s = pre ++ q :: post → length wpre = length pre →
  Forall (λ ch, command_of_key (char ch) = CmdAdd ∨ command_of_key (char ch) = CmdOther) pre →
  command_of_key (char q) = CmdQuit →
  Forall (mounted P X W) (frames <$> wpre) → writable wq = true →
  (Z.of_nat (length pre) ≤ INT_MAX)%Z →
  (∀ input, (INT_MIN ≤ num_unsuccessful_steps (estimateHandEyeScrew input).2
                       + num_successful_steps (estimateHandEyeScrew input).2 ≤ INT_MAX)%Z) →
  ∃ (ABs : list (Affine3d F * Affine3d F)) files' out s',
    main server (answers_at P <$> wpre ++ wq :: wpost) s can_open u1 u2 files =
      Ok (0%Z, files', out, s') ∧
    length ABs = captures (char <$> pre) - 1 ∧
    Forall (λ ab, ab.1 * X ≡ X * ab.2) ABs ∧
    (let answer := estimateHandEyeScrew (screw_of_motions (motion_of <$> ABs)) in
     files' !! calibratedTransformFile P ≫= read_calibration =
       Some (calibration_result (Transform answer.1) answer.2)) ∧
    chars s' = post ∧ attributes s' = attributes s.
Proof.
  intros P Hint HX HW Hchars Hlen Hpre Hq Hws Hopen Hmax Hsteps.
  rewrite fmap_app, fmap_cons.
  set (ticks := zip_with tick_of (char <$> pre) (answers_at P <$> wpre)).
  assert (key <$> ticks = char <$> pre) as Hkeys
    by (apply key_zip_with_tick_of; rewrite !length_fmap; lia).
  assert (Forall (λ t, command_of_key (key t) = CmdAdd ∨ command_of_key (key t) = CmdOther)
            ticks) as Hcmds
    by (apply (Forall_fmap key (λ k, command_of_key k = CmdAdd ∨ command_of_key k = CmdOther));
        rewrite Hkeys; by apply Forall_fmap).
  pose proof (sees_zip_with P X W (char <$> pre) wpre Hws) as Hsees.
  destruct (main_loop_defined P ticks initial_globals files) as (g & f1 & o1 & Hrun & _).
  { apply Forall_and. split; [done|apply tick_of_answers_at_no_throw]. }
  { done. }
  { rewrite <- (length_fmap key ticks), Hkeys, length_fmap. simpl. lia. }
  destruct (main_loop_consistent _ _ _ _ _ _ _ _ _ HX HW Hsees (consistent_initial X W) Hrun)
    as [Hg Hall].
  pose proof (main_loop_captures _ _ _ _ _ _ _ _ _ HX HW Hsees Hcmds
    (proj1 (consistent_initial X W)) Hrun) as Hcount.
  destruct (measured_hand_eye X W _ Hall) as (ABs & HABs & HAXXB).
  assert (Forall (λ t, command_of_key (key t) ≠ CmdQuit) ticks) as Hnoq
    by (eapply Forall_impl; [exact Hcmds|]; by intros t [->| ->]).
  destruct (main_typed server (answers_at P <$> wpre) (answers_at P <$> wpost)
    (answers_at P wq) s pre post q can_open u1 u2 files Hint Hchars) as (rest & Hmain);
    [by rewrite length_fmap| |done|].
  { eapply Forall_impl; [exact Hpre|]. by intros ch [->| ->]. }
  destruct (main_loop_quit_calibrates P ticks rest (tick_of (char q) (answers_at P wq))
    g files f1 o1 Hnoq Hq Hopen Hrun (Hsteps _)) as (files' & out & Hloop & Hres).
  destruct (Hmain _ _ _ Hloop) as (out' & s' & Hm & Hpost & Hattr).
  exists ABs, files', out', s'. split_and!; [done| |done| |done..].
  - apply (f_equal length) in HABs. rewrite length_deriveAll, length_fmap in HABs.
    fold ticks in Hcount. rewrite Hkeys in Hcount. by rewrite <- HABs, Hcount.
  - simpl. by rewrite <- HABs.
Qed.

(** Deletions included: let the camera frame sit at [X] in the frame of
    the end effector and the tag at [W] in the base frame during every
    iteration, and let the session meet its first [q] at an iteration where
    the result file opens.  Whenever [main] returns, whatever keys were
    pressed before, the result file reads back as the answer of the solver
    on the rotation vectors and translations of transforms [A], [B] with
    [A X ≡ X B]. *)
Theorem mounted_session_result (server : gmap string ParamValue)
    (ws : list (Instant F)) (s s' : Stdin) (pre post : list (Tick F)) (tq : Tick F)
    (can_open : bool) (u1 u2 X W : Affine3d F) files files' (code : Z) (out : list Msg) :
  let P := read_params server in
  loadTransformsFromFile P = false →
  invertible X → invertible W → Forall (mounted P X W) (frames <$> ws) →
  ticks_of (start s) (answers_at P <$> ws) = pre ++ tq :: post →
  Forall (λ t, command_of_key (key t) ≠ CmdQuit) pre →
  command_of_key (key tq) = CmdQuit → Session.can_open tq = true →
  main server (answers_at P <$> ws) s can_open u1 u2 files = Ok (code, files', out, s') →
  ∃ ABs : list (Affine3d F * Affine3d F),
    Forall (λ ab, ab.1 * X ≡ X * ab.2) ABs ∧
    let answer := estimateHandEyeScrew (screw_of_motions (motion_of <$> ABs)) in
    files' !! calibratedTransformFile P ≫= read_calibration =
      Some (calibration_result (Transform answer.1) answer.2).
Proof.
  intros P Hint HX HW Hws Hticks Hno Hq Hopen. unfold main. fold P.
  rewrite Hint, interactive_loop_main_loop, Hticks.
  intros ([[[g f] o] c'] & ([[g' f'] o'] & Hrun & [= -> -> -> _])%fmap_Ok
          & [= _ <- _ _])%bind_Ok.
  destruct (main_loop_quit_inv _ _ _ _ _ _ _ _ Hno Hq Hrun) as (f1 & o1 & Hpre & Hw).
  pose proof (sees_zip_with P X W (keys_of (length (answers_at P <$> ws)) (start s)) ws Hws)
    as Hsees.
  fold (ticks_of (start s) (answers_at P <$> ws)) in Hsees. rewrite Hticks in Hsees.
  apply Forall_app in Hsees as [Hsees _].
  destruct (main_loop_consistent _ _ _ _ _ _ _ _ _ HX HW Hsees (consistent_initial X W) Hpre)
    as [_ Hall].
  destruct (measured_hand_eye X W _ Hall) as (ABs & HABs & HAXXB).
  exists ABs. split; [done|]. simpl in *. rewrite <- HABs.
  rewrite Hopen in Hw. by apply writeCalibration_files in Hw as [? _].
Qed.

End Scene.

(** ** The theorem on a concrete scene *)

(** The frames of a robot whose end effector is at [e] in the base frame,
    under the default names: the base frame at the root of the tree, the
    camera mounted by [sample_turn_x], the tag at [sample_shift]. *)
Definition sample_frames (e : Affine3d Q) : gmap string (Affine3d Q) :=
  {[ "/base_link" := identity; "/ee_fixed_link" := e;
     "/camera_2_link" := (e * sample_turn_x)%E; "/camera_2/ar_marker_0" := sample_shift ]}.

(** Four iterations with the end effector at four places. *)
Definition sample_instants : list (Instant Q) :=
  (λ e, {| frames := sample_frames e; writable := true |})
    <$> [sample_turn_z; sample_turn_x; sample_shift; sample_turn_z].

Lemma sample_frames_mounted (e : Affine3d Q) :
  invertible e → mounted (read_params ∅) sample_turn_x sample_shift (sample_frames e).
Proof.
  intros He. exists identity, e, (e * sample_turn_x)%E, sample_shift.
  split_and!; [done..|apply invertible_identity|done|done|by rewrite compose_identity_l].
Qed.

Lemma mounted_session_calibrates_witness :
  ∃ (ABs : list (Affine3d Q * Affine3d Q)) files' out s',
    main ∅ (answers_at (read_params ∅) <$>
              take 3 sample_instants ++ {| frames := ∅; writable := true |} :: [])
      sample_typed false identity identity ∅ = Ok (0%Z, files', out, s') ∧
    length ABs = captures (char <$> ["s"; "x"; "S"]%char) - 1 ∧
    Forall (λ ab, (ab.1 * sample_turn_x)%E ≡ (sample_turn_x * ab.2)%E) ABs ∧
    (let answer := estimateHandEyeScrew (screw_of_motions (motion_of <$> ABs)) in
     files' !! calibratedTransformFile (read_params ∅) ≫= read_calibration =
       Some (calibration_result (Transform answer.1) answer.2)) ∧
    chars s' = ["d"]%char ∧ attributes s' = attributes sample_typed.
Proof.
  apply (mounted_session_calibrates ∅ (take 3 sample_instants) []
           {| frames := ∅; writable := true |} sample_typed ["s"; "x"; "S"]%char
           ["d"]%char "q"%char false identity identity sample_turn_x sample_shift ∅);
    [reflexivity|apply sample_turn_x_invertible|apply sample_shift_invertible|reflexivity|
     reflexivity|repeat (apply Forall_cons; split; [by (left + right)|]); constructor|
     reflexivity|
     repeat constructor; apply sample_frames_mounted;
       auto using sample_turn_z_invertible, sample_turn_x_invertible, sample_shift_invertible|
     reflexivity|by vm_compute|intros; by vm_compute].
Defined.

(** The same session, run: *)
Definition sample_scene_main
    : Z * gmap string (gmap string (FileNode Q)) * list Msg * Stdin :=
  returned (1%Z, ∅, [], sample_typed)
    (main ∅ (answers_at (read_params ∅) <$> sample_instants) sample_typed false
       identity identity ∅).

Lemma sample_scene_main_run :
  main ∅ (answers_at (read_params ∅) <$> sample_instants) sample_typed false
    identity identity ∅ =
  Ok (sample_scene_main.1.1.1, sample_scene_main.1.1.2, sample_scene_main.1.2,
      sample_scene_main.2).
Proof. rewrite <- !surjective_pairing. apply returned_Ok. vm_compute. reflexivity. Qed.

Lemma mounted_session_result_witness :
  ∃ ABs : list (Affine3d Q * Affine3d Q),
    Forall (λ ab, (ab.1 * sample_turn_x)%E ≡ (sample_turn_x * ab.2)%E) ABs ∧
    let answer := estimateHandEyeScrew (screw_of_motions (motion_of <$> ABs)) in
    sample_scene_main.1.1.2 !! calibratedTransformFile (read_params ∅) ≫= read_calibration =
      Some (calibration_result (Transform answer.1) answer.2).
Proof.
  apply (mounted_session_result ∅ sample_instants sample_typed sample_scene_main.2
           (take 3 (ticks_of (start sample_typed)
                      (answers_at (read_params ∅) <$> sample_instants)))
           [] (tick_of 113 (answers_at (read_params ∅)
                              {| frames := sample_frames sample_turn_z; writable := true |}))
           false identity identity sample_turn_x sample_shift ∅ sample_scene_main.1.1.2
           sample_scene_main.1.1.1 sample_scene_main.1.2);
    [reflexivity|apply sample_turn_x_invertible|apply sample_shift_invertible|
     repeat constructor; apply sample_frames_mounted;
       auto using sample_turn_z_invertible, sample_turn_x_invertible, sample_shift_invertible|
     by vm_compute|repeat constructor; by vm_compute|reflexivity|reflexivity|
     exact sample_scene_main_run].
Defined.

(** Two of the three keys before [q] are captures. *)
Example sample_captures_count : captures (char <$> ["s"; "x"; "S"]%char) = 2.
Proof. reflexivity. Qed.

(** The camera is looked up in the frame of the tag, the end effector in
    the base frame: with the end effector at the origin of the base frame
    the first lookup yields the inverse of [sample_shift] times the
    mounting, the second the identity. *)
Example sample_lookups :
  cam (answers_at (read_params ∅) {| frames := sample_frames identity; writable := true |}) =
    Found (stamped (inverse sample_shift * (identity * sample_turn_x))%E) ∧
  ee (answers_at (read_params ∅) {| frames := sample_frames identity; writable := true |}) =
    Found (stamped (inverse identity * identity)%E).
Proof. done. Qed.
